(* ===== verification/_CoqProject ===== *)
-Q . S2P
Prelude.v
Errors.v
CheckedArith.v
StdAlgo.v
Digest.v
Canonical.v
Ids.v
TimeModel.v
Limits.v
Source.v
Topology.v
Observed.v
Expected.v
Freshness.v
Divergence.v
Compare.v
CompareProps.v
Finding.v
History.v
Codec.v
Transport.v
Persistence.v
StoreFormat.v
StoreFiles.v
StoreRuns.v
StoreState.v
PersistenceProps.v
Worker.v
Metrics.v
Random.v
Utf8.v
Json.v
JsonGrammar.v
JsonProps.v
RuntimeState.v
Runtime.v
RuntimeProps.v
RuntimeDemo.v
RuntimePolicy.v
RuntimeRestart.v
DocumentRead.v
DocumentWrite.v
DocumentForms.v
DocumentProps.v
DocumentLines.v
DocumentReports.v
Synthetic.v
SyntheticProps.v
Version.v
ToolOptions.v
Sockets.v
Server.v
Tool.v
NodeTool.v
ToolProps.v
ToolCompare.v
NodeProps.v
ToolDemo.v
