(* ===== verification/Prelude.v ===== *)
(** * Path Observatory: a verified model

    Path Observatory compares the forwarding paths a network was meant to use
    (route generations, pinned to a topology generation) with the paths that
    sources observed (evidence records), and reports a classified, reproducible
    verdict.  Its documented invariants are what this development proves, each under
    the conditions the code needs for it, which its theorem states: fenced or stale
    evidence never validates anything, absence of evidence is not compliance, the
    verdict on an explicit subject with a fixed reference does not depend on the
    order of submission, identities are functions of content, and every container
    is bounded.  Where a documented invariant fails outside these conditions, a
    lemma or an example shows the failure on a concrete input.

    ** Conventions

    A machine integer is a [Z] whose wrap-around is written out ([wrap_u],
    [wrap_i64]); a [std::string] is a [string]; a byte buffer is a [list Z]; a
    fallible operation returns [Result], the sum of [include/pathobs/error.hpp],
    and [check? r in k] is the early return of [PATHOBS_TRY]; [fail? c with e in k]
    is a guard.  A class with state is a Record and its operations are state
    transformers; the mutexes of the code make every operation atomic, so a
    history of the program is a sequence of operations.  [std::sort],
    [std::unique], [std::lower_bound] and [std::map] are the functions of
    StdAlgo.v.

    ** Files

    - Errors.v: [error.hpp], [error.cpp].  CheckedArith.v: [checked.hpp].
    - StdAlgo.v: the algorithms and containers of the C++ standard library.
    - Digest.v: [digest.hpp], [digest.cpp]: SHA-256, CRC-32C, digest identities.
    - Canonical.v: [canonical.hpp], [canonical.cpp]: the byte encoding under every
      identity; [Wire], [PrefixFree] and [Exact] are the interfaces the other
      components use it through.
    - Ids.v: [strong_id.hpp].  TimeModel.v: [time.hpp], [time.cpp].
      Limits.v: [limits.hpp], [limits.cpp].
    - Source.v: [source.hpp], [source.cpp]: descriptors, registry, sequence ledger.
    - Topology.v: [topology.hpp], [topology.cpp]: records, [finalize], link index.
    - Observed.v: [observed.hpp], [observed.cpp]: evidence records and identity.
    - Expected.v: [expected.hpp], [expected.cpp]: plans, [finalize], trace comparison.
    - Freshness.v: [freshness.hpp], [freshness.cpp].
      Divergence.v: [divergence.hpp], [divergence.cpp].
    - Compare.v: [compare.hpp], [compare.cpp]: [ComparisonEngine::compare], one
      definition per block of the function, composed by [compare];
      CompareProps.v: its theorems.
    - Finding.v: [finding.hpp], [finding.cpp]: identity, registry, eviction, lifecycle.
    - History.v: [history.hpp], [history.cpp]: append with both evictions, query, prune.
    - Codec.v: [codec.hpp], [codec.cpp]: the wire forms of every record.
    - Transport.v: the frames and channels of [transport.hpp], [transport.cpp] and
      the transfer loops of [socket.cpp], over a socket that moves any positive
      number of bytes per call.  Sockets.v: the other operations of [socket.hpp],
      [socket.cpp] over the answers of the system, [errno] and the open descriptors
      ([Net]); Server.v: [TransportServer] and [connect] over them.
    - Persistence.v: [persistence.hpp], [persistence.cpp], over files and stdio calls
      of which any can fail, a write after any number of bytes; StoreFormat.v,
      StoreFiles.v, StoreRuns.v, StoreState.v: the format, the calls on a file, the
      runs of each operation, and the state of an open store ([store_holds]);
      PersistenceProps.v: its theorems.
    - Worker.v: [worker.hpp], [worker.cpp]: the pool as a transition system, with its
      condition variable: workers that sleep, notifications that are owed and
      spurious wakeups.
    - Metrics.v: [metrics.hpp], [metrics.cpp].  Random.v: [random.hpp], [random.cpp].
    - Utf8.v, Json.v: [json.hpp], [json.cpp]: UTF-8, values, writer, reader;
      JsonGrammar.v: the grammar of documents and the exactness of each scan;
      JsonProps.v: the reader against the grammar, and the round trip.
    - RuntimeState.v, Runtime.v: [runtime.hpp], [runtime.cpp].  A [Runtime] holds the
      members of [ObservatoryRuntime], the files and the clock readings; each member
      function is a step of the [Run] monad and calls the components above the way
      the code does.  RuntimeProps.v: what each step touches, the steps of a runtime
      ([runtime_step], [reachable]) and the parts of the invariant; RuntimeDemo.v: a
      run on concrete input; RuntimePolicy.v: the theorems over whole lives of a
      runtime; RuntimeRestart.v: evidence across a restart.
    - DocumentRead.v, DocumentWrite.v: [documents.hpp], [documents.cpp]: the JSON
      forms of the domain types; DocumentForms.v, DocumentProps.v, DocumentLines.v,
      DocumentReports.v: objects member by member, the round trips, the journal,
      the reports.
    - Synthetic.v: [synthetic.hpp], [synthetic.cpp]: the laboratory fabric;
      SyntheticProps.v: its theorems.  Version.v: [version.hpp], [version.cpp].
    - ToolOptions.v, Tool.v: [src/tools/pathobs_main.cpp], from the arguments to the
      exit code.  A [Process] is the files, the sockets and what was printed; a
      command is a program of the [Tool] monad that calls the runtime, the store,
      the server and the documents the way the code does.  NodeTool.v:
      [src/tools/pathobs_node_main.cpp].  ToolProps.v, ToolCompare.v, NodeProps.v:
      their theorems; ToolDemo.v: runs on concrete command lines.

    ** Theorems

    CompareProps.v: what each outcome means ([match_is_compliance],
    [divergence_is_contradiction], [no_evidence_no_conclusion],
    [multipath_member_not_divergent]), what is fenced ([evidence_fencing],
    [inadmissible_evidence_inert]), order independence
    under its conditions ([submission_order_irrelevant]), totality ([compare_total]) and the
    refinement of an abstract verdict by the chain of gates
    ([gates_refine_verdict]).  Observed.v, Expected.v and Topology.v: exactly which
    inputs validation accepts, what [finalize] establishes and that lookups and
    link correlation are exact on its result.  Freshness.v: when evidence is
    fresh, and that it only ages.  Source.v: registration and the accounting of
    sequences.  Canonical.v, Digest.v, Ids.v, TimeModel.v: round trips,
    refinement of the streaming hash to its specification, equivalence of the
    table driven checksum with the bitwise one.
    Finding.v and History.v: the
    registry and the history in every sequence of their operations.  Codec.v: round
    trip and integrity.  Transport.v: frames arrive unchanged and in order.
    PersistenceProps.v: the store refines an append only log under crashes, and
    recovery keeps the longest valid prefix.  Worker.v: every interleaving of
    clients, workers and wakeups: each task has one fate ([pool_task_fates]), no
    wakeup is lost and the pool drains ([pool_shutdown_drains]).  JsonProps.v and Utf8.v: the reader is the grammar, and
    writing reads back.  Random.v: bounded draws have no bias.  RuntimePolicy.v: the
    invariant of every reachable state ([runtime_state_well_formed]), what a match
    of the runtime rests on ([runtime_match_grounded], the composition of the
    invariant with the comparison engine), fencing of publications
    ([expected_state_advances]), the restart policy ([verdict_after_restart]), and
    ingestion ([ingest_evidence_spec], [evidence_at_most_once]).  RuntimeRestart.v:
    what was accepted and persisted comes back
    ([evidence_survives_restart], the composition of the runtime, the codec and the
    store), and the behaviours at the edges that the code does not intend.
    DocumentProps.v, DocumentLines.v and DocumentReports.v: what is read is valid,
    documents and journals read back, reports embed what they report.
    SyntheticProps.v: a fabric is what its options ask for ([lab_fabric_sound]).
    Sockets.v: no descriptor is lost.  ToolCompare.v: from the command line to the
    verdict, no defect is reported as compliance ([compare_never_hides_defect], the
    composition of the fabric, the runtime and the comparison engine).  ToolProps.v:
    which commands write, what a service may claim, and that its conversations end.
    NodeProps.v: the node and the service as two processes
    ([node_and_service_agree], the composition of the codec, the transport and the
    runtime).

    ** Bounds and fuel

    Recursion is structural except for the binary search (fuel: the length of
    the range, which halves), the hash buffer (fuel: the number of bytes) and
    decimal printing (fuel: the bit length); each has a lemma that the fuel is
    enough.  The loops over a socket take the number of bytes still to
    move, those over a file one more than its length, the eviction loops the number
    of records, the UTF-8 loop the length of the text, the string loop of the JSON
    reader one more than the length, and its value loop twice the length and one
    ([parse_returns] proves that it never runs out).  The lines of a journal take the
    length of its text, and the loop over the frames of a connection one more than
    the bytes of its stream ([service_conversation_ends]).  The rejection loop of
    [next_below] has no bound in the code either: it takes the fuel as an argument
    and its theorems hold for every fuel.

    ** Not modelled

    The tests, examples and benchmarks are clients of the library.
    The conversions of JSON numbers from and to floating point and the scaling of
    [next_unit] are not modelled.  Of the sockets only the POSIX branch is, without
    blocking and time: a channel has the bytes its peer will send, and a select
    answers what the script of the system says.  [read_file] and [Session] of
    [pathobs_main.cpp] are never used, and [export.hpp] holds visibility macros.

    Assumptions: a socket call transfers some positive number of bytes or fails, and
    a signal for a closed peer does not end the process (in the code a silent peer
    can block a read for ever and [SIGPIPE] is not ignored, so the theorems that a
    conversation or a service ends are about the runs in which neither happens); a stdio write may stop after
    any byte, and what it wrote stays; the locked regions of a mutex are atomic, and a
    thread that is runnable is eventually run. *)

From stdpp Require Export base list numbers strings option.
From Stdlib Require Export ZArith Lia ZifyNat.

Declare Scope pathobs_scope.
Delimit Scope pathobs_scope with po.
#[global] Open Scope Z_scope.

(** Lemmas registered here are the ones that close the routine side goals of
    the development: ranges of wrapped integers, lengths of encodings and
    well-formedness of bytes. *)
Create HintDb pathobs discriminated.
Create Rewrite HintDb pathobs.
#[global] Hint Constants Transparent : pathobs.
#[global] Hint Variables Transparent : pathobs.

(** ** Tactics *)

(** Linear arithmetic with division and modulo. *)
Ltac div_lia := zify; Z.to_euclidean_division_equations; lia.

(** Split boolean conjunctions and disjunctions, and turn comparison tests into
    propositions, everywhere in the context. *)
Ltac bool_prop :=
  repeat match goal with
  | H : _ && _ = true |- _ => apply andb_true_iff in H; destruct H
  | H : _ || _ = false |- _ => apply orb_false_iff in H; destruct H
  | H : negb _ = true |- _ => apply negb_true_iff in H
  | H : negb _ = false |- _ => apply negb_false_iff in H
  | H : bool_decide _ = true |- _ => apply bool_decide_eq_true in H
  | H : bool_decide _ = false |- _ => apply bool_decide_eq_false in H
  | H : (_ <? _) = true |- _ => apply Z.ltb_lt in H
  | H : (_ <? _) = false |- _ => apply Z.ltb_ge in H
  | H : (_ <=? _) = true |- _ => apply Z.leb_le in H
  | H : (_ <=? _) = false |- _ => apply Z.leb_gt in H
  | H : (_ =? _) = true |- _ => apply Z.eqb_eq in H
  | H : (_ =? _) = false |- _ => apply Z.eqb_neq in H
  | H : (_ <? _)%nat = true |- _ => apply Nat.ltb_lt in H
  | H : (_ <? _)%nat = false |- _ => apply Nat.ltb_ge in H
  end.

(** Case analysis on the scrutinee of the first [match] or [if] of the goal. *)
Ltac case_goal :=
  match goal with
  | |- context [match ?x with _ => _ end] => destruct x eqn:?
  end.

(** ** Lists *)

Lemma Forall_elem {A} (P : A -> Prop) (l : list A) : Forall P l <-> forall x, x ∈ l -> P x.
Proof. apply list.Forall_forall. Qed.

Lemma existsb_elem {A} (f : A -> bool) (l : list A) :
  existsb f l = true <-> exists x, x ∈ l /\ f x = true.
Proof.
  rewrite existsb_exists. split; intros (x & Hx & E); exists x; split; try done;
    by apply list_elem_of_In.
Qed.

Lemma forallb_elem {A} (f : A -> bool) (l : list A) :
  forallb f l = true <-> forall x, x ∈ l -> f x = true.
Proof.
  rewrite forallb_forall. split; intros H x Hx; apply H; by apply list_elem_of_In.
Qed.

(** ** Machine integers

    A w bit unsigned integer is a [Z] in [0, 2^w); arithmetic wraps by masking
    with [wrap_u].  A 64 bit signed integer wraps by [wrap_i64]: signed overflow
    is undefined behaviour in C++, and the two's complement value is what the
    supported toolchains produce, so every theorem that depends on a signed
    operation either stays in range or says what happens outside of it. *)

Definition wrap_u (w x : Z) : Z := Z.land x (Z.ones w).

Definition u_ok (w x : Z) : Prop := 0 <= x < 2 ^ w.

Definition int64_min : Z := - 2 ^ 63.
Definition int64_max : Z := 2 ^ 63 - 1.

Definition i64_ok (x : Z) : Prop := int64_min <= x <= int64_max.

Definition wrap_i64 (x : Z) : Z := wrap_u 64 (x + 2 ^ 63) - 2 ^ 63.

#[global] Instance u_ok_dec w x : Decision (u_ok w x).
Proof. unfold u_ok. apply _. Defined.

#[global] Instance i64_ok_dec x : Decision (i64_ok x).
Proof. unfold i64_ok. apply _. Defined.

Lemma wrap_u_mod w x : 0 <= w -> wrap_u w x = x mod 2 ^ w.
Proof. intros. unfold wrap_u. by rewrite Z.land_ones. Qed.

Lemma wrap_u_range w x : 0 <= w -> u_ok w (wrap_u w x).
Proof. intros. rewrite wrap_u_mod by done. apply Z.mod_pos_bound. by apply Z.pow_pos_nonneg. Qed.

Lemma wrap_u_small w x : 0 <= w -> u_ok w x -> wrap_u w x = x.
Proof. intros ? ?. rewrite wrap_u_mod by done. by apply Z.mod_small. Qed.

Lemma wrap_u_idem w x : 0 <= w -> wrap_u w (wrap_u w x) = wrap_u w x.
Proof. intros. apply wrap_u_small; [done | by apply wrap_u_range]. Qed.

Lemma wrap_i64_range x : i64_ok (wrap_i64 x).
Proof.
  unfold wrap_i64, i64_ok, int64_min, int64_max.
  pose proof (wrap_u_range 64 (x + 2 ^ 63) ltac:(lia)) as H. unfold u_ok in H. lia.
Qed.

Lemma wrap_i64_small x : i64_ok x -> wrap_i64 x = x.
Proof.
  unfold i64_ok, int64_min, int64_max. intros. unfold wrap_i64.
  rewrite wrap_u_small; [lia | lia | unfold u_ok; lia].
Qed.

Lemma u_ok_testbit w x : 0 <= w -> u_ok w x <-> 0 <= x /\ forall n, w <= n -> Z.testbit x n = false.
Proof.
  intros Hw. unfold u_ok. split.
  - intros Hx. split; [lia |]. intros n Hn.
    rewrite <- (Z.mod_small x (2 ^ w)) by lia. by apply Z.mod_pow2_bits_high.
  - intros [Hx Hn]. split; [done |].
    assert (x mod 2 ^ w = x) as <-.
    { apply Z.bits_inj'. intros n Hn'. destruct (decide (n < w)).
      - by apply Z.mod_pow2_bits_low.
      - rewrite Z.mod_pow2_bits_high by lia. symmetry. apply Hn. lia. }
    apply Z.mod_pos_bound. by apply Z.pow_pos_nonneg.
Qed.

Lemma u_ok_lxor w a b : 0 <= w -> u_ok w a -> u_ok w b -> u_ok w (Z.lxor a b).
Proof.
  intros Hw. rewrite !u_ok_testbit by done. intros [Ha Ha'] [Hb Hb'].
  split; [by apply Z.lxor_nonneg |]. intros n Hn. by rewrite Z.lxor_spec, Ha', Hb'.
Qed.

#[global] Hint Resolve wrap_u_range wrap_i64_range : pathobs.

(** ** Bytes and little endian integers *)

Definition byte_ok (b : Z) : Prop := 0 <= b < 256.
Abbreviation bytes_ok := (Forall byte_ok).

#[global] Instance byte_ok_dec b : Decision (byte_ok b).
Proof. unfold byte_ok. apply _. Defined.

(** The bytes a loop [for shift in 0, 8, ..] of [(v >> shift) & 0xff] emits. *)
Fixpoint le_bytes (n : nat) (v : Z) : list Z :=
  match n with
  | O => []
  | S k => Z.land v 255 :: le_bytes k (Z.shiftr v 8)
  end.

(** The value a loop of [value |= byte << (i * 8)] accumulates. *)
Fixpoint le_value (bs : list Z) : Z :=
  match bs with
  | [] => 0
  | b :: rest => Z.lor b (Z.shiftl (le_value rest) 8)
  end.

Lemma land_255 v : Z.land v 255 = v mod 256.
Proof. apply (Z.land_ones v 8). lia. Qed.

Lemma shiftr_8 v : Z.shiftr v 8 = v / 256.
Proof. by rewrite Z.shiftr_div_pow2 by lia. Qed.

Lemma land_low_shiftl b k x : 0 <= k -> 0 <= b < 2 ^ k -> Z.land b (Z.shiftl x k) = 0.
Proof.
  intros Hk Hb. apply Z.bits_inj'. intros n Hn. rewrite Z.land_spec, Z.bits_0.
  destruct (decide (n < k)).
  - by rewrite Z.shiftl_spec_low, andb_false_r by lia.
  - assert (b mod 2 ^ k = b) as <- by (apply Z.mod_small; lia).
    by rewrite Z.mod_pow2_bits_high by lia.
Qed.

Lemma lor_shiftl_add b k x :
  0 <= k -> 0 <= b < 2 ^ k -> Z.lor b (Z.shiftl x k) = b + x * 2 ^ k.
Proof.
  intros. rewrite <- Z.add_nocarry_lor by (by apply land_low_shiftl).
  by rewrite Z.shiftl_mul_pow2.
Qed.

Lemma length_le_bytes n v : length (le_bytes n v) = n.
Proof. revert v. induction n; intros; simpl; auto. Qed.

Lemma le_bytes_ok n v : bytes_ok (le_bytes n v).
Proof.
  revert v. induction n; intros v; simpl; constructor; [| done].
  rewrite land_255. unfold byte_ok. div_lia.
Qed.

Lemma le_value_cons b bs : byte_ok b -> le_value (b :: bs) = b + 256 * le_value bs.
Proof. intros. simpl. rewrite (lor_shiftl_add b 8) by (unfold byte_ok in *; lia). lia. Qed.

(** Reading back what the writer wrote: the value modulo its width. *)
Lemma le_value_le_bytes n v : le_value (le_bytes n v) = v mod 2 ^ (8 * Z.of_nat n).
Proof.
  revert v. induction n as [|n IH]; intros v; [by rewrite Z.mod_1_r |].
  cbn [le_bytes]. rewrite le_value_cons by (rewrite land_255; unfold byte_ok; div_lia).
  rewrite IH, land_255, shiftr_8.
  replace (8 * Z.of_nat (S n)) with (8 + 8 * Z.of_nat n) by lia.
  rewrite Z.pow_add_r by lia. change (2 ^ 8) with 256.
  rewrite Z.rem_mul_r; lia.
Qed.

Lemma le_value_le_bytes_small n v :
  0 <= v < 2 ^ (8 * Z.of_nat n) -> le_value (le_bytes n v) = v.
Proof. intros. rewrite le_value_le_bytes. by apply Z.mod_small. Qed.

Lemma le_value_range bs : bytes_ok bs -> 0 <= le_value bs < 2 ^ (8 * Z.of_nat (length bs)).
Proof.
  induction 1 as [|b bs Hb _ IH]; [simpl; lia |].
  rewrite le_value_cons by done. cbn [length].
  replace (8 * Z.of_nat (S (length bs))) with (8 + 8 * Z.of_nat (length bs)) by lia.
  rewrite Z.pow_add_r by lia. unfold byte_ok in Hb. lia.
Qed.

(** Writing back what was read: the original bytes. *)
Lemma le_bytes_le_value bs : bytes_ok bs -> le_bytes (length bs) (le_value bs) = bs.
Proof.
  induction 1 as [|b bs Hb Hbs IH]; [done |].
  rewrite le_value_cons by done. cbn [length le_bytes].
  unfold byte_ok in Hb. rewrite land_255, shiftr_8. f_equal; [div_lia |].
  replace ((b + 256 * le_value bs) / 256) with (le_value bs) by div_lia. done.
Qed.

Lemma le_bytes_inj n v w :
  0 <= v < 2 ^ (8 * Z.of_nat n) -> 0 <= w < 2 ^ (8 * Z.of_nat n) ->
  le_bytes n v = le_bytes n w -> v = w.
Proof.
  intros Hv Hw E. rewrite <- (le_value_le_bytes_small n v), <- (le_value_le_bytes_small n w) by done.
  by rewrite E.
Qed.

(** The little endian integer of [size] bytes at an offset. *)
Definition field (offset size : nat) (bytes : list Z) : Z := le_value (take size (drop offset bytes)).

Lemma field_split pre n header :
  bytes_ok header -> (pre + n <= length header)%nat ->
  drop pre header = le_bytes n (field pre n header) ++ drop (pre + n) header.
Proof.
  intros Hb Hl. unfold field. rewrite <- (take_drop n (drop pre header)) at 1.
  rewrite drop_drop. f_equal.
  assert (n = length (take n (drop pre header))) as Hn by (rewrite length_take, length_drop; lia).
  rewrite Hn at 2. symmetry. apply le_bytes_le_value. apply Forall_take, Forall_drop, Hb.
Qed.

Lemma field_u32 offset header : bytes_ok header -> u_ok 32 (field offset 4 header).
Proof.
  intros Hb. unfold field, u_ok.
  pose proof (le_value_range (take 4 (drop offset header))
    ltac:(apply Forall_take, Forall_drop, Hb)) as [? Hlt].
  rewrite length_take in Hlt. split; [done |].
  eapply Z.lt_le_trans; [exact Hlt |]. apply Z.pow_le_mono_r; lia.
Qed.

#[global] Hint Resolve le_bytes_ok : pathobs.
#[global] Hint Rewrite length_le_bytes : pathobs.

(** ** Text

    A [std::string] is a [string]; its bytes are the character codes. *)

Definition byte_of_ascii (c : Ascii.ascii) : Z := Z.of_N (Ascii.N_of_ascii c).
Definition ascii_of_byte (b : Z) : Ascii.ascii := Ascii.ascii_of_N (Z.to_N b).

Fixpoint string_bytes (s : string) : list Z :=
  match s with
  | EmptyString => []
  | String c rest => byte_of_ascii c :: string_bytes rest
  end.

Fixpoint string_of_bytes (bs : list Z) : string :=
  match bs with
  | [] => EmptyString
  | b :: rest => String (ascii_of_byte b) (string_of_bytes rest)
  end.

Lemma byte_of_ascii_ok c : byte_ok (byte_of_ascii c).
Proof.
  unfold byte_ok, byte_of_ascii. pose proof (Ascii.N_ascii_bounded c). lia.
Qed.

Lemma ascii_of_byte_of_ascii c : ascii_of_byte (byte_of_ascii c) = c.
Proof. unfold ascii_of_byte, byte_of_ascii. by rewrite N2Z.id, Ascii.ascii_N_embedding. Qed.

Lemma string_of_string_bytes s : string_of_bytes (string_bytes s) = s.
Proof. induction s as [|c s IH]; [done |]. simpl. by rewrite ascii_of_byte_of_ascii, IH. Qed.

Lemma length_string_bytes s : length (string_bytes s) = String.length s.
Proof. induction s; simpl; auto. Qed.

Lemma string_bytes_ok s : bytes_ok (string_bytes s).
Proof. induction s; simpl; constructor; auto using byte_of_ascii_ok. Qed.

Lemma string_bytes_inj s t : string_bytes s = string_bytes t -> s = t.
Proof. intros E. by rewrite <- (string_of_string_bytes s), E, string_of_string_bytes. Qed.

#[global] Hint Resolve string_bytes_ok byte_of_ascii_ok : pathobs.

(** [s[i]], as the parsers of the code test it. *)
Definition char_at (s : string) (i : nat) (c : Ascii.ascii) : bool :=
  match String.get i s with
  | Some d => Ascii.eqb d c
  | None => false
  end.

(** ** Decimal text

    [std::to_string] and [std::to_chars] on an unsigned value. *)

Definition digit_char (d : Z) : Ascii.ascii := ascii_of_byte (48 + d).

Fixpoint dec_go (fuel : nat) (n : Z) (acc : string) : string :=
  match fuel with
  | O => acc
  | S fuel =>
      let acc := String (digit_char (n mod 10)) acc in
      if n <? 10 then acc else dec_go fuel (n / 10) acc
  end.

(** A number below 2^k has at most k decimal digits, so its bit length is
    enough fuel. *)
Definition to_string (n : Z) : string := dec_go (S (Z.to_nat (Z.log2 n))) n "".

(** The value of a run of decimal digits, continuing from [acc]; [None] when a
    character is not a digit. *)
Definition digit_of (c : Ascii.ascii) : option Z :=
  let v := byte_of_ascii c - 48 in
  if (0 <=? v) && (v <=? 9) then Some v else None.

Fixpoint dec_value (acc : Z) (s : string) : option Z :=
  match s with
  | EmptyString => Some acc
  | String c rest =>
      match digit_of c with
      | Some d => dec_value (acc * 10 + d) rest
      | None => None
      end
  end.

Lemma digit_of_digit_char d : 0 <= d < 10 -> digit_of (digit_char d) = Some d.
Proof.
  intros Hd. assert (In d (map Z.of_nat (seq 0 10))) as Hin.
  { apply in_map_iff. exists (Z.to_nat d). rewrite in_seq. lia. }
  simpl in Hin. repeat (destruct Hin as [<- | Hin]; [reflexivity |]). done.
Qed.

Lemma dec_go_value fuel n acc s :
  0 <= n < 2 ^ Z.of_nat fuel ->
  exists p, 0 <= p /\ dec_value acc (dec_go fuel n s) = dec_value (acc * 10 ^ p + n) s.
Proof.
  revert n s. induction fuel as [|fuel IH]; intros n s Hn; cbn [dec_go].
  - exists 0. split; [lia |]. f_equal. simpl in Hn. lia.
  - destruct (n <? 10) eqn:E; [apply Z.ltb_lt in E | apply Z.ltb_ge in E].
    + exists 1. split; [lia |]. cbn [dec_value]. rewrite Z.mod_small by lia.
      by rewrite digit_of_digit_char, Z.pow_1_r by lia.
    + destruct (IH (n / 10) (String (digit_char (n mod 10)) s)) as (p & Hp & Hv).
      { rewrite Nat2Z.inj_succ, Z.pow_succ_r in Hn by lia. split; div_lia. }
      exists (p + 1). split; [lia |]. rewrite Hv. cbn [dec_value].
      rewrite digit_of_digit_char by div_lia. f_equal.
      rewrite Z.pow_add_r by lia. pose proof (Z.div_mod n 10 ltac:(lia)). lia.
Qed.

(** Reading back a printed number. *)
Lemma dec_value_to_string n : 0 <= n -> dec_value 0 (to_string n) = Some n.
Proof.
  intros Hn. unfold to_string.
  destruct (dec_go_value (S (Z.to_nat (Z.log2 n))) n 0 "") as (p & Hp & ->).
  - split; [done |]. rewrite Nat2Z.inj_succ, Z2Nat.id by apply Z.log2_nonneg.
    destruct (decide (n = 0)) as [-> | Hne]; [done |]. apply Z.log2_spec. lia.
  - done.
Qed.

Lemma dec_go_nonempty fuel n s : s <> ""%string -> dec_go fuel n s <> ""%string.
Proof.
  revert n s. induction fuel as [|fuel IH]; intros n s Hs; cbn [dec_go]; [done |].
  destruct (n <? 10); [done | by apply IH].
Qed.

Lemma to_string_nonempty n : to_string n <> ""%string.
Proof.
  unfold to_string. cbn [dec_go]. destruct (n <? 10); [done | by apply dec_go_nonempty].
Qed.
