(* ===== verification/Errors.v ===== *)
(** * Error and result vocabulary

    Models [include/pathobs/error.hpp] and [src/error.cpp]: the error codes with
    their stable spelling, the [Error] value, and [Result], through which every
    fallible operation of the code reports failure.  [PATHOBS_TRY] is the bind
    of the result monad. *)

From S2P Require Import Prelude.

(** [enum class ErrorCode] *)
Inductive ErrorCode : Set :=
  | None_
  | InvalidArgument | OutOfRange | CapacityExceeded | NotSupported | Internal
  | InvalidIdentity | UnknownIdentity | DuplicateIdentity
  | InvalidFormat | TruncatedInput | IntegrityFailure | UnsupportedVersion
  | UnknownGeneration | FencedEvidence | InsufficientEvidence
  | IoFailure | CorruptStore | ReadOnlyStore
  | TransportFailure | ProtocolViolation | ConnectionClosed
  | InvalidState | Cancelled | ShuttingDown.

#[global] Instance ErrorCode_eq_dec : EqDecision ErrorCode.
Proof. solve_decision. Defined.

Definition error_code_to_string (code : ErrorCode) : string :=
  match code with
  | None_ => "none"
  | InvalidArgument => "invalid_argument"
  | OutOfRange => "out_of_range"
  | CapacityExceeded => "capacity_exceeded"
  | NotSupported => "not_supported"
  | Internal => "internal"
  | InvalidIdentity => "invalid_identity"
  | UnknownIdentity => "unknown_identity"
  | DuplicateIdentity => "duplicate_identity"
  | InvalidFormat => "invalid_format"
  | TruncatedInput => "truncated_input"
  | IntegrityFailure => "integrity_failure"
  | UnsupportedVersion => "unsupported_version"
  | UnknownGeneration => "unknown_generation"
  | FencedEvidence => "fenced_evidence"
  | InsufficientEvidence => "insufficient_evidence"
  | IoFailure => "io_failure"
  | CorruptStore => "corrupt_store"
  | ReadOnlyStore => "read_only_store"
  | TransportFailure => "transport_failure"
  | ProtocolViolation => "protocol_violation"
  | ConnectionClosed => "connection_closed"
  | InvalidState => "invalid_state"
  | Cancelled => "cancelled"
  | ShuttingDown => "shutting_down"
  end.

(** [struct Error]; the two constructors of the class differ in [detail]. *)
Record Error : Set := mk_error {
  code : ErrorCode;
  message : string;
  detail : string
}.

#[global] Instance Error_eq_dec : EqDecision Error.
Proof. solve_decision. Defined.

Definition error (c : ErrorCode) (msg : string) : Error := mk_error c msg "".

(** [Error::to_string] and [describe]. *)
Definition error_to_string (e : Error) : string :=
  let out := (error_code_to_string (code e) +:+ ": " +:+ message e)%string in
  if bool_decide (detail e = "") then out
  else (out +:+ " (" +:+ detail e +:+ ")")%string.

(** [template <class T> class Result] *)
Inductive Result (A : Type) : Type :=
  | Ok (a : A)
  | Err (e : Error).
Arguments Ok {A} a.
Arguments Err {A} e.

(** [using Status = Result<void>] and [ok()]. *)
Abbreviation Status := (Result unit).
Definition ok : Status := Ok tt.

Definition has_value {A} (r : Result A) : bool :=
  match r with Ok _ => true | Err _ => false end.

Definition value_or {A} (r : Result A) (fallback : A) : A :=
  match r with Ok a => a | Err _ => fallback end.

(** The code of an error result, for statements about which error is raised. *)
Definition err_code {A} (r : Result A) : option ErrorCode :=
  match r with Ok _ => None | Err e => Some (code e) end.

(** [PATHOBS_TRY(name, expr)]: on failure return the same error at once. *)
Definition result_bind {A B} (r : Result A) (k : A -> Result B) : Result B :=
  match r with Ok a => k a | Err e => Err e end.

Notation "'let?' x ':=' r 'in' k" := (result_bind r (fun x => k))
  (at level 10, x pattern, r at level 100, k at level 200) : pathobs_scope.
Notation "'check?' r 'in' k" := (result_bind r (fun _ : unit => k))
  (at level 10, r at level 100, k at level 200) : pathobs_scope.
(** [if (c) { return Error{..}; }] *)
Notation "'fail?' c 'with' e 'in' k" := (if c then Err e else k)
  (at level 10, c at level 100, e at level 100, k at level 200) : pathobs_scope.
#[global] Open Scope pathobs_scope.

Section ResultLaws.
Context {A B C : Type}.

Lemma result_bind_ok (r : Result A) (k : A -> Result B) b :
  result_bind r k = Ok b <-> exists a, r = Ok a /\ k a = Ok b.
Proof.
  destruct r as [a|e]; simpl; split.
  - by exists a.
  - by intros (? & [= ->] & ?).
  - discriminate.
  - by intros (? & ? & ?).
Qed.

Lemma result_bind_err (r : Result A) (k : A -> Result B) e :
  result_bind r k = Err e <-> r = Err e \/ exists a, r = Ok a /\ k a = Err e.
Proof.
  destruct r as [a|e']; simpl; split.
  - intros E. right. by exists a.
  - by intros [? | (? & [= ->] & ?)].
  - intros [= ->]. by left.
  - by intros [[= ->] | (? & ? & ?)].
Qed.

Lemma result_bind_assoc (r : Result A) (f : A -> Result B) (g : B -> Result C) :
  result_bind (result_bind r f) g = result_bind r (fun a => result_bind (f a) g).
Proof. by destruct r. Qed.
End ResultLaws.

(** Run a sequence of checks and return the first failure. *)
Fixpoint first_failure (checks : list Status) : Status :=
  match checks with
  | [] => ok
  | Ok _ :: rest => first_failure rest
  | Err e :: _ => Err e
  end.

Lemma first_failure_ok checks : first_failure checks = ok <-> Forall (fun s => s = ok) checks.
Proof.
  induction checks as [|[[]|e] rest IH]; simpl.
  - split; by constructor.
  - split; intros H; [constructor; [done | by apply IH] | inversion H; by apply IH].
  - split; intros H; [discriminate | inversion H; discriminate].
Qed.

(** A guard in front of the rest of a validation. *)
Lemma guard_ok (c : bool) (e : Error) (k : Status) : (if c then Err e else k) = ok <-> c = false /\ k = ok.
Proof. destruct c; split; [done | by intros [? _] | done | by intros [_ ?]]. Qed.

(** [for (i = 0; i < v.size(); ++i) { checks on v[i - 1] and v[i] }] with an early
    return on the first failure. *)
Fixpoint check_each {A} (check : option A -> A -> Status) (prev : option A) (l : list A) : Status :=
  match l with
  | [] => ok
  | x :: rest => check? check prev x in check_each check (Some x) rest
  end.

Lemma check_each_forall {A} (check : option A -> A -> Status) prev l :
  check_each check prev l = ok -> Forall (fun x => exists p, check p x = ok) l.
Proof.
  revert prev. induction l as [|x l IH]; intros prev; simpl; [constructor |].
  intros ([] & Hx & Hl)%result_bind_ok. constructor; [by exists prev | by eapply IH].
Qed.

(** Invert a chain of guards that ended in success: every guard was false. *)
Ltac guards_ok H :=
  try unfold ok in H;
  repeat match type of H with
  | (if ?c then Err _ else _) = Ok _ =>
      let E := fresh "G" in destruct c eqn:E; [discriminate H |]
  | result_bind ?r _ = Ok _ =>
      let a := fresh "a" in let E := fresh "G" in
      apply result_bind_ok in H; destruct H as (a & E & H)
  end.

(** Every error code has its own spelling: the reporting contract can be read
    back. *)
Lemma error_code_to_string_inj c d :
  error_code_to_string c = error_code_to_string d -> c = d.
Proof. destruct c, d; simpl; intros E; first [reflexivity | discriminate E]. Qed.

Lemma error_to_string_no_detail c m :
  error_to_string (error c m) = (error_code_to_string c +:+ ": " +:+ m)%string.
Proof. reflexivity. Qed.
