(* ===== verification/CheckedArith.v ===== *)
(** * Checked arithmetic

    Models [include/pathobs/checked.hpp].  The templates range over integral
    types; a type is its signedness and its width, and a value is a [Z] in its
    range.  Intermediate casts are written out as [cast]. *)

From S2P Require Import Prelude Errors.

(** An integral type of C++. *)
Record IntType : Set := { is_signed : bool; width : Z }.

#[global] Instance IntType_eq_dec : EqDecision IntType.
Proof. solve_decision. Defined.

Definition uint (w : Z) : IntType := {| is_signed := false; width := w |}.
Definition sint (w : Z) : IntType := {| is_signed := true; width := w |}.

(** [std::numeric_limits<T>] *)
Definition max_of (t : IntType) : Z :=
  if is_signed t then 2 ^ (width t - 1) - 1 else 2 ^ width t - 1.
Definition min_of (t : IntType) : Z := if is_signed t then - 2 ^ (width t - 1) else 0.

Definition in_range (t : IntType) (x : Z) : Prop := min_of t <= x <= max_of t.

(** [static_cast<T>]: reduction modulo 2^width into the range of the type. *)
Definition cast (t : IntType) (x : Z) : Z :=
  if is_signed t
  then wrap_u (width t) (x + 2 ^ (width t - 1)) - 2 ^ (width t - 1)
  else wrap_u (width t) x.

(** [narrow_cast] *)
Definition narrow_cast (to : IntType) (value : Z) : Z := cast to value.

Definition checked_add (t : IntType) (a b : Z) : Result Z :=
  if negb (is_signed t) then
    fail? bool_decide (b > cast t (max_of t - a))
      with error OutOfRange "unsigned addition overflow" in
    Ok (cast t (a + b))
  else
    fail? bool_decide (b > 0) && bool_decide (a > cast t (max_of t - b))
      with error OutOfRange "signed addition overflow" in
    fail? bool_decide (b < 0) && bool_decide (a < cast t (min_of t - b))
      with error OutOfRange "signed addition underflow" in
    Ok (cast t (a + b)).

Definition checked_sub (t : IntType) (a b : Z) : Result Z :=
  if negb (is_signed t) then
    fail? bool_decide (b > a)
      with error OutOfRange "unsigned subtraction underflow" in
    Ok (cast t (a - b))
  else
    fail? bool_decide (b < 0) && bool_decide (a > cast t (max_of t + b))
      with error OutOfRange "signed subtraction overflow" in
    fail? bool_decide (b > 0) && bool_decide (a < cast t (min_of t + b))
      with error OutOfRange "signed subtraction underflow" in
    Ok (cast t (a - b)).

(** C++ integer division truncates; every division here is of non-negative
    values, where it agrees with [Z.div]. *)
Definition checked_mul (t : IntType) (a b : Z) : Result Z :=
  if bool_decide (a = 0) || bool_decide (b = 0) then Ok 0 else
  if negb (is_signed t) then
    fail? bool_decide (a > cast t (max_of t / b))
      with error OutOfRange "unsigned multiplication overflow" in
    Ok (cast t (a * b))
  else
    fail? bool_decide (a = min_of t) || bool_decide (b = min_of t)
      with error OutOfRange "signed multiplication overflow" in
    let abs_a := if bool_decide (a < 0) then cast t (- a) else a in
    let abs_b := if bool_decide (b < 0) then cast t (- b) else b in
    let magnitude_limit := max_of t in
    fail? bool_decide (abs_a > cast t (magnitude_limit / abs_b))
      with error OutOfRange "signed multiplication overflow" in
    let magnitude := cast t (abs_a * abs_b) in
    let negative := xorb (bool_decide (a < 0)) (bool_decide (b < 0)) in
    Ok (if negative then cast t (- magnitude) else magnitude).

(** [std::common_type_t]: the type itself when both agree, otherwise the usual
    arithmetic conversions after integral promotion. *)
Definition promote (t : IntType) : IntType := if bool_decide (width t < 32) then sint 32 else t.

Definition common_type (t u : IntType) : IntType :=
  if bool_decide (t = u) then t else
  let t := promote t in
  let u := promote u in
  if Bool.eqb (is_signed t) (is_signed u)
  then (if bool_decide (width t < width u) then u else t)
  else
    let unsigned := if is_signed t then u else t in
    let signed := if is_signed t then t else u in
    if bool_decide (width signed <= width unsigned) then unsigned else signed.

Definition checked_cast (to from : IntType) (value : Z) : Result Z :=
  fail? is_signed from && negb (is_signed to) && bool_decide (value < 0)
    with error OutOfRange "negative value cannot convert to unsigned" in
  let common := common_type to from in
  let wide := cast common value in
  fail? bool_decide (wide > cast common (max_of to))
    with error OutOfRange "value exceeds destination range" in
  fail? is_signed to && bool_decide (wide < cast common (min_of to))
    with error OutOfRange "value below destination range" in
  Ok (cast to value).

Definition fits_within (count element_size limit : Z) : bool :=
  if negb (bool_decide (element_size = 0)) && bool_decide (count > limit / element_size)
  then false
  else bool_decide (wrap_u 64 (count * element_size) <= limit).

(** ** Correctness *)

Section Casts.
Context (t : IntType) (Hw : 0 < width t).

Lemma cast_range x : in_range t (cast t x).
Proof.
  unfold in_range, cast, min_of, max_of. destruct (is_signed t).
  - pose proof (wrap_u_range (width t) (x + 2 ^ (width t - 1)) ltac:(lia)) as H.
    unfold u_ok in H.
    assert (2 ^ width t = 2 * 2 ^ (width t - 1)).
    { rewrite <- Z.pow_succ_r by lia. f_equal. lia. }
    lia.
  - pose proof (wrap_u_range (width t) x ltac:(lia)) as H. unfold u_ok in H. lia.
Qed.

Lemma cast_id x : in_range t x -> cast t x = x.
Proof.
  unfold in_range, cast, min_of, max_of. intros Hx. destruct (is_signed t).
  - rewrite wrap_u_small; [lia | lia |]. unfold u_ok.
    assert (2 ^ width t = 2 * 2 ^ (width t - 1)).
    { rewrite <- Z.pow_succ_r by lia. f_equal. lia. }
    lia.
  - apply wrap_u_small; [lia |]. unfold u_ok. lia.
Qed.

Lemma max_of_nonneg : 0 <= max_of t.
Proof.
  unfold max_of. destruct (is_signed t);
    [pose proof (Z.pow_pos_nonneg 2 (width t - 1)) | pose proof (Z.pow_pos_nonneg 2 (width t))]; lia.
Qed.

Lemma min_of_signed : is_signed t = true -> min_of t = - max_of t - 1.
Proof. intros E. unfold min_of, max_of. rewrite E. lia. Qed.

Lemma min_of_unsigned : is_signed t = false -> min_of t = 0.
Proof. intros E. unfold min_of. by rewrite E. Qed.
End Casts.

(** Bring the bounds of a type into the context as linear facts. *)
Ltac type_bounds t Hw :=
  pose proof (max_of_nonneg t Hw);
  destruct (is_signed t) eqn:Hsign;
  [pose proof (min_of_signed t Hsign) | pose proof (min_of_unsigned t Hsign)].

(** Decide the guards of a checked operation and close each branch. *)
Ltac checked_case :=
  repeat match goal with
  | |- context [bool_decide ?P] => destruct (decide P);
      [rewrite (bool_decide_eq_true_2 P) by done | rewrite (bool_decide_eq_false_2 P) by done]; simpl
  end.

(** The three arithmetic helpers return the exact mathematical result, and
    they fail exactly when that result does not fit. *)
Lemma checked_add_exact t a b :
  0 < width t -> in_range t a -> in_range t b ->
  (in_range t (a + b) -> checked_add t a b = Ok (a + b)) /\
  (~ in_range t (a + b) -> err_code (checked_add t a b) = Some OutOfRange).
Proof.
  intros Hw Ha Hb. unfold checked_add. type_bounds t Hw; simpl;
    unfold in_range in *;
    rewrite ?(cast_id t Hw (max_of t - a)) by (unfold in_range; lia).
  - split; intros Hr.
    + assert (b > 0 -> ~ a > cast t (max_of t - b)).
      { intros. rewrite cast_id by (unfold in_range; lia). lia. }
      assert (b < 0 -> ~ a < cast t (min_of t - b)).
      { intros. rewrite cast_id by (unfold in_range; lia). lia. }
      checked_case; try tauto; by rewrite cast_id by (unfold in_range; lia).
    + assert (b > 0 /\ a > cast t (max_of t - b) \/ b < 0 /\ a < cast t (min_of t - b)).
      { destruct (decide (b > 0)); [left | right]; split; try lia;
          rewrite cast_id by (unfold in_range; lia); lia. }
      checked_case; tauto || lia.
  - split; intros Hr; checked_case; try lia; try done.
    by rewrite cast_id by (unfold in_range; lia).
Qed.

Lemma checked_sub_exact t a b :
  0 < width t -> in_range t a -> in_range t b ->
  (in_range t (a - b) -> checked_sub t a b = Ok (a - b)) /\
  (~ in_range t (a - b) -> err_code (checked_sub t a b) = Some OutOfRange).
Proof.
  intros Hw Ha Hb. unfold checked_sub. type_bounds t Hw; simpl; unfold in_range in *.
  - split; intros Hr.
    + assert (b < 0 -> ~ a > cast t (max_of t + b)).
      { intros. rewrite cast_id by (unfold in_range; lia). lia. }
      assert (b > 0 -> ~ a < cast t (min_of t + b)).
      { intros. rewrite cast_id by (unfold in_range; lia). lia. }
      checked_case; try tauto; by rewrite cast_id by (unfold in_range; lia).
    + assert (b < 0 /\ a > cast t (max_of t + b) \/ b > 0 /\ a < cast t (min_of t + b)).
      { destruct (decide (b > 0)); [right | left]; split; try lia;
          rewrite cast_id by (unfold in_range; lia); lia. }
      checked_case; tauto || lia.
  - split; intros Hr; checked_case; try lia; try done.
    by rewrite cast_id by (unfold in_range; lia).
Qed.

Lemma mul_fits a b m : 0 < b -> 0 <= m -> 0 <= a -> a * b <= m <-> a <= m / b.
Proof.
  intros Hb Hm Ha. split; intros H.
  - apply Z.div_le_lower_bound; lia.
  - assert (b * (m / b) <= m) by (apply Z.mul_div_le; lia). nia.
Qed.

Lemma cast_abs t a :
  0 < width t -> is_signed t = true -> in_range t a -> a <> min_of t ->
  (if bool_decide (a < 0) then cast t (- a) else a) = Z.abs a.
Proof.
  intros Hw Hs Ha Hn. pose proof (min_of_signed t Hs). unfold in_range in *.
  case_bool_decide; [rewrite cast_id by (unfold in_range; lia) |]; lia.
Qed.

(** Multiplication refuses, in addition, any factor equal to the minimum of a
    signed type and any product equal to it: the accepted products are those
    whose magnitude does not exceed the maximum. *)
Lemma checked_mul_exact t a b :
  0 < width t -> in_range t a -> in_range t b ->
  (Z.abs a <= max_of t /\ Z.abs b <= max_of t /\ Z.abs (a * b) <= max_of t \/ a * b = 0 ->
     checked_mul t a b = Ok (a * b)) /\
  (a * b <> 0 -> ~ (Z.abs a <= max_of t /\ Z.abs b <= max_of t /\ Z.abs (a * b) <= max_of t) ->
     err_code (checked_mul t a b) = Some OutOfRange).
Proof.
  intros Hw Ha Hb. unfold checked_mul.
  destruct (decide (a = 0)) as [->|Ha0]; [simpl; split; [done | lia] |].
  destruct (decide (b = 0)) as [->|Hb0].
  { rewrite orb_comm, Z.mul_0_r. simpl. split; [done | lia]. }
  rewrite !bool_decide_eq_false_2 by done. simpl.
  assert (a * b <> 0) by nia.
  type_bounds t Hw; simpl; unfold in_range in *.
  - destruct (decide (a = min_of t)) as [->|Hamin].
    { rewrite bool_decide_eq_true_2 by done. simpl. split; [lia | done]. }
    destruct (decide (b = min_of t)) as [->|Hbmin].
    { rewrite orb_comm, bool_decide_eq_true_2 by done. simpl. split; [lia | done]. }
    rewrite !bool_decide_eq_false_2 by done. simpl.
    rewrite !cast_abs by (unfold in_range; auto).
    assert (0 <= max_of t / Z.abs b <= max_of t).
    { split; [apply Z.div_pos; lia | apply Z.div_le_upper_bound; nia]. }
    rewrite (cast_id t Hw (max_of t / Z.abs b)) by (unfold in_range; lia).
    pose proof (mul_fits (Z.abs a) (Z.abs b) (max_of t) ltac:(lia) ltac:(lia) ltac:(lia)) as Hfit.
    rewrite <- Z.abs_mul in Hfit. split.
    + intros Hok. rewrite bool_decide_eq_false_2 by (destruct Hok; lia).
      assert (Z.abs (a * b) <= max_of t) by lia. f_equal.
      rewrite (cast_id t Hw (Z.abs a * Z.abs b))
        by (unfold in_range; rewrite <- Z.abs_mul; lia).
      rewrite <- Z.abs_mul.
      assert (Z.abs (a * b) = a * b /\ (a < 0 <-> b < 0) \/
              Z.abs (a * b) = - (a * b) /\ ~ (a < 0 <-> b < 0)) as Hsgn.
      { destruct (decide (a < 0)), (decide (b < 0)); [left|right|right|left]; split; nia. }
      checked_case; rewrite ?cast_id by (unfold in_range; lia); lia.
    + intros _ Hbad.
      assert (~ Z.abs (a * b) <= max_of t) as Hbig by lia.
      by rewrite (bool_decide_eq_true_2 (Z.abs a > max_of t / Z.abs b)) by (rewrite Hfit in Hbig; lia).
  - assert (0 <= max_of t / b <= max_of t).
    { split; [apply Z.div_pos; lia | apply Z.div_le_upper_bound; nia]. }
    rewrite (cast_id t Hw (max_of t / b)) by (unfold in_range; lia).
    pose proof (mul_fits a b (max_of t) ltac:(lia) ltac:(lia) ltac:(lia)) as Hfit.
    assert (0 < a * b) by nia. split.
    + intros Hok. rewrite bool_decide_eq_false_2 by lia.
      by rewrite cast_id by (unfold in_range; lia).
    + intros _ Hbad. by rewrite bool_decide_eq_true_2 by lia.
Qed.

(** [fits_within] never wraps: it decides the mathematical comparison. *)
Lemma fits_within_exact count size limit :
  u_ok 64 count -> u_ok 64 size -> u_ok 64 limit ->
  fits_within count size limit = bool_decide (count * size <= limit).
Proof.
  unfold u_ok, fits_within. intros Hc Hs Hl.
  destruct (decide (size = 0)) as [->|Hs0].
  { rewrite bool_decide_eq_true_2 by done. simpl.
    rewrite Z.mul_0_r, wrap_u_small by (unfold u_ok; lia). done. }
  rewrite (bool_decide_eq_false_2 (size = 0)) by done. simpl.
  pose proof (mul_fits count size limit ltac:(lia) ltac:(lia) ltac:(lia)) as Hfit.
  destruct (decide (count > limit / size)).
  - rewrite bool_decide_eq_true_2, bool_decide_eq_false_2 by lia. done.
  - rewrite bool_decide_eq_false_2 by lia.
    rewrite wrap_u_small; [done | lia |]. unfold u_ok. nia.
Qed.

(** ** Conversions *)

Lemma range_widen (t u : IntType) x :
  0 < width t <= width u ->
  (is_signed t = is_signed u \/ 0 <= x) ->
  (is_signed t = false -> is_signed u = true -> width t < width u) ->
  in_range t x -> in_range u x.
Proof.
  intros Hw Hs Hlt. unfold in_range, min_of, max_of.
  assert (2 ^ width t <= 2 ^ width u) by (apply Z.pow_le_mono_r; lia).
  assert (2 ^ (width t - 1) <= 2 ^ (width u - 1)) by (apply Z.pow_le_mono_r; lia).
  assert (forall v, 0 < width v -> 2 ^ width v = 2 * 2 ^ (width v - 1) /\ 0 < 2 ^ (width v - 1)) as Hp.
  { intros v Hv. rewrite <- Z.pow_succ_r by lia. split; [f_equal; lia | lia]. }
  pose proof (Hp t ltac:(lia)). pose proof (Hp u ltac:(lia)).
  destruct (is_signed t) eqn:Et, (is_signed u) eqn:Eu; try lia; [].
  assert (2 ^ width t <= 2 ^ (width u - 1)).
  { apply Z.pow_le_mono_r; [lia |]. specialize (Hlt eq_refl eq_refl). lia. }
  lia.
Qed.

Lemma promote_range t x : 0 < width t -> in_range t x -> in_range (promote t) x.
Proof.
  intros Hw Hx. unfold promote. case_bool_decide; [| done].
  destruct (is_signed t) eqn:Es.
  - apply (range_widen t); simpl; auto; lia || congruence.
  - assert (0 <= x). { unfold in_range, min_of in Hx. rewrite Es in Hx. lia. }
    apply (range_widen t); simpl; auto; lia || congruence.
Qed.

Lemma promote_width t : 0 < width t -> 32 <= width (promote t).
Proof. intros. unfold promote. case_bool_decide; simpl; lia. Qed.

(** The common type holds every non-negative value of both types, and every
    value of both when it is signed. *)
Lemma common_type_holds t u x :
  0 < width t -> 0 < width u ->
  (0 <= x \/ is_signed (common_type t u) = true) ->
  in_range t x \/ in_range u x -> in_range (common_type t u) x.
Proof.
  intros Ht Hu. unfold common_type. case_bool_decide as Heq; [subst; tauto |].
  pose proof (promote_width t Ht) as Ht'. pose proof (promote_width u Hu) as Hu'.
  intros Hx Hin.
  assert (in_range (promote t) x \/ in_range (promote u) x) as Hin'.
  { destruct Hin; [left | right]; by apply promote_range. }
  clear Hin Heq. clear Ht Hu.
  revert Hx Hin' Ht' Hu'. generalize (promote t) (promote u). clear.
  intros t u Hx Hin Ht Hu.
  assert (forall v w, 0 < width v <= width w -> (is_signed v = is_signed w \/ 0 <= x) ->
    (is_signed v = false -> is_signed w = true -> width v < width w) ->
    in_range v x -> in_range w x) as Hwiden by (intros v w; apply range_widen).
  assert (forall v, is_signed v = false -> in_range v x -> 0 <= x) as Hnn.
  { intros v Hv. unfold in_range, min_of. rewrite Hv. lia. }
  destruct (is_signed t) eqn:Et, (is_signed u) eqn:Eu; simpl in *; case_bool_decide;
    destruct Hin as [Hin | Hin]; auto;
    (refine (Hwiden _ _ _ _ _ Hin); rewrite ?Et, ?Eu; auto; try lia; try congruence;
     destruct Hx; eauto; congruence).
Qed.

Lemma common_type_width t u : 0 < width t -> 0 < width u -> 0 < width (common_type t u).
Proof.
  intros Ht Hu. pose proof (promote_width t Ht). pose proof (promote_width u Hu).
  unfold common_type. repeat (case_bool_decide || case_match); lia.
Qed.

(** [checked_cast] tests the value against the limits of the destination in
    the common type; when that type represents all three the conversion is
    exact. *)
Lemma checked_cast_exact_when to from v :
  0 < width to -> 0 < width from -> in_range from v ->
  is_signed to = false \/ is_signed (common_type to from) = true ->
  (in_range to v -> checked_cast to from v = Ok v) /\
  (~ in_range to v -> err_code (checked_cast to from v) = Some OutOfRange).
Proof.
  intros Ht Hf Hv Hcommon. unfold checked_cast.
  destruct (is_signed from && negb (is_signed to) && bool_decide (v < 0)) eqn:Eneg.
  { simpl. split; [| done]. intros Hto.
    apply andb_true_iff in Eneg as [Eneg Hneg]. apply bool_decide_eq_true in Hneg.
    apply andb_true_iff in Eneg as [_ Hus]. apply negb_true_iff in Hus.
    unfold in_range, min_of in Hto. rewrite Hus in Hto. lia. }
  simpl.
  assert (is_signed to = false -> 0 <= v) as Hnn.
  { intros Hus. rewrite Hus in Eneg. destruct (is_signed from) eqn:Es; simpl in Eneg.
    - apply bool_decide_eq_false in Eneg. lia.
    - unfold in_range, min_of in Hv. rewrite Es in Hv. lia. }
  pose proof (common_type_width to from Ht Hf) as Hc.
  assert (in_range (common_type to from) v) as Hvc.
  { apply common_type_holds; auto. destruct Hcommon; auto. }
  pose proof (max_of_nonneg to Ht) as Hmax.
  assert (in_range (common_type to from) (max_of to)) as Hmc.
  { apply common_type_holds; auto. left. unfold in_range, min_of.
    pose proof (max_of_nonneg to Ht) as Hm. unfold max_of in Hm |- *.
    destruct (is_signed to); lia. }
  rewrite !(cast_id (common_type to from) Hc) by done.
  destruct (decide (v > max_of to)).
  { rewrite bool_decide_eq_true_2 by done. simpl. split; [| done]. unfold in_range. lia. }
  rewrite bool_decide_eq_false_2 by done. simpl.
  destruct (is_signed to) eqn:Es; simpl.
  - assert (in_range (common_type to from) (min_of to)) as Hmn.
    { apply common_type_holds; auto; [by destruct Hcommon; auto | left].
      pose proof (min_of_signed to Es). unfold in_range. lia. }
    rewrite (cast_id (common_type to from) Hc (min_of to)) by done.
    destruct (decide (v < min_of to)).
    + rewrite bool_decide_eq_true_2 by done. simpl. split; [| done]. unfold in_range. lia.
    + rewrite bool_decide_eq_false_2 by done. simpl.
      rewrite (cast_id to Ht) by (unfold in_range; lia). split; [done |]. unfold in_range. lia.
  - pose proof (min_of_unsigned to Es).
    rewrite (cast_id to Ht) by (unfold in_range; specialize (Hnn eq_refl); lia).
    split; [done |]. unfold in_range. specialize (Hnn eq_refl). lia.
Qed.

(** A finding.  For a signed destination and an unsigned source at least as
    wide, the common type is unsigned, so the minimum of the destination
    becomes a huge positive value and every conversion is refused, also of
    values that fit. *)
Lemma checked_cast_signed_from_unsigned w w' v :
  0 < w <= w' -> 32 <= w' -> 0 <= v < 2 ^ w' ->
  err_code (checked_cast (sint w) (uint w') v) = Some OutOfRange.
Proof.
  intros Hw Hw' Hv. unfold checked_cast. simpl.
  assert (common_type (sint w) (uint w') = uint w') as ->.
  { unfold common_type. case_bool_decide as E; [discriminate E |]. unfold promote. simpl.
    rewrite (bool_decide_eq_false_2 (w' < 32)) by lia.
    destruct (decide (w < 32)); [rewrite bool_decide_eq_true_2 by done
      | rewrite bool_decide_eq_false_2 by done]; simpl;
      by rewrite bool_decide_eq_true_2 by lia. }
  assert (2 ^ w' = 2 * 2 ^ (w' - 1)).
  { rewrite <- Z.pow_succ_r by lia. f_equal. lia. }
  assert (2 ^ (w - 1) <= 2 ^ (w' - 1)) by (apply Z.pow_le_mono_r; lia).
  assert (0 < 2 ^ (w - 1)) by lia.
  unfold cast, max_of, min_of. simpl.
  rewrite (wrap_u_small w' v), (wrap_u_small w' (2 ^ (w - 1) - 1)) by (unfold u_ok; lia).
  assert (wrap_u w' (- 2 ^ (w - 1)) = 2 ^ w' - 2 ^ (w - 1)) as ->.
  { unfold wrap_u. rewrite Z.land_ones by lia. symmetry. apply (Z.mod_unique _ _ (-1)); lia. }
  repeat case_bool_decide; simpl; try done; lia.
Qed.

(** The checked arithmetic returns the exact mathematical result of an
    addition, a subtraction or a multiplication, and fails with
    [OutOfRange] exactly when that result does not fit the type (for a
    multiplication of signed values: when a factor or the product exceeds the
    maximum in magnitude), for every width and signedness. *)
Theorem checked_arithmetic_exact t a b :
  0 < width t -> in_range t a -> in_range t b ->
  (in_range t (a + b) -> checked_add t a b = Ok (a + b)) /\
  (~ in_range t (a + b) -> err_code (checked_add t a b) = Some OutOfRange) /\
  (in_range t (a - b) -> checked_sub t a b = Ok (a - b)) /\
  (~ in_range t (a - b) -> err_code (checked_sub t a b) = Some OutOfRange) /\
  (Z.abs a <= max_of t /\ Z.abs b <= max_of t /\ Z.abs (a * b) <= max_of t \/ a * b = 0 ->
     checked_mul t a b = Ok (a * b)) /\
  (a * b <> 0 -> ~ (Z.abs a <= max_of t /\ Z.abs b <= max_of t /\ Z.abs (a * b) <= max_of t) ->
     err_code (checked_mul t a b) = Some OutOfRange).
Proof.
  intros Hw Ha Hb.
  destruct (checked_add_exact t a b Hw Ha Hb), (checked_sub_exact t a b Hw Ha Hb),
    (checked_mul_exact t a b Hw Ha Hb). tauto.
Qed.

Lemma checked_arithmetic_exact_witness :
  checked_mul (sint 64) (-3000000000) 3000000000 = Ok (-9000000000000000000) /\
  err_code (checked_add (uint 8) 200 100) = Some OutOfRange.
Proof.
  split.
  - apply (checked_arithmetic_exact (sint 64) (-3000000000) 3000000000);
      vm_compute; intuition congruence.
  - apply (checked_arithmetic_exact (uint 8) 200 100); vm_compute; intuition congruence.
Defined.

(** A checked conversion to an unsigned type, or one whose common type is
    signed, returns the value when the destination represents it and fails
    with [OutOfRange] when it does not; [fits_within] decides
    [count * size <= limit] without wrapping. *)
Theorem checked_conversion_exact to from v count size limit :
  0 < width to -> 0 < width from -> in_range from v ->
  is_signed to = false \/ is_signed (common_type to from) = true ->
  u_ok 64 count -> u_ok 64 size -> u_ok 64 limit ->
  (in_range to v -> checked_cast to from v = Ok v) /\
  (~ in_range to v -> err_code (checked_cast to from v) = Some OutOfRange) /\
  fits_within count size limit = bool_decide (count * size <= limit).
Proof.
  intros Ht Hf Hv Hc H1 H2 H3.
  destruct (checked_cast_exact_when to from v Ht Hf Hv Hc).
  rewrite fits_within_exact by done. tauto.
Qed.

Lemma checked_conversion_exact_witness :
  err_code (checked_cast (uint 16) (sint 64) (-1)) = Some OutOfRange /\
  fits_within (2 ^ 63) 2 100 = bool_decide (2 ^ 63 * 2 <= 100).
Proof.
  split; apply (checked_conversion_exact (uint 16) (sint 64) (-1) (2 ^ 63) 2 100);
    vm_compute; intuition congruence.
Defined.
