(* ===== verification/StdAlgo.v ===== *)
(** * Standard library algorithms and containers the code relies on

    [std::sort], [std::unique], [std::lower_bound] and [std::map], as the code
    uses them, with the laws the components need.  [std::sort] leaves the order
    of equivalent elements unspecified; it is modelled by a stable insertion
    sort, and [sort_by_canonical] states when that choice cannot be observed.
    A [std::map] is iterated in key order, so it is modelled by an association
    list kept strictly ascending by key. *)

From stdpp Require Export sorting.
From S2P Require Import Prelude Errors.

(** ** Orders *)

(** A comparator accepted by [std::sort]: a strict weak order. *)
Class StrictWeakOrder {A : Type} (ltb : A -> A -> bool) : Prop := {
  swo_asym x y : ltb x y = true -> ltb y x = false;
  swo_negtrans x y z : ltb x y = false -> ltb y z = false -> ltb x z = false
}.

(** A total order on keys, as [std::map] requires. *)
Class KeyOrder (K : Type) : Type := {
  klt : K -> K -> bool;
  klt_irrefl k : klt k k = false;
  klt_trans a b c : klt a b = true -> klt b c = true -> klt a c = true;
  klt_total a b : klt a b = false -> klt b a = false -> a = b
}.

Lemma klt_asym `{KeyOrder K} a b : klt a b = true -> klt b a = false.
Proof.
  intros E. destruct (klt b a) eqn:E'; [| done].
  pose proof (klt_trans a b a E E') as F. by rewrite klt_irrefl in F.
Qed.

#[global] Instance klt_swo `{KeyOrder K} : StrictWeakOrder (klt (K := K)).
Proof.
  constructor; [apply klt_asym |]. intros x y z Hxy Hyz.
  destruct (klt x z) eqn:E; [| done].
  destruct (klt y x) eqn:Eyx.
  - pose proof (klt_trans y x z Eyx E). congruence.
  - pose proof (klt_total x y Hxy Eyx). subst. congruence.
Qed.

(** Comparing by a projection. *)
#[global] Instance swo_on {A B} (f : A -> B) (ltb : B -> B -> bool) `{!StrictWeakOrder ltb} :
  StrictWeakOrder (fun x y => ltb (f x) (f y)).
Proof. constructor; intros *; [apply swo_asym | apply swo_negtrans]. Qed.

#[global] Instance Z_key_order : KeyOrder Z.
Proof.
  refine {| klt := Z.ltb |}; intros *; rewrite ?Z.ltb_lt, ?Z.ltb_ge; lia.
Defined.

(** Lexicographic comparison of equally long byte arrays,
    [std::array<uint8_t, N>::operator<=>]. *)
Fixpoint lex_lt (a b : list Z) : bool :=
  match a, b with
  | [], [] => false
  | [], _ :: _ => true
  | _ :: _, [] => false
  | x :: a, y :: b => if x <? y then true else if y <? x then false else lex_lt a b
  end.

#[global] Instance bytes_key_order : KeyOrder (list Z).
Proof.
  refine {| klt := lex_lt |}.
  - induction k as [|x k IH]; simpl; [done |]. by rewrite Z.ltb_irrefl.
  - induction a as [|x a IH]; intros [|y b] [|z c]; simpl; try done.
    destruct (x <? y) eqn:?, (y <? x) eqn:?, (y <? z) eqn:?, (z <? y) eqn:?,
      (x <? z) eqn:?, (z <? x) eqn:?; bool_prop; try done; try lia. apply IH.
  - induction a as [|x a IH]; intros [|y b]; simpl; try done.
    destruct (x <? y) eqn:?, (y <? x) eqn:?; bool_prop; try done; try lia.
    intros. f_equal; [lia | by apply IH].
Defined.

(** ** Sorting *)

Section Sorting.
Context {A : Type} (ltb : A -> A -> bool).

Fixpoint insert_by (x : A) (l : list A) : list A :=
  match l with
  | [] => [x]
  | y :: rest => if ltb y x then y :: insert_by x rest else x :: y :: rest
  end.

(** [std::sort(begin, end, ltb)] *)
Definition sort_by (l : list A) : list A := foldr insert_by [] l.

(** No later element comes before an earlier one. *)
Definition ascending (l : list A) : Prop := StronglySorted (fun x y => ltb y x = false) l.

Lemma insert_by_perm x l : insert_by x l ≡ₚ x :: l.
Proof.
  induction l as [|y l IH]; simpl; [done |]. destruct (ltb y x); [| done].
  rewrite IH. apply Permutation_swap.
Qed.

Lemma sort_by_perm l : sort_by l ≡ₚ l.
Proof. induction l as [|x l IH]; simpl; [done |]. by rewrite insert_by_perm, IH. Qed.

Lemma length_sort_by l : length (sort_by l) = length l.
Proof. apply Permutation_length, sort_by_perm. Qed.

Lemma elem_of_sort_by x l : x ∈ sort_by l <-> x ∈ l.
Proof. by rewrite sort_by_perm. Qed.

Context `{!StrictWeakOrder ltb}.

Lemma swo_irrefl x : ltb x x = false.
Proof. destruct (ltb x x) eqn:E; [| done]. by rewrite (swo_asym x x E) in E. Qed.

Lemma swo_trans x y z : ltb x y = true -> ltb y z = true -> ltb x z = true.
Proof.
  intros Hxy Hyz. destruct (ltb x z) eqn:E; [done |].
  pose proof (swo_asym y z Hyz) as Hzy.
  by rewrite (swo_negtrans x z y E Hzy) in Hxy.
Qed.

Lemma insert_by_ascending x l : ascending l -> ascending (insert_by x l).
Proof.
  unfold ascending. induction 1 as [|y l Hs IH Hf]; simpl; [repeat constructor |].
  destruct (ltb y x) eqn:E.
  - constructor; [done |]. rewrite insert_by_perm.
    constructor; [by apply swo_asym | done].
  - constructor; [by constructor |]. constructor; [done |].
    eapply Forall_impl; [| exact Hf]. intros z Hz. simpl in Hz.
    by apply (swo_negtrans z y x).
Qed.

Lemma sort_by_ascending l : ascending (sort_by l).
Proof. induction l; simpl; [constructor |]. by apply insert_by_ascending. Qed.

Lemma insert_by_le x l : Forall (fun y => ltb y x = false) l -> insert_by x l = x :: l.
Proof. destruct 1 as [|y l E]; simpl; [done |]. by rewrite E. Qed.

(** Sorting a sorted list changes nothing. *)
Lemma sort_by_id l : ascending l -> sort_by l = l.
Proof.
  induction 1 as [|x l Hs IH Hf]; simpl; [done |]. rewrite IH. by apply insert_by_le.
Qed.

Lemma ascending_unique l1 l2 :
  (forall x y, x ∈ l1 -> y ∈ l1 -> ltb x y = false -> ltb y x = false -> x = y) ->
  ascending l1 -> ascending l2 -> l1 ≡ₚ l2 -> l1 = l2.
Proof.
  intros Htie H1. revert l2 Htie. induction H1 as [|x l1 Hs IH Hf]; intros l2 Htie H2 Hp.
  - by apply Permutation_nil_l in Hp.
  - destruct H2 as [|y l2 Hs2 Hf2]; [by apply Permutation_nil_r in Hp |].
    assert (x = y) as ->.
    { assert (y ∈ x :: l1) as Hy by (rewrite Hp; constructor).
      assert (x ∈ y :: l2) as Hx by (rewrite <- Hp; constructor).
      rewrite Forall_elem in Hf, Hf2.
      apply elem_of_cons in Hy as [-> | Hy]; [done |].
      apply elem_of_cons in Hx as [-> | Hx]; [done |].
      apply Htie; [constructor | by constructor | by apply Hf2 | by apply Hf]. }
    f_equal. apply IH; [| done | by apply Permutation_cons_inv in Hp].
    intros ? ? ? ?. apply Htie; by constructor.
Qed.

(** The outcome of the sort does not depend on the input order, nor on how ties
    are resolved, as soon as equivalent elements are equal. *)
Lemma sort_by_canonical l1 l2 :
  (forall x y, x ∈ l1 -> y ∈ l1 -> ltb x y = false -> ltb y x = false -> x = y) ->
  l1 ≡ₚ l2 -> sort_by l1 = sort_by l2.
Proof.
  intros Htie Hp. apply ascending_unique.
  - intros x y. rewrite !elem_of_sort_by. apply Htie.
  - apply sort_by_ascending.
  - apply sort_by_ascending.
  - by rewrite !sort_by_perm.
Qed.
End Sorting.

(** ** std::unique *)

(** Sorting commutes with a function that keeps the order. *)
Lemma sort_by_map {A B} (ltb : A -> A -> bool) (ltb' : B -> B -> bool) (f : A -> B) (l : list A) :
  (forall x y, ltb' (f x) (f y) = ltb x y) -> sort_by ltb' (map f l) = map f (sort_by ltb l).
Proof.
  intros Hf. assert (forall x m, insert_by ltb' (f x) (map f m) = map f (insert_by ltb x m)) as Hins.
  { intros x m. induction m as [|y m IH]; [done |]. cbn [map insert_by]. rewrite Hf, IH.
    by destruct (ltb y x). }
  induction l as [|x l IH]; [done |]. unfold sort_by in *. cbn [map foldr]. by rewrite IH, Hins.
Qed.

Section Unique.
Context {A : Type} (eqb : A -> A -> bool).

Fixpoint unique_from (last : A) (l : list A) : list A :=
  match l with
  | [] => []
  | y :: rest => if eqb last y then unique_from last rest else y :: unique_from y rest
  end.

(** [erase(unique(begin, end), end)]: drop every element equal to the last one
    that was kept. *)
Definition unique_by (l : list A) : list A :=
  match l with
  | [] => []
  | x :: rest => x :: unique_from x rest
  end.

Lemma unique_from_sub x l y : y ∈ unique_from x l -> y ∈ l.
Proof.
  revert x. induction l as [|z l IH]; intros x; simpl; [done |].
  destruct (eqb x z); rewrite ?elem_of_cons; intros; destruct_or?; eauto.
Qed.

Lemma unique_by_sub l y : y ∈ unique_by l -> y ∈ l.
Proof.
  destruct l; simpl; [done |]. rewrite !elem_of_cons.
  intros [-> | H]; [by left | right; by eapply unique_from_sub].
Qed.

Lemma unique_from_elem x l y :
  (forall a b, a ∈ x :: l -> b ∈ x :: l -> eqb a b = true -> a = b) ->
  y ∈ x :: l -> y ∈ x :: unique_from x l.
Proof.
  revert x. induction l as [|z l IH]; intros x Heq; simpl; [done |].
  assert (forall a b, a ∈ z :: l -> b ∈ z :: l -> eqb a b = true -> a = b) as Heq'.
  { intros a b Ha Hb. apply Heq; by constructor. }
  destruct (eqb x z) eqn:E.
  - apply Heq in E; [| constructor | repeat constructor]. subst. intros H. apply IH; [done |].
    rewrite !elem_of_cons in *. tauto.
  - rewrite !(elem_of_cons _ y x). intros [-> | H]; [by left | right; by apply IH].
Qed.

(** Nothing is lost when the predicate is equality. *)
Lemma unique_by_elem_on l y :
  (forall a b, a ∈ l -> b ∈ l -> eqb a b = true -> a = b) -> y ∈ unique_by l <-> y ∈ l.
Proof.
  intros Heq. split; [apply unique_by_sub |]. destruct l as [|x l]; [done |].
  by apply unique_from_elem.
Qed.

Lemma unique_by_elem l y : (forall a b, eqb a b = true -> a = b) -> y ∈ unique_by l <-> y ∈ l.
Proof. intros Heq. apply unique_by_elem_on. auto. Qed.

Lemma length_unique_from x l : (length (unique_from x l) <= length l)%nat.
Proof.
  revert x. induction l as [|z l IH]; intros x; simpl; [done |].
  destruct (eqb x z); simpl; [pose proof (IH x) | pose proof (IH z)]; lia.
Qed.

Lemma length_unique_by l : (length (unique_by l) <= length l)%nat.
Proof. destruct l as [|x l]; simpl; [done |]. pose proof (length_unique_from x l). lia. Qed.
End Unique.

(** Sorted and deduplicated by key: strictly ascending. *)
Definition strictly_ascending `{KeyOrder K} {A} (key : A -> K) (l : list A) : Prop :=
  StronglySorted (fun x y => klt (key x) (key y) = true) l.

Lemma unique_from_strict `{KeyOrder K} {A} (key : A -> K) (eqb : A -> A -> bool) x l :
  (forall a b, a ∈ x :: l -> b ∈ x :: l -> eqb a b = true <-> key a = key b) ->
  ascending (fun a b => klt (key a) (key b)) (x :: l) ->
  strictly_ascending key (x :: unique_from eqb x l).
Proof.
  unfold ascending, strictly_ascending. revert x.
  induction l as [|y l IH]; intros x Heq Hs; simpl; [repeat constructor |].
  inversion Hs as [|? ? Hs' Hf]; subst. inversion Hf as [|? ? Hyx Hf']; subst.
  inversion Hs' as [|? ? Hs'' Hf'']; subst.
  destruct (eqb x y) eqn:E.
  - apply IH; [| by constructor]. intros a b. rewrite !elem_of_cons. intros Ha Hb.
    apply Heq; rewrite !elem_of_cons; tauto.
  - assert (klt (key x) (key y) = true) as Hlt.
    { destruct (klt (key x) (key y)) eqn:F; [done |].
      pose proof (klt_total _ _ F Hyx) as G.
      apply Heq in G; [congruence | constructor | repeat constructor]. }
    assert (forall a b, a ∈ y :: l -> b ∈ y :: l -> eqb a b = true <-> key a = key b) as Heq'.
    { intros a b Ha Hb. apply Heq; by constructor. }
    pose proof (IH y Heq' Hs') as Hy. constructor; [done |].
    inversion Hy as [|? ? ? Hfy]; subst. constructor; [done |].
    eapply Forall_impl; [| exact Hfy]. intros z Hz. simpl in Hz. by eapply klt_trans.
Qed.

(** The idiom [sort; erase(unique)] produces a strictly ascending list. *)
Lemma sort_unique_strict `{KeyOrder K} {A} (key : A -> K) (eqb : A -> A -> bool) l :
  (forall a b, a ∈ l -> b ∈ l -> eqb a b = true <-> key a = key b) ->
  strictly_ascending key (unique_by eqb (sort_by (fun a b => klt (key a) (key b)) l)).
Proof.
  intros Heq. pose proof (sort_by_ascending (fun a b => klt (key a) (key b)) l) as Hs.
  assert (forall a, a ∈ sort_by (fun a b => klt (key a) (key b)) l -> a ∈ l) as Hin
    by (intros a; by rewrite elem_of_sort_by).
  revert Hs Hin. generalize (sort_by (fun a b => klt (key a) (key b)) l). intros [|x l'] Hs Hin; [constructor |].
  apply unique_from_strict; [| done]. intros a b Ha Hb. apply Heq; by apply Hin.
Qed.

(** A sorted vector without equal neighbours is strictly ascending. *)
Lemma ascending_distinct_strict `{KeyOrder K} {A} (key : A -> K) l :
  ascending (fun a b => klt (key a) (key b)) l ->
  (forall i x y, l !! i = Some x -> l !! S i = Some y -> key x <> key y) ->
  strictly_ascending key l.
Proof.
  unfold ascending, strictly_ascending. induction 1 as [|x l Hs IH Hf]; intros Hd; [constructor |].
  assert (StronglySorted (fun a b => klt (key a) (key b) = true) l) as Hl.
  { apply IH. intros i. apply (Hd (S i)). }
  constructor; [done |]. destruct Hl as [|y l Hl Hy]; [constructor |].
  assert (klt (key x) (key y) = true) as Hxy.
  { destruct (klt (key x) (key y)) eqn:E; [done |]. apply Forall_cons_iff in Hf as [Hyx _].
    by destruct (Hd 0%nat x y eq_refl eq_refl (klt_total _ _ E Hyx)). }
  constructor; [done |]. eapply Forall_impl; [| exact Hy]. intros z Hz. by eapply klt_trans.
Qed.

Lemma strictly_ascending_ascending `{KeyOrder K} {A} (key : A -> K) l :
  strictly_ascending key l -> ascending (fun a b => klt (key a) (key b)) l.
Proof.
  unfold ascending, strictly_ascending. intros Hs. induction Hs as [|x l Hs IH Hf]; constructor; [done |].
  eapply Forall_impl; [| exact Hf]. intros y Hy. by apply klt_asym.
Qed.

(** ** std::lower_bound *)

Section LowerBound.
Context {A : Type} (less : A -> bool).

(** The halving loop: [first] and [len] delimit the range still searched. *)
Fixpoint lower_bound_go (fuel : nat) (l : list A) (first len : nat) : nat :=
  match fuel with
  | O => first
  | S fuel =>
      if (len =? 0)%nat then first else
      let half := Nat.div2 len in
      match l !! (first + half)%nat with
      | Some x =>
          if less x
          then lower_bound_go fuel l (first + half + 1) (len - half - 1)
          else lower_bound_go fuel l first half
      | None => first
      end
  end.

(** [std::lower_bound(begin, end, value, less)], as an index. *)
Definition lower_bound (l : list A) : nat := lower_bound_go (S (length l)) l 0 (length l).

(** The range is partitioned: the elements below the value come first. *)
Definition partitioned (l : list A) : Prop :=
  forall i j x y, (i <= j)%nat -> l !! i = Some x -> l !! j = Some y ->
  less y = true -> less x = true.

Lemma lower_bound_go_spec fuel l first len :
  (len < fuel)%nat -> (first + len <= length l)%nat -> partitioned l ->
  (forall i x, (i < first)%nat -> l !! i = Some x -> less x = true) ->
  (forall i x, (first + len <= i)%nat -> l !! i = Some x -> less x = false) ->
  (forall i x, (i < lower_bound_go fuel l first len)%nat -> l !! i = Some x -> less x = true) /\
  (forall i x, (lower_bound_go fuel l first len <= i)%nat -> l !! i = Some x -> less x = false).
Proof.
  revert first len. induction fuel as [|fuel IH]; intros first len Hf Hl Hp Hlo Hhi; [lia |].
  simpl. destruct (len =? 0)%nat eqn:E.
  { apply Nat.eqb_eq in E. subst. rewrite Nat.add_0_r in Hhi. done. }
  apply Nat.eqb_neq in E. pose proof (Nat.lt_div2 len ltac:(lia)) as Hh.
  remember (Nat.div2 len) as half eqn:Ehalf. clear Ehalf.
  destruct (lookup_lt_is_Some_2 l (first + half) ltac:(lia)) as [x Hx].
  rewrite Hx. destruct (less x) eqn:Ex.
  - apply IH; [lia | lia | done | |].
    + intros i y Hi Hy. eapply (Hp i (first + half)%nat); eauto. lia.
    + intros i y Hi Hy. apply (Hhi i); [lia | done].
  - apply IH; [lia | lia | done | done |].
    intros i y Hi Hy. destruct (less y) eqn:Ey; [| done].
    rewrite (Hp (first + half)%nat i x y) in Ex; done.
Qed.

(** The binary search returns the partition point. *)
Lemma lower_bound_spec l :
  partitioned l ->
  (forall i x, (i < lower_bound l)%nat -> l !! i = Some x -> less x = true) /\
  (forall i x, (lower_bound l <= i)%nat -> l !! i = Some x -> less x = false).
Proof.
  intros Hp. apply lower_bound_go_spec; [lia | lia | done | lia |].
  intros i x Hi Hx. apply lookup_lt_Some in Hx. lia.
Qed.
End LowerBound.

(** The lookup idiom of the code on a vector sorted by identity:
    [it = lower_bound(...); it != end() && it->id == candidate ? &*it : nullptr]. *)
Section FindSorted.
Context `{KeyOrder K} `{!EqDecision K} {A : Type} (key : A -> K).

Definition find_sorted (l : list A) (k : K) : option A :=
  match l !! lower_bound (fun x => klt (key x) k) l with
  | Some x => if decide (key x = k) then Some x else None
  | None => None
  end.

Lemma strictly_ascending_lookup l i j x y :
  strictly_ascending key l -> l !! i = Some x -> l !! j = Some y -> (i < j)%nat ->
  klt (key x) (key y) = true.
Proof.
  intros Hs. revert i j. induction Hs as [|z l Hs IH Hf]; intros i j Hi Hj Hij; [done |].
  destruct j as [|j]; [lia |]. destruct i as [|i]; simpl in *.
  - injection Hi as ->. rewrite Forall_elem in Hf. apply Hf.
    by eapply list_elem_of_lookup_2.
  - eapply IH; eauto. lia.
Qed.

Lemma strictly_ascending_inj l x y :
  strictly_ascending key l -> x ∈ l -> y ∈ l -> key x = key y -> x = y.
Proof.
  intros Hs [i Hi]%list_elem_of_lookup_1 [j Hj]%list_elem_of_lookup_1 E.
  destruct (Nat.lt_trichotomy i j) as [Hij | [-> | Hij]].
  - pose proof (strictly_ascending_lookup l i j x y Hs Hi Hj Hij) as F.
    by rewrite E, klt_irrefl in F.
  - congruence.
  - pose proof (strictly_ascending_lookup l j i y x Hs Hj Hi Hij) as F.
    by rewrite E, klt_irrefl in F.
Qed.

Lemma strictly_ascending_partitioned l k :
  strictly_ascending key l -> partitioned (fun x => klt (key x) k) l.
Proof.
  intros Hs i j x y Hij Hi Hj Hy. destruct (decide (i = j)) as [-> | Hne].
  - congruence.
  - eapply klt_trans; [| exact Hy]. eapply (strictly_ascending_lookup l i j); eauto. lia.
Qed.

(** Whatever is found is in the vector and carries the identity. *)
Lemma find_sorted_sound l k x : find_sorted l k = Some x -> x ∈ l /\ key x = k.
Proof.
  unfold find_sorted. destruct (l !! _) as [y|] eqn:E; [| done].
  case_decide; [| done]. intros [= ->]. split; [by eapply list_elem_of_lookup_2 | done].
Qed.

(** On a vector sorted by identity without duplicates, the binary search finds
    exactly what a linear search would. *)
Lemma find_sorted_iff l k x :
  strictly_ascending key l -> find_sorted l k = Some x <-> x ∈ l /\ key x = k.
Proof.
  intros Hs. split; [apply find_sorted_sound |]. intros [Hx Hk].
  destruct (list_elem_of_lookup_1 _ _ Hx) as [i Hi].
  pose proof (lower_bound_spec _ _ (strictly_ascending_partitioned l k Hs)) as [Hlo Hhi].
  set (p := lower_bound (fun x => klt (key x) k) l) in *.
  assert (p = i) as Hp.
  { destruct (Nat.lt_trichotomy p i) as [Hlt | [? | Hgt]]; [| done |].
    - apply lookup_lt_Some in Hi as Hl.
      destruct (lookup_lt_is_Some_2 l p ltac:(lia)) as [y Hy].
      pose proof (strictly_ascending_lookup l p i y x Hs Hy Hi Hlt) as F.
      rewrite Hk in F. by rewrite (Hhi p y (le_n _) Hy) in F.
    - pose proof (Hlo i x Hgt Hi) as F. simpl in F. by rewrite Hk, klt_irrefl in F. }
  unfold find_sorted. fold p. rewrite Hp, Hi. by rewrite decide_True.
Qed.

Lemma find_sorted_none l k :
  strictly_ascending key l -> find_sorted l k = None <-> forall x, x ∈ l -> key x <> k.
Proof.
  intros Hs. split.
  - intros E x Hx Hk. pose proof (proj2 (find_sorted_iff l k x Hs)) as F.
    rewrite E in F. by discriminate F.
  - intros Hn. destruct (find_sorted l k) as [x|] eqn:E; [| done].
    apply find_sorted_sound in E as [Hx Hk]. by apply Hn in Hx.
Qed.
End FindSorted.

(** Equal neighbours are the only way a sorted vector repeats an identity. *)
Lemma strictly_ascending_neighbours `{KeyOrder K} {A} (key : A -> K) l i x y :
  strictly_ascending key l -> l !! i = Some x -> l !! S i = Some y -> key x <> key y.
Proof.
  intros Hs Hx Hy E. assert (klt (key x) (key y) = true) as F.
  { unfold strictly_ascending in Hs. revert i Hx Hy.
    induction Hs as [|z l Hs IH Hf]; intros i Hx Hy; [done |].
    destruct i as [|i]; simpl in *.
    - injection Hx as ->. rewrite Forall_elem in Hf. apply Hf. by eapply list_elem_of_lookup_2.
    - by eapply IH. }
  by rewrite E, klt_irrefl in F.
Qed.

(** The loops that validate each record of a sorted vector and reject a repeated
    identity by looking at the neighbour: all records pass on their own and no
    identity repeats. *)
Lemma check_each_iff `{KeyOrder K} {A} (key : A -> K) (P : A -> Prop)
    (check : option A -> A -> Status) l :
  (forall p x, check p x = ok <-> (forall q, p = Some q -> key q <> key x) /\ P x) ->
  ascending (fun a b => klt (key a) (key b)) l ->
  check_each check None l = ok <-> strictly_ascending key l /\ Forall P l.
Proof.
  intros Hc Hs.
  assert (forall prev, check_each check prev l = ok <->
    (forall q x, prev = Some q -> l !! 0%nat = Some x -> key q <> key x) /\
    (forall i x y, l !! i = Some x -> l !! S i = Some y -> key x <> key y) /\ Forall P l) as Haux.
  { clear Hs. induction l as [|z l IH]; intros prev; simpl; [split; [intros _; split; [done | split; [done | constructor]] | done] |].
    rewrite Forall_cons_iff. etransitivity; [apply result_bind_ok |]. split.
    - intros ([] & Hz & Hl). apply Hc in Hz as [Hq Hz]. apply IH in Hl as (H1 & H2 & H3).
      split_and!; try done.
      + intros q x -> [= ->]. by apply Hq.
      + intros [|i] x y Hx Hy; simpl in *; [injection Hx as ->; by apply (H1 x) | by eapply H2].
    - intros (H1 & H2 & Hz & H3). exists tt. split.
      + apply Hc. split; [intros q ->; by apply H1 | done].
      + apply IH. split_and!; [| | done].
        * intros q x [= ->] Hx. by apply (H2 0%nat).
        * intros i. apply (H2 (S i)). }
  rewrite Haux. split.
  - intros (_ & H2 & H3). split; [by apply ascending_distinct_strict | done].
  - intros [H2 H3]. split_and!; [done | | done]. intros i x y. by apply strictly_ascending_neighbours.
Qed.

Lemma strictly_ascending_nodup `{KeyOrder K} {A} (key : A -> K) l :
  strictly_ascending key l -> NoDup (map key l).
Proof.
  unfold strictly_ascending. intros Hs.
  induction Hs as [|x l' Hs IH Hf]; simpl; [constructor |]. constructor; [| done].
  intros (y & Ey & Hy%list_elem_of_In)%list_elem_of_In%in_map_iff. rewrite Forall_elem in Hf.
  pose proof (Hf y Hy) as F. by rewrite Ey, klt_irrefl in F.
Qed.

(** Sorting makes a vector strictly ascending exactly when no identity repeats. *)
Lemma sort_strict_nodup `{KeyOrder K} {A} (key : A -> K) l :
  strictly_ascending key (sort_by (fun a b => klt (key a) (key b)) l) <-> NoDup (map key l).
Proof.
  assert (map key (sort_by (fun a b => klt (key a) (key b)) l) ≡ₚ map key l) as Hp
    by (apply Permutation_map, sort_by_perm).
  split.
  - intros Hs. rewrite <- Hp. by apply strictly_ascending_nodup.
  - intros Hn. apply ascending_distinct_strict; [apply sort_by_ascending, _ |].
    intros i x y Hx Hy E. rewrite <- Hp in Hn. unfold not in *.
    assert (i = S i) as F; [| lia].
    apply (NoDup_lookup (map key (sort_by (fun a b => klt (key a) (key b)) l)) i (S i) (key x));
      [done | |]; fold (fmap (M:=list) key); rewrite list_lookup_fmap, ?Hx, ?Hy; simpl; by rewrite ?E.
Qed.

Lemma neighbour_distinct {A B} `{!EqDecision B} (key : A -> B) (prev : option A) (x : A) :
  match prev with Some p => bool_decide (key p = key x) | None => false end = false <->
  forall q, prev = Some q -> key q <> key x.
Proof.
  destruct prev as [p|]; [rewrite bool_decide_eq_false |]; split; intros H; [by intros q [= <-] | | done | done].
  by apply H.
Qed.

Lemma Forall_perm_iff {A} (P Q : A -> Prop) l1 l2 :
  (forall x, P x <-> Q x) -> l1 ≡ₚ l2 -> Forall P l1 <-> Forall Q l2.
Proof.
  intros HPQ Hp. rewrite !Forall_elem. split; intros H x Hx; apply HPQ, H;
    [by rewrite Hp | by rewrite <- Hp].
Qed.

(** Updating records without touching their identity. *)
Lemma strictly_ascending_map `{KeyOrder K} {A} (key : A -> K) (f : A -> A) l :
  (forall x, key (f x) = key x) -> strictly_ascending key l -> strictly_ascending key (map f l).
Proof.
  intros Hf. unfold strictly_ascending. intros Hs. induction Hs as [|x l Hs IH Hx]; simpl; [constructor |].
  constructor; [done |]. rewrite Forall_elem in *.
  intros y (z & <- & Hz%list_elem_of_In)%list_elem_of_In%in_map_iff. rewrite !Hf. by apply Hx.
Qed.

(** Dropping records keeps the order. *)
Lemma strictly_ascending_filter `{KeyOrder K} {A} (key : A -> K) (f : A -> bool) l :
  strictly_ascending key l -> strictly_ascending key (List.filter f l).
Proof.
  unfold strictly_ascending. induction 1 as [|e m Hs IH Hf]; simpl; [constructor |].
  destruct (f e); [| done]. constructor; [done |]. rewrite Forall_elem in *.
  intros x Hx. apply Hf. by apply list_elem_of_In, filter_In in Hx as [?%list_elem_of_In _].
Qed.

(** [sort; erase(unique)] leaves a vector in normal form alone. *)
Lemma unique_by_strict `{KeyOrder K} (eqb : K -> K -> bool) (l : list K) :
  (forall a b, eqb a b = true -> a = b) -> strictly_ascending (fun k => k) l -> unique_by eqb l = l.
Proof.
  intros Heq. unfold strictly_ascending. intros Hs. destruct Hs as [|x l Hs Hf]; [done |]. simpl. f_equal.
  revert x Hf. induction Hs as [|y l Hs IH Hf']; intros x Hf; simpl; [done |].
  apply Forall_cons_iff in Hf as [Hxy Hf]. destruct (eqb x y) eqn:E.
  - apply Heq in E. subst. by rewrite klt_irrefl in Hxy.
  - f_equal. by apply IH.
Qed.

(** A strictly ascending vector is determined by its elements. *)
Lemma strictly_ascending_ext `{KeyOrder K} {A} (key : A -> K) l1 l2 :
  strictly_ascending key l1 -> strictly_ascending key l2 -> (forall x, x ∈ l1 <-> x ∈ l2) -> l1 = l2.
Proof.
  intros H1 H2 Heq. apply (ascending_unique (fun a b => klt (key a) (key b))).
  - intros x y Hx Hy Hxy Hyx. eapply strictly_ascending_inj; [exact H1 | done | done |].
    by apply klt_total.
  - by apply strictly_ascending_ascending.
  - by apply strictly_ascending_ascending.
  - apply NoDup_Permutation; [| | done].
    + eapply NoDup_fmap_1. exact (strictly_ascending_nodup key l1 H1).
    + eapply NoDup_fmap_1. exact (strictly_ascending_nodup key l2 H2).
Qed.

(** Sorting distinct identities does not depend on the order of the input. *)
Lemma sort_by_perm_strict `{KeyOrder K} {A} (key : A -> K) l1 l2 :
  strictly_ascending key (sort_by (fun a b => klt (key a) (key b)) l1) -> l1 ≡ₚ l2 ->
  sort_by (fun a b => klt (key a) (key b)) l2 = sort_by (fun a b => klt (key a) (key b)) l1.
Proof.
  intros Hs Hp. symmetry. apply sort_by_canonical; [apply _ | | done].
  intros x y Hx Hy Hxy Hyx. eapply strictly_ascending_inj; [exact Hs | | |].
  - by apply elem_of_sort_by.
  - by apply elem_of_sort_by.
  - by apply klt_total.
Qed.

(** ** std::map *)

Section OrderedMap.
Context {K V : Type} `{KeyOrder K} `{!EqDecision K}.

Abbreviation omap := (list (K * V)).

Definition om_wf (m : omap) : Prop := strictly_ascending fst m.

Fixpoint om_find (k : K) (m : omap) : option V :=
  match m with
  | [] => None
  | (k', v) :: rest => if decide (k' = k) then Some v else om_find k rest
  end.

(** [m[k] = v] *)
Fixpoint om_insert (k : K) (v : V) (m : omap) : omap :=
  match m with
  | [] => [(k, v)]
  | (k', v') :: rest =>
      if klt k k' then (k, v) :: m
      else if decide (k' = k) then (k, v) :: rest
      else (k', v') :: om_insert k v rest
  end.

(** [m.emplace(k, v)]: no effect when the key is present. *)
Definition om_emplace (k : K) (v : V) (m : omap) : omap :=
  match om_find k m with Some _ => m | None => om_insert k v m end.

(** [update(m[k])]: a missing entry is value-initialised first. *)
Definition om_update (k : K) (init : V) (update : V -> V) (m : omap) : omap :=
  om_insert k (update (match om_find k m with Some v => v | None => init end)) m.

(** [m.erase(it)] *)
Definition om_erase (k : K) (m : omap) : omap :=
  List.filter (fun e => negb (bool_decide (e.1 = k))) m.

Lemma om_insert_elem k v m e : e ∈ om_insert k v m -> e = (k, v) \/ e ∈ m.
Proof.
  induction m as [|[k' v'] m IH]; simpl; [rewrite elem_of_cons; naive_solver |].
  destruct (klt k k'); [rewrite !elem_of_cons; tauto |].
  destruct (decide (k' = k)); rewrite !elem_of_cons; tauto.
Qed.

Lemma om_insert_wf k v m : om_wf m -> om_wf (om_insert k v m).
Proof.
  unfold om_wf, strictly_ascending.
  induction 1 as [|[k' v'] m Hs IH Hf]; simpl; [repeat constructor |].
  destruct (klt k k') eqn:E.
  - constructor; [by constructor |]. constructor; [done |].
    eapply Forall_impl; [| exact Hf]. intros e He. simpl in *. by eapply klt_trans.
  - case_decide as Ek.
    + subst. by constructor.
    + constructor; [done |]. apply Forall_elem. intros e He.
      apply om_insert_elem in He as [-> | He].
      * simpl. destruct (klt k' k) eqn:E'; [done |]. by destruct Ek; apply klt_total.
      * rewrite Forall_elem in Hf. by apply Hf.
Qed.

Lemma om_find_insert k v m : om_find k (om_insert k v m) = Some v.
Proof.
  induction m as [|[k' v'] m IH]; simpl; [by rewrite decide_True |].
  destruct (klt k k'); simpl; [by rewrite decide_True |].
  case_decide; simpl; [by rewrite decide_True | by rewrite decide_False].
Qed.

Lemma om_find_insert_ne k k' v m : k <> k' -> om_find k' (om_insert k v m) = om_find k' m.
Proof.
  intros Hne. induction m as [|[k0 v0] m IH]; simpl; [by rewrite decide_False |].
  destruct (klt k k0); simpl; [by rewrite decide_False |].
  case_decide; subst; simpl; [by rewrite !decide_False | by rewrite IH].
Qed.

Lemma om_find_elem k v m : om_find k m = Some v -> (k, v) ∈ m.
Proof.
  induction m as [|[k' v'] m IH]; simpl; [done |]. rewrite elem_of_cons.
  case_decide; [intros [= ->]; subst; by left | right; auto].
Qed.

Lemma om_find_none k m : om_find k m = None <-> forall v, (k, v) ∉ m.
Proof.
  induction m as [|[k' v'] m IH]; simpl; [split; [intros _ v; by apply not_elem_of_nil | done] |].
  case_decide; subst.
  - split; [done |]. intros Hn. destruct (Hn v'). constructor.
  - rewrite IH. split; intros Hn v Hv; apply (Hn v);
      [apply elem_of_cons in Hv as [[= -> ->] | ?]; done | by constructor].
Qed.

Lemma om_find_iff k v m : om_wf m -> om_find k m = Some v <-> (k, v) ∈ m.
Proof.
  intros Hs. split; [apply om_find_elem |]. intros Hv.
  destruct (om_find k m) as [w|] eqn:E.
  - apply om_find_elem in E.
    pose proof (strictly_ascending_inj fst m (k, v) (k, w) Hs Hv E eq_refl). congruence.
  - by apply (proj1 (om_find_none k m) E) in Hv.
Qed.

Lemma om_insert_length_fresh k v m :
  om_find k m = None -> length (om_insert k v m) = S (length m).
Proof.
  induction m as [|[k' v'] m IH]; simpl; [done |].
  case_decide; [done |]. intros E. destruct (klt k k'); simpl; [done |].
  by rewrite IH.
Qed.

Lemma om_insert_length_present k v w m :
  om_wf m -> om_find k m = Some w -> length (om_insert k v m) = length m.
Proof.
  unfold om_wf, strictly_ascending.
  induction 1 as [|[k' v'] m Hs IH Hf]; simpl; [done |].
  case_decide as Ek; [subst; intros _ |].
  - by rewrite klt_irrefl.
  - intros E. destruct (klt k k') eqn:Elt.
    + apply om_find_elem in E. rewrite Forall_elem in Hf.
      pose proof (Hf _ E) as F. simpl in F. rewrite (klt_asym k k') in F; done.
    + simpl. by rewrite IH.
Qed.

Lemma om_find_update k init f m :
  om_find k (om_update k init f m) = Some (f (default init (om_find k m))).
Proof. unfold om_update. rewrite om_find_insert. by destruct (om_find k m). Qed.

Lemma om_find_update_ne k k' init f m :
  k <> k' -> om_find k' (om_update k init f m) = om_find k' m.
Proof. apply om_find_insert_ne. Qed.

Lemma om_erase_elem k m e : e ∈ om_erase k m <-> e ∈ m /\ e.1 <> k.
Proof.
  unfold om_erase. rewrite !list_elem_of_In, filter_In, negb_true_iff, bool_decide_eq_false. done.
Qed.

Lemma om_filter_wf (f : K * V -> bool) m : om_wf m -> om_wf (List.filter f m).
Proof. apply strictly_ascending_filter. Qed.

(** Well-formedness only concerns the keys. *)
Lemma om_wf_keys {W} (m : omap) (m' : list (K * W)) :
  map fst m' = map fst m -> om_wf m -> strictly_ascending fst m'.
Proof.
  unfold om_wf, strictly_ascending. revert m'.
  induction m as [|e m IH]; intros [|e' m'] E Hm; try discriminate; [constructor |].
  injection E as E Em. apply StronglySorted_inv in Hm as [Hm He].
  constructor; [by apply IH |]. rewrite E. clear - Em He. revert m' Em.
  induction m as [|x m IH]; intros [|x' m'] Em; try discriminate; constructor;
    injection Em as E Em; inversion He; subst; [by rewrite E | by apply IH].
Qed.

Lemma om_erase_wf k m : om_wf m -> om_wf (om_erase k m).
Proof. apply om_filter_wf. Qed.

Lemma om_find_erase_ne k k' m : om_wf m -> k <> k' -> om_find k' (om_erase k m) = om_find k' m.
Proof.
  intros Hs Hne. destruct (om_find k' m) as [v|] eqn:E.
  - apply om_find_iff; [by apply om_erase_wf |]. apply om_erase_elem.
    split; [by apply om_find_elem | done].
  - apply om_find_none. intros v [Hv _]%om_erase_elem. by apply (proj1 (om_find_none k' m) E v).
Qed.

Lemma om_find_erase k m : om_find k (om_erase k m) = None.
Proof. apply om_find_none. intros v [_ Hne]%om_erase_elem. done. Qed.

Lemma om_erase_length k v m :
  om_wf m -> om_find k m = Some v -> S (length (om_erase k m)) = length m.
Proof.
  unfold om_wf, strictly_ascending, om_erase.
  induction 1 as [|[k' v'] m Hs IH Hf]; simpl; [done |].
  case_decide as Ek.
  - subst. intros [= ->]. rewrite bool_decide_eq_true_2 by done. simpl. f_equal.
    assert (forall e, e ∈ m -> negb (bool_decide (e.1 = k)) = true) as Hall.
    { intros e He. rewrite Forall_elem in Hf. pose proof (Hf e He) as F. simpl in F.
      rewrite negb_true_iff, bool_decide_eq_false. intros Ek. by rewrite Ek, klt_irrefl in F. }
    clear - Hall. induction m as [|e m IH]; simpl; [done |].
    rewrite Hall by constructor. simpl. rewrite IH; [done |].
    intros e' He'. apply Hall. by constructor.
  - intros E. rewrite bool_decide_eq_false_2 by done. simpl. by rewrite IH.
Qed.
End OrderedMap.

Arguments om_wf {K V} {_} m.
Abbreviation omap K V := (list (K * V)).

Lemma om_find_map_values {K V W} `{!EqDecision K} (f : V -> W) (k : K) (m : omap K V) :
  om_find k (map (fun e => (e.1, f e.2)) m) = f <$> om_find k m.
Proof. induction m as [|[k' v] m IH]; simpl; [done |]. by case_decide. Qed.

#[global] Hint Resolve om_insert_wf om_erase_wf om_filter_wf sort_by_ascending : pathobs.
