(* ===== verification/Digest.v ===== *)
(** * Digests

    Models [include/pathobs/digest.hpp] and [src/digest.cpp]: the streaming
    SHA-256 hasher with its 64 byte buffer, the table driven CRC-32C, the
    [Digest] and [DigestId] values and their hexadecimal spelling.

    [sha256_spec] and [crc32c_bitwise] are the references: a one shot
    padded SHA-256 and the bit serial shift register of the CRC. *)

From S2P Require Import Prelude Errors StdAlgo.
#[local] Open Scope Z_scope.

(** ** SHA-256 *)

(** The round constants, row by row of the source's table, in decimal. *)
Definition kSha256K : list Z := [
  1116352408; 1899447441; 3049323471; 3921009573; 961987163; 1508970993; 2453635748; 2870763221;
  3624381080; 310598401; 607225278; 1426881987; 1925078388; 2162078206; 2614888103; 3248222580;
  3835390401; 4022224774; 264347078; 604807628; 770255983; 1249150122; 1555081692; 1996064986;
  2554220882; 2821834349; 2952996808; 3210313671; 3336571891; 3584528711; 113926993; 338241895;
  666307205; 773529912; 1294757372; 1396182291; 1695183700; 1986661051; 2177026350; 2456956037;
  2730485921; 2820302411; 3259730800; 3345764771; 3516065817; 3600352804; 4094571909; 275423344;
  430227734; 506948616; 659060556; 883997877; 958139571; 1322822218; 1537002063; 1747873779;
  1955562222; 2024104815; 2227730452; 2361852424; 2428436474; 2756734187; 3204031479; 3329325298].

Definition w32 (x : Z) : Z := wrap_u 32 x.

Definition rotr (value amount : Z) : Z :=
  Z.lor (Z.shiftr value amount) (w32 (Z.shiftl value (32 - amount))).

Definition big_sigma0 (x : Z) : Z := Z.lxor (Z.lxor (rotr x 2) (rotr x 13)) (rotr x 22).
Definition big_sigma1 (x : Z) : Z := Z.lxor (Z.lxor (rotr x 6) (rotr x 11)) (rotr x 25).
Definition small_sigma0 (x : Z) : Z := Z.lxor (Z.lxor (rotr x 7) (rotr x 18)) (Z.shiftr x 3).
Definition small_sigma1 (x : Z) : Z := Z.lxor (Z.lxor (rotr x 17) (rotr x 19)) (Z.shiftr x 10).

(** The eight words of [state_]. *)
Record Regs : Set := mk_regs { ra : Z; rb : Z; rc : Z; rd : Z; re : Z; rf : Z; rg : Z; rh : Z }.

Definition sha_init : Regs :=
  mk_regs 0x6a09e667 0xbb67ae85 0x3c6ef372 0xa54ff53a 0x510e527f 0x9b05688c 0x1f83d9ab 0x5be0cd19.

(** The big endian words of a block. *)
Fixpoint be_words (block : list Z) : list Z :=
  match block with
  | b0 :: b1 :: b2 :: b3 :: rest =>
      Z.lor (Z.lor (Z.lor (Z.shiftl b0 24) (Z.shiftl b1 16)) (Z.shiftl b2 8)) b3 :: be_words rest
  | _ => []
  end.

(** The loop that fills [schedule[16..63]], on the reversed schedule:
    [schedule[i - k]] is element [k - 1]. *)
Fixpoint extend_schedule (n : nat) (rev_schedule : list Z) : list Z :=
  match n with
  | O => rev_schedule
  | S n =>
      let at_ k := nth (k - 1) rev_schedule 0 in
      let word := w32 (small_sigma1 (at_ 2%nat) + at_ 7%nat + small_sigma0 (at_ 15%nat) + at_ 16%nat) in
      extend_schedule n (word :: rev_schedule)
  end.

Definition schedule (block : list Z) : list Z := rev (extend_schedule 48 (rev (be_words block))).

Definition sha_round (s : Regs) (kw : Z * Z) : Regs :=
  let (k, w) := kw in
  let ch := Z.lxor (Z.land (re s) (rf s)) (Z.land (w32 (Z.lnot (re s))) (rg s)) in
  let maj := Z.lxor (Z.lxor (Z.land (ra s) (rb s)) (Z.land (ra s) (rc s))) (Z.land (rb s) (rc s)) in
  let temp1 := w32 (rh s + big_sigma1 (re s) + ch + k + w) in
  let temp2 := w32 (big_sigma0 (ra s) + maj) in
  mk_regs (w32 (temp1 + temp2)) (ra s) (rb s) (rc s) (w32 (rd s + temp1)) (re s) (rf s) (rg s).

(** [Sha256::compress] *)
Definition compress (s : Regs) (block : list Z) : Regs :=
  let e := fold_left sha_round (combine kSha256K (schedule block)) s in
  mk_regs (w32 (ra s + ra e)) (w32 (rb s + rb e)) (w32 (rc s + rc e)) (w32 (rd s + rd e))
          (w32 (re s + re e)) (w32 (rf s + rf e)) (w32 (rg s + rg e)) (w32 (rh s + rh e)).

(** [class Sha256] *)
Record Sha256 : Set := mk_sha256 {
  state_ : Regs;
  buffer_ : list Z;
  byte_count_ : Z;
  buffered_ : nat
}.

Definition sha256_new : Sha256 := mk_sha256 sha_init (replicate 64 0) 0 0.

(** [buffer_[buffered_++] = byte] *)
Definition sha_push (h : Sha256) (byte : Z) : Sha256 :=
  mk_sha256 (state_ h) (<[buffered_ h := byte]> (buffer_ h)) (byte_count_ h) (S (buffered_ h)).

(** [while (remaining > 0 && buffered_ < buffer_.size())] *)
Fixpoint sha_fill (h : Sha256) (data : list Z) : Sha256 * list Z :=
  match data with
  | [] => (h, [])
  | byte :: rest =>
      if (buffered_ h <? 64)%nat then sha_fill (sha_push h byte) rest else (h, data)
  end.

(** [while (remaining >= buffer_.size()) compress(cursor)]; one unit of fuel
    per byte is more than the loop needs. *)
Fixpoint sha_blocks (fuel : nat) (s : Regs) (data : list Z) : Regs * list Z :=
  match fuel with
  | O => (s, data)
  | S fuel =>
      if (64 <=? length data)%nat
      then sha_blocks fuel (compress s (take 64 data)) (drop 64 data)
      else (s, data)
  end.

(** [Sha256::update] *)
Definition sha_update (h : Sha256) (data : list Z) : Sha256 :=
  let h := mk_sha256 (state_ h) (buffer_ h)
             (wrap_u 64 (byte_count_ h + Z.of_nat (length data))) (buffered_ h) in
  let '(h, data) :=
    if negb (buffered_ h =? 0)%nat then
      let '(h, data) := sha_fill h data in
      if (buffered_ h =? 64)%nat
      then (mk_sha256 (compress (state_ h) (buffer_ h)) (buffer_ h) (byte_count_ h) 0, data)
      else (h, data)
    else (h, data) in
  let '(s, data) := sha_blocks (length data) (state_ h) data in
  let h := mk_sha256 s (buffer_ h) (byte_count_ h) (buffered_ h) in
  fst (sha_fill h data).

(** [while (buffered_ != 56) update(&zero, 1)]: at most 63 iterations. *)
Fixpoint sha_pad (fuel : nat) (h : Sha256) : Sha256 :=
  match fuel with
  | O => h
  | S fuel => if (buffered_ h =? 56)%nat then h else sha_pad fuel (sha_update h [0])
  end.

(** The bytes [(v >> (8 * (n - 1 - i))) & 0xff]. *)
Definition be_bytes (n : nat) (v : Z) : list Z := rev (le_bytes n v).

Definition regs_bytes (s : Regs) : list Z :=
  be_bytes 4 (ra s) ++ be_bytes 4 (rb s) ++ be_bytes 4 (rc s) ++ be_bytes 4 (rd s) ++
  be_bytes 4 (re s) ++ be_bytes 4 (rf s) ++ be_bytes 4 (rg s) ++ be_bytes 4 (rh s).

(** [Sha256::finish]: the digest bytes and the reset hasher. *)
Definition sha_finish (h : Sha256) : list Z * Sha256 :=
  let bit_length := wrap_u 64 (byte_count_ h * 8) in
  let h := sha_pad 64 (sha_update h [0x80]) in
  let h := fold_left sha_push (be_bytes 8 bit_length) h in
  (regs_bytes (compress (state_ h) (buffer_ h)), sha256_new).

(** ** CRC-32C *)

Definition kPolynomial : Z := 0x82f63b78.

Definition crc_bit (crc : Z) : Z :=
  if negb (Z.land crc 1 =? 0) then Z.lxor (Z.shiftr crc 1) kPolynomial else Z.shiftr crc 1.

Definition make_crc32c_table : list Z := map (fun i => Nat.iter 8 crc_bit (Z.of_nat i)) (seq 0 256).

Definition crc32c_update (crc byte : Z) : Z :=
  Z.lxor (nth (Z.to_nat (Z.land (Z.lxor crc byte) 0xff)) make_crc32c_table 0) (Z.shiftr crc 8).

Definition crc32c (data : list Z) : Z :=
  Z.lxor (fold_left crc32c_update data 0xffffffff) 0xffffffff.

(** ** Digest and DigestId *)

Definition kDigestBytes : nat := 32.

Record Digest : Set := mk_digest { bytes_ : list Z }.

#[global] Instance Digest_eq_dec : EqDecision Digest.
Proof. solve_decision. Defined.

(** The default constructed digest. *)
Definition digest_zero : Digest := mk_digest (replicate kDigestBytes 0).

(** [Digest::of] *)
Definition digest_of (data : list Z) : Digest :=
  mk_digest (fst (sha_finish (sha_update sha256_new data))).

Definition is_zero (d : Digest) : bool := forallb (fun b => b =? 0) (bytes_ d).

Definition hex_digit (value : Z) : Ascii.ascii :=
  if value <? 10 then ascii_of_byte (48 + value) else ascii_of_byte (97 + (value - 10)).

Fixpoint hex_of (bs : list Z) : string :=
  match bs with
  | [] => EmptyString
  | b :: rest => String (hex_digit (Z.shiftr b 4)) (String (hex_digit (Z.land b 0x0f)) (hex_of rest))
  end.

Definition hex (d : Digest) : string := hex_of (bytes_ d).

(** The [decode] and [nibble] lambdas: -1 when the character is not a digit. *)
Definition nibble (c : Ascii.ascii) : Z :=
  let v := byte_of_ascii c in
  if (48 <=? v) && (v <=? 57) then v - 48
  else if (97 <=? v) && (v <=? 102) then v - 97 + 10
  else if (65 <=? v) && (v <=? 70) then v - 65 + 10
  else -1.

Fixpoint parse_nibbles (s : string) : option (list Z) :=
  match s with
  | String hi (String lo rest) =>
      if (nibble hi <? 0) || (nibble lo <? 0) then None
      else (fun bs => Z.lor (Z.shiftl (nibble hi) 4) (nibble lo) :: bs) <$> parse_nibbles rest
  | _ => Some []
  end.

(** [Digest::parse_hex] *)
Definition parse_hex (s : string) : Result Digest :=
  fail? negb (String.length s =? 2 * kDigestBytes)%nat
    with error InvalidFormat "digest must be 64 hexadecimal characters" in
  match parse_nibbles s with
  | Some bs => Ok (mk_digest bs)
  | None => Err (error InvalidFormat "digest contains a non-hexadecimal character")
  end.

(** [DigestId<Tag, 16>]; the tag distinguishes the identities statically. *)
Inductive DigestTag : Set := EvidenceIdTag | ComparisonIdTag | FindingIdTag.

Definition kDigestIdBytes : nat := 16.

Record DigestId (tag : DigestTag) : Set := mk_digest_id { id_bytes : list Z }.
Arguments mk_digest_id {tag} id_bytes.
Arguments id_bytes {tag} d.

#[global] Instance DigestId_eq_dec tag : EqDecision (DigestId tag).
Proof. solve_decision. Defined.

Definition digest_id_zero {tag} : DigestId tag := mk_digest_id (replicate kDigestIdBytes 0).

Definition from_digest {tag} (d : Digest) : DigestId tag :=
  mk_digest_id (take kDigestIdBytes (bytes_ d)).

Definition digest_id_valid {tag} (i : DigestId tag) : bool := existsb (fun b => negb (b =? 0)) (id_bytes i).

Definition digest_id_str {tag} (i : DigestId tag) : string := hex_of (id_bytes i).

Definition digest_id_parse {tag} (s : string) : Result (DigestId tag) :=
  fail? negb (String.length s =? kDigestIdBytes * 2)%nat
    with error InvalidIdentity "digest identity has the wrong length" in
  match parse_nibbles s with
  | Some bs => Ok (mk_digest_id bs)
  | None => Err (error InvalidIdentity "digest identity is not hexadecimal")
  end.

#[global] Instance DigestId_key_order tag : KeyOrder (DigestId tag).
Proof.
  refine {| klt a b := klt (id_bytes a) (id_bytes b) |}; intros *.
  - apply klt_irrefl.
  - apply klt_trans.
  - destruct a as [a], b as [b]. simpl. intros. f_equal. by apply klt_total.
Defined.

Definition EvidenceId := DigestId EvidenceIdTag.
Definition ComparisonId := DigestId ComparisonIdTag.
Definition FindingId := DigestId FindingIdTag.

(** ** References *)

(** FIPS 180-4 padding of a message, with the length field modulo 2^64. *)
Definition sha_padding (len : nat) : list Z :=
  [0x80] ++ replicate (Nat.modulo (55 + 64 - Nat.modulo len 64) 64) 0 ++
  be_bytes 8 (wrap_u 64 (Z.of_nat len * 8)).

Definition sha256_spec (m : list Z) : list Z :=
  let padded := m ++ sha_padding (length m) in
  regs_bytes (fst (sha_blocks (length padded) sha_init padded)).

(** The bit serial register: eight shifts per byte. *)
Definition crc32c_bitwise (data : list Z) : Z :=
  Z.lxor (fold_left (fun crc b => Nat.iter 8 crc_bit (Z.lxor crc b)) data 0xffffffff) 0xffffffff.

(** ** The hasher refines the one shot reference *)

Arguments compress : simpl never.
Arguments sha256_spec : simpl never.
Arguments sha_update : simpl never.
Arguments sha_finish : simpl never.
Arguments sha_padding : simpl never.

Lemma sha_blocks_fuel f s d :
  (length d <= f)%nat -> sha_blocks f s d = sha_blocks (length d) s d.
Proof.
  revert f s d. assert (forall n f g s d, (length d <= n)%nat -> (length d <= f)%nat ->
    (length d <= g)%nat -> sha_blocks f s d = sha_blocks g s d) as Haux.
  { induction n as [|n IH]; intros f g s d Hn Hf Hg.
    - assert (d = []) as -> by (destruct d; simpl in *; [done | lia]). by destruct f, g.
    - destruct d as [|x d]; [by destruct f, g |].
      destruct f as [|f]; [simpl in *; lia |]. destruct g as [|g]; [simpl in *; lia |].
      cbn [sha_blocks]. destruct (64 <=? length (x :: d))%nat eqn:E; [| done].
      apply IH; rewrite length_drop; cbn [length] in *; lia. }
  intros. by apply (Haux (length d)).
Qed.

(** The registers after all full blocks of a message, and the rest of it. *)
Definition absorb (s : Regs) (m : list Z) : Regs * list Z := sha_blocks (length m) s m.

Lemma absorb_unfold s m :
  absorb s m = if (64 <=? length m)%nat
               then absorb (compress s (take 64 m)) (drop 64 m) else (s, m).
Proof.
  unfold absorb. destruct m as [|x m]; [done |]. cbn [sha_blocks length].
  destruct (64 <=? S (length m))%nat eqn:E; [| done].
  apply sha_blocks_fuel. rewrite length_drop. cbn [length]. apply Nat.leb_le in E. lia.
Qed.

Lemma absorb_small s m : (length m < 64)%nat -> absorb s m = (s, m).
Proof. intros H. rewrite absorb_unfold. by rewrite (proj2 (Nat.leb_gt _ _)). Qed.

Lemma absorb_block s b m : length b = 64%nat -> absorb s (b ++ m) = absorb (compress s b) m.
Proof.
  intros H. rewrite absorb_unfold, length_app, H.
  rewrite (proj2 (Nat.leb_le _ _)) by lia. f_equal; [f_equal; by apply take_app_length' | by apply drop_app_length'].
Qed.

Lemma absorb_app s m d :
  absorb s (m ++ d) = absorb (fst (absorb s m)) (snd (absorb s m) ++ d).
Proof.
  remember (length m) as n eqn:Hn. revert s m Hn.
  induction n as [n IH] using lt_wf_ind. intros s m Hn.
  destruct (Nat.le_gt_cases 64 (length m)) as [Hm | Hm].
  - assert (exists b m', m = b ++ m' /\ length b = 64%nat) as (b & m' & -> & Hb).
    { exists (take 64 m), (drop 64 m). rewrite take_drop, length_take. split; [done | lia]. }
    rewrite <- app_assoc, (absorb_block s b (m' ++ d)), (absorb_block s b m') by done.
    apply (IH (length m') ltac:(rewrite Hn, length_app; lia) (compress s b) m' eq_refl).
  - by rewrite (absorb_small s m).
Qed.

Lemma absorb_rest s m :
  (length (snd (absorb s m)) < 64)%nat /\
  Nat.modulo (length (snd (absorb s m))) 64 = Nat.modulo (length m) 64.
Proof.
  remember (length m) as n eqn:Hn. revert s m Hn.
  induction n as [n IH] using lt_wf_ind. intros s m Hn. rewrite absorb_unfold.
  destruct (64 <=? length m)%nat eqn:E; [apply Nat.leb_le in E | apply Nat.leb_gt in E].
  - destruct (IH (length (drop 64 m)) ltac:(rewrite length_drop; lia)
      (compress s (take 64 m)) (drop 64 m) eq_refl) as [H1 H2].
    split; [done |]. rewrite H2, length_drop, Hn.
    replace (length m) with ((length m - 64) + 1 * 64)%nat at 2 by lia.
    by rewrite Nat.Div0.mod_add.
  - subst n. simpl. lia.
Qed.

(** A hasher represents the message fed to it so far. *)
Definition represents (h : Sha256) (m : list Z) : Prop :=
  absorb sha_init m = (state_ h, take (buffered_ h) (buffer_ h)) /\
  (buffered_ h < 64)%nat /\ length (buffer_ h) = 64%nat /\
  byte_count_ h = wrap_u 64 (Z.of_nat (length m)).

Lemma represents_new : represents sha256_new [].
Proof. repeat split; simpl; lia. Qed.

Lemma represents_buffered h m : represents h m -> buffered_ h = Nat.modulo (length m) 64.
Proof.
  intros (Ha & Hb & Hl & _). destruct (absorb_rest sha_init m) as [H1 H2].
  rewrite Ha in H2. cbn [snd] in H2. rewrite length_take, Nat.min_l in H2 by lia.
  rewrite <- H2. symmetry. by apply Nat.mod_small.
Qed.

Lemma sha_push_take h b :
  (buffered_ h < length (buffer_ h))%nat ->
  take (buffered_ (sha_push h b)) (buffer_ (sha_push h b)) = take (buffered_ h) (buffer_ h) ++ [b].
Proof.
  intros H. simpl. rewrite (take_S_r _ _ b) by (by apply list_lookup_insert_eq).
  by rewrite take_insert_ge by lia.
Qed.

Lemma sha_fill_spec h d :
  length (buffer_ h) = 64%nat -> (buffered_ h <= 64)%nat ->
  let '(h', rest) := sha_fill h d in
  state_ h' = state_ h /\ byte_count_ h' = byte_count_ h /\
  length (buffer_ h') = 64%nat /\ (buffered_ h' <= 64)%nat /\
  take (buffered_ h) (buffer_ h) ++ d = take (buffered_ h') (buffer_ h') ++ rest /\
  (buffered_ h' = 64%nat \/ rest = []).
Proof.
  revert h. induction d as [|b d IH]; intros h Hl Hb; simpl; [naive_solver |].
  destruct (buffered_ h <? 64)%nat eqn:E; [apply Nat.ltb_lt in E | apply Nat.ltb_ge in E].
  - assert (length (buffer_ (sha_push h b)) = 64%nat) as Hl' by (simpl; by rewrite length_insert).
    specialize (IH (sha_push h b) Hl' ltac:(simpl; lia)).
    destruct (sha_fill (sha_push h b) d) as [h' rest].
    destruct IH as (H1 & H2 & H3 & H4 & H5 & H6). repeat split; try done.
    rewrite <- H5, sha_push_take by lia. by rewrite <- app_assoc.
  - repeat split; try done. left. lia.
Qed.

(** Filling a buffer that cannot overflow leaves nothing. *)
Lemma sha_fill_all h d :
  length (buffer_ h) = 64%nat -> (buffered_ h + length d < 64)%nat ->
  let h' := fst (sha_fill h d) in
  state_ h' = state_ h /\ byte_count_ h' = byte_count_ h /\
  length (buffer_ h') = 64%nat /\ (buffered_ h' = buffered_ h + length d)%nat /\
  take (buffered_ h') (buffer_ h') = take (buffered_ h) (buffer_ h) ++ d.
Proof.
  intros Hl Hb. pose proof (sha_fill_spec h d Hl ltac:(lia)) as H.
  destruct (sha_fill h d) as [h' rest]. simpl. destruct H as (H1 & H2 & H3 & H4 & H5 & H6).
  apply (f_equal length) in H5 as H7.
  rewrite !length_app, !length_take, H3, Hl in H7.
  assert (rest = []) as ->.
  { destruct H6 as [H6 | ?]; [| done]. destruct rest; [done |]. simpl in H7. lia. }
  rewrite app_nil_r in H5. simpl in H7. repeat split; try done. lia.
Qed.

(** [update] appends to the represented message, whatever the chunking. *)
Lemma sha_update_represents h m d : represents h m -> represents (sha_update h d) (m ++ d).
Proof.
  intros (Ha & Hb & Hl & Hc). unfold sha_update. simpl.
  set (h1 := mk_sha256 (state_ h) (buffer_ h) (wrap_u 64 (byte_count_ h + Z.of_nat (length d)))
               (buffered_ h)).
  assert (byte_count_ h1 = wrap_u 64 (Z.of_nat (length (m ++ d)))) as Hc1.
  { simpl. rewrite Hc, length_app, Nat2Z.inj_add, !wrap_u_mod by lia.
    by rewrite Zplus_mod_idemp_l. }
  (* after the buffer has been topped up *)
  assert (forall h2 rest,
    length (buffer_ h2) = 64%nat -> byte_count_ h2 = byte_count_ h1 -> (buffered_ h2 < 64)%nat ->
    (buffered_ h2 = 0%nat \/ rest = []) ->
    absorb sha_init (m ++ d) = absorb (state_ h2) (take (buffered_ h2) (buffer_ h2) ++ rest) ->
    represents
      (let '(s, data) := sha_blocks (length rest) (state_ h2) rest in
       fst (sha_fill (mk_sha256 s (buffer_ h2) (byte_count_ h2) (buffered_ h2)) data)) (m ++ d)) as Htail.
  { intros h2 rest Hl2 Hc2 Hb2 Hor Habs.
    change (sha_blocks (length rest) (state_ h2) rest) with (absorb (state_ h2) rest).
    pose proof (absorb_rest (state_ h2) rest) as [Hr _].
    destruct (absorb (state_ h2) rest) as [s data] eqn:Er. simpl in Hr.
    assert (buffered_ h2 + length data < 64)%nat as Hfit.
    { destruct Hor as [-> | ->]; [lia |]. rewrite absorb_small in Er by (simpl; lia).
      injection Er as <- <-. simpl. lia. }
    destruct (sha_fill_all (mk_sha256 s (buffer_ h2) (byte_count_ h2) (buffered_ h2)) data
      Hl2 Hfit) as (S1 & S2 & S3 & S4 & S5). simpl in S1, S2, S4, S5.
    unfold represents. rewrite S1, S2, S3, S5, Habs. repeat split; [| lia | by rewrite Hc2, Hc1].
    destruct Hor as [E0 | ->].
    - rewrite E0. simpl. by rewrite Er.
    - rewrite absorb_small in Er by (simpl; lia). injection Er as <- <-.
      rewrite app_nil_r. apply absorb_small. rewrite length_take. lia. }
  destruct (buffered_ h =? 0)%nat eqn:E0; simpl.
  - apply Nat.eqb_eq in E0.
    pose proof (Htail h1 d Hl eq_refl Hb (or_introl E0)) as Hfin.
    destruct (sha_blocks (length d) (state_ h) d) eqn:Es. simpl in Hfin. rewrite Es in Hfin.
    apply Hfin. by rewrite absorb_app, Ha.
  - pose proof (sha_fill_spec h1 d Hl ltac:(simpl; lia)) as Hf.
    destruct (sha_fill h1 d) as [h2 rest]. destruct Hf as (F1 & F2 & F3 & F4 & F5 & F6).
    simpl in F1, F5.
    assert (absorb sha_init (m ++ d) = absorb (state_ h2) (take (buffered_ h2) (buffer_ h2) ++ rest))
      as Habs by (by rewrite absorb_app, Ha, F1, <- F5).
    destruct (buffered_ h2 =? 64)%nat eqn:E64.
    + apply Nat.eqb_eq in E64.
      rewrite E64, take_ge, (absorb_block (state_ h2) (buffer_ h2) rest) in Habs by lia.
      pose proof (Htail (mk_sha256 (compress (state_ h2) (buffer_ h2)) (buffer_ h2) (byte_count_ h2) 0)
        rest F3 F2 ltac:(simpl; lia) (or_introl eq_refl) Habs) as Hfin. simpl in *.
      by destruct (sha_blocks _ _ rest).
    + apply Nat.eqb_neq in E64. destruct F6 as [? | Hrest]; [done |].
      pose proof (Htail h2 rest F3 F2 ltac:(lia) (or_intror Hrest) Habs) as Hfin.
      by destruct (sha_blocks _ _ rest).
Qed.

(** The padding loop of [finish] stops, at 56 buffered bytes. *)
Lemma sha_pad_represents fuel h m :
  represents h m -> (Nat.modulo (120 - buffered_ h) 64 <= fuel)%nat ->
  represents (sha_pad fuel h) (m ++ replicate (Nat.modulo (120 - buffered_ h) 64) 0) /\
  buffered_ (sha_pad fuel h) = 56%nat.
Proof.
  revert h m. induction fuel as [|fuel IH]; intros h m Hr Hk;
    pose proof (represents_buffered h m Hr) as Hbuf;
    pose proof Hr as (_ & Hb & _ & _); cbn [sha_pad].
  - assert (Nat.modulo (120 - buffered_ h) 64 = 0%nat) as Hz by lia.
    assert (buffered_ h = 56%nat) as Hb56 by div_lia.
    rewrite Hb56. simpl. by rewrite app_nil_r.
  - destruct (buffered_ h =? 56)%nat eqn:E; [apply Nat.eqb_eq in E | apply Nat.eqb_neq in E].
    { rewrite E. simpl. by rewrite app_nil_r. }
    pose proof (sha_update_represents h m [0] Hr) as Hr'.
    pose proof (represents_buffered _ _ Hr') as Hbuf'. rewrite length_app in Hbuf'. cbn [length] in Hbuf'.
    assert (buffered_ (sha_update h [0]) = Nat.modulo (buffered_ h + 1) 64) as Hn.
    { rewrite Hbuf', Hbuf. by rewrite Nat.Div0.add_mod_idemp_l. }
    assert (Nat.modulo (120 - buffered_ h) 64 = S (Nat.modulo (120 - buffered_ (sha_update h [0])) 64))
      as Hstep.
    { clear - Hn Hb E. rewrite Hn. remember (buffered_ h) as b. clear - Hb E. div_lia. }
    rewrite Hstep in Hk |- *.
    destruct (IH (sha_update h [0]) (m ++ [0]) Hr' ltac:(lia)) as [H1 H2].
    rewrite <- app_assoc in H1. done.
Qed.

Lemma sha_push_all h bs :
  (buffered_ h + length bs <= length (buffer_ h))%nat ->
  let h' := fold_left sha_push bs h in
  state_ h' = state_ h /\ buffered_ h' = (buffered_ h + length bs)%nat /\
  length (buffer_ h') = length (buffer_ h) /\
  take (buffered_ h') (buffer_ h') = take (buffered_ h) (buffer_ h) ++ bs.
Proof.
  revert h. induction bs as [|b bs IH]; intros h Hl; simpl.
  - rewrite app_nil_r. repeat split; lia.
  - cbn [length] in Hl. destruct (IH (sha_push h b)) as (H1 & H2 & H3 & H4).
    { simpl. rewrite length_insert. lia. }
    rewrite H1, H3, H4, H2, sha_push_take by lia. simpl. rewrite length_insert, <- app_assoc.
    repeat split; lia.
Qed.

Lemma length_be_bytes n v : length (be_bytes n v) = n.
Proof. unfold be_bytes. by rewrite length_rev, length_le_bytes. Qed.

Lemma sha_finish_represents h m :
  represents h m -> sha_finish h = (sha256_spec m, sha256_new).
Proof.
  intros Hr. unfold sha_finish, sha256_spec. f_equal. f_equal.
  pose proof (sha_update_represents h m [0x80] Hr) as Hr1.
  pose proof (represents_buffered _ _ Hr1) as Hb1.
  rewrite length_app in Hb1. cbn [length] in Hb1.
  set (h1 := sha_update h [0x80]) in *.
  destruct (sha_pad_represents 64 h1 _ Hr1) as [Hr2 Hb2].
  { pose proof (Nat.mod_upper_bound (120 - buffered_ h1) 64 ltac:(lia)). lia. }
  set (h2 := sha_pad 64 h1) in *.
  destruct Hr2 as (Ha2 & _ & Hl2 & _).
  assert (byte_count_ h = wrap_u 64 (Z.of_nat (length m))) as Hc by apply Hr.
  assert (wrap_u 64 (byte_count_ h * 8) = wrap_u 64 (Z.of_nat (length m) * 8)) as Hlen.
  { rewrite Hc, !wrap_u_mod by lia. by rewrite Zmult_mod_idemp_l. }
  rewrite Hlen. set (lb := be_bytes 8 _).
  assert (length lb = 8%nat) as Hlb by apply length_be_bytes.
  destruct (sha_push_all h2 lb) as (P1 & P2 & P3 & P4); [lia |].
  set (h3 := fold_left sha_push lb h2) in *. rewrite P1.
  rewrite P2, (take_ge (buffer_ h3)) in P4 by lia.
  change (sha_blocks ?n sha_init ?p) with (absorb sha_init p).
  assert (m ++ sha_padding (length m) =
    ((m ++ [0x80]) ++ replicate (Nat.modulo (120 - buffered_ h1) 64) 0) ++ lb) as ->.
  { unfold sha_padding. rewrite <- !app_assoc. do 4 f_equal.
    rewrite Hb1. remember (length m) as n. clear. div_lia. }
  rewrite absorb_app, Ha2. cbn [fst snd].
  rewrite <- (app_nil_r (take (buffered_ h2) (buffer_ h2) ++ lb)), <- P4, absorb_block by lia.
  by rewrite absorb_small by (simpl; lia).
Qed.

(** Feeding a message in any two pieces and finishing is the reference digest of
    the whole, and the hasher comes back reset. *)
Lemma digest_of_app_spec (a b : list Z) :
  sha_finish (sha_update (sha_update sha256_new a) b) = (sha256_spec (a ++ b), sha256_new).
Proof.
  apply sha_finish_represents. apply sha_update_represents.
  apply (sha_update_represents sha256_new []), represents_new.
Qed.

Lemma digest_of_spec m : bytes_ (digest_of m) = sha256_spec m.
Proof.
  unfold digest_of. cbn [bytes_].
  rewrite (sha_finish_represents (sha_update sha256_new m) m); [by cbn [fst] |].
  apply (sha_update_represents sha256_new []), represents_new.
Qed.

Lemma regs_bytes_ok s : bytes_ok (regs_bytes s) /\ length (regs_bytes s) = kDigestBytes.
Proof.
  unfold regs_bytes. split.
  - rewrite !Forall_app. repeat split; apply Forall_rev, le_bytes_ok.
  - rewrite !length_app, !length_be_bytes. done.
Qed.

Lemma digest_of_ok m : bytes_ok (bytes_ (digest_of m)) /\ length (bytes_ (digest_of m)) = kDigestBytes.
Proof. rewrite digest_of_spec. apply regs_bytes_ok. Qed.

#[global] Opaque digest_of.

(** ** CRC-32C *)

Lemma crc_bit_alt x : crc_bit x = Z.lxor (Z.shiftr x 1) (if Z.odd x then kPolynomial else 0).
Proof.
  unfold crc_bit. change 1 with (Z.ones 1) at 1. rewrite Z.land_ones, Zmod_odd by lia.
  destruct (Z.odd x); simpl; [done | by rewrite Z.lxor_0_r].
Qed.

(** A shift of the register is linear over exclusive or. *)
Lemma crc_bit_lxor a b : crc_bit (Z.lxor a b) = Z.lxor (crc_bit a) (crc_bit b).
Proof.
  rewrite !crc_bit_alt, Z.shiftr_lxor, <- !Z.bit0_odd, Z.lxor_spec.
  apply Z.bits_inj'. intros n _. rewrite !Z.lxor_spec.
  destruct (Z.testbit a 0), (Z.testbit b 0); simpl; rewrite ?Z.bits_0;
    destruct (Z.testbit (Z.shiftr a 1) n), (Z.testbit (Z.shiftr b 1) n), (Z.testbit kPolynomial n); done.
Qed.

Lemma crc_iter_lxor n a b :
  Nat.iter n crc_bit (Z.lxor a b) = Z.lxor (Nat.iter n crc_bit a) (Nat.iter n crc_bit b).
Proof. induction n as [|n IH]; simpl; [done |]. by rewrite IH, crc_bit_lxor. Qed.

Lemma crc_iter_shiftl n y : Nat.iter n crc_bit (Z.shiftl y (Z.of_nat n)) = y.
Proof.
  induction n as [|n IH]; [apply Z.shiftl_0_r |]. rewrite Nat.iter_succ_r.
  replace (crc_bit (Z.shiftl y (Z.of_nat (S n)))) with (Z.shiftl y (Z.of_nat n)); [done |].
  rewrite crc_bit_alt, Nat2Z.inj_succ, <- Z.bit0_odd, Z.shiftl_spec_low by lia.
  rewrite Z.lxor_0_r, Z.shiftr_shiftl_l by lia. f_equal. lia.
Qed.

Lemma split_low_byte x : x = Z.lxor (Z.land x 255) (Z.shiftl (Z.shiftr x 8) 8).
Proof.
  change 255 with (Z.ones 8). apply Z.bits_inj'. intros n Hn.
  rewrite Z.lxor_spec, Z.land_spec. destruct (decide (n < 8)).
  - rewrite Z.shiftl_spec_low, Z.ones_spec_low by lia. by rewrite andb_true_r, xorb_false_r.
  - rewrite Z.shiftl_spec_high, Z.shiftr_spec, Z.ones_spec_high by lia.
    rewrite andb_false_r. simpl. f_equal. lia.
Qed.

Lemma crc_iter_8 x :
  Nat.iter 8 crc_bit x = Z.lxor (Nat.iter 8 crc_bit (Z.land x 255)) (Z.shiftr x 8).
Proof.
  rewrite (split_low_byte x) at 1. rewrite crc_iter_lxor. f_equal.
  apply (crc_iter_shiftl 8 (Z.shiftr x 8)).
Qed.

Lemma crc_table_nth i :
  (i < 256)%nat -> nth i make_crc32c_table 0 = Nat.iter 8 crc_bit (Z.of_nat i).
Proof.
  intros Hi. unfold make_crc32c_table.
  rewrite (nth_indep _ 0 (Nat.iter 8 crc_bit (Z.of_nat 0))) by (by rewrite length_map, length_seq).
  rewrite (map_nth (fun i => Nat.iter 8 crc_bit (Z.of_nat i)) (seq 0 256) 0%nat i).
  by rewrite seq_nth.
Qed.

Lemma crc32c_update_bitwise crc b :
  byte_ok b -> crc32c_update crc b = Nat.iter 8 crc_bit (Z.lxor crc b).
Proof.
  intros Hb. unfold crc32c_update. rewrite (crc_iter_8 (Z.lxor crc b)).
  pose proof (land_255 (Z.lxor crc b)) as E.
  assert (0 <= Z.land (Z.lxor crc b) 255 < 256) as Hr by (rewrite E; div_lia).
  rewrite crc_table_nth by lia. rewrite Z2Nat.id by lia. f_equal.
  rewrite Z.shiftr_lxor. rewrite (shiftr_8 b), (Z.div_small b 256) by done.
  by rewrite Z.lxor_0_r.
Qed.

Lemma crc_bit_ok x : u_ok 32 x -> u_ok 32 (crc_bit x).
Proof.
  intros Hx. rewrite crc_bit_alt. apply u_ok_lxor; [done | |].
  - unfold u_ok in *. rewrite Z.shiftr_div_pow2 by lia. change (2 ^ 1) with 2. div_lia.
  - by destruct (Z.odd x).
Qed.

Lemma crc_bit_kernel x : u_ok 32 x -> crc_bit x = 0 -> x = 0.
Proof.
  unfold u_ok. intros Hx. rewrite crc_bit_alt, Z.shiftr_div_pow2 by lia. change (2 ^ 1) with 2.
  pose proof (Z.div_mod x 2 ltac:(lia)) as Hdm. rewrite Zmod_odd in Hdm.
  intros E%Z.lxor_eq. destruct (Z.odd x); unfold kPolynomial in *; div_lia.
Qed.

Lemma crc_iter_ok n x : u_ok 32 x -> u_ok 32 (Nat.iter n crc_bit x).
Proof. intros Hx. induction n as [|n IH]; simpl; [done | by apply crc_bit_ok]. Qed.

(** Distinct register states stay distinct under any number of shifts. *)
Lemma crc_iter_inj n a b :
  u_ok 32 a -> u_ok 32 b -> Nat.iter n crc_bit a = Nat.iter n crc_bit b -> a = b.
Proof.
  intros Ha Hb E. apply Z.lxor_eq.
  assert (Nat.iter n crc_bit (Z.lxor a b) = 0) as Hz by (by rewrite crc_iter_lxor, E, Z.lxor_nilpotent).
  pose proof (u_ok_lxor 32 a b ltac:(lia) Ha Hb) as Hab. clear E.
  induction n as [|n IH]; [done |]. apply IH. simpl in Hz.
  apply crc_bit_kernel; [by apply crc_iter_ok | done].
Qed.

Definition crc_feed (crc : Z) (data : list Z) : Z :=
  fold_left (fun crc b => Nat.iter 8 crc_bit (Z.lxor crc b)) data crc.

Lemma crc_fold_bitwise crc data :
  bytes_ok data -> fold_left crc32c_update data crc = crc_feed crc data.
Proof.
  unfold crc_feed. intros Hd. revert crc. induction Hd as [|b data Hb Hd IH]; intros crc; [done |].
  cbn [fold_left]. by rewrite crc32c_update_bitwise, IH.
Qed.

Lemma byte_u_ok b : byte_ok b -> u_ok 32 b.
Proof. unfold byte_ok, u_ok. lia. Qed.

Lemma crc_feed_ok crc data : u_ok 32 crc -> bytes_ok data -> u_ok 32 (crc_feed crc data).
Proof.
  intros Hc Hd. revert crc Hc. induction Hd as [|b data Hb Hd IH]; intros crc Hc; [done |].
  apply IH. apply crc_iter_ok, u_ok_lxor; [done | done | by apply byte_u_ok].
Qed.

Lemma crc32c_ok data : bytes_ok data -> u_ok 32 (crc32c data).
Proof.
  intros Hd. unfold crc32c. rewrite crc_fold_bitwise by done.
  apply u_ok_lxor; [lia | by apply crc_feed_ok | done].
Qed.

Lemma lxor_inj_r c a b : Z.lxor a c = Z.lxor b c -> a = b.
Proof.
  intros E. apply (f_equal (fun x => Z.lxor x c)) in E.
  by rewrite !Z.lxor_assoc, Z.lxor_nilpotent, !Z.lxor_0_r in E.
Qed.

Lemma crc_feed_inj a b data :
  u_ok 32 a -> u_ok 32 b -> bytes_ok data -> crc_feed a data = crc_feed b data -> a = b.
Proof.
  intros Ha Hb Hd. revert a b Ha Hb.
  induction Hd as [|x data Hx Hd IH]; intros a b Ha Hb; [done |].
  pose proof (byte_u_ok x Hx) as Hx'. intros E%IH.
  - apply (lxor_inj_r x). apply (crc_iter_inj 8); [by apply u_ok_lxor | by apply u_ok_lxor | done].
  - apply crc_iter_ok, u_ok_lxor; done.
  - apply crc_iter_ok, u_ok_lxor; done.
Qed.

(** ** Hexadecimal *)

Lemma nibble_hex_digit v : 0 <= v < 16 -> nibble (hex_digit v) = v.
Proof.
  intros Hv. assert (In v (map Z.of_nat (seq 0 16))) as Hin.
  { apply in_map_iff. exists (Z.to_nat v). rewrite in_seq. lia. }
  simpl in Hin. repeat (destruct Hin as [<- | Hin]; [reflexivity |]). done.
Qed.

Lemma parse_nibbles_hex_of bs : bytes_ok bs -> parse_nibbles (hex_of bs) = Some bs.
Proof.
  induction 1 as [|b bs Hb Hbs IH]; [done |]. unfold byte_ok in Hb. cbn [hex_of parse_nibbles].
  change 15 with (Z.ones 4). rewrite Z.land_ones, Z.shiftr_div_pow2 by lia. change (2 ^ 4) with 16.
  rewrite !nibble_hex_digit by div_lia.
  rewrite !(proj2 (Z.ltb_ge _ 0)) by div_lia. simpl. rewrite IH. simpl. do 2 f_equal.
  rewrite Z.lor_comm, lor_shiftl_add by div_lia. change (2 ^ 4) with 16. div_lia.
Qed.

Lemma length_hex_of bs : String.length (hex_of bs) = (2 * length bs)%nat.
Proof. induction bs as [|b bs IH]; [done |]. cbn [hex_of String.length length]. rewrite IH. lia. Qed.

(** ** Properties *)

Lemma sha_updates_represent chunks h m :
  represents h m -> represents (fold_left sha_update chunks h) (m ++ concat chunks).
Proof.
  revert h m. induction chunks as [|c chunks IH]; intros h m Hr; simpl.
  - by rewrite app_nil_r.
  - rewrite app_assoc. by apply IH, sha_update_represents.
Qed.

(** C40. The streaming SHA-256 hasher is independent of chunking: feeding any
    sequence of pieces and finishing yields the digest bytes of the FIPS 180-4
    reference on the concatenation, and leaves the hasher reset for reuse.  The
    padding loop terminates within its 64 iterations. *)
Theorem sha256_streaming_refines_spec (chunks : list (list Z)) :
  sha_finish (fold_left sha_update chunks sha256_new) = (sha256_spec (concat chunks), sha256_new).
Proof. apply sha_finish_represents, (sha_updates_represent chunks sha256_new []), represents_new. Qed.

(** The table driven CRC-32C equals the bit serial shift register on every
    byte string. *)
Theorem crc32c_table_refines_bitwise (data : list Z) :
  bytes_ok data -> crc32c data = crc32c_bitwise data.
Proof. intros Hd. unfold crc32c, crc32c_bitwise. by rewrite crc_fold_bitwise. Qed.

Lemma crc32c_table_refines_bitwise_witness :
  bytes_ok (string_bytes "123456789") /\
  crc32c (string_bytes "123456789") = crc32c_bitwise (string_bytes "123456789").
Proof. split; [| apply crc32c_table_refines_bitwise]; apply string_bytes_ok. Defined.

(** Corrupting one byte of a payload always changes its CRC-32C, whatever
    surrounds the byte: the record and frame integrity checks cannot miss it. *)
Theorem crc32c_detects_byte_corruption (before after : list Z) (a b : Z) :
  bytes_ok before -> bytes_ok after -> byte_ok a -> byte_ok b -> a <> b ->
  crc32c (before ++ a :: after) <> crc32c (before ++ b :: after).
Proof.
  intros Hp Hs Ha Hb Hne E. apply Hne. unfold crc32c in E. apply lxor_inj_r in E.
  rewrite !fold_left_app in E. cbn [fold_left] in E.
  rewrite !(crc_fold_bitwise _ before), !crc_fold_bitwise, !crc32c_update_bitwise in E by done.
  assert (u_ok 32 (crc_feed 0xffffffff before)) as Hc by (apply crc_feed_ok; [done | done]).
  pose proof (byte_u_ok a Ha). pose proof (byte_u_ok b Hb).
  apply crc_feed_inj in E; [| apply crc_iter_ok; by apply u_ok_lxor .. | done].
  apply crc_iter_inj in E; [| by apply u_ok_lxor ..].
  rewrite !(Z.lxor_comm (crc_feed _ _)) in E. by apply lxor_inj_r in E.
Qed.

Lemma crc32c_detects_byte_corruption_witness :
  crc32c ([1; 2] ++ 3 :: [4]) <> crc32c ([1; 2] ++ 7 :: [4]).
Proof.
  apply crc32c_detects_byte_corruption; repeat constructor; unfold byte_ok; lia.
Defined.

(** Parsing the hexadecimal spelling of a digest gives the digest back. *)
Theorem digest_hex_roundtrip (d : Digest) :
  bytes_ok (bytes_ d) -> length (bytes_ d) = kDigestBytes -> parse_hex (hex d) = Ok d.
Proof.
  intros Hb Hl. unfold parse_hex, hex. rewrite length_hex_of, Hl. simpl.
  rewrite parse_nibbles_hex_of by done. by destruct d.
Qed.

Lemma digest_hex_roundtrip_witness : parse_hex (hex digest_zero) = Ok digest_zero.
Proof.
  apply digest_hex_roundtrip; [apply Forall_replicate; unfold byte_ok; lia | reflexivity].
Defined.

(** The published test vectors. *)
Example sha256_abc :
  hex (digest_of (string_bytes "abc")) =
  "ba7816bf8f01cfea414140de5dae2223b00361a396177a9cb410ff61f20015ad".
Proof. vm_compute. reflexivity. Qed.

Example crc32c_check : crc32c (string_bytes "123456789") = 0xe3069283.
Proof. vm_compute. reflexivity. Qed.
