(* ===== verification/Canonical.v ===== *)
(** * Canonical encoding

    Models [include/pathobs/canonical.hpp] and [src/canonical.cpp]: fixed width
    little endian with explicit lengths.  A writer method is the list of bytes
    it appends; a reader method takes the unread part of the payload and
    returns the value with what is left, or the error it raises.

    [Wire] is the interface between an encoder and its decoder, and
    [PrefixFree] the one between an encoder and the content identities built
    on it: an encoding that can be read off the front of a buffer in one way
    only. *)

From S2P Require Import Prelude Errors StdAlgo Digest.
#[local] Open Scope Z_scope.

(** ** CanonicalWriter *)

Definition put_u8 (value : Z) : list Z := [value].
Definition put_boolean (value : bool) : list Z := put_u8 (if value then 1 else 0).
Definition put_u16 (value : Z) : list Z := le_bytes 2 value.
Definition put_u32 (value : Z) : list Z := le_bytes 4 value.
Definition put_u64 (value : Z) : list Z := le_bytes 8 value.

(** [u64(static_cast<std::uint64_t>(value))] *)
Definition put_i64 (value : Z) : list Z := put_u64 (wrap_u 64 value).

Definition put_bytes (value : list Z) : list Z := put_u32 (wrap_u 32 (Z.of_nat (length value))) ++ value.
Definition put_text (value : string) : list Z := put_bytes (string_bytes value).
Definition put_digest (value : Digest) : list Z := bytes_ value.
Definition put_digest_id {tag} (value : DigestId tag) : list Z := put_bytes (id_bytes value).
Definition put_count (value : nat) : list Z := put_u32 (wrap_u 32 (Z.of_nat value)).

(** [writer.count(v.size()); for (x : v) put(x);] *)
Definition put_seq {A} (put : A -> list Z) (l : list A) : list Z :=
  put_count (length l) ++ flat_map put l.

(** ** CanonicalReader *)

Definition Reader (A : Type) : Type := list Z -> Result (A * list Z).

Definition reader_ret {A} (a : A) : Reader A := fun data => Ok (a, data).

Definition reader_bind {A B} (r : Reader A) (k : A -> Reader B) : Reader B :=
  fun data => let? (a, rest) := r data in k a rest.

Definition reader_fail {A} (e : Error) : Reader A := fun _ => Err e.

Notation "x <~ r ; k" := (reader_bind r (fun x => k))
  (at level 100, r at next level, right associativity) : pathobs_scope.

(** [CanonicalReader::take] *)
Definition take_bytes (count : nat) : Reader (list Z) := fun data =>
  if (length data <? count)%nat
  then Err (mk_error TruncatedInput "canonical payload ended early"
    ("need " +:+ to_string (Z.of_nat count) +:+ " bytes, have " +:+
     to_string (Z.of_nat (length data)))%string)
  else Ok (take count data, drop count data).

Definition get_u8 : Reader Z := cursor <~ take_bytes 1; reader_ret (le_value cursor).

Definition get_boolean : Reader bool :=
  value <~ get_u8;
  if 1 <? value then reader_fail (error InvalidFormat "canonical boolean is not 0 or 1")
  else reader_ret (value =? 1).

Definition get_u16 : Reader Z := cursor <~ take_bytes 2; reader_ret (le_value cursor).
Definition get_u32 : Reader Z := cursor <~ take_bytes 4; reader_ret (le_value cursor).
Definition get_u64 : Reader Z := cursor <~ take_bytes 8; reader_ret (le_value cursor).

(** [static_cast<std::int64_t>(value)] *)
Definition get_i64 : Reader Z := value <~ get_u64; reader_ret (wrap_i64 value).

Definition get_digest : Reader Digest := cursor <~ take_bytes kDigestBytes; reader_ret (mk_digest cursor).

Definition get_bytes (max_bytes : Z) : Reader (list Z) :=
  length <~ get_u32;
  if max_bytes <? length
  then reader_fail (error CapacityExceeded "canonical byte string exceeds the configured bound")
  else take_bytes (Z.to_nat length).

Definition get_text (max_bytes : Z) : Reader string :=
  length <~ get_u32;
  if max_bytes <? length
  then reader_fail (error CapacityExceeded "canonical text exceeds the configured bound")
  else cursor <~ take_bytes (Z.to_nat length); reader_ret (string_of_bytes cursor).

Definition get_count (max_count : Z) : Reader Z :=
  value <~ get_u32;
  if max_count <? value
  then reader_fail (error CapacityExceeded "canonical sequence count exceeds the configured bound")
  else reader_ret value.

(** [template <class Tag> digest_id()]: a short identity is padded with zeros
    before it is truncated to its width. *)
Definition get_digest_id {tag} : Reader (DigestId tag) :=
  raw <~ get_bytes 64;
  if (32 <? length raw)%nat
  then reader_fail (error InvalidFormat "digest identity is too long")
  else reader_ret (from_digest (mk_digest (raw ++ replicate (kDigestBytes - length raw) 0))).

Definition expect_end (data : list Z) : Status :=
  match data with
  | [] => ok
  | _ => Err (mk_error InvalidFormat "canonical payload has trailing bytes"
           (to_string (Z.of_nat (length data)) +:+ " bytes left")%string)
  end.

(** ** Interfaces *)

(** A reader that inverts a writer on the values [valid] admits, leaving the rest
    of the payload alone. *)
Class Wire {A : Type} (put : A -> list Z) (get : Reader A) (valid : A -> Prop) : Prop :=
  wire_roundtrip a rest : valid a -> get (put a ++ rest) = Ok (a, rest).

(** Two encodings that agree on some buffer encode the same value and leave the
    same rest. *)
Class PrefixFree {A : Type} (put : A -> list Z) (valid : A -> Prop) : Prop :=
  prefix_free a b r s : valid a -> valid b -> put a ++ r = put b ++ s -> a = b /\ r = s.

(** Whatever can be read back is prefix free. *)
Lemma wire_prefix_free {A} put (get : Reader A) valid `{!Wire put get valid} : PrefixFree put valid.
Proof.
  intros a b r s Ha Hb E.
  pose proof (wire_roundtrip a r Ha) as Ra. pose proof (wire_roundtrip b s Hb) as Rb.
  rewrite E in Ra. rewrite Ra in Rb. by injection Rb.
Qed.

Section Readers.
Context {A B : Type}.

Lemma reader_bind_ok (r : Reader A) (k : A -> Reader B) data a rest :
  r data = Ok (a, rest) -> reader_bind r k data = k a rest.
Proof. intros E. unfold reader_bind. by rewrite E. Qed.
End Readers.

Lemma take_bytes_app bs rest : take_bytes (length bs) (bs ++ rest) = Ok (bs, rest).
Proof.
  unfold take_bytes. rewrite (proj2 (Nat.ltb_ge _ _)) by (rewrite length_app; lia).
  by rewrite take_app_length, drop_app_length.
Qed.

Lemma take_bytes_le n v rest : take_bytes n (le_bytes n v ++ rest) = Ok (le_bytes n v, rest).
Proof. rewrite <- (length_le_bytes n v) at 1. apply take_bytes_app. Qed.

Lemma get_le_bytes n v rest :
  0 <= v < 2 ^ (8 * Z.of_nat n) ->
  (cursor <~ take_bytes n; reader_ret (le_value cursor)) (le_bytes n v ++ rest) = Ok (v, rest).
Proof.
  intros Hv. rewrite (reader_bind_ok _ _ _ _ _ (take_bytes_le n v rest)).
  unfold reader_ret. by rewrite le_value_le_bytes_small.
Qed.

#[export] Instance wire_u8 : Wire put_u8 get_u8 byte_ok.
Proof. intros v rest Hv. unfold byte_ok in Hv. unfold get_u8, put_u8.
  rewrite (reader_bind_ok _ _ _ [v] rest) by done. unfold reader_ret. simpl. by rewrite Z.lor_0_r.
Qed.

#[export] Instance wire_boolean : Wire put_boolean get_boolean (fun _ => True).
Proof. intros [] rest _; reflexivity. Qed.

#[export] Instance wire_u16 : Wire put_u16 get_u16 (u_ok 16).
Proof. intros v rest Hv. by apply (get_le_bytes 2). Qed.

#[export] Instance wire_u32 : Wire put_u32 get_u32 (u_ok 32).
Proof. intros v rest Hv. by apply (get_le_bytes 4). Qed.

#[export] Instance wire_u64 : Wire put_u64 get_u64 (u_ok 64).
Proof. intros v rest Hv. by apply (get_le_bytes 8). Qed.

Lemma wrap_i64_wrap_u v : i64_ok v -> wrap_i64 (wrap_u 64 v) = v.
Proof.
  intros Hv. rewrite <- (wrap_i64_small v) at 2 by done. unfold wrap_i64.
  rewrite !wrap_u_mod by lia. by rewrite Zplus_mod_idemp_l.
Qed.

#[export] Instance wire_i64 : Wire put_i64 get_i64 i64_ok.
Proof.
  intros v rest Hv. unfold get_i64, put_i64.
  rewrite (reader_bind_ok _ _ _ (wrap_u 64 v) rest).
  - unfold reader_ret. by rewrite wrap_i64_wrap_u.
  - apply (wire_roundtrip (Wire := wire_u64)). by apply wrap_u_range.
Qed.

(** Lengths that a [u32] prefix can carry. *)
Definition len32 {A} (l : list A) : Prop := Z.of_nat (length l) < 2 ^ 32.

Lemma get_u32_len {A} (l : list A) rest :
  len32 l -> get_u32 (put_u32 (wrap_u 32 (Z.of_nat (length l))) ++ rest) = Ok (Z.of_nat (length l), rest).
Proof.
  unfold len32. intros Hl. rewrite wrap_u_small by (unfold u_ok; lia).
  apply (wire_roundtrip (Wire := wire_u32)). unfold u_ok. lia.
Qed.

#[export] Instance wire_bytes max : Wire put_bytes (get_bytes max)
  (fun l => len32 l /\ Z.of_nat (length l) <= max).
Proof.
  intros l rest [Hl Hm]. unfold get_bytes, put_bytes. rewrite <- app_assoc.
  rewrite (reader_bind_ok _ _ _ _ _ (get_u32_len l _ Hl)).
  rewrite (proj2 (Z.ltb_ge _ _)) by done. rewrite Nat2Z.id. apply take_bytes_app.
Qed.

#[export] Instance wire_text max : Wire put_text (get_text max)
  (fun s => len32 (string_bytes s) /\ Z.of_nat (length (string_bytes s)) <= max).
Proof.
  intros s rest [Hl Hm]. unfold get_text, put_text, put_bytes. rewrite <- app_assoc.
  rewrite (reader_bind_ok _ _ _ _ _ (get_u32_len _ _ Hl)).
  rewrite (proj2 (Z.ltb_ge _ _)) by done. rewrite Nat2Z.id.
  rewrite (reader_bind_ok _ _ _ _ _ (take_bytes_app _ _)). unfold reader_ret.
  by rewrite string_of_string_bytes.
Qed.

#[export] Instance wire_digest : Wire put_digest get_digest (fun d => length (bytes_ d) = kDigestBytes).
Proof.
  intros [bs] rest Hl. simpl in Hl. unfold get_digest, put_digest. cbn [bytes_].
  rewrite <- Hl. by rewrite (reader_bind_ok _ _ _ _ _ (take_bytes_app bs rest)).
Qed.

#[export] Instance wire_count max : Wire (fun n => put_count (Z.to_nat n)) (get_count max)
  (fun n => u_ok 32 n /\ n <= max).
Proof.
  intros n rest [Hn Hm]. unfold get_count, put_count.
  rewrite Z2Nat.id, wrap_u_small by (try apply Hn; lia || done).
  rewrite (reader_bind_ok _ _ _ n rest) by (by apply (wire_roundtrip (Wire := wire_u32))).
  by rewrite (proj2 (Z.ltb_ge _ _)).
Qed.

#[export] Instance wire_digest_id tag : Wire (@put_digest_id tag) get_digest_id
  (fun i => length (id_bytes i) = kDigestIdBytes).
Proof.
  intros [bs] rest Hl. simpl in Hl. unfold get_digest_id, put_digest_id. cbn [id_bytes].
  rewrite (reader_bind_ok _ _ _ bs rest).
  2:{ apply (wire_roundtrip (Wire := wire_bytes 64)). split; [unfold len32 |]; rewrite Hl; unfold kDigestIdBytes; lia. }
  rewrite Hl. simpl. unfold reader_ret, from_digest. cbn [bytes_].
  by rewrite take_app_length' by (by rewrite Hl).
Qed.

(** ** Prefix free composition *)

#[export] Instance prefix_u8 : PrefixFree put_u8 byte_ok := wire_prefix_free put_u8 get_u8 byte_ok.
#[export] Instance prefix_boolean : PrefixFree put_boolean (fun _ => True) :=
  wire_prefix_free put_boolean get_boolean _.
#[export] Instance prefix_u32 : PrefixFree put_u32 (u_ok 32) := wire_prefix_free put_u32 get_u32 _.
#[export] Instance prefix_u64 : PrefixFree put_u64 (u_ok 64) := wire_prefix_free put_u64 get_u64 _.
#[export] Instance prefix_i64 : PrefixFree put_i64 i64_ok := wire_prefix_free put_i64 get_i64 _.
#[export] Instance prefix_digest : PrefixFree put_digest (fun d => length (bytes_ d) = kDigestBytes) :=
  wire_prefix_free put_digest get_digest _.
#[export] Instance prefix_digest_id tag :
  PrefixFree (@put_digest_id tag) (fun i => length (id_bytes i) = kDigestIdBytes) :=
  wire_prefix_free put_digest_id get_digest_id _.

#[export] Instance prefix_text : PrefixFree put_text (fun s => len32 (string_bytes s)).
Proof.
  intros a b r s Ha Hb.
  apply (prefix_free (PrefixFree := wire_prefix_free put_text (get_text (2 ^ 32)) _));
    unfold len32 in *; lia.
Qed.

(** A record encoded field by field: the encoding of the pair of a field and
    the remaining fields. *)
#[export] Instance prefix_pair {A B} (pa : A -> list Z) (pb : B -> list Z) va vb
  `{!PrefixFree pa va} `{!PrefixFree pb vb} :
  PrefixFree (fun x : A * B => pa x.1 ++ pb x.2) (fun x => va x.1 /\ vb x.2).
Proof.
  intros [a b] [a' b'] r s [Ha Hb] [Ha' Hb'] E. simpl in *.
  rewrite <- !app_assoc in E.
  destruct (prefix_free a a' _ _ Ha Ha' E) as [-> E'].
  by destruct (prefix_free b b' _ _ Hb Hb' E') as [-> ->].
Qed.

(** Encoding through a projection: equal encodings, equal projections. *)
Lemma prefix_map {A B} (f : B -> A) (put : A -> list Z) valid `{!PrefixFree put valid}
  (x y : B) r s :
  valid (f x) -> valid (f y) -> put (f x) ++ r = put (f y) ++ s -> f x = f y /\ r = s.
Proof. apply prefix_free. Qed.

Lemma prefix_elements {A} (put : A -> list Z) valid `{!PrefixFree put valid} l m r s :
  Forall valid l -> Forall valid m -> length l = length m ->
  flat_map put l ++ r = flat_map put m ++ s -> l = m /\ r = s.
Proof.
  intros Hl. revert m r s. induction Hl as [|a l Ha Hl IH]; intros [|b m] r s Hm; try done.
  simpl. intros [= Hlen] E. inversion Hm as [|? ? Hb Hm']; subst.
  rewrite <- !app_assoc in E.
  destruct (prefix_free a b _ _ Ha Hb E) as [-> E'].
  by destruct (IH m r s Hm' Hlen E') as [-> ->].
Qed.

#[export] Instance prefix_seq {A} (put : A -> list Z) valid `{!PrefixFree put valid} :
  PrefixFree (put_seq put) (fun l => len32 l /\ Forall valid l).
Proof.
  intros l m r s [Hl Hvl] [Hm Hvm]. unfold put_seq, put_count. rewrite <- !app_assoc. intros E.
  apply prefix_free in E as [Hlen E]; [| by apply wrap_u_range | by apply wrap_u_range].
  unfold len32 in *. rewrite !wrap_u_small in Hlen by (unfold u_ok; lia).
  apply (prefix_elements put valid) in E; [done | done | done | lia].
Qed.

(** Peel one field off two equal encodings. *)
Ltac prefix_step E :=
  rewrite <- ?app_assoc in E;
  apply prefix_free in E;
  [let F := fresh "F" in destruct E as [F E] | | ].

(** ** Readers never look past the payload *)

(** What a reader returns, re-encoded, is what it consumed: every payload has
    at most one decoding and the decoder accepts canonical input only. *)
Class Exact {A : Type} (put : A -> list Z) (get : Reader A) : Prop :=
  exact_reencode data a rest : bytes_ok data -> get data = Ok (a, rest) -> data = put a ++ rest.

Lemma take_bytes_inv n data bs rest :
  take_bytes n data = Ok (bs, rest) -> data = bs ++ rest /\ length bs = n.
Proof.
  unfold take_bytes. destruct (length data <? n)%nat eqn:E; [done |]. apply Nat.ltb_ge in E.
  intros [= <- <-]. rewrite take_drop, length_take. split; [done | lia].
Qed.

Lemma reader_bind_inv {A B} (r : Reader A) (k : A -> Reader B) data b rest :
  reader_bind r k data = Ok (b, rest) ->
  exists a mid, r data = Ok (a, mid) /\ k a mid = Ok (b, rest).
Proof.
  unfold reader_bind. destruct (r data) as [[a mid]|e]; simpl; [| done]. intros E. by exists a, mid.
Qed.

Lemma get_le_bytes_inv n data v rest :
  bytes_ok data ->
  (cursor <~ take_bytes n; reader_ret (le_value cursor)) data = Ok (v, rest) ->
  data = le_bytes n v ++ rest /\ 0 <= v < 2 ^ (8 * Z.of_nat n).
Proof.
  intros Hd (bs & mid & Ht & [= <- <-])%reader_bind_inv.
  apply take_bytes_inv in Ht as [-> <-]. apply Forall_app in Hd as [Hd _].
  rewrite le_bytes_le_value by done. split; [done | by apply le_value_range].
Qed.

#[export] Instance exact_u16 : Exact put_u16 get_u16.
Proof. intros data v rest Hd E. by apply (get_le_bytes_inv 2) in E as [-> _]. Qed.

#[export] Instance exact_u32 : Exact put_u32 get_u32.
Proof. intros data v rest Hd E. by apply (get_le_bytes_inv 4) in E as [-> _]. Qed.

#[export] Instance exact_u64 : Exact put_u64 get_u64.
Proof. intros data v rest Hd E. by apply (get_le_bytes_inv 8) in E as [-> _]. Qed.

Lemma get_u8_inv data v rest : bytes_ok data -> get_u8 data = Ok (v, rest) -> data = v :: rest /\ byte_ok v.
Proof.
  intros Hd E. apply (get_le_bytes_inv 1) in E as [-> Hv]; [| done].
  change (8 * Z.of_nat 1) with 8 in Hv. cbn [le_bytes].
  rewrite land_255, Z.mod_small by lia. split; [done | unfold byte_ok; lia].
Qed.

#[export] Instance exact_u8 : Exact put_u8 get_u8.
Proof. intros data v rest Hd E. by apply get_u8_inv in E as [-> _]. Qed.

#[export] Instance exact_boolean : Exact put_boolean get_boolean.
Proof.
  intros data b rest Hd (v & mid & Hv & E)%reader_bind_inv.
  apply get_u8_inv in Hv as [-> Hr]; [| done]. unfold byte_ok in Hr.
  destruct (1 <? v) eqn:E1; [done |]. apply Z.ltb_ge in E1. injection E as <- <-.
  assert (v = 0 \/ v = 1) as [-> | ->] by lia; done.
Qed.

Lemma wrap_u_wrap_i64 v : u_ok 64 v -> wrap_u 64 (wrap_i64 v) = v.
Proof.
  intros Hv. rewrite <- (wrap_u_small 64 v) at 2 by done. unfold wrap_i64.
  rewrite !wrap_u_mod by lia. rewrite Zminus_mod_idemp_l. f_equal. lia.
Qed.

#[export] Instance exact_i64 : Exact put_i64 get_i64.
Proof.
  intros data v rest Hd (u & mid & Hu & [= <- <-])%reader_bind_inv. unfold put_i64.
  apply (get_le_bytes_inv 8) in Hu as [-> Hr]; [| done].
  by rewrite wrap_u_wrap_i64.
Qed.

Lemma get_len_inv {A} max (k : Z -> Reader A) e data a rest :
  bytes_ok data ->
  (length <~ get_u32; if max <? length then reader_fail e else k length) data = Ok (a, rest) ->
  exists n mid, data = put_u32 n ++ mid /\ u_ok 32 n /\ n <= max /\ k n mid = Ok (a, rest).
Proof.
  intros Hd (n & mid & Hn & E)%reader_bind_inv.
  apply (get_le_bytes_inv 4) in Hn as [-> Hr]; [| done].
  destruct (max <? n) eqn:Em; [done |]. apply Z.ltb_ge in Em. by exists n, mid.
Qed.

#[export] Instance exact_bytes max : Exact put_bytes (get_bytes max).
Proof.
  intros data bs rest Hd (n & mid & -> & Hn & Hm & E)%get_len_inv; [| done].
  apply take_bytes_inv in E as [-> Hl]. unfold put_bytes. rewrite Hl.
  unfold u_ok in Hn. rewrite Z2Nat.id, wrap_u_small by (unfold u_ok; lia).
  by rewrite <- app_assoc.
Qed.

Lemma string_bytes_of_bytes bs : bytes_ok bs -> string_bytes (string_of_bytes bs) = bs.
Proof.
  induction 1 as [|b bs Hb Hbs IH]; [done |]. simpl. rewrite IH. f_equal.
  unfold byte_of_ascii, ascii_of_byte. unfold byte_ok in Hb.
  rewrite Ascii.N_ascii_embedding by lia. lia.
Qed.

#[export] Instance exact_text max : Exact put_text (get_text max).
Proof.
  intros data s rest Hd (n & mid & -> & Hn & Hm & E)%get_len_inv; [| done].
  apply reader_bind_inv in E as (bs & mid' & E & [= <- <-]).
  apply take_bytes_inv in E as [-> Hl]. unfold put_text, put_bytes.
  apply Forall_app in Hd as [_ [Hd _]%Forall_app].
  rewrite string_bytes_of_bytes, Hl by done.
  unfold u_ok in Hn. rewrite Z2Nat.id, wrap_u_small by (unfold u_ok; lia).
  by rewrite <- app_assoc.
Qed.

#[export] Instance exact_digest : Exact put_digest get_digest.
Proof.
  intros data d rest Hd (bs & mid & E & [= <- <-])%reader_bind_inv.
  by apply take_bytes_inv in E as [-> _].
Qed.

(** ** Properties *)

(** Canonical round trip: each reader method returns exactly the value the
    matching writer method was given, and stops at the end of it, for every
    value the writer can be handed and every continuation of the payload. *)
Theorem canonical_roundtrip (rest : list Z) (max : Z) :
  (forall v, byte_ok v -> get_u8 (put_u8 v ++ rest) = Ok (v, rest)) /\
  (forall b, get_boolean (put_boolean b ++ rest) = Ok (b, rest)) /\
  (forall v, u_ok 16 v -> get_u16 (put_u16 v ++ rest) = Ok (v, rest)) /\
  (forall v, u_ok 32 v -> get_u32 (put_u32 v ++ rest) = Ok (v, rest)) /\
  (forall v, u_ok 64 v -> get_u64 (put_u64 v ++ rest) = Ok (v, rest)) /\
  (forall v, i64_ok v -> get_i64 (put_i64 v ++ rest) = Ok (v, rest)) /\
  (forall s, len32 (string_bytes s) -> Z.of_nat (String.length s) <= max ->
     get_text max (put_text s ++ rest) = Ok (s, rest)) /\
  (forall d, length (bytes_ d) = kDigestBytes -> get_digest (put_digest d ++ rest) = Ok (d, rest)) /\
  (forall tag (i : DigestId tag), length (id_bytes i) = kDigestIdBytes ->
     get_digest_id (put_digest_id i ++ rest) = Ok (i, rest)).
Proof.
  repeat split; intros.
  - by apply wire_u8.
  - by apply wire_boolean.
  - by apply wire_u16.
  - by apply wire_u32.
  - by apply wire_u64.
  - by apply wire_i64.
  - apply wire_text. by rewrite length_string_bytes.
  - by apply wire_digest.
  - by apply wire_digest_id.
Qed.

(** A text field is bounded before anything is taken from the payload: a
    declared length above the bound is refused, a declared length the payload
    does not hold is a truncation, and otherwise the decoder consumes exactly
    the canonical encoding of what it returns. *)
Theorem get_text_bounded (max : Z) (data : list Z) (n : Z) (body : list Z) :
  bytes_ok body -> u_ok 32 n -> data = put_u32 n ++ body ->
  match get_text max data with
  | Ok (s, rest) => data = put_text s ++ rest /\ Z.of_nat (String.length s) = n /\ n <= max
  | Err e => code e = CapacityExceeded /\ max < n \/
             code e = TruncatedInput /\ n <= max /\ Z.of_nat (length body) < n
  end.
Proof.
  intros Hb Hn ->. destruct (get_text max _) as [[s rest]|e] eqn:E.
  - pose proof E as E'. apply (exact_text max) in E; [| apply Forall_app; split; [apply le_bytes_ok | done]].
    split; [done |]. apply get_len_inv in E' as (n' & mid & Ed & Hn' & Hm & Ek);
      [| apply Forall_app; split; [apply le_bytes_ok | done]].
    apply prefix_free in Ed as [<- <-]; [| done | done].
    apply reader_bind_inv in Ek as (bs & mid & Et & [= <- <-]).
    apply take_bytes_inv in Et as [-> Hl]. apply Forall_app in Hb as [Hb _].
    rewrite <- length_string_bytes, string_bytes_of_bytes, Hl by done.
    unfold u_ok in Hn. lia.
  - unfold get_text, reader_bind in E. rewrite (wire_u32 n body Hn) in E. simpl in E.
    destruct (max <? n) eqn:Em; bool_prop; [injection E as <-; by left |].
    unfold take_bytes in E. destruct (length body <? Z.to_nat n)%nat eqn:El; [| done].
    injection E as <-. right. bool_prop. unfold u_ok in Hn. simpl. split; [done | lia].
Qed.

Lemma get_text_bounded_witness :
  match get_text 8 (put_u32 3 ++ [97; 98; 99; 7]) with
  | Ok (s, rest) => put_u32 3 ++ [97; 98; 99; 7] = put_text s ++ rest /\
      Z.of_nat (String.length s) = 3 /\ 3 <= 8
  | Err e => code e = CapacityExceeded /\ 8 < 3 \/
             code e = TruncatedInput /\ 3 <= 8 /\ Z.of_nat (length [97; 98; 99; 7]) < 3
  end.
Proof.
  apply (get_text_bounded 8 _ 3 [97; 98; 99; 7]);
    [repeat constructor; unfold byte_ok; lia | unfold u_ok; lia | reflexivity].
Defined.
