(* ===== verification/Ids.v ===== *)
(** * Strongly typed identities

    Models [include/pathobs/strong_id.hpp].  An identity is a 64 bit value
    indexed by its tag, so that a device identity cannot be passed where a port
    identity is expected; zero is not a valid identity.  [MaybeId] represents an
    absent identity by the zero one. *)

From S2P Require Import Prelude Errors StdAlgo Digest Canonical.
#[local] Open Scope Z_scope.

Inductive IdTag : Set :=
  | SourceIdTag | SourceIncarnationIdTag | DeviceIdTag | PortIdTag | LinkIdTag | PathIdTag
  | HopIdTag | PathGroupIdTag | RouteGenerationIdTag | TopologyGenerationIdTag | EpochIdTag
  | IncarnationIdTag | RevisionIdTag | SourceSequenceTag | StoreIncarnationIdTag.

(** [template <class Tag, class Rep = std::uint64_t> class StrongId] *)
Record StrongId (tag : IdTag) : Set := from_value { value : Z }.
Arguments from_value {tag} value.
Arguments value {tag} s.

#[global] Instance StrongId_eq_dec tag : EqDecision (StrongId tag).
Proof. solve_decision. Defined.

Definition id_none {tag} : StrongId tag := from_value 0.

Definition valid {tag} (id : StrongId tag) : bool := negb (value id =? 0).

(** [operator<=>] *)
Definition id_lt {tag} (a b : StrongId tag) : bool := value a <? value b.

#[global] Instance StrongId_key_order tag : KeyOrder (StrongId tag).
Proof.
  refine {| klt := id_lt |}; unfold id_lt; intros *.
  - apply Z.ltb_irrefl.
  - rewrite !Z.ltb_lt. lia.
  - destruct a as [a], b as [b]. simpl. rewrite !Z.ltb_ge. intros. f_equal. lia.
Defined.

(** [StrongId::parse]: [std::from_chars] accepts a run of decimal digits whose
    value fits in 64 bits; anything left over is refused. *)
Definition id_parse {tag} (text : string) : Result (StrongId tag) :=
  fail? bool_decide (text = "") with error InvalidIdentity "identity is empty" in
  match dec_value 0 text with
  | Some v =>
      fail? negb (v <? 2 ^ 64) with error InvalidIdentity "identity is not a decimal number" in
      fail? v =? 0 with error InvalidIdentity "identity must not be zero" in
      Ok (from_value v)
  | None => Err (error InvalidIdentity "identity is not a decimal number")
  end.

Definition id_str {tag} (id : StrongId tag) : string := to_string (value id).

Definition SourceId := StrongId SourceIdTag.
Definition SourceIncarnationId := StrongId SourceIncarnationIdTag.
Definition DeviceId := StrongId DeviceIdTag.
Definition PortId := StrongId PortIdTag.
Definition LinkId := StrongId LinkIdTag.
Definition PathId := StrongId PathIdTag.
Definition HopId := StrongId HopIdTag.
Definition PathGroupId := StrongId PathGroupIdTag.
Definition RouteGenerationId := StrongId RouteGenerationIdTag.
Definition TopologyGenerationId := StrongId TopologyGenerationIdTag.
Definition EpochId := StrongId EpochIdTag.
Definition IncarnationId := StrongId IncarnationIdTag.
Definition RevisionId := StrongId RevisionIdTag.
Definition SourceSequence := StrongId SourceSequenceTag.
Definition StoreIncarnationId := StrongId StoreIncarnationIdTag.

(** [template <class Id> class MaybeId] *)
Record MaybeId (tag : IdTag) : Set := maybe { maybe_value : StrongId tag }.
Arguments maybe {tag} maybe_value.
Arguments maybe_value {tag} m.

#[global] Instance MaybeId_eq_dec tag : EqDecision (MaybeId tag).
Proof. solve_decision. Defined.

Definition absent {tag} : MaybeId tag := maybe id_none.
Definition present {tag} (m : MaybeId tag) : bool := valid (maybe_value m).
Definition maybe_value_or {tag} (m : MaybeId tag) (fallback : StrongId tag) : StrongId tag :=
  if valid (maybe_value m) then maybe_value m else fallback.

(** [CanonicalWriter::id] and [CanonicalReader::id] *)
Definition put_id {tag} (id : StrongId tag) : list Z := put_u64 (value id).
Definition get_id {tag} : Reader (StrongId tag) := v <~ get_u64; reader_ret (from_value v).

(** [writer.boolean(m.present()); writer.id(m.value());] *)
Definition put_maybe {tag} (m : MaybeId tag) : list Z := put_boolean (present m) ++ put_id (maybe_value m).

(** An identity value a 64 bit field can hold. *)
Definition id_ok {tag} (id : StrongId tag) : Prop := u_ok 64 (value id).

#[export] Instance wire_id tag : Wire (@put_id tag) get_id id_ok.
Proof.
  intros [v] rest Hv. unfold get_id, put_id. cbn [value].
  by rewrite (reader_bind_ok _ _ _ v rest) by (by apply (wire_roundtrip (Wire := wire_u64))).
Qed.

#[export] Instance prefix_id tag : PrefixFree (@put_id tag) id_ok := wire_prefix_free put_id get_id _.

#[export] Instance prefix_maybe tag : PrefixFree (@put_maybe tag) (fun m => id_ok (maybe_value m)).
Proof.
  intros [a] [b] r s Ha Hb. unfold put_maybe. rewrite <- !app_assoc. intros E.
  apply prefix_free in E as [_ E]; [| done | done].
  by apply prefix_free in E as [[= ->] ->].
Qed.

(** Every valid 64 bit identity parses back from its decimal text, and
    parsing accepts exactly the texts that denote a valid 64 bit identity. *)
Theorem strong_id_text_roundtrip (tag : IdTag) :
  (forall id : StrongId tag, id_ok id -> valid id = true -> id_parse (id_str id) = Ok id) /\
  (forall text (id : StrongId tag), id_parse text = Ok id ->
     dec_value 0 text = Some (value id) /\ valid id = true /\ value id < 2 ^ 64).
Proof.
  split.
  - intros [v] Hv Hvalid. unfold id_ok, valid, id_parse, id_str, u_ok in *. cbn [value] in *.
    rewrite bool_decide_eq_false_2 by apply to_string_nonempty.
    rewrite dec_value_to_string by lia. bool_prop.
    rewrite (proj2 (Z.ltb_lt _ _)) by lia. by rewrite (proj2 (Z.eqb_neq _ _)).
  - intros text id H. unfold id_parse in H. guards_ok H.
    destruct (dec_value 0 text) as [v|]; [| done]. guards_ok H. injection H as <-.
    bool_prop. unfold valid. cbn [value]. by rewrite (proj2 (Z.eqb_neq _ _)).
Qed.
