(* ===== verification/TimeModel.v ===== *)
(** * Time

    Models [include/pathobs/time.hpp] and [src/time.cpp]: instants as signed 64
    bit nanoseconds with a "no value" marker, the checked difference, the
    proleptic Gregorian calendar and the RFC 3339 text.  Division and remainder
    of C++ truncate, so they are [Z.quot] and [Z.rem]; 64 bit arithmetic wraps
    by [wrap_i64].  Wall clocks are inputs: nothing here reads one, and the clock
    of the runtime is the sequence of its readings. *)

From S2P Require Import Prelude Errors StdAlgo.
#[local] Open Scope Z_scope.

Record TimePoint : Set := from_unix_nanos { unix_nanos : Z }.

#[global] Instance TimePoint_eq_dec : EqDecision TimePoint.
Proof. solve_decision. Defined.

Definition kUnsetTimeNanos : Z := int64_min.
Definition unset : TimePoint := from_unix_nanos kUnsetTimeNanos.
Definition is_set (t : TimePoint) : bool := negb (unix_nanos t =? kUnsetTimeNanos).

(** [operator<=>] *)
Definition time_lt (a b : TimePoint) : bool := unix_nanos a <? unix_nanos b.

(** A [std::chrono::nanoseconds] count. *)
Definition Duration : Set := Z.

Inductive ClockDomain : Set := ClockUnknown | SourceReported | LocalWall.

Definition clock_domain_to_string (d : ClockDomain) : string :=
  match d with
  | ClockUnknown => "unknown"
  | SourceReported => "source_reported"
  | LocalWall => "local_wall"
  end.

Definition difference (later earlier : TimePoint) : Result Duration :=
  let a := unix_nanos later in
  let b := unix_nanos earlier in
  fail? (0 <? b) && (a <? wrap_i64 (int64_min + b)) with error OutOfRange "time difference underflow" in
  fail? (b <? 0) && (wrap_i64 (int64_max + b) <? a) with error OutOfRange "time difference overflow" in
  Ok (wrap_i64 (a - b)).

Definition is_after (instant now : TimePoint) : bool := unix_nanos now <? unix_nanos instant.

(** [ManualClock::advance] *)
Definition advance (current : TimePoint) (delta : Duration) : TimePoint :=
  from_unix_nanos (wrap_i64 (unix_nanos current + delta)).

(** The state of a [ManualClock] is its current instant; [set] replaces it. *)
Record ManualClock : Set := mk_manual_clock { current_instant : TimePoint }.

Definition manual_now (c : ManualClock) : TimePoint := current_instant c.
Definition manual_advance (c : ManualClock) (delta : Duration) : ManualClock := mk_manual_clock (advance (current_instant c) delta).
Definition manual_set (c : ManualClock) (v : TimePoint) : ManualClock := mk_manual_clock v.

(** [SystemClock::now]: what the clock of the system reads, and how many nanoseconds
    its tick has, are the platform's. *)
Definition system_now (tick_nanos since_epoch : Z) : TimePoint :=
  from_unix_nanos (wrap_i64 (since_epoch * tick_nanos)).

(** ** Calendar *)

Definition is_leap_year (year : Z) : bool :=
  (Z.rem year 4 =? 0) && negb (Z.rem year 100 =? 0) || (Z.rem year 400 =? 0).

Definition kDays : list Z := [31; 28; 31; 30; 31; 30; 31; 31; 30; 31; 30; 31].

Definition days_in_month (year month : Z) : Z :=
  if (month =? 2) && is_leap_year year then 29 else nth (Z.to_nat (month - 1)) kDays 0.

Definition days_from_civil (year month day : Z) : Z :=
  let year := year - (if month <=? 2 then 1 else 0) in
  let era := Z.quot (if 0 <=? year then year else year - 399) 400 in
  let year_of_era := year - era * 400 in
  let day_of_year := Z.quot (153 * (month + (if 2 <? month then -3 else 9)) + 2) 5 + day - 1 in
  let day_of_era := year_of_era * 365 + Z.quot year_of_era 4 - Z.quot year_of_era 100 + day_of_year in
  era * 146097 + day_of_era - 719468.

(** The date of a day number, as [(year, month, day)]. *)
Definition civil_from_days (z : Z) : Z * Z * Z :=
  let z := z + 719468 in
  let era := Z.quot (if 0 <=? z then z else z - 146096) 146097 in
  let day_of_era := z - era * 146097 in
  let year_of_era :=
    Z.quot (day_of_era - Z.quot day_of_era 1460 + Z.quot day_of_era 36524
            - Z.quot day_of_era 146096) 365 in
  let y := year_of_era + era * 400 in
  let day_of_year := day_of_era - (365 * year_of_era + Z.quot year_of_era 4 - Z.quot year_of_era 100) in
  let mp := Z.quot (5 * day_of_year + 2) 153 in
  let d := day_of_year - Z.quot (153 * mp + 2) 5 + 1 in
  let m := mp + (if mp <? 10 then 3 else -9) in
  (y + (if m <=? 2 then 1 else 0), m, d).

(** ** RFC 3339 *)

(** [text.substr(offset)] for an offset inside the text. *)
Fixpoint string_drop (n : nat) (s : string) : string :=
  match n, s with
  | O, _ => s
  | S n, String _ rest => string_drop n rest
  | S _, EmptyString => EmptyString
  end.

Fixpoint string_take (n : nat) (s : string) : string :=
  match n, s with
  | S n, String c rest => String c (string_take n rest)
  | _, _ => EmptyString
  end.

Definition parse_fixed_int (text : string) (offset count : nat) : option Z :=
  if (String.length text <? offset + count)%nat then None
  else dec_value 0 (string_take count (string_drop offset text)).

(** The loop over the fraction digits: the digits kept, at most nine, their
    value, and the unread text. *)
Fixpoint parse_fraction (s : string) (digits : nat) (fraction : Z) : nat * Z * string :=
  match s with
  | String c rest =>
      match digit_of c with
      | Some d =>
          if (digits <? 9)%nat
          then parse_fraction rest (S digits) (fraction * 10 + d)
          else parse_fraction rest digits fraction
      | None => (digits, fraction, s)
      end
  | EmptyString => (digits, fraction, s)
  end.

Definition char_is (s : string) (i : nat) (c : string) : bool := bool_decide (string_take 1 (string_drop i s) = c).

Definition parse_rfc3339 (text : string) : Result TimePoint :=
  fail? (String.length text <? 20)%nat
    with error InvalidFormat "timestamp is too short for RFC 3339" in
  match parse_fixed_int text 0 4, parse_fixed_int text 5 2, parse_fixed_int text 8 2,
        parse_fixed_int text 11 2, parse_fixed_int text 14 2, parse_fixed_int text 17 2 with
  | Some year, Some month, Some day, Some hour, Some minute, Some second =>
      fail? negb (char_is text 4 "-" && char_is text 7 "-" &&
                  (char_is text 10 "T" || char_is text 10 "t") &&
                  char_is text 13 ":" && char_is text 16 ":")
        with error InvalidFormat "timestamp is not an RFC 3339 instant" in
      fail? (month <? 1) || (12 <? month) || (day <? 1) || (days_in_month year month <? day) ||
            (23 <? hour) || (59 <? minute) || (60 <? second)
        with error InvalidFormat "timestamp has an out-of-range field" in
      let rest := string_drop 19 text in
      let? (fraction_nanos, rest) :=
        if char_is rest 0 "." then
          let '(digits, fraction, rest) := parse_fraction (string_drop 1 rest) 0 0 in
          fail? (digits =? 0)%nat with error InvalidFormat "timestamp has an empty fraction" in
          Ok (fraction * 10 ^ (9 - Z.of_nat digits), rest)
        else Ok (0, rest) in
      fail? negb (char_is rest 0 "Z" || char_is rest 0 "z")
        with error InvalidFormat "timestamp must be UTC (trailing Z); offsets are not accepted" in
      fail? negb (bool_decide (string_drop 1 rest = ""))
        with error InvalidFormat "timestamp has trailing characters" in
      let days := days_from_civil year month day in
      let seconds := days * 86400 + hour * 3600 + minute * 60 + second in
      let nanos := wrap_i64 (wrap_i64 (seconds * 1000000000) + fraction_nanos) in
      Ok (from_unix_nanos nanos)
  | _, _, _, _, _, _ => Err (error InvalidFormat "timestamp is not an RFC 3339 instant")
  end.

(** [printf("%0<n>d")] of a non-negative value: its last [n] digits when it fits. *)
Fixpoint pad_go (n : nat) (v : Z) (acc : string) : string :=
  match n with
  | O => acc
  | S n => pad_go n (v / 10) (String (digit_char (v mod 10)) acc)
  end.

Definition pad_int (n : nat) (v : Z) : string :=
  if v <? 10 ^ Z.of_nat n then pad_go n v "" else to_string v.

(** Drop trailing zeros, keeping at least one character. *)
Fixpoint trim_zeros (s : string) : string :=
  match s with
  | EmptyString => EmptyString
  | String c rest =>
      match trim_zeros rest with
      | EmptyString => String c EmptyString
      | String d EmptyString =>
          if Ascii.eqb d (digit_char 0) then String c EmptyString else String c (String d EmptyString)
      | trimmed => String c trimmed
      end
  end.

Definition to_rfc3339 (t : TimePoint) : string :=
  if negb (is_set t) then "unset" else
  let seconds := Z.quot (unix_nanos t) 1000000000 in
  let fraction := Z.rem (unix_nanos t) 1000000000 in
  let '(seconds, fraction) :=
    if fraction <? 0 then (seconds - 1, fraction + 1000000000) else (seconds, fraction) in
  let days := Z.quot seconds 86400 in
  let remainder := Z.rem seconds 86400 in
  let '(days, remainder) :=
    if remainder <? 0 then (days - 1, remainder + 86400) else (days, remainder) in
  let '(year, month, day) := civil_from_days days in
  let hour := Z.quot remainder 3600 in
  let minute := Z.quot (Z.rem remainder 3600) 60 in
  let second := Z.rem remainder 60 in
  let date := (pad_int 4 year +:+ "-" +:+ pad_int 2 month +:+ "-" +:+ pad_int 2 day)%string in
  let clock := (pad_int 2 hour +:+ ":" +:+ pad_int 2 minute +:+ ":" +:+ pad_int 2 second)%string in
  if fraction =? 0
  then (date +:+ "T" +:+ clock +:+ "Z")%string
  else (date +:+ "T" +:+ clock +:+ "." +:+ trim_zeros (pad_int 9 fraction) +:+ "Z")%string.

(** ** The calendar is a bijection *)

(** The year of the era and the day of the year, for a day of the era. *)
Lemma year_of_era_spec doe :
  0 <= doe <= 146096 ->
  let yoe := Z.quot (doe - Z.quot doe 1460 + Z.quot doe 36524 - Z.quot doe 146096) 365 in
  let doy := doe - (365 * yoe + Z.quot yoe 4 - Z.quot yoe 100) in
  0 <= yoe <= 399 /\ 0 <= doy <= 365 /\
  (doy = 365 -> Z.rem (yoe + 1) 4 = 0 /\ (Z.rem (yoe + 1) 100 <> 0 \/ yoe = 399)).
Proof.
  intros H. cbv zeta. rewrite !Z.quot_div_nonneg by div_lia.
  split; [div_lia |]. split; [div_lia |]. intros E. div_lia.
Qed.

(** The month, counted from March, and the day of the month. *)
Lemma month_of_year_spec doy :
  0 <= doy <= 365 ->
  let mp := Z.quot (5 * doy + 2) 153 in
  let d := doy - Z.quot (153 * mp + 2) 5 + 1 in
  0 <= mp <= 11 /\ 1 <= d <= 31 /\
  (mp = 1 \/ mp = 3 \/ mp = 6 \/ mp = 8 -> d <= 30) /\
  (mp = 11 -> d <= 29 /\ (doy <> 365 -> d <= 28)).
Proof. intros H. cbv zeta. div_lia. Qed.

Lemma is_leap_year_spec year :
  0 <= year -> is_leap_year year = true <->
  (year mod 4 = 0 /\ year mod 100 <> 0) \/ year mod 400 = 0.
Proof.
  intros Hy. unfold is_leap_year. rewrite !Z.rem_mod_nonneg by lia.
  rewrite orb_true_iff, andb_true_iff, negb_true_iff, !Z.eqb_eq, Z.eqb_neq. done.
Qed.

(** Every day number from the start of the year 0 of the calendar has a date
    with an existing month and day, and that date has the same day number. *)
Lemma civil_days_roundtrip z :
  -719468 <= z ->
  let '(year, month, day) := civil_from_days z in
  days_from_civil year month day = z /\
  1 <= month <= 12 /\ 1 <= day <= days_in_month year month /\
  (z + 719468) / 146097 * 400 <= year <= (z + 719468) / 146097 * 400 + 400.
Proof.
  intros Hz. unfold civil_from_days.
  rewrite (proj2 (Z.leb_le 0 (z + 719468))) by lia.
  rewrite (Z.quot_div_nonneg (z + 719468) 146097) by lia.
  set (era := (z + 719468) / 146097). set (doe := z + 719468 - era * 146097).
  assert (0 <= era) as Hera by (unfold era; div_lia).
  assert (0 <= doe <= 146096) as Hdoe by (unfold doe, era; div_lia).
  destruct (year_of_era_spec doe Hdoe) as (Hyoe & Hdoy & Hleap).
  set (yoe := Z.quot _ 365) in *. set (doy := doe - (365 * yoe + _ - _)) in *.
  destruct (month_of_year_spec doy Hdoy) as (Hmp & Hd & H30 & Hfeb).
  set (mp := Z.quot (5 * doy + 2) 153) in *. set (d := doy - Z.quot (153 * mp + 2) 5 + 1) in *.
  assert (z = era * 146097 + doe - 719468) as Ez by (unfold doe; lia).
  assert (doe = yoe * 365 + Z.quot yoe 4 - Z.quot yoe 100 + doy) as Edoe by (unfold doy; lia).
  assert (doy = Z.quot (153 * mp + 2) 5 + d - 1) as Edoy by (unfold d; lia).
  set (m := mp + (if mp <? 10 then 3 else -9)).
  clearbody d mp doy yoe doe era.
  assert (1 <= m <= 12 /\ (m <= 2 <-> 10 <= mp) /\
    mp = m + (if 2 <? m then -3 else 9)) as (Hm & Hm2 & Hmp').
  { unfold m. destruct (mp <? 10) eqn:E; bool_prop.
    - rewrite (proj2 (Z.ltb_lt 2 (mp + 3))) by lia. lia.
    - rewrite (proj2 (Z.ltb_ge 2 (mp + -9))) by lia. lia. }
  assert (m <> 2 -> mp <> 11) as Hm11 by (unfold m; destruct (mp <? 10) eqn:E; bool_prop; lia).
  assert (m = 2 -> mp = 11) as Hm11' by (unfold m; destruct (mp <? 10) eqn:E; bool_prop; lia).
  split; [| split; [done | split; [split; [lia |] |]]].
  - unfold days_from_civil. fold m.
    replace (yoe + era * 400 + (if m <=? 2 then 1 else 0) - (if m <=? 2 then 1 else 0))
      with (yoe + era * 400) by lia.
    rewrite (proj2 (Z.leb_le 0 (yoe + era * 400))) by lia.
    rewrite <- Hmp'. rewrite (Z.quot_div_nonneg (yoe + era * 400) 400) by lia.
    rewrite Z.div_add, (Z.div_small yoe) by lia. rewrite Z.add_0_l.
    replace (yoe + era * 400 - era * 400) with yoe by lia.
    rewrite <- Edoy. lia.
  - unfold days_in_month. fold m. destruct (decide (m = 2)) as [E2 | E2].
    + rewrite E2. simpl. destruct (Hfeb (Hm11' E2)) as [H29 H28].
      destruct (is_leap_year (yoe + era * 400 + 1)) eqn:El; [done |].
      destruct (decide (doy = 365)) as [E365 | E365]; [| by apply H28].
      exfalso. apply not_true_iff_false in El. apply El. apply is_leap_year_spec; [lia |].
      destruct (Hleap E365) as [H4 H100]. clear - H4 H100 Hyoe Hera.
      destruct H100; [left | right]; div_lia.
    + rewrite (proj2 (Z.eqb_neq m 2)) by done. simpl.
      assert (m = 1 \/ m = 3 \/ m = 4 \/ m = 5 \/ m = 6 \/ m = 7 \/ m = 8 \/ m = 9 \/ m = 10 \/
        m = 11 \/ m = 12) as Hcases by lia.
      destruct Hcases as [E|[E|[E|[E|[E|[E|[E|[E|[E|[E|E]]]]]]]]]]; rewrite E in Hmp' |- *;
        simpl in Hmp' |- *; lia.
  - destruct (m <=? 2); lia.
Qed.

(** ** The text is a bijection *)

Lemma string_drop_app p s : string_drop (String.length p) (p +:+ s)%string = s.
Proof. induction p; simpl; auto. Qed.

Lemma string_take_app p s : string_take (String.length p) (p +:+ s)%string = p.
Proof. induction p as [|c p IH]; simpl; [by destruct s | by rewrite IH]. Qed.

Lemma string_length_app p s :
  String.length (p +:+ s)%string = (String.length p + String.length s)%nat.
Proof. induction p as [|c p IH]; [done |]. simpl. by rewrite <- IH. Qed.

Lemma parse_fixed_int_app p m s off n :
  off = String.length p -> n = String.length m ->
  parse_fixed_int (p +:+ (m +:+ s))%string off n = dec_value 0 m.
Proof.
  intros -> ->. unfold parse_fixed_int. rewrite !string_length_app.
  rewrite (proj2 (Nat.ltb_ge _ _)) by lia. by rewrite string_drop_app, string_take_app.
Qed.

Lemma pad_go_spec n v acc s :
  0 <= v < 10 ^ Z.of_nat n ->
  dec_value acc (pad_go n v s) = dec_value (acc * 10 ^ Z.of_nat n + v) s /\
  String.length (pad_go n v s) = (n + String.length s)%nat.
Proof.
  revert v s. induction n as [|n IH]; intros v s Hv; cbn [pad_go].
  - simpl in *. split; [f_equal; lia | done].
  - rewrite Nat2Z.inj_succ, Z.pow_succ_r in * by lia.
    destruct (IH (v / 10) (String (digit_char (v mod 10)) s)) as [H1 H2]; [div_lia |].
    rewrite H1, H2. cbn [dec_value String.length]. rewrite digit_of_digit_char by div_lia.
    split; [f_equal | lia]. pose proof (Z.div_mod v 10 ltac:(lia)). lia.
Qed.

Lemma pad_int_spec n v :
  0 <= v < 10 ^ Z.of_nat n ->
  dec_value 0 (pad_int n v) = Some v /\ String.length (pad_int n v) = n.
Proof.
  intros Hv. unfold pad_int. rewrite (proj2 (Z.ltb_lt _ _)) by lia.
  destruct (pad_go_spec n v 0 "" Hv) as [-> ->]. simpl. split; [done | lia].
Qed.

Lemma dec_value_cons acc c s v :
  dec_value acc (String c s) = Some v ->
  exists d, digit_of c = Some d /\ dec_value (acc * 10 + d) s = Some v.
Proof. simpl. destruct (digit_of c) as [d|]; [| done]. intros. by exists d. Qed.

Lemma trim_zeros_spec s acc v :
  s <> ""%string -> dec_value acc s = Some v ->
  (1 <= String.length (trim_zeros s) <= String.length s)%nat /\
  exists w, dec_value acc (trim_zeros s) = Some w /\
    v = w * 10 ^ (Z.of_nat (String.length s) - Z.of_nat (String.length (trim_zeros s))).
Proof.
  revert acc. induction s as [|c s IH]; intros acc Hne Hv; [done |].
  apply dec_value_cons in Hv as (d & Hd & Hv). destruct (decide (s = "")) as [-> | Hs].
  { simpl in *. rewrite Hd. split; [lia |]. exists (acc * 10 + d). injection Hv as <-.
    split; [done | lia]. }
  destruct (IH _ Hs Hv) as (Hlen & w & Hw & Ev). cbn [trim_zeros].
  destruct (trim_zeros s) as [|c' [|c'' t]] eqn:Et; [simpl in Hlen; lia | |].
  - destruct (Ascii.eqb c' (digit_char 0)) eqn:E0.
    + apply Ascii.eqb_eq in E0. subst c'. cbn [dec_value String.length] in *.
      rewrite digit_of_digit_char in Hw by lia. injection Hw as <-. rewrite Hd.
      split; [lia |]. exists (acc * 10 + d). split; [done |]. rewrite Ev.
      replace (Z.of_nat (S (String.length s)) - Z.of_nat 1)
        with (Z.succ (Z.of_nat (String.length s) - Z.of_nat 1)) by lia.
      rewrite Z.pow_succ_r by lia. lia.
    + cbn [dec_value String.length] in *. rewrite Hd. split; [lia |]. exists w. split; [done |].
      rewrite Ev. do 2 f_equal. lia.
  - cbn [dec_value String.length] in *. rewrite Hd. split; [lia |]. exists w. split; [done |].
    rewrite Ev. do 2 f_equal. lia.
Qed.

Lemma parse_fraction_spec s rest digits fr v :
  dec_value fr s = Some v -> (digits + String.length s <= 9)%nat ->
  (forall c t, rest = String c t -> digit_of c = None) ->
  parse_fraction (s +:+ rest)%string digits fr = ((digits + String.length s)%nat, v, rest).
Proof.
  revert digits fr. induction s as [|c s IH]; intros digits fr Hv Hl Hr; simpl.
  - injection Hv as <-. rewrite Nat.add_0_r. destruct rest as [|c t]; [done |]. simpl.
    by rewrite (Hr c t).
  - apply dec_value_cons in Hv as (d & Hd & Hv). rewrite Hd. simpl in Hl.
    rewrite (proj2 (Nat.ltb_lt _ _)) by lia. fold (String.append s rest).
    rewrite (IH (S digits) _ Hv) by (done || lia). do 2 f_equal. lia.
Qed.

(** What the parser does once the text has the shape of an instant: the fields
    are decoded, range checked and followed by a fraction and a zone. *)
Definition finish_parse (year month day hour minute second : Z) (rest : string) : Result TimePoint :=
  fail? (month <? 1) || (12 <? month) || (day <? 1) || (days_in_month year month <? day) ||
        (23 <? hour) || (59 <? minute) || (60 <? second)
    with error InvalidFormat "timestamp has an out-of-range field" in
  let? (fraction_nanos, rest) :=
    if char_is rest 0 "." then
      let '(digits, fraction, rest) := parse_fraction (string_drop 1 rest) 0 0 in
      fail? (digits =? 0)%nat with error InvalidFormat "timestamp has an empty fraction" in
      Ok (fraction * 10 ^ (9 - Z.of_nat digits), rest)
    else Ok (0, rest) in
  fail? negb (char_is rest 0 "Z" || char_is rest 0 "z")
    with error InvalidFormat "timestamp must be UTC (trailing Z); offsets are not accepted" in
  fail? negb (bool_decide (string_drop 1 rest = ""))
    with error InvalidFormat "timestamp has trailing characters" in
  let seconds := days_from_civil year month day * 86400 + hour * 3600 + minute * 60 + second in
  Ok (from_unix_nanos (wrap_i64 (wrap_i64 (seconds * 1000000000) + fraction_nanos))).

Lemma string_length_2 s : String.length s = 2%nat -> exists a b, s = String a (String b "").
Proof. destruct s as [|a [|b [|? ?]]]; try discriminate. intros _. by exists a, b. Qed.

Lemma string_length_4 s :
  String.length s = 4%nat -> exists a b c d, s = String a (String b (String c (String d ""))).
Proof.
  destruct s as [|a [|b [|c [|d [|? ?]]]]]; try discriminate. intros _. by exists a, b, c, d.
Qed.

(** Fixed width decimal fields are read back. *)
Lemma parse_fields year month day hour minute second rest :
  0 <= year < 10000 -> 0 <= month < 100 -> 0 <= day < 100 ->
  0 <= hour < 100 -> 0 <= minute < 100 -> 0 <= second < 100 -> rest <> ""%string ->
  parse_rfc3339 ((pad_int 4 year +:+ "-" +:+ pad_int 2 month +:+ "-" +:+ pad_int 2 day) +:+ "T" +:+
    (pad_int 2 hour +:+ ":" +:+ pad_int 2 minute +:+ ":" +:+ pad_int 2 second) +:+ rest)%string =
  finish_parse year month day hour minute second rest.
Proof.
  intros Hy Hm Hd Hh Hn Hs Hr.
  destruct (pad_int_spec 4 year Hy) as [Vy Ly], (pad_int_spec 2 month Hm) as [Vm Lm],
    (pad_int_spec 2 day Hd) as [Vd Ld], (pad_int_spec 2 hour Hh) as [Vh Lh],
    (pad_int_spec 2 minute Hn) as [Vn Ln], (pad_int_spec 2 second Hs) as [Vs Ls].
  apply string_length_4 in Ly as (y1 & y2 & y3 & y4 & Ey).
  apply string_length_2 in Lm as (m1 & m2 & Em), Ld as (d1 & d2 & Ed), Lh as (h1 & h2 & Eh),
    Ln as (n1 & n2 & En), Ls as (s1 & s2 & Es).
  rewrite Ey in *; rewrite Em in *; rewrite Ed in *; rewrite Eh in *; rewrite En in *; rewrite Es in *.
  destruct rest as [|c t]; [done |].
  match goal with |- parse_rfc3339 ?text = _ =>
    assert (parse_fixed_int text 0 4 = Some year) as P1 by exact Vy;
    assert (parse_fixed_int text 5 2 = Some month) as P2 by exact Vm;
    assert (parse_fixed_int text 8 2 = Some day) as P3 by exact Vd;
    assert (parse_fixed_int text 11 2 = Some hour) as P4 by exact Vh;
    assert (parse_fixed_int text 14 2 = Some minute) as P5 by exact Vn;
    assert (parse_fixed_int text 17 2 = Some second) as P6 by exact Vs
  end.
  unfold parse_rfc3339. rewrite P1, P2, P3, P4, P5, P6. reflexivity.
Qed.

Lemma finish_parse_plain year month day hour minute second :
  1 <= month <= 12 -> 1 <= day <= days_in_month year month ->
  0 <= hour <= 23 -> 0 <= minute <= 59 -> 0 <= second <= 60 ->
  finish_parse year month day hour minute second "Z" =
  Ok (from_unix_nanos (wrap_i64 (wrap_i64 ((days_from_civil year month day * 86400 + hour * 3600 +
    minute * 60 + second) * 1000000000) + 0))).
Proof.
  intros. unfold finish_parse. rewrite !(proj2 (Z.ltb_ge _ _)) by lia. reflexivity.
Qed.

Lemma finish_parse_fraction year month day hour minute second fraction :
  1 <= month <= 12 -> 1 <= day <= days_in_month year month ->
  0 <= hour <= 23 -> 0 <= minute <= 59 -> 0 <= second <= 60 -> 0 <= fraction < 1000000000 ->
  finish_parse year month day hour minute second ("." +:+ trim_zeros (pad_int 9 fraction) +:+ "Z")%string =
  Ok (from_unix_nanos (wrap_i64 (wrap_i64 ((days_from_civil year month day * 86400 + hour * 3600 +
    minute * 60 + second) * 1000000000) + fraction))).
Proof.
  intros Hm Hd Hh Hn Hs Hf. unfold finish_parse. rewrite !(proj2 (Z.ltb_ge _ _)) by lia.
  destruct (pad_int_spec 9 fraction Hf) as [Vf Lf].
  destruct (trim_zeros_spec (pad_int 9 fraction) 0 fraction) as (Hlen & w & Hw & Ew); [| done |].
  { intros E. by rewrite E in Lf. }
  rewrite Lf in *. set (t := trim_zeros (pad_int 9 fraction)) in *. clearbody t.
  assert (char_is ("." +:+ t +:+ "Z")%string 0 "." = true) as -> by reflexivity.
  change (string_drop 1 ("." +:+ t +:+ "Z")%string) with (t +:+ "Z")%string.
  rewrite (parse_fraction_spec t "Z" 0 0 w Hw) by (lia || by intros ? ? [= <- <-]).
  cbn [Nat.add orb]. rewrite (proj2 (Nat.eqb_neq _ _)) by lia. cbn [result_bind].
  assert (char_is "Z" 0 "Z" = true) as -> by reflexivity. cbn [orb negb string_drop].
  rewrite bool_decide_eq_true_2 by done. cbn [negb]. do 4 f_equal. rewrite Ew. do 2 f_equal.
Qed.

(** The clock fields of an instant. *)
Lemma floor_fix a b :
  0 < b ->
  (if Z.rem a b <? 0 then (Z.quot a b - 1, Z.rem a b + b) else (Z.quot a b, Z.rem a b)) =
  (a / b, a mod b).
Proof.
  intros Hb. pose proof (Z.quot_rem a b ltac:(lia)) as Hqr.
  pose proof (Z.rem_bound_abs a b ltac:(lia)) as Hr.
  destruct (Z.rem a b <? 0) eqn:E; bool_prop; f_equal.
  - apply (Z.div_unique a b (Z.quot a b - 1) (Z.rem a b + b)); lia.
  - apply (Z.mod_unique a b (Z.quot a b - 1) (Z.rem a b + b)); lia.
  - apply (Z.div_unique a b (Z.quot a b) (Z.rem a b)); lia.
  - apply (Z.mod_unique a b (Z.quot a b) (Z.rem a b)); lia.
Qed.

(** RFC 3339 round trip: for every instant that carries a value, over the
    whole signed 64 bit nanosecond range, parsing the text the runtime emits
    gives the instant back, to the nanosecond. *)
Theorem rfc3339_roundtrip (t : TimePoint) :
  i64_ok (unix_nanos t) -> is_set t = true -> parse_rfc3339 (to_rfc3339 t) = Ok t.
Proof.
  intros Hn Hset. unfold to_rfc3339. rewrite Hset. cbn [negb]. clear Hset.
  destruct t as [n]. cbn [unix_nanos] in *.
  rewrite (floor_fix n 1000000000) by lia. cbv beta iota zeta.
  rewrite (floor_fix (n / 1000000000) 86400) by lia. cbv beta iota zeta.
  set (days := n / 1000000000 / 86400). set (rem := (n / 1000000000) mod 86400).
  set (fraction := n mod 1000000000).
  assert (0 <= fraction < 1000000000) as Hf by (unfold fraction; div_lia).
  assert (0 <= rem < 86400) as Hrem by (unfold rem; div_lia).
  assert ((days * 86400 + rem) * 1000000000 + fraction = n) as Esum
    by (unfold days, rem, fraction; div_lia).
  unfold i64_ok, int64_min, int64_max in Hn.
  clearbody days rem fraction.
  pose proof (civil_days_roundtrip days ltac:(lia)) as Hciv.
  destruct (civil_from_days days) as [[year month] day].
  destruct Hciv as (Eday & Hmonth & Hday & Hyear).
  assert (1 <= days_in_month year month <= 31) as Hdim.
  { clear - Hmonth Hday. split; [lia |]. unfold days_in_month.
    destruct (_ && _); [lia |].
    assert (month = 1 \/ month = 2 \/ month = 3 \/ month = 4 \/ month = 5 \/ month = 6 \/ month = 7 \/
      month = 8 \/ month = 9 \/ month = 10 \/ month = 11 \/ month = 12) as Hc by lia.
    repeat (destruct Hc as [-> | Hc]; [simpl; lia |]). subst. simpl. lia. }
  assert (0 <= year < 10000) as Hy by (clear - Hyear Esum Hn Hrem Hf; div_lia).
  assert (Ehms : Z.quot rem 3600 * 3600 + Z.quot (Z.rem rem 3600) 60 * 60 + Z.rem rem 60 = rem)
    by (clear - Hrem; div_lia).
  assert (0 <= Z.quot rem 3600 <= 23 /\ 0 <= Z.quot (Z.rem rem 3600) 60 <= 59 /\
    0 <= Z.rem rem 60 <= 59) as (Hh & Hmin & Hsec) by (clear - Hrem; div_lia).
  set (hour := Z.quot rem 3600) in *. set (minute := Z.quot (Z.rem rem 3600) 60) in *.
  set (second := Z.rem rem 60) in *. clearbody hour minute second.
  assert (wrap_i64 (wrap_i64 ((days * 86400 + hour * 3600 + minute * 60 + second) * 1000000000)
    + fraction) = n) as Ewrap.
  { rewrite <- (wrap_i64_small n) at 1 by (unfold i64_ok, int64_min, int64_max; lia).
    unfold wrap_i64. rewrite !wrap_u_mod by lia. f_equal.
    replace ((((days * 86400 + hour * 3600 + minute * 60 + second) * 1000000000 + 2 ^ 63) mod 2 ^ 64
      - 2 ^ 63 + fraction) + 2 ^ 63)
      with (((days * 86400 + hour * 3600 + minute * 60 + second) * 1000000000 + 2 ^ 63) mod 2 ^ 64
        + fraction) by lia.
    rewrite Zplus_mod_idemp_l. f_equal. lia. }
  destruct (fraction =? 0) eqn:Ef.
  - apply Z.eqb_eq in Ef. rewrite parse_fields by (done || lia).
    rewrite finish_parse_plain by lia. rewrite Eday. by rewrite <- Ef at 1; rewrite Ewrap.
  - rewrite parse_fields by (done || lia).
    rewrite finish_parse_fraction by lia. by rewrite Eday, Ewrap.
Qed.

Lemma rfc3339_roundtrip_witness :
  parse_rfc3339 (to_rfc3339 (from_unix_nanos (-9223372036854775807))) =
  Ok (from_unix_nanos (-9223372036854775807)).
Proof.
  apply rfc3339_roundtrip; [unfold i64_ok, int64_min, int64_max; simpl; lia | reflexivity].
Defined.
