(* ===== verification/Limits.v ===== *)
(** * Bounds

    Models [include/pathobs/limits.hpp] and [src/limits.cpp]: the configured
    bounds of the runtime, the hard ceiling no configuration may exceed, and the
    validation every component that is handed a [Limits] performs first. *)

From S2P Require Import Prelude Errors.
#[local] Open Scope Z_scope.

(** [struct Limits] *)
Record Limits : Set := mk_limits {
  max_hops_per_path : Z;
  max_paths_per_generation : Z;
  max_groups_per_generation : Z;
  max_members_per_group : Z;
  max_devices_per_topology : Z;
  max_links_per_topology : Z;
  max_evidence_per_comparison : Z;
  max_evidence_per_ingest_batch : Z;
  max_evidence_payload_bytes : Z;
  max_document_bytes : Z;
  max_json_depth : Z;
  max_json_nodes : Z;
  max_string_bytes : Z;
  worker_threads : Z;
  max_worker_threads : Z;
  max_queue_depth : Z;
  max_transport_connections : Z;
  max_frame_bytes : Z;
  max_connections_per_accept : Z;
  max_history_records : Z;
  max_history_per_group : Z;
  history_window_nanos : Z;
  max_findings : Z;
  max_finding_evidence : Z;
  max_export_records : Z;
  max_store_bytes : Z;
  max_store_records : Z;
  max_store_record_bytes : Z;
  max_store_segments : Z
}.

#[global] Instance Limits_eq_dec : EqDecision Limits.
Proof. solve_decision. Defined.

(** The default member initialisers. *)
Definition default_limits : Limits := {|
  max_hops_per_path := 512;
  max_paths_per_generation := 65536;
  max_groups_per_generation := 65536;
  max_members_per_group := 64;
  max_devices_per_topology := 262144;
  max_links_per_topology := 1048576;
  max_evidence_per_comparison := 4096;
  max_evidence_per_ingest_batch := 8192;
  max_evidence_payload_bytes := 4 * 1024 * 1024;
  max_document_bytes := 64 * 1024 * 1024;
  max_json_depth := 64;
  max_json_nodes := 2000000;
  max_string_bytes := 1024 * 1024;
  worker_threads := 4;
  max_worker_threads := 64;
  max_queue_depth := 16384;
  max_transport_connections := 64;
  max_frame_bytes := 8 * 1024 * 1024;
  max_connections_per_accept := 256;
  max_history_records := 65536;
  max_history_per_group := 1024;
  history_window_nanos := 3600 * 1000000000;
  max_findings := 65536;
  max_finding_evidence := 512;
  max_export_records := 1000000;
  max_store_bytes := 512 * 1024 * 1024;
  max_store_records := 1000000;
  max_store_record_bytes := 16 * 1024 * 1024;
  max_store_segments := 8
|}.

(** [Limits::hard_ceiling] *)
Definition hard_ceiling : Limits := {|
  max_hops_per_path := 4096;
  max_paths_per_generation := 1000000;
  max_groups_per_generation := 1000000;
  max_members_per_group := 4096;
  max_devices_per_topology := 1000000;
  max_links_per_topology := 4000000;
  max_evidence_per_comparison := 65536;
  max_evidence_per_ingest_batch := 65536;
  max_evidence_payload_bytes := 64 * 1024 * 1024;
  max_document_bytes := 512 * 1024 * 1024;
  max_json_depth := 256;
  max_json_nodes := 20000000;
  max_string_bytes := 16 * 1024 * 1024;
  worker_threads := 256;
  max_worker_threads := 256;
  max_queue_depth := 1048576;
  max_transport_connections := 1024;
  max_frame_bytes := 128 * 1024 * 1024;
  max_connections_per_accept := 65536;
  max_history_records := 10000000;
  max_history_per_group := 1000000;
  history_window_nanos := 365 * 24 * 3600 * 1000000000;
  max_findings := 10000000;
  max_finding_evidence := 65536;
  max_export_records := 10000000;
  max_store_bytes := 64 * 1024 * 1024 * 1024;
  max_store_records := 100000000;
  max_store_record_bytes := 256 * 1024 * 1024;
  max_store_segments := 64
|}.

(** Compare one configured field against its hard ceiling. *)
Definition within (value ceiling : Z) (name : string) : Status :=
  fail? ceiling <? value with error OutOfRange ("limit exceeds hard ceiling: " +:+ name)%string in ok.

(** The array [checks], in the order it is scanned. *)
Definition limit_checks (l : Limits) : list Status :=
  let ceiling := hard_ceiling in [
    within (max_hops_per_path l) (max_hops_per_path ceiling) "max_hops_per_path";
    within (max_paths_per_generation l) (max_paths_per_generation ceiling) "max_paths_per_generation";
    within (max_groups_per_generation l) (max_groups_per_generation ceiling) "max_groups_per_generation";
    within (max_members_per_group l) (max_members_per_group ceiling) "max_members_per_group";
    within (max_devices_per_topology l) (max_devices_per_topology ceiling) "max_devices_per_topology";
    within (max_links_per_topology l) (max_links_per_topology ceiling) "max_links_per_topology";
    within (max_evidence_per_comparison l) (max_evidence_per_comparison ceiling) "max_evidence_per_comparison";
    within (max_evidence_per_ingest_batch l) (max_evidence_per_ingest_batch ceiling) "max_evidence_per_ingest_batch";
    within (max_evidence_payload_bytes l) (max_evidence_payload_bytes ceiling) "max_evidence_payload_bytes";
    within (max_document_bytes l) (max_document_bytes ceiling) "max_document_bytes";
    within (max_json_depth l) (max_json_depth ceiling) "max_json_depth";
    within (max_json_nodes l) (max_json_nodes ceiling) "max_json_nodes";
    within (max_string_bytes l) (max_string_bytes ceiling) "max_string_bytes";
    within (worker_threads l) (worker_threads ceiling) "worker_threads";
    within (max_worker_threads l) (max_worker_threads ceiling) "max_worker_threads";
    within (max_queue_depth l) (max_queue_depth ceiling) "max_queue_depth";
    within (max_transport_connections l) (max_transport_connections ceiling) "max_transport_connections";
    within (max_frame_bytes l) (max_frame_bytes ceiling) "max_frame_bytes";
    within (max_connections_per_accept l) (max_connections_per_accept ceiling) "max_connections_per_accept";
    within (max_history_records l) (max_history_records ceiling) "max_history_records";
    within (max_history_per_group l) (max_history_per_group ceiling) "max_history_per_group";
    within (max_findings l) (max_findings ceiling) "max_findings";
    within (max_finding_evidence l) (max_finding_evidence ceiling) "max_finding_evidence";
    within (max_export_records l) (max_export_records ceiling) "max_export_records";
    within (max_store_bytes l) (max_store_bytes ceiling) "max_store_bytes";
    within (max_store_records l) (max_store_records ceiling) "max_store_records";
    within (max_store_record_bytes l) (max_store_record_bytes ceiling) "max_store_record_bytes";
    within (max_store_segments l) (max_store_segments ceiling) "max_store_segments"
  ].

(** [Limits::validate] *)
Definition limits_validate (l : Limits) : Status :=
  check? first_failure (limit_checks l) in
  fail? worker_threads l =? 0 with error InvalidArgument "worker_threads must be at least one" in
  fail? max_history_records l <? max_history_per_group l with
    error InvalidArgument "max_history_per_group must not exceed max_history_records" in
  fail? max_queue_depth l <? max_evidence_per_ingest_batch l with
    error InvalidArgument "max_evidence_per_ingest_batch must not exceed max_queue_depth" in
  ok.

(** The values the unsigned fields can hold. *)
Definition limits_ok (l : Limits) : Prop :=
  u_ok 32 (max_hops_per_path l) /\
  u_ok 32 (max_paths_per_generation l) /\
  u_ok 32 (max_groups_per_generation l) /\
  u_ok 32 (max_members_per_group l) /\
  u_ok 32 (max_devices_per_topology l) /\
  u_ok 32 (max_links_per_topology l) /\
  u_ok 32 (max_evidence_per_comparison l) /\
  u_ok 32 (max_evidence_per_ingest_batch l) /\
  u_ok 64 (max_evidence_payload_bytes l) /\
  u_ok 32 (max_document_bytes l) /\
  u_ok 32 (max_json_depth l) /\
  u_ok 32 (max_json_nodes l) /\
  u_ok 32 (max_string_bytes l) /\
  u_ok 32 (worker_threads l) /\
  u_ok 32 (max_worker_threads l) /\
  u_ok 32 (max_queue_depth l) /\
  u_ok 32 (max_transport_connections l) /\
  u_ok 32 (max_frame_bytes l) /\
  u_ok 32 (max_connections_per_accept l) /\
  u_ok 32 (max_history_records l) /\
  u_ok 32 (max_history_per_group l) /\
  u_ok 64 (history_window_nanos l) /\
  u_ok 32 (max_findings l) /\
  u_ok 32 (max_finding_evidence l) /\
  u_ok 32 (max_export_records l) /\
  u_ok 64 (max_store_bytes l) /\
  u_ok 32 (max_store_records l) /\
  u_ok 32 (max_store_record_bytes l) /\
  u_ok 32 (max_store_segments l).

(** The fields [validate] bounds by the ceiling: all but [history_window_nanos]. *)
Definition bounded_fields : list (Limits -> Z) := [
  max_hops_per_path;
  max_paths_per_generation;
  max_groups_per_generation;
  max_members_per_group;
  max_devices_per_topology;
  max_links_per_topology;
  max_evidence_per_comparison;
  max_evidence_per_ingest_batch;
  max_evidence_payload_bytes;
  max_document_bytes;
  max_json_depth;
  max_json_nodes;
  max_string_bytes;
  worker_threads;
  max_worker_threads;
  max_queue_depth;
  max_transport_connections;
  max_frame_bytes;
  max_connections_per_accept;
  max_history_records;
  max_history_per_group;
  max_findings;
  max_finding_evidence;
  max_export_records;
  max_store_bytes;
  max_store_records;
  max_store_record_bytes;
  max_store_segments
  ].

Lemma within_ok v c n : within v c n = ok <-> v <= c.
Proof. unfold within. destruct (c <? v) eqn:E; bool_prop; split; done || lia. Qed.

Lemma within_code v c n : within v c n = ok \/ err_code (within v c n) = Some OutOfRange.
Proof. unfold within. destruct (c <? v); [by right | by left]. Qed.

Lemma limit_checks_bounded l :
  first_failure (limit_checks l) = ok <-> Forall (fun f => f l <= f hard_ceiling) bounded_fields.
Proof.
  rewrite first_failure_ok. unfold limit_checks, bounded_fields.
  by rewrite !Forall_cons_iff, !within_ok, !Forall_nil_iff.
Qed.

Lemma first_failure_code c checks :
  Forall (fun s => s = ok \/ err_code s = Some c) checks ->
  first_failure checks = ok \/ err_code (first_failure checks) = Some c.
Proof. induction 1 as [|[[]|e] rest H _ IH]; simpl; [by left | done |]. destruct H; [done | by right]. Qed.

(** [Limits::validate] accepts a configuration exactly when every bounded
    field is at most its hard ceiling, there is at least one worker, and the two
    cross-field constraints hold; a field above its ceiling is reported as
    [OutOfRange], and only an inconsistency is reported as [InvalidArgument]. *)
Theorem limits_validate_spec (l : Limits) :
  limits_ok l ->
  (limits_validate l = ok <->
     Forall (fun f => f l <= f hard_ceiling) bounded_fields /\ 1 <= worker_threads l /\
     max_history_per_group l <= max_history_records l /\
     max_evidence_per_ingest_batch l <= max_queue_depth l) /\
  (err_code (limits_validate l) = Some OutOfRange <->
     ~ Forall (fun f => f l <= f hard_ceiling) bounded_fields).
Proof.
  intros Hl. assert (0 <= worker_threads l) as Hw by (unfold limits_ok, u_ok in Hl; tauto).
  assert (first_failure (limit_checks l) = ok \/
    err_code (first_failure (limit_checks l)) = Some OutOfRange) as Hc.
  { apply first_failure_code. unfold limit_checks.
    repeat (apply Forall_cons_iff; split; [apply within_code |]). constructor. }
  rewrite <- limit_checks_bounded. unfold limits_validate.
  destruct Hc as [-> | Hc]; cbn [result_bind ok].
  - destruct (worker_threads l =? 0) eqn:E1, (max_history_records l <? max_history_per_group l) eqn:E2,
      (max_queue_depth l <? max_evidence_per_ingest_batch l) eqn:E3; bool_prop;
      (split; split; [intros ? | intros ? | intros ? | intros ?]);
      try done; try (destruct_and?; lia); by repeat split; try lia.
  - destruct (first_failure (limit_checks l)) as [[]|e]; [done |]. cbn [result_bind err_code] in *.
    split; split; [done | by intros [? _] | done | done].
Qed.

Lemma limits_validate_spec_witness :
  limits_validate default_limits = ok /\ limits_validate hard_ceiling = ok.
Proof.
  split; apply limits_validate_spec;
    first [ vm_compute; intuition discriminate | repeat split; first [ lia | vm_compute; repeat constructor; discriminate ] ].
Defined.

(** What every accepted configuration satisfies. *)
Lemma limits_validate_bounded l :
  limits_validate l = ok -> Forall (fun f => f l <= f hard_ceiling) bounded_fields.
Proof.
  unfold limits_validate. intros H. apply limit_checks_bounded.
  by destruct (first_failure (limit_checks l)) as [[]|].
Qed.

Lemma limits_validate_store_record_bytes l :
  limits_validate l = ok -> max_store_record_bytes l <= 268435456.
Proof.
  intros H. apply limits_validate_bounded in H. rewrite Forall_elem in H.
  apply (H max_store_record_bytes). unfold bounded_fields. repeat (apply list_elem_of_here || apply list_elem_of_further).
Qed.

Lemma limits_validate_store_records l : limits_validate l = ok -> max_store_records l <= 100000000.
Proof.
  intros H. apply limits_validate_bounded in H. rewrite Forall_elem in H.
  apply (H max_store_records). unfold bounded_fields. repeat (apply list_elem_of_here || apply list_elem_of_further).
Qed.

(** The ceiling on the history window is declared but not enforced. *)
Lemma history_window_unbounded :
  exists l, limits_ok l /\ limits_validate l = ok /\
    history_window_nanos hard_ceiling < history_window_nanos l.
Proof.
  exists {|
    max_hops_per_path := max_hops_per_path default_limits;
    max_paths_per_generation := max_paths_per_generation default_limits;
    max_groups_per_generation := max_groups_per_generation default_limits;
    max_members_per_group := max_members_per_group default_limits;
    max_devices_per_topology := max_devices_per_topology default_limits;
    max_links_per_topology := max_links_per_topology default_limits;
    max_evidence_per_comparison := max_evidence_per_comparison default_limits;
    max_evidence_per_ingest_batch := max_evidence_per_ingest_batch default_limits;
    max_evidence_payload_bytes := max_evidence_payload_bytes default_limits;
    max_document_bytes := max_document_bytes default_limits;
    max_json_depth := max_json_depth default_limits;
    max_json_nodes := max_json_nodes default_limits;
    max_string_bytes := max_string_bytes default_limits;
    worker_threads := worker_threads default_limits;
    max_worker_threads := max_worker_threads default_limits;
    max_queue_depth := max_queue_depth default_limits;
    max_transport_connections := max_transport_connections default_limits;
    max_frame_bytes := max_frame_bytes default_limits;
    max_connections_per_accept := max_connections_per_accept default_limits;
    max_history_records := max_history_records default_limits;
    max_history_per_group := max_history_per_group default_limits;
    history_window_nanos := 2 ^ 64 - 1;
    max_findings := max_findings default_limits;
    max_finding_evidence := max_finding_evidence default_limits;
    max_export_records := max_export_records default_limits;
    max_store_bytes := max_store_bytes default_limits;
    max_store_records := max_store_records default_limits;
    max_store_record_bytes := max_store_record_bytes default_limits;
    max_store_segments := max_store_segments default_limits
  |}. split; [vm_compute; intuition discriminate | by vm_compute].
Qed.
