(* ===== verification/Source.v ===== *)
(** * Observation sources

    Models [include/pathobs/source.hpp] and [src/source.cpp]: the labels a
    source carries, the validation and content digest of a descriptor, the
    registry of trusted sources, and the per source sequence ledger that fences
    replays and makes gaps explicit.  The mutexes serialise the operations, so
    each operation is one atomic step on the state. *)

From S2P Require Import Prelude Errors StdAlgo Digest Canonical Ids TimeModel.
#[local] Open Scope Z_scope.

(** ** Labels *)

Inductive SourceKind : Set :=
  | KindUnknown | RoutingAuthority | TopologyAuthority | TelemetryObserver | ReplayFile
  | TestHarness | Simulator.

#[global] Instance SourceKind_eq_dec : EqDecision SourceKind.
Proof. solve_decision. Defined.

(** The underlying [std::uint8_t] value. *)
Definition source_kind_code (kind : SourceKind) : Z :=
  match kind with
  | KindUnknown => 0 | RoutingAuthority => 1 | TopologyAuthority => 2 | TelemetryObserver => 3
  | ReplayFile => 4 | TestHarness => 5 | Simulator => 6
  end.

Definition source_kind_to_string (kind : SourceKind) : string :=
  match kind with
  | KindUnknown => "unknown"
  | RoutingAuthority => "routing_authority"
  | TopologyAuthority => "topology_authority"
  | TelemetryObserver => "telemetry_observer"
  | ReplayFile => "replay_file"
  | TestHarness => "test_harness"
  | Simulator => "simulator"
  end.

Definition parse_source_kind (text : string) : Result SourceKind :=
  if bool_decide (text = "unknown") then Ok KindUnknown else
  if bool_decide (text = "routing_authority") then Ok RoutingAuthority else
  if bool_decide (text = "topology_authority") then Ok TopologyAuthority else
  if bool_decide (text = "telemetry_observer") then Ok TelemetryObserver else
  if bool_decide (text = "replay_file") then Ok ReplayFile else
  if bool_decide (text = "test_harness") then Ok TestHarness else
  if bool_decide (text = "simulator") then Ok Simulator else
  Err (mk_error InvalidFormat "unknown source kind" text).

Inductive ProofSurface : Set := SurfaceUnknown | SurfaceReal | SurfaceSynthetic | SurfaceUnsupported.

#[global] Instance ProofSurface_eq_dec : EqDecision ProofSurface.
Proof. solve_decision. Defined.

Definition proof_surface_code (surface : ProofSurface) : Z :=
  match surface with
  | SurfaceUnknown => 0 | SurfaceReal => 1 | SurfaceSynthetic => 2 | SurfaceUnsupported => 3
  end.

Definition proof_surface_to_string (surface : ProofSurface) : string :=
  match surface with
  | SurfaceUnknown => "unknown"
  | SurfaceReal => "real"
  | SurfaceSynthetic => "synthetic"
  | SurfaceUnsupported => "unsupported"
  end.

Definition parse_proof_surface (text : string) : Result ProofSurface :=
  if bool_decide (text = "unknown") then Ok SurfaceUnknown else
  if bool_decide (text = "real") then Ok SurfaceReal else
  if bool_decide (text = "synthetic") then Ok SurfaceSynthetic else
  if bool_decide (text = "unsupported") then Ok SurfaceUnsupported else
  Err (mk_error InvalidFormat "unknown proof surface" text).

Inductive AuthorityClass : Set := AuthorityNone | Informational | Advisory | Authoritative.

#[global] Instance AuthorityClass_eq_dec : EqDecision AuthorityClass.
Proof. solve_decision. Defined.

Definition authority_code (authority : AuthorityClass) : Z :=
  match authority with
  | AuthorityNone => 0 | Informational => 1 | Advisory => 2 | Authoritative => 3
  end.

Definition authority_to_string (authority : AuthorityClass) : string :=
  match authority with
  | AuthorityNone => "none"
  | Informational => "informational"
  | Advisory => "advisory"
  | Authoritative => "authoritative"
  end.

Definition parse_authority_class (text : string) : Result AuthorityClass :=
  if bool_decide (text = "none") then Ok AuthorityNone else
  if bool_decide (text = "informational") then Ok Informational else
  if bool_decide (text = "advisory") then Ok Advisory else
  if bool_decide (text = "authoritative") then Ok Authoritative else
  Err (mk_error InvalidFormat "unknown authority class" text).

(** ** Descriptors *)

Record SourceCapabilities : Set := mk_capabilities {
  cap_expected_state : bool;
  cap_observed_evidence : bool;
  cap_topology : bool
}.

#[global] Instance SourceCapabilities_eq_dec : EqDecision SourceCapabilities.
Proof. solve_decision. Defined.

Record SourceDescriptor : Set := mk_source {
  source_id : SourceId;
  source_name : string;
  source_kind : SourceKind;
  source_surface : ProofSurface;
  source_authority : AuthorityClass;
  source_capabilities : SourceCapabilities;
  max_observation_age : Duration;
  clock_skew_tolerance : Duration
}.

#[global] Instance SourceDescriptor_eq_dec : EqDecision SourceDescriptor.
Proof. solve_decision. Defined.

(** [SourceDescriptor::validate] *)
Definition source_validate (d : SourceDescriptor) : Status :=
  fail? negb (valid (source_id d)) with error InvalidIdentity "source descriptor has no identity" in
  fail? bool_decide (source_name d = "") with error InvalidArgument "source descriptor has no name" in
  fail? (256 <? String.length (source_name d))%nat with error OutOfRange "source name is too long" in
  fail? bool_decide (source_kind d = KindUnknown) with
    error InvalidArgument "source kind must be stated" in
  fail? bool_decide (source_surface d = SurfaceUnknown) with
    error InvalidArgument "source proof surface must be stated as real, synthetic or unsupported" in
  fail? bool_decide (source_authority d = AuthorityNone) with
    error InvalidArgument "source authority class must be stated" in
  let routing_capable :=
    cap_expected_state (source_capabilities d) || cap_topology (source_capabilities d) in
  fail? routing_capable && negb (bool_decide (source_authority d = Authoritative)) with
    error InvalidArgument "a source that publishes expected state must be authoritative" in
  fail? negb (cap_expected_state (source_capabilities d)) &&
        negb (cap_observed_evidence (source_capabilities d)) &&
        negb (cap_topology (source_capabilities d)) with
    error InvalidArgument "source declares no capability" in
  fail? max_observation_age d <? 0 with
    error InvalidArgument "source max observation age must not be negative" in
  fail? clock_skew_tolerance d <? 0 with
    error InvalidArgument "source clock skew tolerance must not be negative" in
  ok.

(** The bytes [SourceDescriptor::canonical_digest] hashes. *)
Definition source_canonical (d : SourceDescriptor) : list Z :=
  put_text "pathobs.source" ++
  put_id (source_id d) ++
  put_text (source_name d) ++
  put_u8 (source_kind_code (source_kind d)) ++
  put_u8 (proof_surface_code (source_surface d)) ++
  put_u8 (authority_code (source_authority d)) ++
  put_boolean (cap_expected_state (source_capabilities d)) ++
  put_boolean (cap_observed_evidence (source_capabilities d)) ++
  put_boolean (cap_topology (source_capabilities d)) ++
  put_i64 (max_observation_age d) ++
  put_i64 (clock_skew_tolerance d).

Definition source_digest (d : SourceDescriptor) : Digest := digest_of (source_canonical d).

(** ** SourceRegistry *)

Definition SourceRegistry : Set := omap SourceId SourceDescriptor.

Definition register_source (sources : SourceRegistry) (descriptor : SourceDescriptor) :
    Status * SourceRegistry :=
  match source_validate descriptor with
  | Err e => (Err e, sources)
  | Ok _ =>
      match om_find (source_id descriptor) sources with
      | Some existing =>
          if bool_decide (source_digest existing = source_digest descriptor) then (ok, sources)
          else (Err (error DuplicateIdentity
                  "a different source is already registered with this identity"), sources)
      | None => (ok, om_emplace (source_id descriptor) descriptor sources)
      end
  end.

Definition registry_contains (sources : SourceRegistry) (id : SourceId) : bool :=
  match om_find id sources with Some _ => true | None => false end.

Definition registry_find (sources : SourceRegistry) (id : SourceId) : Result SourceDescriptor :=
  match om_find id sources with
  | Some d => Ok d
  | None => Err (mk_error UnknownIdentity "source is not registered" (id_str id))
  end.

Definition registry_all (sources : SourceRegistry) : list SourceDescriptor := map snd sources.
Definition registry_size (sources : SourceRegistry) : nat := length sources.

(** ** SourceSequenceLedger *)

Inductive Verdict : Set := InOrder | Gap | Replay | NewIncarnation.

#[global] Instance Verdict_eq_dec : EqDecision Verdict.
Proof. solve_decision. Defined.

(** [struct Outcome] of the ledger *)
Record LedgerOutcome : Set := mk_ledger_outcome {
  verdict : Verdict;
  outcome_missing : Z;
  outcome_highest : SourceSequence
}.

(** [struct Entry] of the ledger *)
Record LedgerEntry : Set := mk_entry {
  entry_incarnation : SourceIncarnationId;
  entry_highest : SourceSequence;
  entry_missing : Z;
  entry_accepted : Z;
  entry_replays : Z
}.

Definition entry_new : LedgerEntry := mk_entry id_none id_none 0 0 0.

Definition SourceSequenceLedger : Set := omap SourceId LedgerEntry.

(** [entries_[source]]: the entry is created when it is missing. *)
Definition ledger_entry (entries : SourceSequenceLedger) (source : SourceId) : LedgerEntry :=
  match om_find source entries with Some e => e | None => entry_new end.

Definition u64_add (a b : Z) : Z := wrap_u 64 (a + b).
Definition u64_sub (a b : Z) : Z := wrap_u 64 (a - b).

(** The body of [observe] on the entry of the source. *)
Definition entry_observe (entry : LedgerEntry) (incarnation : SourceIncarnationId)
    (sequence : SourceSequence) : LedgerOutcome * LedgerEntry :=
  if negb (valid (entry_incarnation entry)) || negb (bool_decide (entry_incarnation entry = incarnation))
  then
    if valid (entry_incarnation entry) then
      (mk_ledger_outcome NewIncarnation 0 sequence,
       mk_entry incarnation sequence 0 (u64_add (entry_accepted entry) 1) (entry_replays entry))
    else
      (mk_ledger_outcome InOrder 0 sequence,
       mk_entry incarnation sequence (entry_missing entry) (u64_add (entry_accepted entry) 1)
         (entry_replays entry))
  else if negb (id_lt (entry_highest entry) sequence) then
    (mk_ledger_outcome Replay 0 (entry_highest entry),
     mk_entry (entry_incarnation entry) (entry_highest entry) (entry_missing entry)
       (entry_accepted entry) (u64_add (entry_replays entry) 1))
  else
    let gap := u64_sub (u64_sub (value sequence) (value (entry_highest entry))) 1 in
    let missing := if 0 <? gap then u64_add (entry_missing entry) gap else entry_missing entry in
    ((if 0 <? gap then mk_ledger_outcome Gap gap sequence else mk_ledger_outcome InOrder 0 sequence),
     mk_entry (entry_incarnation entry) sequence missing (u64_add (entry_accepted entry) 1)
       (entry_replays entry)).

(** [SourceSequenceLedger::observe] *)
Definition ledger_observe (entries : SourceSequenceLedger) (source : SourceId)
    (incarnation : SourceIncarnationId) (sequence : SourceSequence) :
    LedgerOutcome * SourceSequenceLedger :=
  let '(outcome, entry) := entry_observe (ledger_entry entries source) incarnation sequence in
  (outcome, om_insert source entry entries).

Definition has_gap (entries : SourceSequenceLedger) (source : SourceId) : bool :=
  match om_find source entries with Some e => 0 <? entry_missing e | None => false end.

Definition missing_total (entries : SourceSequenceLedger) (source : SourceId) : Z :=
  match om_find source entries with Some e => entry_missing e | None => 0 end.

Definition tracked_incarnations (entries : SourceSequenceLedger) : nat := length entries.

Definition gap_counts (entries : SourceSequenceLedger) : omap SourceId Z :=
  map (fun e => (e.1, entry_missing e.2)) entries.

(** ** Lemmas *)

Lemma parse_source_kind_to_string k : parse_source_kind (source_kind_to_string k) = Ok k.
Proof. by destruct k. Qed.

Lemma parse_proof_surface_to_string s : parse_proof_surface (proof_surface_to_string s) = Ok s.
Proof. by destruct s. Qed.

Lemma parse_authority_class_to_string a : parse_authority_class (authority_to_string a) = Ok a.
Proof. by destruct a. Qed.

Lemma source_kind_code_inj a b : source_kind_code a = source_kind_code b -> a = b.
Proof. by destruct a, b. Qed.

Lemma proof_surface_code_inj a b : proof_surface_code a = proof_surface_code b -> a = b.
Proof. by destruct a, b. Qed.

Lemma authority_code_inj a b : authority_code a = authority_code b -> a = b.
Proof. by destruct a, b. Qed.

Lemma source_kind_byte k : byte_ok (source_kind_code k).
Proof. destruct k; unfold byte_ok; simpl; lia. Qed.

Lemma proof_surface_byte s : byte_ok (proof_surface_code s).
Proof. destruct s; unfold byte_ok; simpl; lia. Qed.

Lemma authority_byte a : byte_ok (authority_code a).
Proof. destruct a; unfold byte_ok; simpl; lia. Qed.

#[export] Hint Resolve source_kind_byte proof_surface_byte authority_byte : pathobs.

(** What the fields of a descriptor can hold. *)
Definition source_repr (d : SourceDescriptor) : Prop :=
  id_ok (source_id d) /\ len32 (string_bytes (source_name d)) /\
  i64_ok (max_observation_age d) /\ i64_ok (clock_skew_tolerance d).

(** The hashed bytes determine the whole descriptor. *)
Lemma source_canonical_inj a b :
  source_repr a -> source_repr b -> source_canonical a = source_canonical b -> a = b.
Proof.
  intros (Ha1 & Ha2 & Ha3 & Ha4) (Hb1 & Hb2 & Hb3 & Hb4) E. unfold source_canonical in E.
  apply app_inv_head in E.
  destruct a as [? ? ? ? ? [? ? ?] ? ?], b as [? ? ? ? ? [? ? ?] ? ?]; cbn [source_id source_name
    source_kind source_surface source_authority source_capabilities max_observation_age
    clock_skew_tolerance cap_expected_state cap_observed_evidence cap_topology] in *.
  repeat (prefix_step E; [| by auto with pathobs | by auto with pathobs]).
  rewrite <- (app_nil_r (put_i64 clock_skew_tolerance0)), <- (app_nil_r (put_i64 clock_skew_tolerance1)) in E.
  prefix_step E; [| done | done].
  repeat match goal with
  | H : source_kind_code _ = source_kind_code _ |- _ => apply source_kind_code_inj in H
  | H : proof_surface_code _ = proof_surface_code _ |- _ => apply proof_surface_code_inj in H
  | H : authority_code _ = authority_code _ |- _ => apply authority_code_inj in H
  end.
  by subst.
Qed.

(** The registry invariant: entries are keyed by their own identity, in key
    order, and every descriptor passed validation. *)
Definition registry_ok (sources : SourceRegistry) : Prop :=
  om_wf sources /\
  forall id d, om_find id sources = Some d -> source_id d = id /\ source_validate d = ok.

(** Registration is first-writer-wins and idempotent.  It keeps the registry
    invariant and never changes an entry that is already there; it succeeds
    exactly when the descriptor is valid and its identity is free or already
    bound to the same content, and after success the identity resolves to a
    valid descriptor with the registered content. *)
Theorem registry_first_writer_wins (sources : SourceRegistry) (d : SourceDescriptor) :
  registry_ok sources ->
  let '(status, sources') := register_source sources d in
  registry_ok sources' /\
  (forall id e, om_find id sources = Some e -> registry_find sources' id = Ok e) /\
  (status = ok <-> source_validate d = ok /\
     forall e, registry_find sources (source_id d) = Ok e -> source_digest e = source_digest d) /\
  (status = ok -> exists e, registry_find sources' (source_id d) = Ok e /\
     source_digest e = source_digest d) /\
  (status = ok -> register_source sources' d = (ok, sources')).
Proof.
  intros [Hwf Hok]. unfold register_source at 1. destruct (source_validate d) as [[]|e] eqn:Ev.
  2:{ split_and!; try done.
      - intros id e0 E. unfold registry_find. by rewrite E.
      - split; [done | by intros [? _]]. }
  destruct (om_find (source_id d) sources) as [e|] eqn:Ef.
  - assert (registry_find sources (source_id d) = Ok e) as Er by (unfold registry_find; by rewrite Ef).
    rewrite Er. case_bool_decide as Ed; split_and!; try done.
    + intros id e0 E. unfold registry_find. by rewrite E.
    + split; [| done]. intros _. split; [done |]. by intros e0 [= <-].
    + intros _. by exists e.
    + intros _. unfold register_source. by rewrite Ev, Ef, bool_decide_eq_true_2.
    + intros id e0 E. unfold registry_find. by rewrite E.
    + split; [done |]. intros [_ F]. destruct Ed. by apply F.
  - unfold om_emplace. rewrite Ef.
    assert (registry_ok (om_insert (source_id d) d sources)) as Hok'.
    { split; [by apply om_insert_wf |]. intros id e E.
      destruct (decide (source_id d = id)) as [<- | Hne].
      - rewrite om_find_insert in E. by injection E as <-.
      - rewrite om_find_insert_ne in E by done. by apply Hok. }
    split_and!; [done | | | |].
    + intros id e E. unfold registry_find. rewrite om_find_insert_ne by congruence. by rewrite E.
    + split; [| done]. intros _. split; [done |]. intros e. unfold registry_find. by rewrite Ef.
    + intros _. exists d. unfold registry_find. by rewrite om_find_insert.
    + intros _. unfold register_source. by rewrite Ev, om_find_insert, bool_decide_eq_true_2.
Qed.

Definition example_source : SourceDescriptor :=
  mk_source (from_value 7) "edge" TelemetryObserver SurfaceReal Advisory
    (mk_capabilities false true false) 0 0.

Lemma registry_first_writer_wins_witness :
  let '(status, sources') := register_source [] example_source in
  registry_ok sources' /\
  (forall id e, om_find id [] = Some e -> registry_find sources' id = Ok e) /\
  (status = ok <-> source_validate example_source = ok /\
     forall e, registry_find [] (source_id example_source) = Ok e ->
       source_digest e = source_digest example_source) /\
  (status = ok -> exists e, registry_find sources' (source_id example_source) = Ok e /\
     source_digest e = source_digest example_source) /\
  (status = ok -> register_source sources' example_source = (ok, sources')).
Proof. apply registry_first_writer_wins. split; [constructor | done]. Defined.

(** ** The ledger as a trace of observations *)

(** One delivery: source, incarnation and sequence. *)
Definition Delivery : Set := SourceId * SourceIncarnationId * SourceSequence.

Fixpoint ledger_run (entries : SourceSequenceLedger) (trace : list Delivery) :
    list LedgerOutcome * SourceSequenceLedger :=
  match trace with
  | [] => ([], entries)
  | (source, incarnation, sequence) :: rest =>
      let '(outcome, entries) := ledger_observe entries source incarnation sequence in
      let '(outcomes, entries) := ledger_run entries rest in
      (outcome :: outcomes, entries)
  end.

(** Reference: the sequences of one source that exceed all the previous ones. *)
Fixpoint advances (highest : Z) (sequences : list Z) : list Z :=
  match sequences with
  | [] => []
  | x :: rest => if highest <? x then x :: advances x rest else advances highest rest
  end.

Definition sequences_of (source : SourceId) (trace : list Delivery) : list Z :=
  map (fun d => value d.2) (List.filter (fun d => bool_decide (d.1.1 = source)) trace).

(** The trace of one source is delivered by one incarnation. *)
Definition one_incarnation (source : SourceId) (i : SourceIncarnationId) (trace : list Delivery) : Prop :=
  Forall (fun d => d.1.1 = source -> d.1.2 = i /\ id_ok d.2) trace.

Lemma ledger_entry_insert entries s e : ledger_entry (om_insert s e entries) s = e.
Proof. unfold ledger_entry. by rewrite om_find_insert. Qed.

Lemma ledger_entry_insert_ne entries s s' e :
  s <> s' -> ledger_entry (om_insert s e entries) s' = ledger_entry entries s'.
Proof. intros. unfold ledger_entry. by rewrite om_find_insert_ne. Qed.

(** The accounting of an entry whose first accepted sequence was [first]:
    everything up to the high water mark was accepted or is missing. *)
Definition entry_accounts (i : SourceIncarnationId) (first : Z) (e : LedgerEntry) : Prop :=
  entry_incarnation e = i /\ id_ok (entry_highest e) /\ 0 <= entry_missing e /\ 0 < entry_accepted e /\
  entry_accepted e + entry_missing e = value (entry_highest e) - first + 1.

Lemma entry_observe_accounts i first e s :
  valid i = true -> 0 < first -> id_ok s -> entry_accounts i first e ->
  let '(outcome, e') := entry_observe e i s in
  entry_accounts i first e' /\
  value (entry_highest e') = Z.max (value (entry_highest e)) (value s) /\
  (verdict outcome = Replay <-> value s <= value (entry_highest e)) /\
  entry_accepted e' = entry_accepted e + (if value (entry_highest e) <? value s then 1 else 0) /\
  (verdict outcome = Replay \/ outcome_missing outcome = value s - value (entry_highest e) - 1 /\
     (verdict outcome = Gap <-> 0 < outcome_missing outcome)).
Proof.
  intros Hi Hf Hs (Ei & Hh & Hm & Ha & Hsum). unfold entry_observe, id_lt.
  rewrite Ei, Hi, bool_decide_eq_true_2 by done. cbn [negb orb].
  unfold id_ok, u_ok, u64_add, u64_sub in *.
  destruct (value (entry_highest e) <? value s) eqn:E; cbn [negb]; bool_prop.
  - rewrite (wrap_u_small 64 (value s - value (entry_highest e))) by (unfold u_ok; lia).
    rewrite (wrap_u_small 64 (value s - value (entry_highest e) - 1)) by (unfold u_ok; lia).
    destruct (0 <? value s - value (entry_highest e) - 1) eqn:G; bool_prop;
      cbn [entry_highest entry_accepted entry_missing verdict outcome_missing entry_incarnation];
      unfold entry_accounts;
      cbn [entry_highest entry_accepted entry_missing verdict outcome_missing entry_incarnation];
      rewrite ?(wrap_u_small 64) by (unfold u_ok; lia); unfold id_ok, u_ok; repeat split;
      try done; try lia; right; split; try lia; split; intros; try done; lia.
  - cbn [entry_highest entry_accepted entry_missing verdict outcome_missing entry_incarnation].
    unfold entry_accounts, id_ok, u_ok.
    cbn [entry_highest entry_accepted entry_missing verdict outcome_missing entry_incarnation].
    repeat split; try done; try lia. by left.
Qed.

(** One step of the ledger, seen from a source: its own deliveries move its
    entry, every other delivery leaves it alone. *)
Lemma ledger_observe_entry entries s i q s' :
  ledger_entry (ledger_observe entries s i q).2 s' =
  if bool_decide (s = s') then (entry_observe (ledger_entry entries s) i q).2 else ledger_entry entries s'.
Proof.
  unfold ledger_observe. destruct (entry_observe _ i q) as [o e]. simpl. case_bool_decide as E.
  - subst. by rewrite ledger_entry_insert.
  - by rewrite ledger_entry_insert_ne.
Qed.

Lemma ledger_run_cons entries s i q trace :
  (ledger_run entries ((s, i, q) :: trace)).2 = (ledger_run (ledger_observe entries s i q).2 trace).2.
Proof.
  simpl. destruct (ledger_observe entries s i q) as [o entries']. simpl.
  by destruct (ledger_run entries' trace).
Qed.

Lemma ledger_run_accounts s i first trace entries :
  valid i = true -> 0 < first -> one_incarnation s i trace ->
  entry_accounts i first (ledger_entry entries s) ->
  let e := ledger_entry entries s in
  let e' := ledger_entry (ledger_run entries trace).2 s in
  entry_accounts i first e' /\
  value (entry_highest e') = foldl Z.max (value (entry_highest e)) (sequences_of s trace) /\
  entry_accepted e' = entry_accepted e +
    Z.of_nat (length (advances (value (entry_highest e)) (sequences_of s trace))).
Proof.
  intros Hi Hf Ht. revert entries. induction Ht as [|[[s' i'] q] trace Hd Ht IH]; intros entries He.
  - simpl. split_and!; [done | done | lia].
  - rewrite ledger_run_cons. unfold sequences_of. cbn [List.filter fst snd].
    pose proof (ledger_observe_entry entries s' i' q s) as Hstep.
    case_bool_decide as E; [subst s' | by rewrite <- Hstep; apply IH; rewrite Hstep].
    destruct (Hd eq_refl) as [Ei Hq]. simpl in Ei, Hq. subst i'.
    pose proof (entry_observe_accounts i first _ q Hi Hf Hq He) as Ho.
    destruct (entry_observe (ledger_entry entries s) i q) as [o e1]. cbn [snd] in Hstep.
    destruct Ho as (He1 & Hmax & _ & Hacc & _).
    destruct (IH (ledger_observe entries s i q).2) as (IH1 & IH2 & IH3); [by rewrite Hstep |].
    split; [done |]. rewrite IH2, IH3, Hstep, Hmax, Hacc. cbn [map foldl advances snd].
    fold (sequences_of s trace).
    destruct (value (entry_highest (ledger_entry entries s)) <? value q) eqn:E; bool_prop.
    + rewrite Z.max_r by lia. cbn [length]. split; [done | lia].
    + rewrite Z.max_l by lia. split; [done | lia].
Qed.

(** Ledger accounting.  Over any interleaving of deliveries in which the
    source speaks through one valid incarnation, the ledger accepts exactly the
    deliveries whose sequence exceeds every earlier one of that source, its high
    water mark is the largest sequence seen, and accepted plus missing covers
    the whole range from the first accepted sequence to the high water mark: a
    replay is never counted and a gap is never lost, whatever other sources do. *)
Theorem ledger_accounting (s : SourceId) (i : SourceIncarnationId) (q : SourceSequence)
    (trace : list Delivery) (entries : SourceSequenceLedger) :
  valid i = true -> id_ok q -> valid q = true -> om_find s entries = None ->
  one_incarnation s i trace ->
  let e := ledger_entry (ledger_run entries ((s, i, q) :: trace)).2 s in
  value (entry_highest e) = foldl Z.max (value q) (sequences_of s trace) /\
  entry_accepted e = 1 + Z.of_nat (length (advances (value q) (sequences_of s trace))) /\
  entry_accepted e + entry_missing e = value (entry_highest e) - value q + 1.
Proof.
  intros Hi Hq Hvq Hn Ht. rewrite ledger_run_cons.
  assert (ledger_entry (ledger_observe entries s i q).2 s = mk_entry i q 0 1 0) as E.
  { rewrite ledger_observe_entry, bool_decide_eq_true_2 by done. unfold ledger_entry. rewrite Hn.
    unfold entry_observe. simpl. f_equal. }
  unfold valid in Hvq. unfold id_ok, u_ok in Hq. bool_prop.
  pose proof (ledger_run_accounts s i (value q) trace (ledger_observe entries s i q).2 Hi
    ltac:(lia) Ht) as Hrun.
  rewrite E in Hrun. destruct Hrun as ((_ & _ & _ & _ & Hsum) & Hmax & Hacc).
  { unfold entry_accounts. cbn [entry_incarnation entry_highest entry_missing entry_accepted].
    split_and!; try done; lia. }
  split_and!; done.
Qed.

Lemma ledger_accounting_witness :
  let e := ledger_entry (ledger_run [] [(from_value 7, from_value 1, from_value 3);
    (from_value 9, from_value 2, from_value 8); (from_value 7, from_value 1, from_value 6);
    (from_value 7, from_value 1, from_value 5)]).2 (from_value 7) in
  value (entry_highest e) = 6 /\ entry_accepted e = 2 /\ entry_accepted e + entry_missing e = 6 - 3 + 1.
Proof.
  apply (ledger_accounting (from_value 7) (from_value 1) (from_value 3)
    [(from_value 9, from_value 2, from_value 8); (from_value 7, from_value 1, from_value 6);
     (from_value 7, from_value 1, from_value 5)] []);
    [reflexivity | unfold id_ok, u_ok; simpl; lia | reflexivity | reflexivity |].
  unfold one_incarnation. rewrite !Forall_cons_iff, Forall_nil_iff.
  split_and!; try done; simpl; intros H; try discriminate H; split; try done; unfold id_ok, u_ok; simpl; lia.
Defined.

(** A late delivery that would fill a gap is a replay: the gap stays. *)
Lemma ledger_gap_not_repaired :
  let deliver := ledger_run [] [(from_value 7, from_value 1, from_value 1);
    (from_value 7, from_value 1, from_value 3); (from_value 7, from_value 1, from_value 2)] in
  map verdict deliver.1 = [InOrder; Gap; Replay] /\ has_gap deliver.2 (from_value 7) = true.
Proof. by vm_compute. Qed.

(** A superseded incarnation that speaks again is taken for a new one. *)
Lemma ledger_accepts_superseded_incarnation :
  let deliver := ledger_run [] [(from_value 7, from_value 1, from_value 5);
    (from_value 7, from_value 2, from_value 1); (from_value 7, from_value 1, from_value 5)] in
  map verdict deliver.1 = [InOrder; NewIncarnation; NewIncarnation].
Proof. by vm_compute. Qed.
