(* ===== verification/Topology.v ===== *)
(** * Topology generations and link correlation

    Models [include/pathobs/topology.hpp] and [src/topology.cpp]: the records of
    a topology generation, the validation that makes one usable, the lookups by
    identity, and the index that resolves a device/port pair to the link
    attached to it. *)

From S2P Require Import Prelude Errors StdAlgo Digest Canonical Ids TimeModel Limits.
#[local] Open Scope Z_scope.

(** ** Data *)

Inductive DeviceRole : Set := RoleUnknown | Switch | Router | Host | LineCard | Appliance.

#[global] Instance DeviceRole_eq_dec : EqDecision DeviceRole.
Proof. solve_decision. Defined.

Definition device_role_code (role : DeviceRole) : Z :=
  match role with
  | RoleUnknown => 0 | Switch => 1 | Router => 2 | Host => 3 | LineCard => 4 | Appliance => 5
  end.

Definition device_role_to_string (role : DeviceRole) : string :=
  match role with
  | RoleUnknown => "unknown"
  | Switch => "switch"
  | Router => "router"
  | Host => "host"
  | LineCard => "line_card"
  | Appliance => "appliance"
  end.

Definition parse_device_role (text : string) : Result DeviceRole :=
  if bool_decide (text = "unknown") then Ok RoleUnknown else
  if bool_decide (text = "switch") then Ok Switch else
  if bool_decide (text = "router") then Ok Router else
  if bool_decide (text = "host") then Ok Host else
  if bool_decide (text = "line_card") then Ok LineCard else
  if bool_decide (text = "appliance") then Ok Appliance else
  Err (mk_error InvalidFormat "unknown device role" text).

Inductive LinkKind : Set := LinkUnknown | Physical | Logical | Tunnel | Lag.

#[global] Instance LinkKind_eq_dec : EqDecision LinkKind.
Proof. solve_decision. Defined.

Definition link_kind_code (kind : LinkKind) : Z :=
  match kind with LinkUnknown => 0 | Physical => 1 | Logical => 2 | Tunnel => 3 | Lag => 4 end.

Definition link_kind_to_string (kind : LinkKind) : string :=
  match kind with
  | LinkUnknown => "unknown"
  | Physical => "physical"
  | Logical => "logical"
  | Tunnel => "tunnel"
  | Lag => "lag"
  end.

Definition parse_link_kind (text : string) : Result LinkKind :=
  if bool_decide (text = "unknown") then Ok LinkUnknown else
  if bool_decide (text = "physical") then Ok Physical else
  if bool_decide (text = "logical") then Ok Logical else
  if bool_decide (text = "tunnel") then Ok Tunnel else
  if bool_decide (text = "lag") then Ok Lag else
  Err (mk_error InvalidFormat "unknown link kind" text).

Record DeviceRecord : Set := mk_device {
  device_id : DeviceId; device_name : string; device_role : DeviceRole
}.

Record PortRecord : Set := mk_port {
  port_id : PortId; port_device : DeviceId; port_name : string; port_index : Z
}.

Record LinkRecord : Set := mk_link {
  link_id : LinkId;
  local_device : DeviceId; local_port : PortId;
  remote_device : DeviceId; remote_port : PortId;
  link_kind : LinkKind
}.

(** A device/port pair. *)
Record HopEndpoint : Set := mk_endpoint { ep_device : DeviceId; ep_port : PortId }.

#[global] Instance DeviceRecord_eq_dec : EqDecision DeviceRecord.
Proof. solve_decision. Defined.
#[global] Instance PortRecord_eq_dec : EqDecision PortRecord.
Proof. solve_decision. Defined.
#[global] Instance LinkRecord_eq_dec : EqDecision LinkRecord.
Proof. solve_decision. Defined.
#[global] Instance HopEndpoint_eq_dec : EqDecision HopEndpoint.
Proof. solve_decision. Defined.

(** The defaulted [operator<=>]: member by member. *)
Definition endpoint_lt (a b : HopEndpoint) : bool :=
  if id_lt (ep_device a) (ep_device b) then true else
  if id_lt (ep_device b) (ep_device a) then false else id_lt (ep_port a) (ep_port b).

#[global] Instance HopEndpoint_key_order : KeyOrder HopEndpoint.
Proof.
  refine {| klt := endpoint_lt |}; unfold endpoint_lt, id_lt.
  - intros k. by rewrite !Z.ltb_irrefl.
  - intros [[a] [a']] [[b] [b']] [[c] [c']]. cbn [ep_device ep_port value].
    destruct (a <? b) eqn:?, (b <? a) eqn:?, (b <? c) eqn:?, (c <? b) eqn:?, (a <? c) eqn:?,
      (c <? a) eqn:?; bool_prop; try done; lia.
  - intros [[a] [a']] [[b] [b']]. cbn [ep_device ep_port value].
    destruct (a <? b) eqn:?, (b <? a) eqn:?; bool_prop; try done.
    rewrite !Z.ltb_ge. intros. do 2 f_equal; f_equal; lia.
Defined.

Record TopologyGeneration : Set := mk_topology {
  topo_id : TopologyGenerationId;
  topo_epoch : EpochId;
  topo_incarnation : IncarnationId;
  topo_revision : RevisionId;
  topo_sequence : SourceSequence;
  topo_source : SourceId;
  topo_created : TimePoint;
  topo_received : TimePoint;
  devices : list DeviceRecord;
  ports : list PortRecord;
  links : list LinkRecord;
  topo_digest : Digest
}.

#[global] Instance TopologyGeneration_eq_dec : EqDecision TopologyGeneration.
Proof. solve_decision. Defined.

(** ** TopologyGeneration *)

Definition put_device (d : DeviceRecord) : list Z :=
  put_id (device_id d) ++ put_text (device_name d) ++ put_u8 (device_role_code (device_role d)).

Definition put_port (p : PortRecord) : list Z :=
  put_id (port_id p) ++ put_id (port_device p) ++ put_text (port_name p) ++ put_u32 (port_index p).

Definition put_link (l : LinkRecord) : list Z :=
  put_id (link_id l) ++ put_id (local_device l) ++ put_id (local_port l) ++
  put_id (remote_device l) ++ put_id (remote_port l) ++ put_u8 (link_kind_code (link_kind l)).

(** The bytes [TopologyGeneration::canonical_digest] hashes. *)
Definition topology_canonical (g : TopologyGeneration) : list Z :=
  put_text "pathobs.topology_generation" ++
  put_id (topo_id g) ++ put_id (topo_epoch g) ++ put_id (topo_incarnation g) ++
  put_id (topo_revision g) ++ put_id (topo_sequence g) ++ put_id (topo_source g) ++
  put_i64 (unix_nanos (topo_created g)) ++
  put_seq put_device (devices g) ++ put_seq put_port (ports g) ++ put_seq put_link (links g).

Definition topology_canonical_digest (g : TopologyGeneration) : Digest := digest_of (topology_canonical g).

Definition by_device_id (a b : DeviceRecord) : bool := id_lt (device_id a) (device_id b).
Definition by_port_id (a b : PortRecord) : bool := id_lt (port_id a) (port_id b).
Definition by_link_id (a b : LinkRecord) : bool := id_lt (link_id a) (link_id b).

#[export] Instance by_device_id_swo : StrictWeakOrder by_device_id := swo_on device_id klt.
#[export] Instance by_port_id_swo : StrictWeakOrder by_port_id := swo_on port_id klt.
#[export] Instance by_link_id_swo : StrictWeakOrder by_link_id := swo_on link_id klt.

Definition device_present (ds : list DeviceRecord) (candidate : DeviceId) : bool :=
  existsb (fun d => bool_decide (device_id d = candidate)) ds.

(** The lookups by identity: binary search. *)
Definition find_device (g : TopologyGeneration) (id : DeviceId) : option DeviceRecord :=
  find_sorted device_id (devices g) id.
Definition find_port (g : TopologyGeneration) (id : PortId) : option PortRecord :=
  find_sorted port_id (ports g) id.
Definition find_link (g : TopologyGeneration) (id : LinkId) : option LinkRecord :=
  find_sorted link_id (links g) id.

(** [port_belongs]: a binary search of its own in the sorted ports. *)
Definition port_belongs (ps : list PortRecord) (port : PortId) (device : DeviceId) : bool :=
  match find_sorted port_id ps port with
  | Some record => bool_decide (port_device record = device)
  | None => false
  end.

(** The bodies of the three validation loops. *)
Definition check_device (prev : option DeviceRecord) (d : DeviceRecord) : Status :=
  fail? negb (valid (device_id d)) with
    error InvalidIdentity "topology contains a device without identity" in
  fail? (match prev with Some p => bool_decide (device_id p = device_id d) | None => false end) with
    error DuplicateIdentity "topology contains a duplicate device identity" in
  ok.

Definition check_port (ds : list DeviceRecord) (prev : option PortRecord) (p : PortRecord) : Status :=
  fail? negb (valid (port_id p)) || negb (valid (port_device p)) with
    error InvalidIdentity "topology contains a port without identity" in
  fail? (match prev with Some q => bool_decide (port_id q = port_id p) | None => false end) with
    error DuplicateIdentity "topology contains a duplicate port identity" in
  fail? negb (device_present ds (port_device p)) with
    mk_error UnknownIdentity "topology port references a device that is not in the generation"
      (id_str (port_device p)) in
  ok.

Definition check_link (ps : list PortRecord) (prev : option LinkRecord) (l : LinkRecord) : Status :=
  fail? negb (valid (link_id l)) || negb (valid (local_device l)) || negb (valid (local_port l)) ||
        negb (valid (remote_device l)) || negb (valid (remote_port l)) with
    error InvalidIdentity "topology contains a link without identity" in
  fail? (match prev with Some q => bool_decide (link_id q = link_id l) | None => false end) with
    error DuplicateIdentity "topology contains a duplicate link identity" in
  fail? negb (port_belongs ps (local_port l) (local_device l)) with
    mk_error UnknownIdentity "topology link local port does not belong to the local device"
      (id_str (link_id l)) in
  fail? negb (port_belongs ps (remote_port l) (remote_device l)) with
    mk_error UnknownIdentity "topology link remote port does not belong to the remote device"
      (id_str (link_id l)) in
  ok.

Definition with_records (g : TopologyGeneration) ds ps ls (d : Digest) : TopologyGeneration :=
  mk_topology (topo_id g) (topo_epoch g) (topo_incarnation g) (topo_revision g) (topo_sequence g)
    (topo_source g) (topo_created g) (topo_received g) ds ps ls d.

(** The guards that precede the sorts. *)
Definition topology_precheck (limits : Limits) (g : TopologyGeneration) : Status :=
  fail? negb (valid (topo_id g)) || negb (valid (topo_epoch g)) || negb (valid (topo_incarnation g)) ||
        negb (valid (topo_revision g)) || negb (valid (topo_source g)) with
    error InvalidIdentity
      "topology generation is missing one of generation, epoch, incarnation, revision or source" in
  fail? max_devices_per_topology limits <? Z.of_nat (length (devices g)) with
    error CapacityExceeded "topology device count exceeds the configured bound" in
  fail? max_links_per_topology limits <? Z.of_nat (length (links g)) with
    error CapacityExceeded "topology link count exceeds the configured bound" in
  fail? max_links_per_topology limits * 2 <? Z.of_nat (length (ports g)) with
    error CapacityExceeded "topology port count exceeds the configured bound" in
  ok.

(** [TopologyGeneration::finalize]: the status, and the generation it leaves
    behind (its records stay sorted even when a later check fails). *)
Definition topology_finalize (limits : Limits) (g : TopologyGeneration) : Status * TopologyGeneration :=
  match topology_precheck limits g with
  | Err e => (Err e, g)
  | Ok _ =>
      let ds := sort_by by_device_id (devices g) in
      let ps := sort_by by_port_id (ports g) in
      let ls := sort_by by_link_id (links g) in
      let sorted := with_records g ds ps ls (topo_digest g) in
      match (check? check_each check_device None ds in
             check? check_each (check_port ds) None ps in
             check_each (check_link ps) None ls) with
      | Err e => (Err e, sorted)
      | Ok _ => (ok, with_records g ds ps ls (topology_canonical_digest sorted))
      end
  end.

(** ** TopologyIndex *)

Record LinkResolution : Set := mk_resolution {
  res_link : LinkId; res_known : bool; res_ambiguous : bool; res_candidates : Z
}.

Definition resolution_new : LinkResolution := mk_resolution id_none false false 0.

(** The index keeps a pointer to the generation it was built from: the model
    keeps the generation that pointer designates. *)
Record TopologyIndex : Set := mk_index {
  index_generation : option TopologyGeneration;
  device_positions : omap DeviceId nat;
  port_positions : omap PortId nat;
  link_positions : omap LinkId nat;
  links_by_endpoint : omap HopEndpoint (list LinkId)
}.

Definition index_new : TopologyIndex := mk_index None [] [] [] [].

(** [for (i = 0; i < v.size(); ++i) positions.emplace(v[i].id, i);] *)
Fixpoint positions_from {A tag} (key : A -> StrongId tag) (i : nat) (l : list A)
    (m : omap (StrongId tag) nat) : omap (StrongId tag) nat :=
  match l with
  | [] => m
  | x :: rest => positions_from key (S i) rest (om_emplace (key x) i m)
  end.

Definition local_end (l : LinkRecord) : HopEndpoint := mk_endpoint (local_device l) (local_port l).
Definition remote_end (l : LinkRecord) : HopEndpoint := mk_endpoint (remote_device l) (remote_port l).

(** One turn of the link loop: the link is pushed on both of its ends. *)
Definition add_link (m : omap HopEndpoint (list LinkId)) (l : LinkRecord) : omap HopEndpoint (list LinkId) :=
  om_update (remote_end l) [] (fun v => v ++ [link_id l])
    (om_update (local_end l) [] (fun v => v ++ [link_id l]) m).

Definition sort_candidates (candidates : list LinkId) : list LinkId :=
  unique_by (fun a b => bool_decide (a = b)) (sort_by id_lt candidates).

(** [TopologyIndex::build] *)
Definition index_build (limits : Limits) (g : TopologyGeneration) : Result TopologyIndex :=
  fail? (max_devices_per_topology limits <? Z.of_nat (length (devices g))) ||
        (max_links_per_topology limits <? Z.of_nat (length (links g))) with
    error CapacityExceeded "topology index would exceed the configured bound" in
  Ok (mk_index (Some g)
        (positions_from device_id 0 (devices g) [])
        (positions_from port_id 0 (ports g) [])
        (positions_from link_id 0 (links g) [])
        (map (fun e => (e.1, sort_candidates e.2)) (foldl add_link [] (links g)))).

Definition index_valid (index : TopologyIndex) : bool :=
  match index_generation index with Some _ => true | None => false end.

(** [TopologyIndex::resolve_link] *)
Definition resolve_link (index : TopologyIndex) (device : DeviceId) (port : PortId) :
    Result LinkResolution :=
  match index_generation index with
  | None => Err (error InvalidState "link correlation requested without a topology index")
  | Some _ =>
      match om_find (mk_endpoint device port) (links_by_endpoint index) with
      | None => Ok resolution_new
      | Some candidates =>
          match candidates with
          | [link] => Ok (mk_resolution link true false 1)
          | _ => Ok (mk_resolution id_none false true (Z.of_nat (length candidates)))
          end
      end
  end.

Definition has_device (index : TopologyIndex) (device : DeviceId) : bool :=
  match om_find device (device_positions index) with Some _ => true | None => false end.

(** [generation_->ports[i].device == device]; the position is within the vector. *)
Definition has_port (index : TopologyIndex) (device : DeviceId) (port : PortId) : bool :=
  match om_find port (port_positions index), index_generation index with
  | Some i, Some g =>
      match ports g !! i with Some p => bool_decide (port_device p = device) | None => false end
  | _, _ => false
  end.

Definition device_count (index : TopologyIndex) : nat :=
  match index_generation index with Some g => length (devices g) | None => 0 end.

Definition link_count (index : TopologyIndex) : nat :=
  match index_generation index with Some g => length (links g) | None => 0 end.

(** ** What a usable generation is *)

(** The end of a link is a port of the generation on the stated device. *)
Definition end_present (g : TopologyGeneration) (e : HopEndpoint) : Prop :=
  exists p, p ∈ ports g /\ port_id p = ep_port e /\ port_device p = ep_device e.

Definition device_wf (d : DeviceRecord) : Prop := valid (device_id d) = true.

Definition port_wf (g : TopologyGeneration) (p : PortRecord) : Prop :=
  valid (port_id p) = true /\ valid (port_device p) = true /\
  exists d, d ∈ devices g /\ device_id d = port_device p.

Definition link_wf (g : TopologyGeneration) (l : LinkRecord) : Prop :=
  valid (link_id l) = true /\ valid (local_device l) = true /\ valid (local_port l) = true /\
  valid (remote_device l) = true /\ valid (remote_port l) = true /\
  end_present g (local_end l) /\ end_present g (remote_end l).

Definition topology_consistent (g : TopologyGeneration) : Prop :=
  NoDup (map device_id (devices g)) /\ NoDup (map port_id (ports g)) /\ NoDup (map link_id (links g)) /\
  Forall device_wf (devices g) /\ Forall (port_wf g) (ports g) /\ Forall (link_wf g) (links g).

Definition topology_sorted (g : TopologyGeneration) : Prop :=
  strictly_ascending device_id (devices g) /\ strictly_ascending port_id (ports g) /\
  strictly_ascending link_id (links g).

Lemma device_present_spec ds c : device_present ds c = true <-> exists d, d ∈ ds /\ device_id d = c.
Proof.
  unfold device_present. rewrite existsb_elem.
  by split; intros (d & Hd & E); exists d; (split; [done |]); [apply bool_decide_eq_true in E | apply bool_decide_eq_true].
Qed.

Lemma port_belongs_spec ps port device :
  strictly_ascending port_id ps ->
  port_belongs ps port device = true <-> exists p, p ∈ ps /\ port_id p = port /\ port_device p = device.
Proof.
  intros Hs. unfold port_belongs. destruct (find_sorted port_id ps port) as [p|] eqn:E.
  - apply find_sorted_sound in E as [Hp Ep]. rewrite bool_decide_eq_true. split.
    + intros Ed. by exists p.
    + intros (q & Hq & Eq & Ed). rewrite (strictly_ascending_inj port_id ps p q Hs Hp Hq); congruence.
  - split; [done |]. intros (q & Hq & Eq & Ed).
    by destruct (proj1 (find_sorted_none port_id ps port Hs) E q Hq).
Qed.

Lemma check_device_ok prev d :
  check_device prev d = ok <-> (forall q, prev = Some q -> device_id q <> device_id d) /\ device_wf d.
Proof.
  unfold check_device. rewrite !guard_ok, neighbour_distinct, negb_false_iff. unfold device_wf. tauto.
Qed.

Lemma check_port_ok ds prev p :
  check_port ds prev p = ok <-> (forall q, prev = Some q -> port_id q <> port_id p) /\
    valid (port_id p) = true /\ valid (port_device p) = true /\
    (exists d, d ∈ ds /\ device_id d = port_device p).
Proof.
  unfold check_port. rewrite !guard_ok, neighbour_distinct, orb_false_iff, !negb_false_iff,
    device_present_spec. tauto.
Qed.

Lemma check_link_ok ps prev l :
  strictly_ascending port_id ps ->
  check_link ps prev l = ok <-> (forall q, prev = Some q -> link_id q <> link_id l) /\
    valid (link_id l) = true /\ valid (local_device l) = true /\ valid (local_port l) = true /\
    valid (remote_device l) = true /\ valid (remote_port l) = true /\
    (exists p, p ∈ ps /\ port_id p = local_port l /\ port_device p = local_device l) /\
    (exists p, p ∈ ps /\ port_id p = remote_port l /\ port_device p = remote_device l).
Proof.
  intros Hs. unfold check_link. rewrite !guard_ok, neighbour_distinct, !orb_false_iff, !negb_false_iff,
    !port_belongs_spec by done. tauto.
Qed.

(** The records [finalize] produces: sorted by identity, digest refreshed. *)
Definition topology_normal (g : TopologyGeneration) : TopologyGeneration :=
  let ds := sort_by by_device_id (devices g) in
  let ps := sort_by by_port_id (ports g) in
  let ls := sort_by by_link_id (links g) in
  with_records g ds ps ls (topology_canonical_digest (with_records g ds ps ls (topo_digest g))).

Lemma topology_checks_iff ds ps ls g :
  ds = sort_by by_device_id (devices g) -> ps = sort_by by_port_id (ports g) ->
  ls = sort_by by_link_id (links g) ->
  (check? check_each check_device None ds in
   check? check_each (check_port ds) None ps in check_each (check_link ps) None ls) = ok <->
  topology_consistent g.
Proof.
  intros Hds Hps Hls. unfold topology_consistent.
  rewrite <- (sort_strict_nodup device_id), <- (sort_strict_nodup port_id), <- (sort_strict_nodup link_id).
  change (fun a b : DeviceRecord => klt (device_id a) (device_id b)) with by_device_id.
  change (fun a b : PortRecord => klt (port_id a) (port_id b)) with by_port_id.
  change (fun a b : LinkRecord => klt (link_id a) (link_id b)) with by_link_id.
  rewrite <- Hds, <- Hps, <- Hls.
  assert (ds ≡ₚ devices g) as Pd by (subst; apply sort_by_perm).
  assert (ps ≡ₚ ports g) as Pp by (subst; apply sort_by_perm).
  assert (ls ≡ₚ links g) as Pl by (subst; apply sort_by_perm).
  assert (check_each check_device None ds = ok <-> strictly_ascending device_id ds /\ Forall device_wf ds) as Ed.
  { apply (check_each_iff device_id); [apply check_device_ok |]. subst. apply (sort_by_ascending by_device_id). }
  assert (check_each (check_port ds) None ps = ok <-> strictly_ascending port_id ps /\ Forall (port_wf g) ps) as Ep.
  { apply (check_each_iff port_id); [| subst; apply (sort_by_ascending by_port_id)].
    intros p x. rewrite check_port_ok. unfold port_wf. by setoid_rewrite Pd. }
  assert (strictly_ascending port_id ps ->
    check_each (check_link ps) None ls = ok <-> strictly_ascending link_id ls /\ Forall (link_wf g) ls) as El.
  { intros Hs. apply (check_each_iff link_id); [| subst; apply (sort_by_ascending by_link_id)].
    intros p x. rewrite check_link_ok by done. unfold link_wf, end_present. by setoid_rewrite Pp. }
  pose proof (Forall_perm_iff device_wf _ _ _ (fun x => iff_refl _) Pd) as Fd.
  pose proof (Forall_perm_iff (port_wf g) _ _ _ (fun x => iff_refl _) Pp) as Fp.
  pose proof (Forall_perm_iff (link_wf g) _ _ _ (fun x => iff_refl _) Pl) as Fl.
  unfold ok in *. rewrite result_bind_ok. split.
  - intros ([] & H1 & ([] & H2 & H3)%result_bind_ok). apply Ed in H1 as [? ?].
    apply Ep in H2 as [Hp ?]. destruct (proj1 (El Hp) H3). tauto.
  - intros (H1 & H2 & H3 & H4 & H5 & H6). exists tt. split; [tauto |].
    apply result_bind_ok. exists tt. split; [tauto | apply El; tauto].
Qed.

Lemma precheck_perm limits g h :
  topo_id h = topo_id g -> topo_epoch h = topo_epoch g -> topo_incarnation h = topo_incarnation g ->
  topo_revision h = topo_revision g -> topo_source h = topo_source g ->
  length (devices h) = length (devices g) -> length (ports h) = length (ports g) ->
  length (links h) = length (links g) ->
  topology_precheck limits h = topology_precheck limits g.
Proof. unfold topology_precheck. by intros -> -> -> -> -> -> -> ->. Qed.

Lemma topology_finalize_cases limits g :
  topology_finalize limits g = (ok, topology_normal g) /\
    topology_precheck limits g = ok /\ topology_consistent g \/
  (exists e, (topology_finalize limits g).1 = Err e) /\
    ~ (topology_precheck limits g = ok /\ topology_consistent g).
Proof.
  unfold topology_finalize. destruct (topology_precheck limits g) as [[]|e] eqn:Ep.
  2:{ right. split; [by exists e | by intros [? _]]. }
  pose proof (topology_checks_iff _ _ _ g eq_refl eq_refl eq_refl) as Hc.
  destruct (check? _ in _) as [[]|e].
  - left. split_and!; [done | done | by apply Hc].
  - right. split; [by exists e |]. intros [_ Hg]. by apply Hc in Hg.
Qed.

(** Reordering the records of a generation does not change what it denotes. *)
Definition topology_reordered (g h : TopologyGeneration) : Prop :=
  exists ds ps ls d, h = with_records g ds ps ls d /\
    ds ≡ₚ devices g /\ ps ≡ₚ ports g /\ ls ≡ₚ links g.

Lemma topology_reordered_consistent g h :
  topology_reordered g h -> topology_consistent g -> topology_consistent h.
Proof.
  intros (ds & ps & ls & d & -> & Pd & Pp & Pl) (H1 & H2 & H3 & H4 & H5 & H6).
  split_and!; cbn [devices ports links with_records].
  - by rewrite (Permutation_map device_id Pd).
  - by rewrite (Permutation_map port_id Pp).
  - by rewrite (Permutation_map link_id Pl).
  - by apply (Forall_perm_iff device_wf device_wf _ _ (fun x => iff_refl _) Pd).
  - apply (Forall_perm_iff (port_wf g) _ _ _ (fun x => iff_refl _) (Permutation_sym Pp)) in H5.
    eapply list.Forall_impl; [exact H5 |]. intros p (? & ? & dv & Hd & ?). split_and!; [done | done |].
    exists dv. by rewrite <- Pd in Hd.
  - apply (Forall_perm_iff (link_wf g) _ _ _ (fun x => iff_refl _) (Permutation_sym Pl)) in H6.
    eapply list.Forall_impl; [exact H6 |]. intros l (? & ? & ? & ? & ? & (p & Hp & ?) & (q & Hq & ?)).
    rewrite <- Pp in Hp, Hq. split_and!; [done.. | by exists p | by exists q].
Qed.

Lemma topology_reordered_normal g h :
  topology_reordered g h -> topology_consistent g -> topology_normal h = topology_normal g.
Proof.
  intros (ds & ps & ls & d & -> & Pd & Pp & Pl) (H1 & H2 & H3 & _). unfold topology_normal.
  apply (sort_strict_nodup device_id) in H1. apply (sort_strict_nodup port_id) in H2.
  apply (sort_strict_nodup link_id) in H3. cbn [devices ports links with_records topo_digest].
  pose proof (sort_by_perm_strict device_id _ _ H1 (Permutation_sym Pd)) as Ed.
  pose proof (sort_by_perm_strict port_id _ _ H2 (Permutation_sym Pp)) as Ep.
  pose proof (sort_by_perm_strict link_id _ _ H3 (Permutation_sym Pl)) as El.
  change (sort_by by_device_id ds = sort_by by_device_id (devices g)) in Ed.
  change (sort_by by_port_id ps = sort_by by_port_id (ports g)) in Ep.
  change (sort_by by_link_id ls = sort_by by_link_id (links g)) in El.
  by rewrite Ed, Ep, El.
Qed.

Lemma topology_normal_reordered g : topology_reordered g (topology_normal g).
Proof. exists (sort_by by_device_id (devices g)), (sort_by by_port_id (ports g)),
  (sort_by by_link_id (links g)), (topo_digest (topology_normal g)).
  split_and!; [done | apply sort_by_perm ..]. Qed.

Lemma topology_normal_sorted g : topology_consistent g -> topology_sorted (topology_normal g).
Proof.
  intros (H1 & H2 & H3 & _). split_and!.
  - exact (proj2 (sort_strict_nodup device_id _) H1).
  - exact (proj2 (sort_strict_nodup port_id _) H2).
  - exact (proj2 (sort_strict_nodup link_id _) H3).
Qed.

Lemma precheck_reordered limits g h :
  topology_reordered g h -> topology_precheck limits h = topology_precheck limits g.
Proof.
  intros (ds & ps & ls & d & -> & Pd & Pp & Pl). apply precheck_perm; try done;
    cbn [devices ports links with_records]; by apply Permutation_length.
Qed.

(** The result of [finalize] does not depend on the order of the records. *)
Lemma topology_finalize_reordered limits g h :
  topology_reordered g h -> topology_finalize limits g = (ok, topology_normal g) ->
  topology_finalize limits h = (ok, topology_normal g).
Proof.
  intros Hr Hg.
  destruct (topology_finalize_cases limits g) as [(_ & Hp & Hc) | [[e E] _]]; [| by rewrite Hg in E].
  destruct (topology_finalize_cases limits h) as [(-> & _) | [_ Hn]].
  - f_equal. by apply topology_reordered_normal.
  - destruct Hn. split; [| by eapply topology_reordered_consistent].
    by rewrite (precheck_reordered limits g h).
Qed.

(** A finalised generation is its own finalisation. *)
Lemma topology_finalize_again limits g g' :
  topology_finalize limits g = (ok, g') -> topology_finalize limits g' = (ok, g').
Proof.
  intros H. destruct (topology_finalize_cases limits g) as [(E & _) | [[e E] _]]; [| by rewrite H in E].
  rewrite H in E. injection E as ->. apply topology_finalize_reordered; [apply topology_normal_reordered | done].
Qed.

(** [TopologyGeneration::finalize] accepts exactly the generations whose
    identity tuple is complete, whose sizes are within the bounds, whose
    identities are valid and unique, whose ports sit on devices of the
    generation and whose links end on ports of the generation.  The accepted
    generation is sorted, carries its own content digest, is found again
    unchanged by a second [finalize], and does not depend on the order in which
    the records were supplied. *)
Theorem topology_finalize_spec (limits : Limits) (g : TopologyGeneration) :
  ((topology_finalize limits g).1 = ok <->
     topology_precheck limits g = ok /\ topology_consistent g) /\
  (forall g', topology_finalize limits g = (ok, g') ->
     topology_sorted g' /\ topology_reordered g g' /\ topo_digest g' = topology_canonical_digest g' /\
     topology_finalize limits g' = (ok, g') /\
     forall h, topology_reordered g h -> topology_finalize limits h = (ok, g')).
Proof.
  destruct (topology_finalize_cases limits g) as [(E & Hp & Hc) | [[e E] Hn]].
  - rewrite E. split; [by split |]. intros g' [= <-]. split_and!.
    + by apply topology_normal_sorted.
    + apply topology_normal_reordered.
    + reflexivity.
    + by apply (topology_finalize_again limits g).
    + intros h Hh. by apply topology_finalize_reordered.
  - rewrite E. split; [split; [done | by intros ?%Hn] |]. intros g' Eg. by rewrite Eg in E.
Qed.

(** Two devices joined by one link, and a port left unconnected. *)
Definition example_topology : TopologyGeneration :=
  mk_topology (from_value 1) (from_value 1) (from_value 1) (from_value 1) id_none (from_value 7)
    (from_unix_nanos 0) (from_unix_nanos 0)
    [mk_device (from_value 2) "b" Switch; mk_device (from_value 1) "a" Switch]
    [mk_port (from_value 12) (from_value 2) "b0" 0; mk_port (from_value 11) (from_value 1) "a0" 0;
     mk_port (from_value 13) (from_value 2) "b1" 1]
    [mk_link (from_value 21) (from_value 1) (from_value 11) (from_value 2) (from_value 12) Physical]
    digest_zero.

Lemma topology_finalize_spec_witness :
  (topology_finalize default_limits example_topology).1 = ok /\
  topology_sorted (topology_normal example_topology) /\
  topology_finalize default_limits (topology_normal example_topology) =
    (ok, topology_normal example_topology).
Proof.
  assert (topology_finalize default_limits example_topology = (ok, topology_normal example_topology)) as E
    by reflexivity.
  destruct (proj2 (topology_finalize_spec default_limits example_topology) _ E) as (H1 & _ & _ & H2 & _).
  split; [by rewrite E | by split].
Defined.

(** ** The index *)

(** The link occurs at the endpoint. *)
Definition touches (l : LinkRecord) (e : HopEndpoint) : Prop := local_end l = e \/ remote_end l = e.

(** The candidates pushed for an endpoint by one link. *)
Definition link_candidates (e : HopEndpoint) (l : LinkRecord) : list LinkId :=
  (if decide (local_end l = e) then [link_id l] else []) ++
  (if decide (remote_end l = e) then [link_id l] else []).

Lemma add_link_find m l e :
  om_find e (add_link m l) =
  if decide (touches l e) then Some (default [] (om_find e m) ++ link_candidates e l) else om_find e m.
Proof.
  unfold add_link, touches, link_candidates.
  destruct (decide (remote_end l = e)) as [Er | Er].
  - rewrite decide_True by (by right). rewrite <- Er at 1 2. rewrite om_find_update. f_equal. rewrite Er.
    destruct (decide (local_end l = e)) as [El | El].
    + rewrite El, om_find_update. simpl. by rewrite <- app_assoc.
    + by rewrite om_find_update_ne.
  - rewrite om_find_update_ne by done. destruct (decide (local_end l = e)) as [El | El].
    + rewrite decide_True by (by left). rewrite <- El at 1 2. rewrite om_find_update, El.
      by rewrite app_nil_r.
    + rewrite om_find_update_ne by done. rewrite decide_False; [done | tauto].
Qed.

Lemma add_links_find ls e : forall m,
  (exists l, l ∈ ls /\ touches l e) /\
    om_find e (foldl add_link m ls) = Some (default [] (om_find e m) ++ flat_map (link_candidates e) ls) \/
  (forall l, l ∈ ls -> ~ touches l e) /\ om_find e (foldl add_link m ls) = om_find e m.
Proof.
  induction ls as [|l ls IH]; intros m; simpl; [right; by split; [intros l Hl%not_elem_of_nil |] |].
  pose proof (add_link_find m l e) as Hf. pose proof (IH (add_link m l)) as Hl. clear IH.
  destruct (decide (touches l e)) as [Ht | Ht]; rewrite Hf in Hl.
  - left. split; [exists l; split; [constructor | done] |].
    destruct Hl as [[_ ->] | [Hn ->]]; simpl; [by rewrite app_assoc |].
    assert (flat_map (link_candidates e) ls = []) as ->; [| by rewrite app_nil_r].
    clear - Hn. induction ls as [|l ls IH]; [done |]. simpl.
    rewrite IH by (intros; apply Hn; by constructor).
    assert (~ touches l e) as Ht by (apply Hn; constructor). unfold touches in Ht.
    unfold link_candidates. rewrite !decide_False by tauto. done.
  - assert (link_candidates e l = []) as ->.
    { unfold touches in Ht. unfold link_candidates. by rewrite !decide_False by tauto. }
    destruct Hl as [[(l' & Hl' & Ht') ->] | [Hn ->]].
    + left. split; [exists l'; split; [by constructor | done] | done].
    + right. split; [| done]. intros l'. rewrite elem_of_cons. intros [-> | ?]; auto.
Qed.

Lemma elem_of_link_candidates e ls i :
  i ∈ flat_map (link_candidates e) ls <-> exists l, l ∈ ls /\ touches l e /\ link_id l = i.
Proof.
  rewrite list_elem_of_In, in_flat_map. split; intros (l & Hl & H); exists l; (split; [by apply list_elem_of_In |]);
    unfold link_candidates, touches in *.
  - repeat case_decide; simpl in H; tauto.
  - destruct H as [[H | H] <-]; repeat case_decide; simpl; try tauto.
Qed.

(** The identities of the links at an endpoint, once each. *)
Definition attached (g : TopologyGeneration) (e : HopEndpoint) : list LinkId :=
  sort_candidates (flat_map (link_candidates e) (links g)).

Lemma attached_elem g e i : i ∈ attached g e <-> exists l, l ∈ links g /\ touches l e /\ link_id l = i.
Proof.
  unfold attached, sort_candidates.
  rewrite unique_by_elem by (intros ? ?; by rewrite bool_decide_eq_true).
  by rewrite elem_of_sort_by, elem_of_link_candidates.
Qed.

Lemma attached_nodup g e : NoDup (attached g e).
Proof.
  rewrite <- (map_id (attached g e)). apply (strictly_ascending_nodup (fun i => i)).
  unfold attached, sort_candidates. change id_lt with (fun a b : LinkId => klt a b).
  apply (sort_unique_strict (fun i : LinkId => i)). intros. apply bool_decide_eq_true.
Qed.

Lemma index_build_find limits g index e :
  index_build limits g = Ok index ->
  index_generation index = Some g /\
  match om_find e (links_by_endpoint index) with
  | Some candidates => candidates = attached g e /\ attached g e <> []
  | None => attached g e = []
  end.
Proof.
  unfold index_build. intros H. guards_ok H. injection H as <-. cbn [index_generation links_by_endpoint].
  split; [done |]. rewrite om_find_map_values.
  destruct (add_links_find (links g) e []) as [[(l & Hl & Ht) ->] | [Hn ->]]; simpl.
  - split; [done |]. intros E. assert (link_id l ∈ attached g e) as Hi
      by (apply attached_elem; by exists l). rewrite E in Hi. by apply elem_of_nil in Hi.
  - destruct (attached g e) as [|i r] eqn:E; [done |].
    assert (i ∈ attached g e) as Hi by (rewrite E; constructor).
    apply attached_elem in Hi as (l & Hl & Ht & _). by destruct (Hn l Hl).
Qed.

(** Link correlation.  On an index built from a generation, [resolve_link]
    always answers; it names a link exactly when that is the only link identity
    with an end on the device and port, it says [ambiguous] exactly when at
    least two different links are attached there, and it counts the attached
    links once each, from either of their ends. *)
Theorem resolve_link_spec (limits : Limits) (g : TopologyGeneration) (index : TopologyIndex)
    (device : DeviceId) (port : PortId) :
  index_build limits g = Ok index ->
  exists r, resolve_link index device port = Ok r /\
    (res_known r = true <-> exists l, l ∈ links g /\ touches l (mk_endpoint device port) /\
       res_link r = link_id l /\
       forall l', l' ∈ links g -> touches l' (mk_endpoint device port) -> link_id l' = link_id l) /\
    (res_ambiguous r = true <-> exists l l', l ∈ links g /\ l' ∈ links g /\
       touches l (mk_endpoint device port) /\ touches l' (mk_endpoint device port) /\
       link_id l <> link_id l') /\
    res_candidates r = Z.of_nat (length (attached g (mk_endpoint device port))).
Proof.
  set (e := mk_endpoint device port). intros Hb.
  pose proof (index_build_find limits g index e Hb) as [Hg Hf]. unfold resolve_link. rewrite Hg.
  fold e. pose proof (attached_elem g e) as Hin. pose proof (attached_nodup g e) as Hnd.
  destruct (om_find e (links_by_endpoint index)) as [candidates|].
  - destruct Hf as [-> Hne]. destruct (attached g e) as [|i [|j rest]]; [done | |].
    + eexists. split; [done |]. cbn [res_known res_ambiguous res_candidates res_link].
      destruct (proj1 (Hin i) ltac:(constructor)) as (l & Hl & Ht & El). split_and!; [| | done].
      * split; [intros _ | done]. exists l. split_and!; [done | done | done |].
        intros l' Hl' Ht'. rewrite El. apply list_elem_of_singleton, Hin. by exists l'.
      * split; [done |]. intros (l1 & l2 & Hl1 & Hl2 & Ht1 & Ht2 & Hne2). destruct Hne2.
        transitivity i; [| symmetry]; apply list_elem_of_singleton, Hin; [by exists l1 | by exists l2].
    + eexists. split; [done |]. cbn [res_known res_ambiguous res_candidates res_link].
      destruct (proj1 (Hin i) ltac:(constructor)) as (l & Hl & Ht & El).
      destruct (proj1 (Hin j) ltac:(repeat constructor)) as (l' & Hl' & Ht' & El').
      assert (i <> j) as Hij.
      { intros ->. apply NoDup_cons in Hnd as [Hj _]. destruct Hj. constructor. }
      split_and!; [| | done].
      * split; [done |]. intros (l0 & _ & _ & _ & Hall). destruct Hij.
        rewrite <- El, <- El'. by rewrite (Hall l Hl Ht), (Hall l' Hl' Ht').
      * split; [intros _ | done]. exists l, l'. split_and!; congruence.
  - rewrite Hf in *. exists resolution_new. split; [done |]. cbn [resolution_new res_known res_ambiguous res_candidates].
    split_and!; [| | done].
    + split; [done |]. intros (l & Hl & Ht & _).
      by destruct (proj1 (elem_of_nil (link_id l)) (proj2 (Hin (link_id l)) (ex_intro _ l (conj Hl (conj Ht eq_refl))))).
    + split; [done |]. intros (l & l' & Hl & _ & Ht & _).
      by destruct (proj1 (elem_of_nil (link_id l)) (proj2 (Hin (link_id l)) (ex_intro _ l (conj Hl (conj Ht eq_refl))))).
Qed.

Definition example_index : TopologyIndex :=
  match index_build default_limits example_topology with Ok i => i | Err _ => index_new end.

Lemma resolve_link_spec_witness :
  exists r, resolve_link example_index (from_value 2) (from_value 12) = Ok r /\
    res_candidates r = Z.of_nat (length (attached example_topology (mk_endpoint (from_value 2) (from_value 12)))).
Proof.
  destruct (resolve_link_spec default_limits example_topology example_index (from_value 2) (from_value 12)
    ltac:(reflexivity)) as (r & E & _ & _ & H).
  exists r. split; [exact E | exact H].
Defined.

Example resolve_link_known :
  resolve_link example_index (from_value 2) (from_value 12) = Ok (mk_resolution (from_value 21) true false 1).
Proof. reflexivity. Qed.
