(* ===== verification/Observed.v ===== *)
(** * Observed path evidence

    Models [include/pathobs/observed.hpp] and [src/observed.cpp]: an immutable
    record of what a source observed, its validation, its canonical encoding and
    the identity derived from it.  The encoding leaves out the identity itself
    and the receive time, so the same observation received twice has one
    identity. *)

From S2P Require Import Prelude Errors StdAlgo Digest Canonical Ids TimeModel Limits Source.
#[local] Open Scope Z_scope.

(** ** Data *)

Inductive HopLinkProvenance : Set := ProvenanceAbsent | ProvenanceObserved | ProvenanceCorrelated.

#[global] Instance HopLinkProvenance_eq_dec : EqDecision HopLinkProvenance.
Proof. solve_decision. Defined.

Definition provenance_code (p : HopLinkProvenance) : Z :=
  match p with ProvenanceAbsent => 0 | ProvenanceObserved => 1 | ProvenanceCorrelated => 2 end.

Definition provenance_to_string (p : HopLinkProvenance) : string :=
  match p with
  | ProvenanceAbsent => "absent"
  | ProvenanceObserved => "observed"
  | ProvenanceCorrelated => "correlated"
  end.

Definition parse_hop_link_provenance (text : string) : Result HopLinkProvenance :=
  if bool_decide (text = "absent") then Ok ProvenanceAbsent else
  if bool_decide (text = "observed") then Ok ProvenanceObserved else
  if bool_decide (text = "correlated") then Ok ProvenanceCorrelated else
  Err (mk_error InvalidFormat "unknown hop link provenance" text).

Inductive EvidenceCompleteness : Set := CompletenessUnknown | Partial | Complete.

#[global] Instance EvidenceCompleteness_eq_dec : EqDecision EvidenceCompleteness.
Proof. solve_decision. Defined.

Definition completeness_code (c : EvidenceCompleteness) : Z :=
  match c with CompletenessUnknown => 0 | Partial => 1 | Complete => 2 end.

Definition completeness_to_string (c : EvidenceCompleteness) : string :=
  match c with
  | CompletenessUnknown => "unknown"
  | Partial => "partial"
  | Complete => "complete"
  end.

Definition parse_evidence_completeness (text : string) : Result EvidenceCompleteness :=
  if bool_decide (text = "unknown") then Ok CompletenessUnknown else
  if bool_decide (text = "partial") then Ok Partial else
  if bool_decide (text = "complete") then Ok Complete else
  Err (mk_error InvalidFormat "unknown evidence completeness" text).

Record ObservedHop : Set := mk_observed_hop {
  oh_index : Z;
  oh_device : DeviceId;
  oh_ingress : PortId;
  oh_egress : PortId;
  oh_link : LinkId;
  oh_provenance : HopLinkProvenance;
  oh_at : TimePoint
}.

#[global] Instance ObservedHop_eq_dec : EqDecision ObservedHop.
Proof. solve_decision. Defined.

Record ObservedPathEvidence : Set := mk_evidence {
  ev_id : EvidenceId;
  ev_source : SourceId;
  ev_incarnation : SourceIncarnationId;
  ev_sequence : SourceSequence;
  ev_surface : ProofSurface;
  ev_authority : AuthorityClass;
  ev_path : MaybeId PathIdTag;
  ev_group : MaybeId PathGroupIdTag;
  ev_origin : MaybeId DeviceIdTag;
  ev_destination : MaybeId DeviceIdTag;
  ev_epoch : EpochId;
  ev_claimed_incarnation : IncarnationId;
  ev_route_generation : MaybeId RouteGenerationIdTag;
  ev_topology_generation : MaybeId TopologyGenerationIdTag;
  ev_revision : RevisionId;
  ev_observed_at : TimePoint;
  ev_received_at : TimePoint;
  ev_hops : list ObservedHop;
  ev_source_truncated : bool;
  ev_declared_completeness : EvidenceCompleteness;
  ev_payload_digest : Digest;
  ev_note : string
}.

#[global] Instance ObservedPathEvidence_eq_dec : EqDecision ObservedPathEvidence.
Proof. solve_decision. Defined.

(** ** Operations *)

(** [hop_indices_are_contiguous]: [hops[i].index == i] for every position. *)
Fixpoint contiguous_from (i : Z) (hops : list ObservedHop) : bool :=
  match hops with
  | [] => true
  | h :: rest => if oh_index h =? i then contiguous_from (i + 1) rest else false
  end.

Definition hop_indices_are_contiguous (hops : list ObservedHop) : bool := contiguous_from 0 hops.

Definition put_hop (h : ObservedHop) : list Z :=
  put_u32 (oh_index h) ++ put_id (oh_device h) ++ put_id (oh_ingress h) ++ put_id (oh_egress h) ++
  put_id (oh_link h) ++ put_u8 (provenance_code (oh_provenance h)) ++ put_i64 (unix_nanos (oh_at h)).

(** [ObservedPathEvidence::write_canonical] *)
Definition evidence_canonical (e : ObservedPathEvidence) : list Z :=
  put_text "pathobs.evidence" ++
  put_id (ev_source e) ++ put_id (ev_incarnation e) ++ put_id (ev_sequence e) ++
  put_u8 (proof_surface_code (ev_surface e)) ++ put_u8 (authority_code (ev_authority e)) ++
  put_maybe (ev_path e) ++ put_maybe (ev_group e) ++ put_maybe (ev_origin e) ++
  put_maybe (ev_destination e) ++
  put_id (ev_epoch e) ++ put_id (ev_claimed_incarnation e) ++
  put_maybe (ev_route_generation e) ++ put_maybe (ev_topology_generation e) ++
  put_id (ev_revision e) ++ put_i64 (unix_nanos (ev_observed_at e)) ++
  put_boolean (ev_source_truncated e) ++ put_u8 (completeness_code (ev_declared_completeness e)) ++
  put_digest (ev_payload_digest e) ++ put_text (ev_note e) ++ put_seq put_hop (ev_hops e).

(** [ObservedPathEvidence::canonical_digest] *)
Definition evidence_digest (e : ObservedPathEvidence) : Digest := digest_of (evidence_canonical e).

(** [compute_evidence_id] *)
Definition compute_evidence_id (e : ObservedPathEvidence) : EvidenceId :=
  from_digest (digest_of (evidence_canonical e)).

Definition with_identity (e : ObservedPathEvidence) (i : EvidenceId) : ObservedPathEvidence :=
  mk_evidence i (ev_source e) (ev_incarnation e) (ev_sequence e) (ev_surface e) (ev_authority e)
    (ev_path e) (ev_group e) (ev_origin e) (ev_destination e) (ev_epoch e) (ev_claimed_incarnation e)
    (ev_route_generation e) (ev_topology_generation e) (ev_revision e) (ev_observed_at e)
    (ev_received_at e) (ev_hops e) (ev_source_truncated e) (ev_declared_completeness e)
    (ev_payload_digest e) (ev_note e).

Definition with_received_at (e : ObservedPathEvidence) (t : TimePoint) : ObservedPathEvidence :=
  mk_evidence (ev_id e) (ev_source e) (ev_incarnation e) (ev_sequence e) (ev_surface e) (ev_authority e)
    (ev_path e) (ev_group e) (ev_origin e) (ev_destination e) (ev_epoch e) (ev_claimed_incarnation e)
    (ev_route_generation e) (ev_topology_generation e) (ev_revision e) (ev_observed_at e)
    t (ev_hops e) (ev_source_truncated e) (ev_declared_completeness e)
    (ev_payload_digest e) (ev_note e).

(** [ObservedPathEvidence::seal] *)
Definition seal (e : ObservedPathEvidence) : ObservedPathEvidence := with_identity e (compute_evidence_id e).

(** The body of the hop loop of [validate]. *)
Definition check_hop (prev : option ObservedHop) (h : ObservedHop) : Status :=
  fail? negb (valid (oh_device h)) with
    error InvalidIdentity "observed hop has no device identity" in
  fail? valid (oh_link h) && bool_decide (oh_provenance h = ProvenanceAbsent) with
    error InvalidArgument "observed hop states a link identity without saying how it was obtained" in
  fail? negb (valid (oh_link h)) && negb (bool_decide (oh_provenance h = ProvenanceAbsent)) with
    error InvalidArgument "observed hop claims link provenance without a link identity" in
  fail? (match prev with Some p => oh_index h <=? oh_index p | None => false end) with
    error InvalidArgument "observed hop indices are not strictly ascending" in
  ok.

(** [ObservedPathEvidence::validate] *)
Definition evidence_validate (limits : Limits) (e : ObservedPathEvidence) : Status :=
  fail? negb (valid (ev_source e)) with error InvalidIdentity "evidence has no source identity" in
  fail? negb (valid (ev_incarnation e)) with
    error InvalidIdentity "evidence has no source incarnation" in
  fail? negb (valid (ev_sequence e)) with error InvalidIdentity "evidence has no source sequence" in
  fail? negb (valid (ev_epoch e)) with error InvalidIdentity "evidence does not state an epoch" in
  fail? negb (valid (ev_claimed_incarnation e)) with
    error InvalidIdentity "evidence does not state a component incarnation" in
  fail? negb (valid (ev_revision e)) with error InvalidIdentity "evidence does not state a revision" in
  fail? bool_decide (ev_surface e = SurfaceUnknown) with
    error InvalidArgument "evidence does not state a proof surface" in
  fail? bool_decide (ev_authority e = AuthorityNone) with
    error InvalidArgument "evidence does not state an authority class" in
  fail? max_hops_per_path limits <? Z.of_nat (length (ev_hops e)) with
    error CapacityExceeded "evidence hop count exceeds the configured bound" in
  fail? (4096 <? String.length (ev_note e))%nat with
    error OutOfRange "evidence note exceeds the configured bound" in
  fail? (digest_id_valid (ev_id e) && negb (bool_decide (compute_evidence_id e = ev_id e))) with
    mk_error IntegrityFailure "evidence identity does not match its content"
      ("stated " +:+ digest_id_str (ev_id e) +:+ " recomputed " +:+
       digest_id_str (compute_evidence_id e))%string in
  fail? negb (is_set (ev_observed_at e)) && negb (is_set (ev_received_at e)) with
    error InvalidArgument "evidence carries neither an observation nor a receive timestamp" in
  check? check_each check_hop None (ev_hops e) in
  fail? present (ev_origin e) && present (ev_destination e) &&
        bool_decide (maybe_value (ev_origin e) = maybe_value (ev_destination e)) &&
        (1 <? length (ev_hops e))%nat with
    error InvalidArgument
      "evidence states identical origin and destination for a multi hop observation" in
  ok.

(** [claimed_completeness] *)
Definition claimed_completeness (e : ObservedPathEvidence) : EvidenceCompleteness :=
  if ev_source_truncated e then Partial else
  if negb (bool_decide (ev_declared_completeness e = CompletenessUnknown))
  then ev_declared_completeness e else CompletenessUnknown.

(** ** Contiguity *)

Lemma contiguous_from_spec i hops :
  contiguous_from i hops = true <-> forall k h, hops !! k = Some h -> oh_index h = i + Z.of_nat k.
Proof.
  revert i. induction hops as [|h hops IH]; intros i; simpl; [done |].
  destruct (oh_index h =? i) eqn:E; bool_prop.
  - rewrite IH. split.
    + intros H [|k] h' Hk; simpl in Hk; [injection Hk as <-; lia |]. rewrite (H k h' Hk). lia.
    + intros H k h' Hk. rewrite (H (S k) h' Hk). lia.
  - split; [done |]. intros H. specialize (H 0%nat h eq_refl). lia.
Qed.

Lemma hop_indices_contiguous_spec hops :
  hop_indices_are_contiguous hops = true <-> forall k h, hops !! k = Some h -> oh_index h = Z.of_nat k.
Proof. unfold hop_indices_are_contiguous. rewrite contiguous_from_spec. by setoid_rewrite Z.add_0_l. Qed.

(** ** Validation *)

Definition hop_wf (h : ObservedHop) : Prop :=
  valid (oh_device h) = true /\ (valid (oh_link h) = true <-> oh_provenance h <> ProvenanceAbsent).

(** The hop indices go up. *)
Definition indices_ascending (hops : list ObservedHop) : Prop :=
  StronglySorted (fun a b => oh_index a < oh_index b) hops.

Lemma check_hop_ok prev h :
  check_hop prev h = ok <-> hop_wf h /\ forall p, prev = Some p -> oh_index p < oh_index h.
Proof.
  unfold check_hop, hop_wf. rewrite !guard_ok, negb_false_iff.
  assert ((match prev with Some p => oh_index h <=? oh_index p | None => false end) = false <->
    forall p, prev = Some p -> oh_index p < oh_index h) as ->.
  { destruct prev as [p|]; [rewrite Z.leb_gt |]; split; try done; [by intros ? ? [= <-] |].
    intros H. by apply H. }
  destruct (valid (oh_link h)), (decide (oh_provenance h = ProvenanceAbsent)) as [E|E];
    rewrite ?(bool_decide_eq_true_2 _ E), ?(bool_decide_eq_false_2 _ E); cbn [negb andb]; naive_solver.
Qed.

Lemma check_hops_ok hops :
  check_each check_hop None hops = ok <-> Forall hop_wf hops /\ indices_ascending hops.
Proof.
  unfold indices_ascending. assert (forall prev, check_each check_hop prev hops = ok <->
    Forall hop_wf hops /\ StronglySorted (fun a b => oh_index a < oh_index b) hops /\
    forall p, prev = Some p -> Forall (fun h => oh_index p < oh_index h) hops) as Haux.
  { induction hops as [|h hops IH]; intros prev; simpl.
    { split; [intros _; split_and!; constructor | done]. }
    etransitivity; [apply result_bind_ok |]. rewrite Forall_cons_iff. split.
    - intros ([] & [Hh Hp]%check_hop_ok & (Hwf & Hs & Hall)%IH). specialize (Hall h eq_refl).
      split_and!; [done | done | by constructor |]. intros p ->. specialize (Hp p eq_refl).
      constructor; [done |]. eapply list.Forall_impl; [exact Hall |]. simpl. lia.
    - intros ([Hh Hwf] & Hs & Hall). apply StronglySorted_inv in Hs as [Hs Hf].
      exists tt. split; [| apply IH; split_and!; [done | done | by intros p [= <-]]].
      apply check_hop_ok. split; [done |]. intros p Hp. specialize (Hall p Hp).
      by apply Forall_cons_iff in Hall as [? _]. }
  rewrite Haux. naive_solver.
Qed.

(** What a record has to satisfy, field by field. *)
Record evidence_wf (limits : Limits) (e : ObservedPathEvidence) : Prop := {
  wf_source : valid (ev_source e) = true;
  wf_incarnation : valid (ev_incarnation e) = true;
  wf_sequence : valid (ev_sequence e) = true;
  wf_epoch : valid (ev_epoch e) = true;
  wf_claimed : valid (ev_claimed_incarnation e) = true;
  wf_revision : valid (ev_revision e) = true;
  wf_surface : ev_surface e <> SurfaceUnknown;
  wf_authority : ev_authority e <> AuthorityNone;
  wf_hop_count : Z.of_nat (length (ev_hops e)) <= max_hops_per_path limits;
  wf_note : (String.length (ev_note e) <= 4096)%nat;
  wf_identity : digest_id_valid (ev_id e) = true -> ev_id e = compute_evidence_id e;
  wf_time : is_set (ev_observed_at e) = true \/ is_set (ev_received_at e) = true;
  wf_hops : Forall hop_wf (ev_hops e);
  wf_indices : indices_ascending (ev_hops e);
  wf_loop : present (ev_origin e) = true -> present (ev_destination e) = true ->
    maybe_value (ev_origin e) = maybe_value (ev_destination e) -> (length (ev_hops e) <= 1)%nat
}.

Lemma evidence_validate_iff limits e : evidence_validate limits e = ok <-> evidence_wf limits e.
Proof.
  assert (forall a b : Status, (check? a in b) = ok <-> a = ok /\ b = ok) as Hseq.
  { intros a b. split; [by intros ([] & ? & ?)%result_bind_ok | by intros [-> ->]]. }
  unfold evidence_validate. rewrite !guard_ok, Hseq, check_hops_ok, guard_ok, !negb_false_iff,
    !bool_decide_eq_false, !andb_false_iff, !negb_false_iff, bool_decide_eq_true, bool_decide_eq_false,
    Z.ltb_ge, !Nat.ltb_ge.
  split.
  - intros H. destruct_and! H. constructor; try done; try tauto.
    + intros Hv. destruct_or!; congruence.
    + intros Ho Hd Hod. destruct_or!; congruence || done.
  - intros []. split_and!; try done.
    + destruct (digest_id_valid (ev_id e)); [right; symmetry; auto | by left].
    + destruct (present (ev_origin e)), (present (ev_destination e)),
        (decide (maybe_value (ev_origin e) = maybe_value (ev_destination e))); auto.
Qed.

(** ** Identity *)

(** What the fields of a record can hold. *)
Definition hop_repr (h : ObservedHop) : Prop :=
  u_ok 32 (oh_index h) /\ id_ok (oh_device h) /\ id_ok (oh_ingress h) /\ id_ok (oh_egress h) /\
  id_ok (oh_link h) /\ i64_ok (unix_nanos (oh_at h)).

Definition evidence_repr (e : ObservedPathEvidence) : Prop :=
  id_ok (ev_source e) /\ id_ok (ev_incarnation e) /\ id_ok (ev_sequence e) /\
  id_ok (maybe_value (ev_path e)) /\ id_ok (maybe_value (ev_group e)) /\
  id_ok (maybe_value (ev_origin e)) /\ id_ok (maybe_value (ev_destination e)) /\
  id_ok (ev_epoch e) /\ id_ok (ev_claimed_incarnation e) /\
  id_ok (maybe_value (ev_route_generation e)) /\ id_ok (maybe_value (ev_topology_generation e)) /\
  id_ok (ev_revision e) /\ i64_ok (unix_nanos (ev_observed_at e)) /\
  length (bytes_ (ev_payload_digest e)) = kDigestBytes /\ len32 (string_bytes (ev_note e)) /\
  len32 (ev_hops e) /\ Forall hop_repr (ev_hops e).

(** The same observation: everything but the identity and the receive time. *)
Definition same_content (a b : ObservedPathEvidence) : Prop :=
  with_received_at (with_identity a digest_id_zero) unset =
  with_received_at (with_identity b digest_id_zero) unset.

Lemma provenance_code_inj a b : provenance_code a = provenance_code b -> a = b.
Proof. by destruct a, b. Qed.

Lemma completeness_code_inj a b : completeness_code a = completeness_code b -> a = b.
Proof. by destruct a, b. Qed.

Lemma provenance_byte p : byte_ok (provenance_code p).
Proof. destruct p; unfold byte_ok; simpl; lia. Qed.

Lemma completeness_byte c : byte_ok (completeness_code c).
Proof. destruct c; unfold byte_ok; simpl; lia. Qed.

#[export] Hint Resolve provenance_byte completeness_byte : pathobs.

#[export] Instance prefix_hop : PrefixFree put_hop hop_repr.
Proof.
  intros [i d p q l pr [t]] [i' d' p' q' l' pr' [t']] r s
    (H1 & H2 & H3 & H4 & H5 & H6) (K1 & K2 & K3 & K4 & K5 & K6) E.
  unfold put_hop in E. cbn [oh_index oh_device oh_ingress oh_egress oh_link oh_provenance oh_at unix_nanos] in *.
  repeat (prefix_step E; [| by auto with pathobs | by auto with pathobs]).
  apply provenance_code_inj in F4. by subst.
Qed.

(** The encoding determines the observation. *)
Lemma evidence_canonical_inj a b r s :
  evidence_repr a -> evidence_repr b ->
  evidence_canonical a ++ r = evidence_canonical b ++ s -> same_content a b /\ r = s.
Proof.
  intros Ha Hb E. unfold evidence_repr in Ha, Hb. destruct_and! Ha. destruct_and! Hb.
  unfold evidence_canonical in E. rewrite <- !app_assoc in E. apply app_inv_head in E.
  repeat (prefix_step E; [| by auto with pathobs | by auto with pathobs]).
  repeat match goal with
  | H : proof_surface_code _ = _ |- _ => apply proof_surface_code_inj in H
  | H : authority_code _ = _ |- _ => apply authority_code_inj in H
  | H : completeness_code _ = _ |- _ => apply completeness_code_inj in H
  end.
  split; [| done]. destruct a as [? ? ? ? ? ? ? ? ? ? ? ? ? ? ? [?] ? ? ? ? ? ?],
    b as [? ? ? ? ? ? ? ? ? ? ? ? ? ? ? [?] ? ? ? ? ? ?].
  unfold same_content, with_received_at, with_identity; simpl in *. by subst.
Qed.

Lemma same_content_canonical a b : same_content a b -> evidence_canonical a = evidence_canonical b.
Proof.
  intros E. apply (f_equal evidence_canonical) in E. by destruct a, b.
Qed.

(** C18. Evidence identity.  Validation accepts exactly the well formed records
    ([evidence_wf]: its source, sequence, epoch, incarnations and revision are set,
    it has a known surface, an authority and a time, its hops and its note are
    within their bounds, the hops are valid and ascending, a record with one end
    point for both has at most one hop, and an identity that it states is the one
    its content determines).  The
    hashed encoding determines every field of the observation except the identity
    and the receive time, and nothing else: two representable records have the
    same encoding exactly when they are the same observation.  Sealing a record
    that is valid apart from its identity gives a valid record; receiving it again
    at another time keeps its identity; and two valid identified records with one
    identity are the same observation unless their distinct encodings collide
    under the truncated SHA-256. *)
Theorem evidence_identity (limits : Limits) (a b : ObservedPathEvidence) :
  evidence_repr a -> evidence_repr b ->
  (evidence_validate limits a = ok <-> evidence_wf limits a) /\
  (evidence_canonical a = evidence_canonical b <-> same_content a b) /\
  (evidence_validate limits (with_identity a digest_id_zero) = ok ->
     evidence_validate limits (seal a) = ok) /\
  (forall t, ev_id (seal (with_received_at a t)) = ev_id (seal a)) /\
  (evidence_validate limits a = ok -> evidence_validate limits b = ok ->
     digest_id_valid (ev_id a) = true -> ev_id a = ev_id b ->
     same_content a b \/
     evidence_canonical a <> evidence_canonical b /\
       take kDigestIdBytes (sha256_spec (evidence_canonical a)) =
       take kDigestIdBytes (sha256_spec (evidence_canonical b))).
Proof.
  intros Ha Hb.
  assert (evidence_canonical a = evidence_canonical b <-> same_content a b) as Hcan.
  { split; [| apply same_content_canonical]. intros E.
    by destruct (evidence_canonical_inj a b [] [] Ha Hb); [by rewrite E |]. }
  split_and!; [apply evidence_validate_iff | done | | done |].
  - rewrite !evidence_validate_iff. intros []. by constructor.
  - rewrite !evidence_validate_iff. intros [] [] Hv E.
    destruct (decide (evidence_canonical a = evidence_canonical b)) as [Ec | Ec]; [left; by apply Hcan |].
    right. split; [done |]. rewrite <- !digest_of_spec.
    assert (compute_evidence_id a = compute_evidence_id b) as Eid.
    { transitivity (ev_id a); [symmetry; auto | rewrite E; apply wf_identity1; by rewrite <- E]. }
    exact (f_equal id_bytes Eid).
Qed.

(** A two hop observation, as the example sources report it. *)
Definition example_evidence : ObservedPathEvidence :=
  mk_evidence digest_id_zero (from_value 7) (from_value 1) (from_value 1) SurfaceReal Advisory
    (maybe (from_value 3)) (maybe (from_value 4)) absent absent (from_value 1) (from_value 1)
    absent absent (from_value 1) (from_unix_nanos 5) (from_unix_nanos 6)
    [mk_observed_hop 0 (from_value 1) id_none (from_value 11) id_none ProvenanceAbsent unset;
     mk_observed_hop 1 (from_value 2) (from_value 12) id_none id_none ProvenanceAbsent unset]
    false Complete digest_zero "".

Lemma example_evidence_repr : evidence_repr example_evidence.
Proof.
  unfold evidence_repr, id_ok, u_ok, i64_ok, int64_min, int64_max, len32. simpl.
  split_and!; try lia; try done.
  rewrite !Forall_cons_iff, Forall_nil_iff. unfold hop_repr, id_ok, u_ok, i64_ok.
  split_and!; by vm_compute.
Qed.

Lemma evidence_identity_witness :
  evidence_validate default_limits (seal example_evidence) = ok /\
  ev_id (seal (with_received_at example_evidence (from_unix_nanos 99))) = ev_id (seal example_evidence).
Proof.
  destruct (evidence_identity default_limits example_evidence example_evidence
    example_evidence_repr example_evidence_repr) as (_ & _ & H & Ht & _).
  split; [apply H; reflexivity | apply Ht].
Defined.
