(* ===== verification/Expected.v ===== *)
(** * Expected path state

    Models [include/pathobs/expected.hpp] and [src/expected.cpp]: the paths and
    path groups one route generation declares, the validation that makes a
    generation usable, the lookups, and the comparison of an observed hop trace
    with one declared path. *)

From S2P Require Import Prelude Errors StdAlgo Digest Canonical Ids TimeModel Limits Observed.
#[local] Open Scope Z_scope.

(** ** Data *)

Record ExpectedHop : Set := mk_expected_hop {
  eh_id : HopId;
  eh_index : Z;
  eh_device : DeviceId;
  eh_ingress : PortId;
  eh_egress : PortId;
  eh_egress_link : LinkId;
  eh_has_egress_link : bool
}.

#[global] Instance ExpectedHop_eq_dec : EqDecision ExpectedHop.
Proof. solve_decision. Defined.

Record ExpectedPath : Set := mk_path {
  path_id : PathId;
  path_group : PathGroupId;
  path_generation : RouteGenerationId;
  path_hops : list ExpectedHop;
  path_digest : Digest
}.

#[global] Instance ExpectedPath_eq_dec : EqDecision ExpectedPath.
Proof. solve_decision. Defined.

Record PathGroup : Set := mk_group {
  group_id : PathGroupId;
  group_origin : DeviceId;
  group_destination : DeviceId;
  group_label : string;
  group_members : list PathId
}.

#[global] Instance PathGroup_eq_dec : EqDecision PathGroup.
Proof. solve_decision. Defined.

Definition multipath (g : PathGroup) : bool := (1 <? length (group_members g))%nat.

Record RouteGeneration : Set := mk_route {
  route_id : RouteGenerationId;
  route_epoch : EpochId;
  route_incarnation : IncarnationId;
  route_revision : RevisionId;
  route_sequence : SourceSequence;
  route_source : SourceId;
  route_topology : TopologyGenerationId;
  route_created : TimePoint;
  route_received : TimePoint;
  groups : list PathGroup;
  paths : list ExpectedPath;
  route_digest : Digest
}.

#[global] Instance RouteGeneration_eq_dec : EqDecision RouteGeneration.
Proof. solve_decision. Defined.

(** ** Digests *)

Definition put_expected_hop (h : ExpectedHop) : list Z :=
  put_id (eh_id h) ++ put_u32 (eh_index h) ++ put_id (eh_device h) ++ put_id (eh_ingress h) ++
  put_id (eh_egress h) ++ put_boolean (eh_has_egress_link h) ++ put_id (eh_egress_link h).

(** The bytes [ExpectedPath::canonical_digest] hashes. *)
Definition path_canonical (p : ExpectedPath) : list Z :=
  put_text "pathobs.expected_path" ++ put_id (path_id p) ++ put_id (path_group p) ++
  put_id (path_generation p) ++ put_seq put_expected_hop (path_hops p).

Definition path_canonical_digest (p : ExpectedPath) : Digest := digest_of (path_canonical p).

Definition put_group (g : PathGroup) : list Z :=
  put_id (group_id g) ++ put_id (group_origin g) ++ put_id (group_destination g) ++
  put_text (group_label g) ++ put_seq put_id (group_members g).

(** The bytes [RouteGeneration::canonical_digest] hashes. *)
Definition route_canonical (g : RouteGeneration) : list Z :=
  put_text "pathobs.route_generation" ++
  put_id (route_id g) ++ put_id (route_epoch g) ++ put_id (route_incarnation g) ++
  put_id (route_revision g) ++ put_id (route_sequence g) ++ put_id (route_source g) ++
  put_id (route_topology g) ++ put_i64 (unix_nanos (route_created g)) ++
  put_seq put_group (groups g) ++
  put_seq (fun p => put_digest (path_canonical_digest p)) (paths g).

Definition route_canonical_digest (g : RouteGeneration) : Digest := digest_of (route_canonical g).

(** ** RouteGeneration::finalize *)

Definition by_path_id (a b : ExpectedPath) : bool := id_lt (path_id a) (path_id b).
Definition by_group_id (a b : PathGroup) : bool := id_lt (group_id a) (group_id b).

#[export] Instance by_path_id_swo : StrictWeakOrder by_path_id := swo_on path_id klt.
#[export] Instance by_group_id_swo : StrictWeakOrder by_group_id := swo_on group_id klt.

(** The body of the hop loop; the position is the loop counter. *)
Fixpoint check_expected_hops (path : PathId) (position : Z) (hops : list ExpectedHop) : Status :=
  match hops with
  | [] => ok
  | hop :: rest =>
      fail? negb (valid (eh_id hop)) || negb (valid (eh_device hop)) || negb (valid (eh_ingress hop)) ||
            negb (valid (eh_egress hop)) with
        mk_error InvalidIdentity "expected hop is missing an identity" (id_str path) in
      fail? negb (eh_index hop =? position) with
        mk_error InvalidArgument "expected hop index does not match its position" (id_str path) in
      check_expected_hops path (position + 1) rest
  end.

(** The body of the path loop, up to the digest it stores. *)
Definition check_path (limits : Limits) (generation : RouteGenerationId)
    (prev : option ExpectedPath) (p : ExpectedPath) : Status :=
  fail? negb (valid (path_id p)) || negb (valid (path_group p)) || negb (valid (path_generation p)) with
    error InvalidIdentity "expected path is missing an identity" in
  fail? negb (bool_decide (path_generation p = generation)) with
    error InvalidArgument "expected path names a different route generation than its container" in
  fail? (match prev with Some q => bool_decide (path_id q = path_id p) | None => false end) with
    error DuplicateIdentity "route generation contains a duplicate path" in
  fail? (length (path_hops p) =? 0)%nat with
    mk_error InvalidArgument "expected path has no hops" (id_str (path_id p)) in
  fail? max_hops_per_path limits <? Z.of_nat (length (path_hops p)) with
    mk_error CapacityExceeded "expected path exceeds the hop bound" (id_str (path_id p)) in
  check_expected_hops (path_id p) 0 (path_hops p).

Definition set_path_digest (p : ExpectedPath) : ExpectedPath :=
  mk_path (path_id p) (path_group p) (path_generation p) (path_hops p) (path_canonical_digest p).

Definition normal_members (members : list PathId) : list PathId :=
  unique_by (fun a b => bool_decide (a = b)) (sort_by id_lt members).

Definition set_members (g : PathGroup) : PathGroup :=
  mk_group (group_id g) (group_origin g) (group_destination g) (group_label g)
    (normal_members (group_members g)).

(** The member loop: a binary search for each member in the sorted paths. *)
Fixpoint check_members (ps : list ExpectedPath) (group : PathGroupId) (members : list PathId) : Status :=
  match members with
  | [] => ok
  | member :: rest =>
      match find_sorted path_id ps member with
      | None =>
          Err (mk_error UnknownIdentity "path group references a path that is not in the generation"
                 (id_str member))
      | Some p =>
          fail? negb (bool_decide (path_group p = group)) with
            mk_error InvalidArgument "path group and path disagree about group membership"
              (id_str member) in
          check_members ps group rest
      end
  end.

(** The body of the group loop. *)
Definition check_group (limits : Limits) (ps : list ExpectedPath) (prev : option PathGroup)
    (g : PathGroup) : Status :=
  fail? negb (valid (group_id g)) || negb (valid (group_origin g)) ||
        negb (valid (group_destination g)) with
    error InvalidIdentity "path group is missing an identity" in
  fail? (match prev with Some q => bool_decide (group_id q = group_id g) | None => false end) with
    error DuplicateIdentity "route generation contains a duplicate group" in
  fail? max_members_per_group limits <? Z.of_nat (length (group_members g)) with
    mk_error CapacityExceeded "path group exceeds the member bound" (id_str (group_id g)) in
  let members := normal_members (group_members g) in
  fail? (length members =? 0)%nat with
    mk_error InvalidArgument "path group has no members" (id_str (group_id g)) in
  check_members ps (group_id g) members.

Definition route_precheck (limits : Limits) (g : RouteGeneration) : Status :=
  fail? negb (valid (route_id g)) || negb (valid (route_epoch g)) || negb (valid (route_incarnation g)) ||
        negb (valid (route_revision g)) || negb (valid (route_source g)) ||
        negb (valid (route_topology g)) with
    error InvalidIdentity
      "route generation is missing one of generation, epoch, incarnation, revision, source or topology" in
  fail? max_paths_per_generation limits <? Z.of_nat (length (paths g)) with
    error CapacityExceeded "route generation path count exceeds the bound" in
  fail? max_groups_per_generation limits <? Z.of_nat (length (groups g)) with
    error CapacityExceeded "route generation group count exceeds the bound" in
  ok.

Definition with_expected (g : RouteGeneration) gs ps (d : Digest) : RouteGeneration :=
  mk_route (route_id g) (route_epoch g) (route_incarnation g) (route_revision g) (route_sequence g)
    (route_source g) (route_topology g) (route_created g) (route_received g) gs ps d.

(** [RouteGeneration::finalize]: the finalised generation, or the error.  Callers
    discard a generation whose finalisation failed.  The loops only write the
    digest of the path and the members of the group they have just validated, so
    the validation and the writes are two passes here. *)
Definition route_finalize (limits : Limits) (g : RouteGeneration) : Result RouteGeneration :=
  check? route_precheck limits g in
  let ps := sort_by by_path_id (paths g) in
  let gs := sort_by by_group_id (groups g) in
  check? check_each (check_path limits (route_id g)) None ps in
  let ps := map set_path_digest ps in
  check? check_each (check_group limits ps) None gs in
  let sorted := with_expected g (map set_members gs) ps (route_digest g) in
  Ok (with_expected g (groups sorted) (paths sorted) (route_canonical_digest sorted)).

(** ** Lookups *)

Definition find_path (g : RouteGeneration) (id : PathId) : option ExpectedPath :=
  find_sorted path_id (paths g) id.
Definition find_group (g : RouteGeneration) (id : PathGroupId) : option PathGroup :=
  find_sorted group_id (groups g) id.

(** [find_group_by_endpoints]: the first match, and whether there were several. *)
Fixpoint endpoints_go (origin destination : DeviceId) (gs : list PathGroup)
    (found : option PathGroup) (matches : nat) : option PathGroup * bool :=
  match gs with
  | [] => (found, (1 <? matches)%nat)
  | g :: rest =>
      if bool_decide (group_origin g = origin) && bool_decide (group_destination g = destination)
      then endpoints_go origin destination rest
             (match found with None => Some g | Some _ => found end) (S matches)
      else endpoints_go origin destination rest found matches
  end.

Definition find_group_by_endpoints (g : RouteGeneration) (origin destination : DeviceId) :
    option PathGroup * bool :=
  endpoints_go origin destination (groups g) None 0.

(** ** Trace comparison *)

Inductive TraceMatch : Set := TraceExact | TracePrefix | TraceMismatch | TraceIncomparable.

#[global] Instance TraceMatch_eq_dec : EqDecision TraceMatch.
Proof. solve_decision. Defined.

Record TraceComparison : Set := mk_trace {
  trace_match : TraceMatch;
  first_difference : Z;
  has_difference : bool
}.

#[global] Instance TraceComparison_eq_dec : EqDecision TraceComparison.
Proof. solve_decision. Defined.

(** [hops_agree]; whenever it fails, the difference it reports is the index of
    the expected hop. *)
Definition hops_agree (expected : ExpectedHop) (observed : ObservedHop) : bool :=
  if negb (bool_decide (eh_device expected = oh_device observed)) then false else
  if valid (oh_ingress observed) && negb (bool_decide (eh_ingress expected = oh_ingress observed))
  then false else
  if valid (oh_egress observed) && negb (bool_decide (eh_egress expected = oh_egress observed))
  then false else
  if eh_has_egress_link expected && valid (oh_link observed) &&
     negb (bool_decide (oh_provenance observed = ProvenanceAbsent)) &&
     negb (bool_decide (eh_egress_link expected = oh_link observed))
  then false else true.

(** The loop over the comparable prefix. *)
Fixpoint first_disagreement (expected : list ExpectedHop) (observed : list ObservedHop) : option Z :=
  match expected, observed with
  | e :: expected, o :: observed =>
      if hops_agree e o then first_disagreement expected observed else Some (eh_index e)
  | _, _ => None
  end.

Definition compare_trace (expected : ExpectedPath) (observed : list ObservedHop) : TraceComparison :=
  if (length (path_hops expected) =? 0)%nat || (length observed =? 0)%nat
  then mk_trace TraceIncomparable 0 false
  else match first_disagreement (path_hops expected) observed with
  | Some difference => mk_trace TraceMismatch difference true
  | None =>
      if (length observed <? length (path_hops expected))%nat
      then mk_trace TracePrefix 0 false
      else mk_trace TraceExact 0 false
  end.

(** ** What a usable generation is *)

Definition expected_hop_wf (h : ExpectedHop) : Prop :=
  valid (eh_id h) = true /\ valid (eh_device h) = true /\ valid (eh_ingress h) = true /\
  valid (eh_egress h) = true.

(** Every hop is identified and numbered by its position. *)
Definition hops_numbered (start : Z) (hops : list ExpectedHop) : Prop :=
  forall k h, hops !! k = Some h -> expected_hop_wf h /\ eh_index h = start + Z.of_nat k.

Definition path_wf (limits : Limits) (g : RouteGeneration) (p : ExpectedPath) : Prop :=
  valid (path_id p) = true /\ valid (path_group p) = true /\ valid (path_generation p) = true /\
  path_generation p = route_id g /\ path_hops p <> [] /\
  Z.of_nat (length (path_hops p)) <= max_hops_per_path limits /\ hops_numbered 0 (path_hops p).

Definition group_wf (limits : Limits) (ps : list ExpectedPath) (g : PathGroup) : Prop :=
  valid (group_id g) = true /\ valid (group_origin g) = true /\ valid (group_destination g) = true /\
  Z.of_nat (length (group_members g)) <= max_members_per_group limits /\ group_members g <> [] /\
  forall m, m ∈ group_members g -> exists p, p ∈ ps /\ path_id p = m /\ path_group p = group_id g.

Definition route_consistent (limits : Limits) (g : RouteGeneration) : Prop :=
  NoDup (map path_id (paths g)) /\ NoDup (map group_id (groups g)) /\
  Forall (path_wf limits g) (paths g) /\ Forall (group_wf limits (paths g)) (groups g).

Definition route_sorted (g : RouteGeneration) : Prop :=
  strictly_ascending path_id (paths g) /\ strictly_ascending group_id (groups g) /\
  Forall (fun gr => strictly_ascending (fun m => m) (group_members gr)) (groups g) /\
  Forall (fun p => path_digest p = path_canonical_digest p) (paths g).

Lemma check_expected_hops_ok path start hops :
  check_expected_hops path start hops = ok <-> hops_numbered start hops.
Proof.
  unfold hops_numbered, expected_hop_wf. revert start.
  induction hops as [|h hops IH]; intros start; simpl; [done |].
  rewrite !guard_ok, !orb_false_iff, !negb_false_iff, Z.eqb_eq, IH. split.
  - intros (? & Hi & H) [|k] h' Hk; simpl in Hk.
    + injection Hk as <-. split; [tauto | lia].
    + destruct (H k h' Hk) as [? Hi']. split; [done | lia].
  - intros H. destruct (H 0%nat h eq_refl). split_and!; try tauto; [lia |].
    intros k h' Hk. destruct (H (S k) h' Hk). split; [done | lia].
Qed.

Lemma check_path_ok limits g prev p :
  check_path limits (route_id g) prev p = ok <->
  (forall q, prev = Some q -> path_id q <> path_id p) /\ path_wf limits g p.
Proof.
  unfold check_path, path_wf.
  rewrite !guard_ok, neighbour_distinct, !orb_false_iff, !negb_false_iff, check_expected_hops_ok,
    bool_decide_eq_true, Z.ltb_ge, Nat.eqb_neq, length_zero_iff_nil. tauto.
Qed.

Lemma normal_members_elem ms m : m ∈ normal_members ms <-> m ∈ ms.
Proof.
  unfold normal_members. rewrite unique_by_elem by (intros ? ?; by rewrite bool_decide_eq_true).
  apply elem_of_sort_by.
Qed.

Lemma normal_members_strict ms : strictly_ascending (fun m => m) (normal_members ms).
Proof.
  exact (sort_unique_strict (fun m : PathId => m) (fun a b => bool_decide (a = b)) ms
    (fun a b _ _ => bool_decide_eq_true _)).
Qed.

Lemma normal_members_id ms : strictly_ascending (fun m => m) ms -> normal_members ms = ms.
Proof.
  intros Hs. unfold normal_members. rewrite sort_by_id.
  2:{ exact (strictly_ascending_ascending _ _ Hs). }
  apply unique_by_strict; [intros ? ?; by rewrite bool_decide_eq_true | done].
Qed.

Lemma length_normal_members ms : (length (normal_members ms) <= length ms)%nat.
Proof. etransitivity; [apply length_unique_by |]. by rewrite length_sort_by. Qed.

Lemma normal_members_nil ms : normal_members ms = [] <-> ms = [].
Proof.
  split; [| by intros ->]. intros E. destruct ms as [|m ms]; [done |].
  assert (m ∈ normal_members (m :: ms)) as H by (apply normal_members_elem; constructor).
  rewrite E in H. by apply elem_of_nil in H.
Qed.

Lemma check_members_ok ps group members :
  strictly_ascending path_id ps ->
  check_members ps group members = ok <->
  forall m, m ∈ members -> exists p, p ∈ ps /\ path_id p = m /\ path_group p = group.
Proof.
  intros Hs. induction members as [|m members IH]; simpl; [by split; [intros _ m ?%elem_of_nil |] |].
  destruct (find_sorted path_id ps m) as [p|] eqn:E.
  - apply find_sorted_sound in E as [Hp Em]. rewrite guard_ok, negb_false_iff, bool_decide_eq_true, IH.
    setoid_rewrite elem_of_cons. split.
    + intros [Hg H] m' [-> | Hm]; [by exists p | by apply H].
    + intros H. split; [| intros; apply H; by right].
      destruct (H m (or_introl eq_refl)) as (q & Hq & Eq & Hg).
      by rewrite (strictly_ascending_inj path_id ps p q Hs Hp Hq) by congruence.
  - split; [done |]. intros H. destruct (H m ltac:(constructor)) as (q & Hq & Eq & _).
    by destruct (proj1 (find_sorted_none path_id ps m Hs) E q Hq).
Qed.

Lemma check_group_ok limits ps prev g :
  strictly_ascending path_id ps ->
  check_group limits ps prev g = ok <->
  (forall q, prev = Some q -> group_id q <> group_id g) /\ group_wf limits ps g.
Proof.
  intros Hs. unfold check_group, group_wf.
  rewrite !guard_ok, neighbour_distinct, !orb_false_iff, !negb_false_iff, check_members_ok, Z.ltb_ge,
    Nat.eqb_neq, length_zero_iff_nil, normal_members_nil by done.
  setoid_rewrite normal_members_elem. tauto.
Qed.

Lemma group_wf_ext limits ps qs g :
  (forall m c, (exists p, p ∈ ps /\ path_id p = m /\ path_group p = c) <->
               (exists p, p ∈ qs /\ path_id p = m /\ path_group p = c)) ->
  group_wf limits ps g <-> group_wf limits qs g.
Proof. intros H. unfold group_wf. by setoid_rewrite H. Qed.

Lemma paths_declared_perm ps qs : ps ≡ₚ qs -> forall m c,
  (exists p, p ∈ ps /\ path_id p = m /\ path_group p = c) <->
  (exists p, p ∈ qs /\ path_id p = m /\ path_group p = c).
Proof. intros Hp m c. by setoid_rewrite Hp. Qed.

Lemma paths_declared_digest ps m c :
  (exists p, p ∈ map set_path_digest ps /\ path_id p = m /\ path_group p = c) <->
  (exists p, p ∈ ps /\ path_id p = m /\ path_group p = c).
Proof.
  split.
  - intros (p & Hp & Hm & Hc). apply list_elem_of_In, in_map_iff in Hp as (q & <- & Hq%list_elem_of_In).
    by exists q.
  - intros (p & Hp & Hm & Hc). exists (set_path_digest p). split; [| done].
    apply list_elem_of_In, in_map_iff. exists p. split; [done | by apply list_elem_of_In].
Qed.

Lemma set_path_digest_strict ps :
  strictly_ascending path_id ps -> strictly_ascending path_id (map set_path_digest ps).
Proof. by apply strictly_ascending_map. Qed.

Lemma set_members_strict gs :
  strictly_ascending group_id gs -> strictly_ascending group_id (map set_members gs).
Proof. by apply strictly_ascending_map. Qed.

Lemma route_checks_iff limits g :
  check_each (check_path limits (route_id g)) None (sort_by by_path_id (paths g)) = ok /\
  check_each (check_group limits (map set_path_digest (sort_by by_path_id (paths g)))) None
    (sort_by by_group_id (groups g)) = ok <->
  route_consistent limits g.
Proof.
  unfold route_consistent.
  pose proof (sort_strict_nodup path_id (paths g)) as Np. pose proof (sort_strict_nodup group_id (groups g)) as Ng.
  change (fun a b : ExpectedPath => klt (path_id a) (path_id b)) with by_path_id in Np.
  change (fun a b : PathGroup => klt (group_id a) (group_id b)) with by_group_id in Ng.
  rewrite <- Np, <- Ng. clear Np Ng.
  pose proof (sort_by_perm by_path_id (paths g)) as Pp. pose proof (sort_by_perm by_group_id (groups g)) as Pg.
  pose proof (sort_by_ascending by_path_id (paths g)) as Ap.
  pose proof (sort_by_ascending by_group_id (groups g)) as Ag.
  revert Pp Pg Ap Ag. generalize (sort_by by_path_id (paths g)) (sort_by by_group_id (groups g)).
  intros ps gs Pp Pg Ap Ag.
  assert (check_each (check_path limits (route_id g)) None ps = ok <->
    strictly_ascending path_id ps /\ Forall (path_wf limits g) ps) as ->.
  { apply (check_each_iff path_id); [apply check_path_ok | exact Ap]. }
  assert (strictly_ascending path_id ps ->
    check_each (check_group limits (map set_path_digest ps)) None gs = ok <->
    strictly_ascending group_id gs /\ Forall (group_wf limits (paths g)) gs) as Eg.
  { intros Hs. apply (check_each_iff group_id); [| exact Ag]. intros prev gr.
    rewrite check_group_ok by by apply set_path_digest_strict.
    rewrite (group_wf_ext limits (map set_path_digest ps) (paths g)); [done |].
    intros m c. rewrite paths_declared_digest. by apply paths_declared_perm. }
  pose proof (Forall_perm_iff (path_wf limits g) _ _ _ (fun x => iff_refl _) Pp) as Fp.
  pose proof (Forall_perm_iff (group_wf limits (paths g)) _ _ _ (fun x => iff_refl _) Pg) as Fg.
  tauto.
Qed.

(** The generation [finalize] produces. *)
Definition route_normal (g : RouteGeneration) : RouteGeneration :=
  let ps := map set_path_digest (sort_by by_path_id (paths g)) in
  let gs := map set_members (sort_by by_group_id (groups g)) in
  with_expected g gs ps (route_canonical_digest (with_expected g gs ps (route_digest g))).

Lemma route_finalize_iff limits g g' :
  route_finalize limits g = Ok g' <->
  route_precheck limits g = ok /\ route_consistent limits g /\ g' = route_normal g.
Proof.
  rewrite <- route_checks_iff. unfold route_finalize, ok. rewrite result_bind_ok. split.
  - intros ([] & Hp & ([] & H1 & ([] & H2 & [= <-])%result_bind_ok)%result_bind_ok). done.
  - intros (Hp & [H1 H2] & ->). exists tt. split; [done |]. apply result_bind_ok. exists tt.
    split; [done |]. apply result_bind_ok. by exists tt.
Qed.

Lemma route_normal_sorted limits g : route_consistent limits g -> route_sorted (route_normal g).
Proof.
  intros (Hp & Hg & _). unfold route_sorted. cbn [route_normal with_expected paths groups]. split_and!.
  - apply set_path_digest_strict. exact (proj2 (sort_strict_nodup path_id _) Hp).
  - apply set_members_strict. exact (proj2 (sort_strict_nodup group_id _) Hg).
  - apply Forall_elem. intros gr (g0 & <- & _)%list_elem_of_In%in_map_iff. apply normal_members_strict.
  - apply Forall_elem. intros p (p0 & <- & _)%list_elem_of_In%in_map_iff. reflexivity.
Qed.

(** A generation in normal form is its own normal form. *)
Lemma route_normal_id g :
  route_sorted g -> route_digest g = route_canonical_digest g -> route_normal g = g.
Proof.
  intros (Hp & Hg & Hm & Hd) Edig. unfold route_normal.
  assert (sort_by by_path_id (paths g) = paths g) as ->.
  { apply sort_by_id. exact (strictly_ascending_ascending _ _ Hp). }
  assert (sort_by by_group_id (groups g) = groups g) as ->.
  { apply sort_by_id. exact (strictly_ascending_ascending _ _ Hg). }
  assert (map set_path_digest (paths g) = paths g) as ->.
  { clear - Hd. induction Hd as [|p ps Ep _ IH]; [done |]. simpl. rewrite IH. f_equal.
    destruct p. unfold set_path_digest. simpl in *. by rewrite <- Ep. }
  assert (map set_members (groups g) = groups g) as ->.
  { clear - Hm. induction Hm as [|gr gs Em _ IH]; [done |]. simpl. rewrite IH. f_equal.
    destruct gr. unfold set_members. simpl in *. by rewrite normal_members_id. }
  unfold with_expected. rewrite <- Edig in * || idtac.
  destruct g. simpl in *. f_equal. exact (eq_sym Edig).
Qed.

Lemma route_normal_consistent limits g :
  route_consistent limits g -> route_consistent limits (route_normal g).
Proof.
  intros Hc. pose proof (route_normal_sorted limits g Hc) as (Hp & Hg & _ & _).
  destruct Hc as (_ & _ & Wp & Wg). unfold route_consistent. split_and!.
  - by apply strictly_ascending_nodup.
  - by apply strictly_ascending_nodup.
  - cbn [route_normal with_expected paths]. rewrite Forall_elem in *.
    intros p (p0 & <- & Hp0%list_elem_of_In)%list_elem_of_In%in_map_iff.
    rewrite elem_of_sort_by in Hp0. exact (Wp p0 Hp0).
  - cbn [route_normal with_expected paths groups]. rewrite Forall_elem in *.
    intros gr (g0 & <- & Hg0%list_elem_of_In)%list_elem_of_In%in_map_iff.
    rewrite elem_of_sort_by in Hg0. destruct (Wg g0 Hg0) as (? & ? & ? & Hlen & Hne & Hmem).
    unfold group_wf. cbn [set_members group_id group_origin group_destination group_members].
    split_and!; try done.
    + pose proof (length_normal_members (group_members g0)). lia.
    + by rewrite normal_members_nil.
    + intros m. rewrite normal_members_elem, paths_declared_digest. intros Hm.
      rewrite (paths_declared_perm _ _ (sort_by_perm by_path_id (paths g))). by apply Hmem.
Qed.

Lemma route_precheck_length limits g gs ps d :
  length gs = length (groups g) -> length ps = length (paths g) ->
  route_precheck limits (with_expected g gs ps d) = route_precheck limits g.
Proof. intros Eg Ep. unfold route_precheck. cbn [with_expected paths groups]. by rewrite Eg, Ep. Qed.

(** The same generation with its records supplied in another order. *)
Definition route_reordered (g h : RouteGeneration) : Prop :=
  exists gs ps d, h = with_expected g gs ps d /\ gs ≡ₚ groups g /\ ps ≡ₚ paths g.

Lemma route_reordered_finalize limits g h :
  route_reordered g h -> route_precheck limits g = ok -> route_consistent limits g ->
  route_finalize limits h = Ok (route_normal g).
Proof.
  intros (gs & ps & d & -> & Pg & Pp) Hpre (Np & Ng & Wp & Wg). apply route_finalize_iff. split_and!.
  - by rewrite route_precheck_length by by apply Permutation_length.
  - unfold route_consistent. cbn [with_expected paths groups].
    rewrite (Permutation_map path_id Pp), (Permutation_map group_id Pg). split_and!; [done | done | |].
    + by apply (Forall_perm_iff (path_wf limits g) _ _ _ (fun x => iff_refl _) (Permutation_sym Pp)) in Wp.
    + apply (Forall_perm_iff _ _ _ _ (fun gr => group_wf_ext limits _ _ gr (paths_declared_perm _ _ Pp)) Pg).
      done.
  - unfold route_normal. cbn [with_expected paths groups route_digest].
    pose proof (sort_by_perm_strict path_id _ _ (proj2 (sort_strict_nodup path_id _) Np)
      (Permutation_sym Pp)) as Ep.
    pose proof (sort_by_perm_strict group_id _ _ (proj2 (sort_strict_nodup group_id _) Ng)
      (Permutation_sym Pg)) as Eg.
    change (sort_by by_path_id ps = sort_by by_path_id (paths g)) in Ep.
    change (sort_by by_group_id gs = sort_by by_group_id (groups g)) in Eg.
    by rewrite Ep, Eg.
Qed.

(** A finalised generation is its own finalisation. *)
Lemma route_finalize_again limits g g' : route_finalize limits g = Ok g' -> route_finalize limits g' = Ok g'.
Proof.
  intros (Hp & Hc & ->)%route_finalize_iff. apply route_finalize_iff. split_and!.
  - unfold route_normal. rewrite route_precheck_length; [done | |]; by rewrite length_map, length_sort_by.
  - by apply route_normal_consistent.
  - symmetry. apply route_normal_id; [by eapply route_normal_sorted | done].
Qed.

(** C19. [RouteGeneration::finalize] accepts exactly the consistent generations
    within the bounds: complete identity tuple, unique path and group
    identities, every path of this generation with positionally numbered hops,
    every group non-empty with members that are declared paths of that group.
    The accepted generation is in normal form (sorted, members sorted without
    repetition, digests computed), is a fixed point of [finalize], and is the
    same whatever the order in which paths and groups were supplied. *)
Theorem route_finalize_spec (limits : Limits) (g : RouteGeneration) :
  (has_value (route_finalize limits g) = true <->
     route_precheck limits g = ok /\ route_consistent limits g) /\
  (forall g', route_finalize limits g = Ok g' ->
     route_sorted g' /\ route_consistent limits g' /\ route_digest g' = route_canonical_digest g' /\
     route_finalize limits g' = Ok g' /\
     forall h, route_reordered g h -> route_finalize limits h = Ok g').
Proof.
  split.
  - destruct (route_finalize limits g) as [g'|e] eqn:E; simpl; split; try done.
    + intros _. by apply route_finalize_iff in E as (? & ? & _).
    + intros [Hp Hc]. assert (route_finalize limits g = Ok (route_normal g)) as F
        by by apply route_finalize_iff. congruence.
  - intros g' E. pose proof (route_finalize_again _ _ _ E) as E'. pose proof E as (Hp & Hc & ->)%route_finalize_iff.
    split_and!; [by eapply route_normal_sorted | by apply route_normal_consistent | done | done |].
    intros h Hr. by apply route_reordered_finalize.
Qed.

(** One group with one two hop path. *)
Definition example_path : ExpectedPath :=
  mk_path (from_value 3) (from_value 4) (from_value 1)
    [mk_expected_hop (from_value 31) 0 (from_value 1) (from_value 10) (from_value 11) id_none false;
     mk_expected_hop (from_value 32) 1 (from_value 2) (from_value 12) (from_value 13) id_none false]
    digest_zero.

Definition example_group : PathGroup :=
  mk_group (from_value 4) (from_value 1) (from_value 2) "a-b" [from_value 3; from_value 3].

Definition example_route : RouteGeneration :=
  mk_route (from_value 1) (from_value 1) (from_value 1) (from_value 1) id_none (from_value 8)
    (from_value 1) (from_unix_nanos 0) (from_unix_nanos 0) [example_group] [example_path] digest_zero.

Lemma route_finalize_spec_witness :
  route_sorted (route_normal example_route) /\
  route_finalize default_limits (route_normal example_route) = Ok (route_normal example_route).
Proof.
  assert (route_finalize default_limits example_route = Ok (route_normal example_route)) as E by reflexivity.
  destruct (proj2 (route_finalize_spec default_limits example_route) _ E) as (H1 & _ & _ & H2 & _).
  by split.
Defined.

(** ** Lookups *)

Lemma endpoints_go_spec origin destination gs found matches :
  endpoints_go origin destination gs found matches =
  let hits := List.filter (fun g => bool_decide (group_origin g = origin) &&
                                    bool_decide (group_destination g = destination)) gs in
  (match found with Some _ => found | None => head hits end, (1 <? matches + length hits)%nat).
Proof.
  revert found matches. induction gs as [|g gs IH]; intros found matches; simpl.
  { rewrite Nat.add_0_r. by destruct found. }
  destruct (_ && _); rewrite IH; cbn [length head].
  - f_equal; [by destruct found | f_equal; lia].
  - done.
Qed.

(** Lookups on a finalised generation.  [find_path] and [find_group] find a
    record exactly when the generation declares it; [find_group_by_endpoints]
    finds a group exactly when one joins the endpoints, and reports ambiguity
    exactly when two different groups do. *)
Theorem route_lookups (limits : Limits) (g g' : RouteGeneration) :
  route_finalize limits g = Ok g' ->
  (forall i, find_path g' i = None <-> forall p, p ∈ paths g -> path_id p <> i) /\
  (forall i q, find_path g' i = Some q <->
     exists p, p ∈ paths g /\ path_id p = i /\ q = set_path_digest p) /\
  (forall i q, find_group g' i = Some q <->
     exists gr, gr ∈ groups g /\ group_id gr = i /\ q = set_members gr) /\
  (forall a b, (find_group_by_endpoints g' a b).1 = None <->
     forall gr, gr ∈ groups g -> ~ (group_origin gr = a /\ group_destination gr = b)) /\
  (forall a b, (find_group_by_endpoints g' a b).2 = true <->
     exists x y, x ∈ groups g /\ y ∈ groups g /\ group_id x <> group_id y /\
       group_origin x = a /\ group_destination x = b /\ group_origin y = a /\ group_destination y = b).
Proof.
  intros (_ & Hc & ->)%route_finalize_iff.
  pose proof (route_normal_sorted limits g Hc) as (Hp & Hg & _ & _).
  assert (forall q, q ∈ paths (route_normal g) <-> exists p, p ∈ paths g /\ q = set_path_digest p) as Ep.
  { intros q. cbn [route_normal with_expected paths]. rewrite list_elem_of_In, in_map_iff.
    split; [intros (p & <- & Hq%list_elem_of_In) | intros (p & Hq & ->)]; exists p;
      [by rewrite elem_of_sort_by in Hq | split; [done |]]. by apply list_elem_of_In, elem_of_sort_by. }
  assert (forall q, q ∈ groups (route_normal g) <-> exists p, p ∈ groups g /\ q = set_members p) as Eg.
  { intros q. cbn [route_normal with_expected groups]. rewrite list_elem_of_In, in_map_iff.
    split; [intros (p & <- & Hq%list_elem_of_In) | intros (p & Hq & ->)]; exists p;
      [by rewrite elem_of_sort_by in Hq | split; [done |]]. by apply list_elem_of_In, elem_of_sort_by. }
  split_and!.
  - intros i. unfold find_path. rewrite (find_sorted_none path_id) by done. split.
    + intros H p Hin. apply (H (set_path_digest p)). apply Ep. by exists p.
    + intros H q (p & Hin & ->)%Ep. exact (H p Hin).
  - intros i q. unfold find_path. rewrite (find_sorted_iff path_id), Ep by done. naive_solver.
  - intros i q. unfold find_group. rewrite (find_sorted_iff group_id), Eg by done. naive_solver.
  - intros a b. unfold find_group_by_endpoints. rewrite endpoints_go_spec. cbn [fst].
    destruct (List.filter _ (groups (route_normal g))) as [|x l] eqn:E; simpl; split; try done.
    + intros _ gr Hin [Ha Hb].
      assert (set_members gr ∈ (@nil PathGroup)) as Hn; [| by apply elem_of_nil in Hn].
      rewrite <- E. apply list_elem_of_In, filter_In. rewrite <- list_elem_of_In, Eg. split; [by exists gr |].
      by rewrite !bool_decide_eq_true_2.
    + intros H. exfalso. assert (x ∈ x :: l) as Hx by constructor. rewrite <- E in Hx.
      apply list_elem_of_In, filter_In in Hx as [(gr & Hin & ->)%list_elem_of_In%Eg Hx].
      bool_prop. by apply (H gr Hin).
  - intros a b. unfold find_group_by_endpoints. rewrite endpoints_go_spec. cbn [snd Nat.add].
    rewrite Nat.ltb_lt.
    assert (forall z, z ∈ List.filter (fun gr => bool_decide (group_origin gr = a) &&
        bool_decide (group_destination gr = b)) (groups (route_normal g)) <->
      exists gr, gr ∈ groups g /\ z = set_members gr /\ group_origin gr = a /\ group_destination gr = b) as Ef.
    { intros z. rewrite list_elem_of_In, filter_In, <- list_elem_of_In, Eg, andb_true_iff, !bool_decide_eq_true.
      naive_solver. }
    pose proof (strictly_ascending_nodup group_id _ (strictly_ascending_filter group_id
      (fun gr => bool_decide (group_origin gr = a) && bool_decide (group_destination gr = b)) _ Hg)) as Hnd.
    revert Ef Hnd. generalize (List.filter (fun gr => bool_decide (group_origin gr = a) &&
        bool_decide (group_destination gr = b)) (groups (route_normal g))). intros hits Ef Hnd. split.
    + destruct hits as [|x [|y hits]]; cbn [length]; [lia | lia |]. intros _.
      destruct (proj1 (Ef x) ltac:(constructor)) as (gx & Hx & -> & ? & ?).
      destruct (proj1 (Ef y) ltac:(repeat constructor)) as (gy & Hy & -> & ? & ?).
      exists gx, gy. split_and!; try done. intros E. apply NoDup_cons in Hnd as [Hn _].
      apply Hn. simpl. rewrite E. constructor.
    + intros (x & y & Hx & Hy & Hne & ? & ? & ? & ?).
      assert (set_members x ∈ hits) as Mx by (apply Ef; by exists x).
      assert (set_members y ∈ hits) as My by (apply Ef; by exists y).
      destruct hits as [|u [|v hits]]; cbn [length]; [by apply elem_of_nil in Mx | | lia].
      apply list_elem_of_singleton in Mx, My. destruct Hne.
      exact (f_equal group_id (eq_trans Mx (eq_sym My))).
Qed.

Lemma route_lookups_witness :
  find_path (route_normal example_route) (from_value 3) = Some (set_path_digest example_path).
Proof.
  assert (route_finalize default_limits example_route = Ok (route_normal example_route)) as E by reflexivity.
  destruct (route_lookups default_limits example_route _ E) as (_ & H & _).
  apply H. exists example_path. split; [constructor | split; reflexivity].
Defined.

(** ** Trace comparison *)

(** Declarative agreement: same device, and the same port or link wherever both
    sides state one. *)
Definition hop_conforms (e : ExpectedHop) (o : ObservedHop) : Prop :=
  eh_device e = oh_device o /\
  (valid (oh_ingress o) = true -> eh_ingress e = oh_ingress o) /\
  (valid (oh_egress o) = true -> eh_egress e = oh_egress o) /\
  (eh_has_egress_link e = true -> valid (oh_link o) = true -> oh_provenance o <> ProvenanceAbsent ->
   eh_egress_link e = oh_link o).

Lemma hops_agree_spec e o : hops_agree e o = true <-> hop_conforms e o.
Proof.
  unfold hops_agree, hop_conforms.
  destruct (decide (eh_device e = oh_device o)) as [E1|E1];
    [rewrite (bool_decide_eq_true_2 _ E1) | rewrite (bool_decide_eq_false_2 _ E1); naive_solver].
  destruct (decide (eh_ingress e = oh_ingress o)) as [E2|E2];
    rewrite ?(bool_decide_eq_true_2 _ E2), ?(bool_decide_eq_false_2 _ E2);
  destruct (decide (eh_egress e = oh_egress o)) as [E3|E3];
    rewrite ?(bool_decide_eq_true_2 _ E3), ?(bool_decide_eq_false_2 _ E3);
  destruct (decide (eh_egress_link e = oh_link o)) as [E4|E4];
    rewrite ?(bool_decide_eq_true_2 _ E4), ?(bool_decide_eq_false_2 _ E4);
  destruct (decide (oh_provenance o = ProvenanceAbsent)) as [E5|E5];
    rewrite ?(bool_decide_eq_true_2 _ E5), ?(bool_decide_eq_false_2 _ E5);
  destruct (valid (oh_ingress o)), (valid (oh_egress o)), (valid (oh_link o)), (eh_has_egress_link e);
    cbn [negb andb]; split; intros H; try done; try tauto; destruct H as (? & ? & ? & ?); exfalso; auto.
Qed.

Lemma first_disagreement_none es os :
  first_disagreement es os = None <->
  forall i e o, es !! i = Some e -> os !! i = Some o -> hop_conforms e o.
Proof.
  revert os. induction es as [|e es IH]; intros [|o os]; simpl; try (split; [intros _ i ? ? ?; by destruct i | done]).
  destruct (hops_agree e o) eqn:E.
  - apply hops_agree_spec in E. rewrite IH. split.
    + intros H [|i] e' o' He Ho; simpl in *; [by injection He as <-; injection Ho as <- | by eapply H].
    + intros H i. apply (H (S i)).
  - split; [done |]. intros H. specialize (H 0%nat e o eq_refl eq_refl).
    apply hops_agree_spec in H. congruence.
Qed.

Lemma first_disagreement_some es os d :
  first_disagreement es os = Some d ->
  exists i e o, es !! i = Some e /\ os !! i = Some o /\ ~ hop_conforms e o /\ eh_index e = d /\
    forall j e' o', (j < i)%nat -> es !! j = Some e' -> os !! j = Some o' -> hop_conforms e' o'.
Proof.
  revert os. induction es as [|e es IH]; intros [|o os]; simpl; try done.
  destruct (hops_agree e o) eqn:E.
  - apply hops_agree_spec in E. intros (i & e1 & o1 & He & Ho & Hn & Hd & Hall)%IH.
    exists (S i), e1, o1. split_and!; try done. intros [|j] e' o' Hj He' Ho'; simpl in *.
    + by injection He' as <-; injection Ho' as <-.
    + eapply Hall; [| done | done]. lia.
  - intros [= <-]. exists 0%nat, e, o. split_and!; try done.
    + intros H%hops_agree_spec. congruence.
    + intros j ? ? ?. lia.
Qed.

Definition traces_conform (es : list ExpectedHop) (os : list ObservedHop) : Prop :=
  forall i e o, es !! i = Some e -> os !! i = Some o -> hop_conforms e o.

(** The decision [compare_trace] takes, case by case. *)
Lemma compare_trace_cases (p : ExpectedPath) (os : list ObservedHop) :
  let r := compare_trace p os in
  (trace_match r = TraceIncomparable <-> path_hops p = [] \/ os = []) /\
  (trace_match r = TraceExact <->
     path_hops p <> [] /\ traces_conform (path_hops p) os /\ (length (path_hops p) <= length os)%nat) /\
  (trace_match r = TracePrefix <->
     os <> [] /\ traces_conform (path_hops p) os /\ (length os < length (path_hops p))%nat) /\
  (trace_match r = TraceMismatch <-> ~ traces_conform (path_hops p) os) /\
  (has_difference r = true <-> trace_match r = TraceMismatch) /\
  (trace_match r = TraceMismatch -> exists i e o,
     path_hops p !! i = Some e /\ os !! i = Some o /\ ~ hop_conforms e o /\
     first_difference r = eh_index e /\ traces_conform (take i (path_hops p)) (take i os)).
Proof.
  unfold compare_trace. cbv zeta. pose proof (first_disagreement_none (path_hops p) os) as Hn.
  pose proof (first_disagreement_some (path_hops p) os) as Hs. unfold traces_conform in *.
  destruct (path_hops p) as [|e0 es] eqn:Ep.
  { cbn [length Nat.eqb orb trace_match has_difference first_difference].
    split_and!; try (split; intros; by destruct_or?; destruct_and?); try done.
    - by split; [left |].
    - split; [done |]. intros (_ & _ & H). cbn [length] in H. lia.
    - split; [done |]. intros H. destruct H. intros i ? ? H. by destruct i. }
  destruct os as [|o0 os'] eqn:Eo.
  { cbn [length Nat.eqb orb trace_match has_difference first_difference].
    split_and!; try done.
    - by split; [right |].
    - split; [done |]. intros (_ & _ & H). lia.
    - split; [done |]. by intros [? _].
    - split; [done |]. intros H. destruct H. intros i ? ? _ H. by destruct i. }
  cbn [length Nat.eqb orb].
  destruct (first_disagreement (e0 :: es) (o0 :: os')) as [d|].
  - cbn [trace_match has_difference first_difference].
    destruct (Hs d eq_refl) as (i & e & o & He & Ho & Hne & Hd & Hall).
    assert (~ forall i e o, (e0 :: es) !! i = Some e -> (o0 :: os') !! i = Some o -> hop_conforms e o) as Hbad.
    { intros H. apply Hne. by apply (H i). }
    split_and!; try done; try (by split; [| by intros [? | ?]]); try (split; [done | tauto]).
    intros _. exists i, e, o. split_and!; try done. intros j e' o' He' Ho'.
    destruct (decide (j < i)%nat).
    + rewrite lookup_take_lt in He' by done. rewrite lookup_take_lt in Ho' by done. by apply (Hall j).
    + by rewrite lookup_take_ge in He' by lia.
  - pose proof (proj1 Hn eq_refl) as Hall.
    destruct (S (length os') <? S (length es))%nat eqn:E; bool_prop;
      cbn [trace_match has_difference first_difference]; split_and!; try done;
      try (by split; [| by intros [? | ?]]); try (split; [done | tauto]);
      (split; [try done; intros _ | try done]); try (split_and!; try done; lia);
      intros (_ & _ & H); lia.
Qed.

(** What the header documents as an exact match: every observed hop agrees with
    the hop of the plan at its position, and the observation covers the whole path. *)
Definition documented_exact (p : ExpectedPath) (os : list ObservedHop) : Prop :=
  path_hops p <> [] /\ Forall2 hop_conforms (path_hops p) os.

Lemma documented_exact_conforms p os :
  documented_exact p os <->
  path_hops p <> [] /\ traces_conform (path_hops p) os /\ length os = length (path_hops p).
Proof.
  unfold documented_exact, traces_conform. rewrite Forall2_same_length_lookup. naive_solver.
Qed.

(** C20. [compare_trace] decides exactly this: nothing to compare when a side is
    empty; a mismatch when some position disagrees, reporting the index of the
    first expected hop that does; otherwise a prefix when the observation is
    shorter than the plan, and exact when it is at least as long.  Exact is the
    exact match that the header documents for observations that are not longer than
    the plan, and only for those: an observation that goes on behind the end of the
    path is reported as exact too, although its last hops agree with nothing. *)
Theorem compare_trace_spec (p : ExpectedPath) (os : list ObservedHop) :
  let r := compare_trace p os in
  (trace_match r = TraceIncomparable <-> path_hops p = [] \/ os = []) /\
  (trace_match r = TraceExact <->
     path_hops p <> [] /\ traces_conform (path_hops p) os /\ (length (path_hops p) <= length os)%nat) /\
  (documented_exact p os <-> trace_match r = TraceExact /\ (length os <= length (path_hops p))%nat) /\
  (documented_exact p os -> forall extra, extra <> [] ->
     trace_match (compare_trace p (os ++ extra)) = TraceExact /\ ~ documented_exact p (os ++ extra)) /\
  (trace_match r = TracePrefix <->
     os <> [] /\ traces_conform (path_hops p) os /\ (length os < length (path_hops p))%nat) /\
  (trace_match r = TraceMismatch <-> ~ traces_conform (path_hops p) os) /\
  (has_difference r = true <-> trace_match r = TraceMismatch) /\
  (trace_match r = TraceMismatch -> exists i e o,
     path_hops p !! i = Some e /\ os !! i = Some o /\ ~ hop_conforms e o /\
     first_difference r = eh_index e /\ traces_conform (take i (path_hops p)) (take i os)).
Proof.
  pose proof (compare_trace_cases p os) as (H1 & H2 & H3 & H4 & H5 & H6). cbv zeta in *.
  split_and!; try assumption.
  - rewrite documented_exact_conforms, H2. split; [intros (? & ? & E); split_and!; (done || lia) |].
    intros ((? & ? & ?) & ?). split_and!; (done || lia).
  - intros (Hne & Hc & Hl)%documented_exact_conforms extra Hx. split.
    + apply compare_trace_cases. split_and!; [done | | rewrite length_app; lia].
      intros i e o He Ho. apply (Hc i); [done |]. rewrite lookup_app_l in Ho; [done |].
      apply lookup_lt_Some in He. lia.
    + intros (_ & _ & E)%documented_exact_conforms. rewrite length_app in E. destruct extra; [done |]. cbn in E. lia.
Qed.
