(* ===== verification/Freshness.v ===== *)
(** * Freshness

    Models [include/pathobs/freshness.hpp] and [src/freshness.cpp]: how old an
    observation or a consumed generation is at an explicit evaluation time, and
    how two judgements combine.  The subtractions are 64 bit signed: the theorems
    state the range in which they are exact. *)

From S2P Require Import Prelude Errors Ids TimeModel Observed.
#[local] Open Scope Z_scope.

Inductive Freshness : Set := FreshUnknown | Fresh | Stale | Expired | Future.

#[global] Instance Freshness_eq_dec : EqDecision Freshness.
Proof. solve_decision. Defined.

Definition freshness_code (f : Freshness) : Z :=
  match f with FreshUnknown => 0 | Fresh => 1 | Stale => 2 | Expired => 3 | Future => 4 end.

Definition freshness_to_string (f : Freshness) : string :=
  match f with
  | FreshUnknown => "unknown"
  | Fresh => "fresh"
  | Stale => "stale"
  | Expired => "expired"
  | Future => "future"
  end.

Definition parse_freshness (text : string) : Result Freshness :=
  if bool_decide (text = "unknown") then Ok FreshUnknown else
  if bool_decide (text = "fresh") then Ok Fresh else
  if bool_decide (text = "stale") then Ok Stale else
  if bool_decide (text = "expired") then Ok Expired else
  if bool_decide (text = "future") then Ok Future else
  Err (mk_error InvalidFormat "unknown freshness value" text).

Definition freshness_severity (f : Freshness) : Z :=
  match f with Fresh => 0 | FreshUnknown => 1 | Stale => 2 | Expired => 3 | Future => 4 end.

Definition worse_of (a b : Freshness) : Freshness :=
  if freshness_severity b <=? freshness_severity a then a else b.

Definition is_compliance_capable (f : Freshness) : bool := bool_decide (f = Fresh).

Record FreshnessPolicy : Set := mk_policy {
  evidence_max_age : Duration;
  evidence_expiry : Duration;
  generation_max_age : Duration;
  generation_expiry : Duration;
  skew_tolerance : Duration;
  max_observation_latency : Duration
}.

(** The default member initialisers: 30 s, 10 min, 5 min, 30 min, 1 s, 5 s. *)
Definition default_policy : FreshnessPolicy :=
  mk_policy (30 * 1000000000) (600 * 1000000000) (300 * 1000000000) (1800 * 1000000000)
    1000000000 (5 * 1000000000).

(** [FreshnessPolicy::validate] *)
Definition policy_validate (p : FreshnessPolicy) : Status :=
  fail? (evidence_max_age p <? 0) || (evidence_expiry p <? 0) || (generation_max_age p <? 0) ||
        (generation_expiry p <? 0) || (skew_tolerance p <? 0) || (max_observation_latency p <? 0) with
    error InvalidArgument "freshness policy durations must not be negative" in
  fail? evidence_expiry p <? evidence_max_age p with
    error InvalidArgument "evidence expiry must not be shorter than the evidence freshness horizon" in
  fail? generation_expiry p <? generation_max_age p with
    error InvalidArgument "generation expiry must not be shorter than the generation freshness horizon" in
  ok.

Record FreshnessAssessment : Set := mk_assessment {
  fa_state : Freshness;
  fa_age : Duration;
  fa_skew : Duration;
  fa_skew_detected : bool;
  fa_age_known : bool;
  fa_reason : string
}.

Definition assessment_new : FreshnessAssessment := mk_assessment FreshUnknown 0 0 false false "".

#[global] Instance FreshnessAssessment_eq_dec : EqDecision FreshnessAssessment.
Proof. solve_decision. Defined.

Definition classify_age (age max_age expiry : Duration) : Freshness :=
  if age <=? max_age then Fresh else if age <=? expiry then Stale else Expired.

Definition i64_sub (a b : Z) : Z := wrap_i64 (a - b).
Definition i64_neg (a : Z) : Z := wrap_i64 (- a).

(** The judgement on the source clock, applied to the judgement on the age. *)
Definition assess_skew (policy : FreshnessPolicy) (observed received : TimePoint)
    (a : FreshnessAssessment) : FreshnessAssessment :=
  if is_set observed then
    let skew := i64_sub (unix_nanos observed) (unix_nanos received) in
    if skew_tolerance policy <? skew then
      mk_assessment (worse_of (fa_state a) Future) (fa_age a) skew true (fa_age_known a)
        "source observation time is ahead of the receive time beyond tolerance"
    else if max_observation_latency policy <? i64_neg skew then
      mk_assessment (worse_of (fa_state a) FreshUnknown) (fa_age a) skew true (fa_age_known a)
        "source observation time lags the receive time beyond the tolerated latency"
    else mk_assessment (fa_state a) (fa_age a) skew (fa_skew_detected a) (fa_age_known a) (fa_reason a)
  else a.

Definition assess_evidence (e : ObservedPathEvidence) (now : TimePoint) (policy : FreshnessPolicy) :
    FreshnessAssessment :=
  if negb (is_set now) then mk_assessment FreshUnknown 0 0 false false "no evaluation time was supplied"
  else if negb (is_set (ev_received_at e)) then
    mk_assessment FreshUnknown 0 0 false false "evidence carries no receive time"
  else
    let age := i64_sub (unix_nanos now) (unix_nanos (ev_received_at e)) in
    if age <? 0 then
      let ahead := i64_neg age in
      if skew_tolerance policy <? ahead then
        mk_assessment Future age ahead true true "receive time lies ahead of the evaluation time"
      else
        assess_skew policy (ev_observed_at e) (ev_received_at e)
          (mk_assessment Fresh 0 0 false true
             "received within the clock skew tolerance of the evaluation time")
    else
      let state := classify_age age (evidence_max_age policy) (evidence_expiry policy) in
      let reason :=
        match state with
        | Fresh => "received inside the evidence freshness horizon"
        | Stale => "received outside the evidence freshness horizon"
        | _ => "received outside the evidence expiry horizon"
        end%string in
      assess_skew policy (ev_observed_at e) (ev_received_at e) (mk_assessment state age 0 false true reason).

Definition assess_generation (created received now : TimePoint) (policy : FreshnessPolicy) :
    FreshnessAssessment :=
  if negb (is_set now) then mk_assessment FreshUnknown 0 0 false false "no evaluation time was supplied"
  else
    let anchor := if is_set received then received else created in
    if negb (is_set anchor) then
      mk_assessment FreshUnknown 0 0 false false "generation carries no timestamp"
    else
      let age := i64_sub (unix_nanos now) (unix_nanos anchor) in
      if age <? 0 then
        let ahead := i64_neg age in
        if skew_tolerance policy <? ahead then
          mk_assessment Future age ahead true true "generation timestamp lies ahead of the evaluation time"
        else mk_assessment Fresh 0 0 false true "generation timestamp is within the clock skew tolerance"
      else
        let state := classify_age age (generation_max_age policy) (generation_expiry policy) in
        let reason :=
          match state with
          | Fresh => "generation is inside the freshness horizon"
          | Stale => "generation is outside the freshness horizon"
          | _ => "generation is outside the expiry horizon"
          end%string in
        mk_assessment state age 0 false true reason.

(** ** Properties *)

(** Timestamps whose differences a 64 bit duration can hold, with their
    opposites. *)
Definition diff_ok (a b : TimePoint) : Prop := Z.abs (unix_nanos a - unix_nanos b) <= int64_max.

Lemma i64_sub_exact a b : diff_ok a b -> i64_sub (unix_nanos a) (unix_nanos b) = unix_nanos a - unix_nanos b.
Proof. unfold diff_ok, i64_sub. intros. apply wrap_i64_small. unfold i64_ok, int64_min, int64_max in *. lia. Qed.

Lemma i64_neg_exact x : Z.abs x <= int64_max -> i64_neg x = - x.
Proof. unfold i64_neg. intros. apply wrap_i64_small. unfold i64_ok, int64_min, int64_max in *. lia. Qed.

Lemma parse_freshness_to_string f : parse_freshness (freshness_to_string f) = Ok f.
Proof. by destruct f. Qed.

Lemma worse_of_fresh a b : worse_of a b = Fresh <-> a = Fresh /\ b = Fresh.
Proof. destruct a, b; split; by intros; destruct_and?. Qed.

Lemma worse_of_severity a b :
  freshness_severity (worse_of a b) = Z.max (freshness_severity a) (freshness_severity b).
Proof. by destruct a, b. Qed.

(** Worst wins.  [worse_of] is the join of the severity order: associative,
    commutative and idempotent with [Fresh] as its unit, so the combination of
    any judgements does not depend on their order or repetition, and it supports
    compliance exactly when each of them does. *)
Theorem worse_of_join (a b c : Freshness) :
  worse_of a (worse_of b c) = worse_of (worse_of a b) c /\ worse_of a b = worse_of b a /\
  worse_of a a = a /\ worse_of Fresh a = a /\
  freshness_severity (worse_of a b) = Z.max (freshness_severity a) (freshness_severity b) /\
  (is_compliance_capable (worse_of a b) = is_compliance_capable a && is_compliance_capable b).
Proof. by destruct a, b, c. Qed.

(** The source clock agrees with the receive time within the policy. *)
Definition clock_plausible (policy : FreshnessPolicy) (observed received : TimePoint) : Prop :=
  is_set observed = true ->
  unix_nanos observed - unix_nanos received <= skew_tolerance policy /\
  unix_nanos received - unix_nanos observed <= max_observation_latency policy.

Lemma assess_skew_fresh policy observed received a :
  diff_ok observed received ->
  fa_state (assess_skew policy observed received a) = Fresh <->
  fa_state a = Fresh /\ clock_plausible policy observed received.
Proof.
  intros Hd. unfold assess_skew, clock_plausible. destruct (is_set observed); [| naive_solver].
  rewrite i64_sub_exact by done. rewrite i64_neg_exact by done.
  destruct (skew_tolerance policy <? _) eqn:E1; bool_prop.
  { cbn [fa_state]. rewrite worse_of_fresh. split; [by intros [_ ?] | intros [_ H]; destruct H; [done | lia]]. }
  destruct (max_observation_latency policy <? _) eqn:E2; bool_prop; cbn [fa_state].
  - rewrite worse_of_fresh. split; [by intros [_ ?] | intros [_ H]; destruct H; [done | lia]].
  - split; [intros ->; split; [done | lia] | by intros [-> _]].
Qed.

(** Evidence is fresh exactly when an evaluation time and a receive time are
    known, the receive time is neither older than the freshness horizon nor ahead
    of the evaluation time beyond the skew tolerance, and the source clock is
    plausible; an unset time is never fresh. *)
Theorem assess_evidence_fresh_iff (e : ObservedPathEvidence) (now : TimePoint) (policy : FreshnessPolicy) :
  policy_validate policy = ok -> diff_ok now (ev_received_at e) ->
  diff_ok (ev_observed_at e) (ev_received_at e) ->
  (fa_state (assess_evidence e now policy) = Fresh <->
   is_set now = true /\ is_set (ev_received_at e) = true /\
   - skew_tolerance policy <= unix_nanos now - unix_nanos (ev_received_at e) <= evidence_max_age policy /\
   clock_plausible policy (ev_observed_at e) (ev_received_at e)).
Proof.
  intros Hp Hr Ho. unfold assess_evidence.
  destruct (is_set now); cbn [negb]; [| by split; [| by intros (? & _)]].
  destruct (is_set (ev_received_at e)); cbn [negb]; [| by split; [| by intros (_ & ? & _)]].
  rewrite i64_sub_exact by done. rewrite i64_neg_exact by done.
  unfold policy_validate in Hp. guards_ok Hp. bool_prop.
  destruct (unix_nanos now - unix_nanos (ev_received_at e) <? 0) eqn:E; bool_prop.
  - case_goal; bool_prop.
    + cbn [fa_state]. split; [done |]. intros (_ & _ & ? & _). lia.
    + rewrite assess_skew_fresh by done. cbn [fa_state].
      split; [intros [_ ?]; split_and!; done || lia | by intros (_ & _ & _ & ?)].
  - rewrite assess_skew_fresh by done. cbn [fa_state]. unfold classify_age.
    case_goal; bool_prop.
    + split; [intros [_ ?]; split_and!; done || lia | by intros (_ & _ & _ & ?)].
    + case_goal; (split; [by intros [? _] | intros (_ & _ & ? & _); lia]).
Qed.

Lemma assess_evidence_fresh_iff_witness :
  fa_state (assess_evidence example_evidence (from_unix_nanos 60) default_policy) = Fresh.
Proof.
  apply assess_evidence_fresh_iff; [reflexivity | unfold diff_ok, int64_max; simpl; lia
    | unfold diff_ok, int64_max; simpl; lia |].
  split_and!; [reflexivity | reflexivity | simpl; lia | simpl; lia |].
  intros _. simpl. lia.
Defined.

Lemma classify_age_mono a b max_age expiry :
  a <= b -> freshness_severity (classify_age a max_age expiry) <= freshness_severity (classify_age b max_age expiry).
Proof.
  intros. unfold classify_age. repeat case_goal; bool_prop; simpl; lia.
Qed.

Lemma assess_skew_mono policy o r a b :
  freshness_severity (fa_state a) <= freshness_severity (fa_state b) ->
  freshness_severity (fa_state (assess_skew policy o r a)) <=
  freshness_severity (fa_state (assess_skew policy o r b)).
Proof.
  intros H. unfold assess_skew. destruct (is_set o); [| done].
  repeat case_goal; cbn [fa_state]; rewrite ?worse_of_severity; lia.
Qed.

(** Evidence only ages.  Once received, evaluating the same record later
    never improves its judgement: a persisted observation cannot become fresh
    again. *)
Theorem assess_evidence_ages (e : ObservedPathEvidence) (now later : TimePoint) (policy : FreshnessPolicy) :
  is_set now = true -> is_set later = true -> is_set (ev_received_at e) = true ->
  diff_ok now (ev_received_at e) -> diff_ok later (ev_received_at e) ->
  unix_nanos (ev_received_at e) <= unix_nanos now <= unix_nanos later ->
  freshness_severity (fa_state (assess_evidence e now policy)) <=
  freshness_severity (fa_state (assess_evidence e later policy)).
Proof.
  intros Hn Hl Hr Dn Dl Hle. unfold assess_evidence. rewrite Hn, Hl, Hr. cbn [negb].
  rewrite !i64_sub_exact by done. rewrite !(proj2 (Z.ltb_ge _ 0)) by lia.
  apply assess_skew_mono. cbn [fa_state]. apply classify_age_mono. lia.
Qed.

Lemma assess_evidence_ages_witness :
  freshness_severity (fa_state (assess_evidence example_evidence (from_unix_nanos 60) default_policy)) <=
  freshness_severity (fa_state (assess_evidence example_evidence (from_unix_nanos (10 ^ 15)) default_policy)).
Proof.
  apply assess_evidence_ages; try reflexivity; unfold diff_ok, int64_max; simpl; lia.
Defined.

(** Outside that range the age overflows: a receive time almost three centuries
    before the evaluation time is judged fresh. *)
Lemma assess_evidence_overflow :
  fa_state (assess_evidence (with_received_at (with_identity example_evidence (ev_id example_evidence))
    (from_unix_nanos (- int64_max))) (from_unix_nanos int64_max)
    (mk_policy 0 0 0 0 2 int64_max)) = Fresh.
Proof. by vm_compute. Qed.
