(* ===== verification/Divergence.v ===== *)
(** * Divergence classification

    Models [include/pathobs/divergence.hpp] and [src/divergence.cpp]: the fixed
    table of divergence classes with their code, category and precedence, the
    selection of the primary class, and the outcome vocabulary of a comparison. *)

From S2P Require Import Prelude Errors.
#[local] Open Scope Z_scope.

Inductive DivergenceClass : Set :=
  | DivNone
  | EpochFenced | EpochAhead | IncarnationFenced | SourceSequenceReplay | RevisionFenced | RevisionAhead
  | RouteGenerationMismatch | TopologyGenerationMismatch
  | AuthorityInsufficient
  | EvidenceUnsupported | EvidenceExpired | EvidenceStale | EvidenceConflicting | EvidenceIncomplete
  | EvidenceAmbiguous | EvidenceUnknown | ObservationGap | LinkUnresolved
  | PathUnknownToPlan | HopMissing | HopUnexpected | HopOrderViolation | DeviceMismatch | PortMismatch
  | LinkMismatch.

#[global] Instance DivergenceClass_eq_dec : EqDecision DivergenceClass.
Proof. solve_decision. Defined.

(** The underlying [std::uint8_t] value. *)
Definition divergence_code (d : DivergenceClass) : Z :=
  match d with
  | DivNone => 0
  | EpochFenced => 1 | EpochAhead => 2 | IncarnationFenced => 3 | SourceSequenceReplay => 4
  | RevisionFenced => 5 | RevisionAhead => 6
  | RouteGenerationMismatch => 7 | TopologyGenerationMismatch => 8
  | AuthorityInsufficient => 9
  | EvidenceUnsupported => 10 | EvidenceExpired => 11 | EvidenceStale => 12 | EvidenceConflicting => 13
  | EvidenceIncomplete => 14 | EvidenceAmbiguous => 15 | EvidenceUnknown => 16 | ObservationGap => 17
  | LinkUnresolved => 18
  | PathUnknownToPlan => 19 | HopMissing => 20 | HopUnexpected => 21 | HopOrderViolation => 22
  | DeviceMismatch => 23 | PortMismatch => 24 | LinkMismatch => 25
  end.

Inductive DivergenceCategory : Set :=
  | CatNone | CatFencing | CatGeneration | CatAuthority | CatEvidenceQuality | CatStructural.

#[global] Instance DivergenceCategory_eq_dec : EqDecision DivergenceCategory.
Proof. solve_decision. Defined.

Record DivergenceDescriptor : Set := mk_descriptor {
  dd_value : DivergenceClass;
  dd_code : string;
  dd_category : DivergenceCategory;
  dd_precedence : Z
}.

Definition kDescriptors : list DivergenceDescriptor := [
  mk_descriptor DivNone "none" CatNone 0;
  mk_descriptor EpochFenced "epoch_fenced" CatFencing 10;
  mk_descriptor EpochAhead "epoch_ahead" CatFencing 11;
  mk_descriptor IncarnationFenced "incarnation_fenced" CatFencing 12;
  mk_descriptor SourceSequenceReplay "source_sequence_replay" CatFencing 13;
  mk_descriptor RevisionFenced "revision_fenced" CatFencing 14;
  mk_descriptor RevisionAhead "revision_ahead" CatFencing 15;
  mk_descriptor RouteGenerationMismatch "route_generation_mismatch" CatGeneration 20;
  mk_descriptor TopologyGenerationMismatch "topology_generation_mismatch" CatGeneration 21;
  mk_descriptor AuthorityInsufficient "authority_insufficient" CatAuthority 25;
  mk_descriptor EvidenceUnsupported "evidence_unsupported" CatEvidenceQuality 30;
  mk_descriptor EvidenceExpired "evidence_expired" CatEvidenceQuality 31;
  mk_descriptor EvidenceStale "evidence_stale" CatEvidenceQuality 32;
  mk_descriptor EvidenceConflicting "evidence_conflicting" CatEvidenceQuality 40;
  mk_descriptor EvidenceIncomplete "evidence_incomplete" CatEvidenceQuality 41;
  mk_descriptor EvidenceAmbiguous "evidence_ambiguous" CatEvidenceQuality 42;
  mk_descriptor EvidenceUnknown "evidence_unknown" CatEvidenceQuality 43;
  mk_descriptor ObservationGap "observation_gap" CatEvidenceQuality 44;
  mk_descriptor LinkUnresolved "link_unresolved" CatEvidenceQuality 45;
  mk_descriptor PathUnknownToPlan "path_unknown_to_plan" CatStructural 50;
  mk_descriptor HopMissing "hop_missing" CatStructural 51;
  mk_descriptor HopUnexpected "hop_unexpected" CatStructural 52;
  mk_descriptor HopOrderViolation "hop_order_violation" CatStructural 53;
  mk_descriptor DeviceMismatch "device_mismatch" CatStructural 54;
  mk_descriptor PortMismatch "port_mismatch" CatStructural 55;
  mk_descriptor LinkMismatch "link_mismatch" CatStructural 56
].

(** [describe]: the table is indexed by the value of the class. *)
Definition describe (d : DivergenceClass) : DivergenceDescriptor :=
  nth (Z.to_nat (divergence_code d)) kDescriptors (mk_descriptor DivNone "none" CatNone 0).

Definition to_code (d : DivergenceClass) : string := dd_code (describe d).

(** The scan of [parse_divergence_code]. *)
Definition parse_divergence_code (code : string) : Result DivergenceClass :=
  match find (fun d => bool_decide (code = dd_code d)) kDescriptors with
  | Some d => Ok (dd_value d)
  | None => Err (mk_error InvalidFormat "unknown divergence code" code)
  end.

Definition category_to_string (c : DivergenceCategory) : string :=
  match c with
  | CatNone => "none"
  | CatFencing => "fencing"
  | CatGeneration => "generation"
  | CatAuthority => "authority"
  | CatEvidenceQuality => "evidence_quality"
  | CatStructural => "structural"
  end.

Definition parse_divergence_category (text : string) : Result DivergenceCategory :=
  if bool_decide (text = "none") then Ok CatNone else
  if bool_decide (text = "fencing") then Ok CatFencing else
  if bool_decide (text = "generation") then Ok CatGeneration else
  if bool_decide (text = "authority") then Ok CatAuthority else
  if bool_decide (text = "evidence_quality") then Ok CatEvidenceQuality else
  if bool_decide (text = "structural") then Ok CatStructural else
  Err (mk_error InvalidFormat "unknown divergence category" text).

Definition category_of (d : DivergenceClass) : DivergenceCategory := dd_category (describe d).
Definition precedence_of (d : DivergenceClass) : Z := dd_precedence (describe d).

Definition indicates_divergence (d : DivergenceClass) : bool := bool_decide (category_of d = CatStructural).

Definition is_evidence_quality (d : DivergenceClass) : bool :=
  let category := category_of d in
  bool_decide (category = CatEvidenceQuality) || bool_decide (category = CatFencing) ||
  bool_decide (category = CatGeneration) || bool_decide (category = CatAuthority).

Definition is_fencing (d : DivergenceClass) : bool := bool_decide (category_of d = CatFencing).

(** The loop of [select_primary]; [best] is [None] until a class was seen. *)
Fixpoint select_primary_go (best : option DivergenceClass) (classes : list DivergenceClass) : DivergenceClass :=
  match classes with
  | [] => default DivNone best
  | candidate :: rest =>
      if bool_decide (candidate = DivNone) then select_primary_go best rest else
      match best with
      | None => select_primary_go (Some candidate) rest
      | Some b =>
          if (precedence_of candidate <? precedence_of b) ||
             ((precedence_of candidate =? precedence_of b) &&
              (divergence_code candidate <? divergence_code b))
          then select_primary_go (Some candidate) rest
          else select_primary_go (Some b) rest
      end
  end.

Definition select_primary (classes : list DivergenceClass) : DivergenceClass := select_primary_go None classes.

Inductive MatchOutcome : Set := NoExpectedState | Match | Divergent | Indeterminate | OutcomeUnsupported.

#[global] Instance MatchOutcome_eq_dec : EqDecision MatchOutcome.
Proof. solve_decision. Defined.

Definition outcome_code (o : MatchOutcome) : Z :=
  match o with
  | NoExpectedState => 0 | Match => 1 | Divergent => 2 | Indeterminate => 3 | OutcomeUnsupported => 4
  end.

Definition outcome_to_string (o : MatchOutcome) : string :=
  match o with
  | NoExpectedState => "no_expected_state"
  | Match => "match"
  | Divergent => "divergent"
  | Indeterminate => "indeterminate"
  | OutcomeUnsupported => "unsupported"
  end.

Definition parse_match_outcome (text : string) : Result MatchOutcome :=
  if bool_decide (text = "no_expected_state") then Ok NoExpectedState else
  if bool_decide (text = "match") then Ok Match else
  if bool_decide (text = "divergent") then Ok Divergent else
  if bool_decide (text = "indeterminate") then Ok Indeterminate else
  if bool_decide (text = "unsupported") then Ok OutcomeUnsupported else
  Err (mk_error InvalidFormat "unknown match outcome" text).

Definition is_compliance (o : MatchOutcome) : bool := bool_decide (o = Match).

Inductive ObservationConsistency : Set :=
  | ConsistencyUnknown | Consistent | Ambiguous | Conflicting | ConsistencyUnsupported.

#[global] Instance ObservationConsistency_eq_dec : EqDecision ObservationConsistency.
Proof. solve_decision. Defined.

Definition consistency_code (c : ObservationConsistency) : Z :=
  match c with
  | ConsistencyUnknown => 0 | Consistent => 1 | Ambiguous => 2 | Conflicting => 3
  | ConsistencyUnsupported => 4
  end.

Definition consistency_to_string (c : ObservationConsistency) : string :=
  match c with
  | ConsistencyUnknown => "unknown"
  | Consistent => "consistent"
  | Ambiguous => "ambiguous"
  | Conflicting => "conflicting"
  | ConsistencyUnsupported => "unsupported"
  end.

Definition parse_observation_consistency (text : string) : Result ObservationConsistency :=
  if bool_decide (text = "unknown") then Ok ConsistencyUnknown else
  if bool_decide (text = "consistent") then Ok Consistent else
  if bool_decide (text = "ambiguous") then Ok Ambiguous else
  if bool_decide (text = "conflicting") then Ok Conflicting else
  if bool_decide (text = "unsupported") then Ok ConsistencyUnsupported else
  Err (mk_error InvalidFormat "unknown observation consistency" text).

(** ** Properties *)

(** The table is consistent with its index. *)
Lemma describe_value d : dd_value (describe d) = d.
Proof. by destruct d. Qed.

Lemma precedence_inj a b : precedence_of a = precedence_of b -> a = b.
Proof. by destruct a, b. Qed.

Lemma precedence_range d : 0 <= precedence_of d < 256.
Proof. destruct d; vm_compute; intuition discriminate. Qed.

Lemma precedence_none d : d <> DivNone -> precedence_of DivNone < precedence_of d.
Proof. by destruct d. Qed.

(** The divergence vocabulary is a faithful code: the code of a class parses
    back to it, the table entry found by indexing is its own, precedences are
    pairwise different, and every class other than [none] is either structural
    or an evidence problem, never both. *)
Theorem divergence_table_sound (a b : DivergenceClass) :
  parse_divergence_code (to_code a) = Ok a /\ dd_value (describe a) = a /\
  (precedence_of a = precedence_of b <-> a = b) /\ (to_code a = to_code b <-> a = b) /\
  xorb (indicates_divergence a) (is_evidence_quality a) = negb (bool_decide (a = DivNone)).
Proof.
  split_and!; [by destruct a | by destruct a | split; [apply precedence_inj | by intros ->] |
    | by destruct a].
  split; [| by intros ->]. destruct a, b; intros H; first [reflexivity | discriminate H].
Qed.

Lemma select_primary_go_spec best classes :
  match best with Some b => b <> DivNone | None => True end ->
  let r := select_primary_go best classes in
  let seen := match best with Some b => b :: classes | None => classes end in
  (r = DivNone -> Forall (fun c => c = DivNone) seen) /\
  (r <> DivNone -> r ∈ seen /\ forall c, c ∈ seen -> c <> DivNone -> precedence_of r <= precedence_of c).
Proof.
  revert best. induction classes as [|c classes IH]; intros best Hb; cbn [select_primary_go].
  - destruct best as [b|]; simpl.
    + split; [done |]. intros _. split; [constructor |]. intros c Hc%list_elem_of_singleton _. by subst.
    + split; [constructor | done].
  - case_bool_decide as Ec.
    + destruct (IH best Hb) as [H1 H2]. destruct best as [b|]; split.
      * intros E. specialize (H1 E). apply Forall_cons_iff in H1 as [? _]. done.
      * intros E. destruct (H2 E) as [Hin Hmin]. split.
        -- rewrite !elem_of_cons in *. tauto.
        -- intros c'. rewrite !elem_of_cons. intros [-> | [-> | ?]] ?; try done; apply Hmin;
             rewrite ?elem_of_cons; auto.
      * intros E. constructor; auto.
      * intros E. destruct (H2 E) as [Hin Hmin]. split; [by constructor |].
        intros c'. rewrite elem_of_cons. intros [-> | ?] ?; [done | auto].
    + destruct best as [b|]; [| by apply (IH (Some c))].
      assert (forall best', best' <> DivNone -> best' ∈ [b; c] ->
        precedence_of best' <= precedence_of b -> precedence_of best' <= precedence_of c ->
        let r := select_primary_go (Some best') classes in
        (r = DivNone -> Forall (fun c => c = DivNone) (b :: c :: classes)) /\
        (r <> DivNone -> r ∈ b :: c :: classes /\
          forall c', c' ∈ b :: c :: classes -> c' <> DivNone -> precedence_of r <= precedence_of c')) as Haux.
      { intros best' Hne Hin Hlb Hlc. destruct (IH (Some best') Hne) as [H1 H2]. split.
        - intros E. specialize (H1 E). by apply Forall_cons_iff in H1 as [? _].
        - intros E. destruct (H2 E) as [Hr Hmin]. pose proof (Hmin best' ltac:(constructor) Hne) as Hle. split.
          + rewrite !elem_of_cons, ?elem_of_nil in *. destruct Hr as [-> | ?]; tauto.
          + intros c'. rewrite !elem_of_cons. intros [-> | [-> | ?]] ?; [lia | lia |].
            apply Hmin; [by constructor | done]. }
      destruct (_ || _) eqn:E.
      * apply orb_true_iff in E. apply Haux; [done | rewrite !elem_of_cons; auto | | lia].
        destruct E as [E | E]; bool_prop; lia.
      * bool_prop. apply Haux; [done | rewrite !elem_of_cons; auto | lia | lia].
Qed.

(** [select_primary] returns [none] exactly when no class applies, and
    otherwise the applicable class of least precedence; the choice is therefore
    the same for any order and any repetition of the classes. *)
Theorem select_primary_spec (classes : list DivergenceClass) :
  (select_primary classes = DivNone <-> Forall (fun c => c = DivNone) classes) /\
  (forall d, d <> DivNone ->
     (select_primary classes = d <->
      d ∈ classes /\ forall c, c ∈ classes -> c <> DivNone -> precedence_of d <= precedence_of c)) /\
  (forall others, (forall c, c ∈ others <-> c ∈ classes) -> select_primary others = select_primary classes).
Proof.
  assert (forall cs, (select_primary cs = DivNone <-> Forall (fun c => c = DivNone) cs) /\
    forall d, d <> DivNone -> (select_primary cs = d <->
      d ∈ cs /\ forall c, c ∈ cs -> c <> DivNone -> precedence_of d <= precedence_of c)) as Hspec.
  { intros cs. destruct (select_primary_go_spec None cs I) as [H1 H2]. fold (select_primary cs) in *.
    split.
    - split; [done |]. intros Hall. destruct (decide (select_primary cs = DivNone)) as [| Hne]; [done |].
      destruct (H2 Hne) as [Hin _]. rewrite Forall_elem in Hall. by destruct Hne; apply Hall.
    - intros d Hd. split; [by intros <-; apply H2 |]. intros [Hin Hmin].
      destruct (decide (select_primary cs = DivNone)) as [E | Hne].
      + specialize (H1 E). rewrite Forall_elem in H1. by destruct Hd; apply H1.
      + destruct (H2 Hne) as [Hin' Hmin']. apply precedence_inj.
        pose proof (Hmin _ Hin' Hne). pose proof (Hmin' _ Hin Hd). lia. }
  destruct (Hspec classes) as [Hn Hd]. split_and!; [done | done |].
  intros others Heq. destruct (Hspec others) as [Hn' Hd'].
  destruct (decide (select_primary classes = DivNone)) as [E | Hne].
  - rewrite E. apply Hn'. apply Hn in E. rewrite Forall_elem in *. intros c Hc. by apply E, Heq.
  - apply Hd'; [done |]. destruct (proj1 (Hd _ Hne) eq_refl) as [Hin Hmin].
    split; [by apply Heq |]. intros c Hc. by apply Hmin, Heq.
Qed.

Lemma select_primary_spec_witness :
  select_primary [PortMismatch; DivNone; EvidenceStale; HopMissing] =
  select_primary [HopMissing; EvidenceStale; PortMismatch; EvidenceStale; DivNone].
Proof.
  destruct (select_primary_spec [HopMissing; EvidenceStale; PortMismatch; EvidenceStale; DivNone])
    as (_ & _ & H).
  apply H. intros c. rewrite !elem_of_cons. tauto.
Defined.
