(* ===== verification/Compare.v ===== *)
(** * Comparison engine

    Models [include/pathobs/compare.hpp] and [src/compare.cpp]: one comparison of
    a set of evidence records with the plan of one route generation.
    [ComparisonEngine::compare] is one function in the code; it is cut here at
    its comment blocks, one definition per block, composed in the same order by
    [compare].  [Notes] carries the two members of the result that every block
    appends to, the class set and the rationale. *)

From S2P Require Import Prelude Errors StdAlgo Digest Canonical Ids TimeModel Limits Source Topology Observed Expected Freshness Divergence.
#[local] Open Scope Z_scope.

(** ** Data *)

Record ComparisonPolicy : Set := mk_comparison_policy {
  cp_freshness : FreshnessPolicy;
  require_advisory_or_higher : bool;
  require_real_surface_for_match : bool;
  multipath_ambiguity_is_divergence : bool;
  require_topology_for_match : bool
}.

(** The default member initialisers. *)
Definition default_comparison_policy : ComparisonPolicy :=
  mk_comparison_policy default_policy true false false true.

(** [ComparisonPolicy::validate] *)
Definition comparison_policy_validate (p : ComparisonPolicy) : Status :=
  check? policy_validate (cp_freshness p) in ok.

Record AuthorityState : Set := mk_authority {
  as_epoch : EpochId;
  as_incarnation : IncarnationId;
  as_route_source : SourceId;
  as_route_revision : RevisionId;
  as_topology_source : SourceId;
  as_topology_revision : RevisionId
}.

(** The pointers of the code are optional values. *)
Record ComparisonContext : Set := mk_context {
  ctx_routes : option RouteGeneration;
  ctx_topology : option TopologyGeneration;
  ctx_topology_index : option TopologyIndex;
  ctx_sources : option SourceRegistry;
  ctx_authority : AuthorityState;
  ctx_now : TimePoint
}.

Record ComparisonRequest : Set := mk_request {
  rq_generation : RouteGenerationId;
  rq_group : MaybeId PathGroupIdTag;
  rq_path : MaybeId PathIdTag;
  rq_evidence : list ObservedPathEvidence;
  rq_source_sequence_gap : bool
}.

Record EvidenceJudgement : Set := mk_judgement {
  ej_id : EvidenceId;
  ej_accepted : bool;
  ej_rejection : DivergenceClass;
  ej_freshness : Freshness;
  ej_surface : ProofSurface;
  ej_authority : AuthorityClass;
  ej_completeness : EvidenceCompleteness;
  ej_classes : list DivergenceClass;
  ej_reason : string
}.

Record HopDifference : Set := mk_difference {
  hd_index : Z;
  hd_detail : DivergenceClass;
  hd_expected : ExpectedHop;
  hd_observed : ObservedHop;
  hd_has_expected : bool;
  hd_has_observed : bool
}.

Record ComparisonResult : Set := mk_result {
  cr_id : ComparisonId;
  cr_generation : RouteGenerationId;
  cr_topology : TopologyGenerationId;
  cr_group : MaybeId PathGroupIdTag;
  cr_path : MaybeId PathIdTag;
  cr_matched_path : MaybeId PathIdTag;
  cr_outcome : MatchOutcome;
  cr_primary : DivergenceClass;
  cr_classes : list DivergenceClass;
  cr_freshness : Freshness;
  cr_completeness : EvidenceCompleteness;
  cr_consistency : ObservationConsistency;
  cr_surface : ProofSurface;
  cr_multipath : bool;
  cr_multipath_ambiguous : bool;
  cr_evidence_offered : nat;
  cr_evidence_considered : nat;
  cr_evidence_rejected : nat;
  cr_duplicate_evidence : nat;
  cr_judgements : list EvidenceJudgement;
  cr_differences : list HopDifference;
  cr_rationale : list string;
  cr_evaluated_at : TimePoint
}.

(** [struct Working], as far as the later blocks read it before the traces are
    matched; [matched_members] and its flags are computed by [match_members]. *)
Record Working : Set := mk_working {
  w_evidence : ObservedPathEvidence;
  w_hops : list ObservedHop;
  w_freshness : Freshness;
  w_freshness_reason : string;
  w_classes : list DivergenceClass;
  w_rejection : DivergenceClass;
  w_accepted : bool;
  w_reason : string;
  w_trace_digest : Digest
}.

(** ** Helpers *)

(** The body of the loop of [traces_compatible]. *)
Definition hops_compatible (a b : ObservedHop) : bool :=
  if negb (bool_decide (oh_device a = oh_device b)) then false else
  if valid (oh_ingress a) && valid (oh_ingress b) && negb (bool_decide (oh_ingress a = oh_ingress b))
  then false else
  if valid (oh_egress a) && valid (oh_egress b) && negb (bool_decide (oh_egress a = oh_egress b))
  then false else
  if valid (oh_link a) && valid (oh_link b) && negb (bool_decide (oh_provenance a = ProvenanceAbsent)) &&
     negb (bool_decide (oh_provenance b = ProvenanceAbsent)) && negb (bool_decide (oh_link a = oh_link b))
  then false else true.

Fixpoint traces_compatible (a b : list ObservedHop) : bool :=
  match a, b with
  | x :: a, y :: b => if hops_compatible x y then traces_compatible a b else false
  | _, _ => true
  end.

Definition put_trace_hop (h : ObservedHop) : list Z :=
  put_u32 (oh_index h) ++ put_id (oh_device h) ++ put_id (oh_ingress h) ++ put_id (oh_egress h) ++
  put_id (oh_link h) ++ put_u8 (provenance_code (oh_provenance h)).

Definition trace_digest (hops : list ObservedHop) : Digest :=
  digest_of (put_text "pathobs.trace" ++ put_seq put_trace_hop hops).

Definition per_hop_class (expected : ExpectedHop) (observed : ObservedHop) : DivergenceClass :=
  if negb (bool_decide (eh_device expected = oh_device observed)) then DeviceMismatch else
  if valid (oh_ingress observed) && negb (bool_decide (eh_ingress expected = oh_ingress observed))
  then PortMismatch else
  if valid (oh_egress observed) && negb (bool_decide (eh_egress expected = oh_egress observed))
  then PortMismatch else
  if eh_has_egress_link expected && valid (oh_link observed) &&
     negb (bool_decide (oh_provenance observed = ProvenanceAbsent)) &&
     negb (bool_decide (eh_egress_link expected = oh_link observed))
  then LinkMismatch else DivNone.

Definition add_class (classes : list DivergenceClass) (value : DivergenceClass) : list DivergenceClass :=
  if bool_decide (value = DivNone) then classes else
  if bool_decide (value ∈ classes) then classes else classes ++ [value].

Definition same_devices_different_order (expected : list ExpectedHop) (observed : list ObservedHop) : bool :=
  if negb (length expected =? length observed)%nat || (length expected =? 0)%nat then false else
  let left := map eh_device expected in
  let right := map oh_device observed in
  if negb (bool_decide (sort_by id_lt left = sort_by id_lt right)) then false
  else negb (bool_decide (left = right)).

(** ** Result encoding *)

Definition put_class (d : DivergenceClass) : list Z := put_u8 (divergence_code d).

Definition put_judgement (j : EvidenceJudgement) : list Z :=
  put_digest_id (ej_id j) ++ put_boolean (ej_accepted j) ++ put_class (ej_rejection j) ++
  put_u8 (freshness_code (ej_freshness j)) ++ put_u8 (proof_surface_code (ej_surface j)) ++
  put_u8 (authority_code (ej_authority j)) ++ put_u8 (completeness_code (ej_completeness j)) ++
  put_seq put_class (ej_classes j).

Definition put_difference (d : HopDifference) : list Z :=
  put_u32 (hd_index d) ++ put_class (hd_detail d) ++ put_boolean (hd_has_expected d) ++
  put_boolean (hd_has_observed d).

(** [ComparisonResult::write_canonical] *)
Definition result_canonical (r : ComparisonResult) : list Z :=
  put_text "pathobs.comparison" ++
  put_id (cr_generation r) ++ put_id (cr_topology r) ++
  put_maybe (cr_group r) ++ put_maybe (cr_path r) ++ put_maybe (cr_matched_path r) ++
  put_u8 (outcome_code (cr_outcome r)) ++ put_class (cr_primary r) ++
  put_seq put_class (cr_classes r) ++
  put_u8 (freshness_code (cr_freshness r)) ++ put_u8 (completeness_code (cr_completeness r)) ++
  put_u8 (consistency_code (cr_consistency r)) ++ put_u8 (proof_surface_code (cr_surface r)) ++
  put_boolean (cr_multipath r) ++ put_boolean (cr_multipath_ambiguous r) ++
  put_u32 (wrap_u 32 (Z.of_nat (cr_evidence_considered r))) ++
  put_u32 (wrap_u 32 (Z.of_nat (cr_evidence_rejected r))) ++
  put_seq put_judgement (cr_judgements r) ++ put_seq put_difference (cr_differences r) ++
  put_i64 (unix_nanos (cr_evaluated_at r)).

(** [ComparisonResult::seal]: the identity is the digest of the encoding. *)
Definition seal_result (r : ComparisonResult) : ComparisonResult :=
  mk_result (from_digest (digest_of (result_canonical r))) (cr_generation r) (cr_topology r)
    (cr_group r) (cr_path r) (cr_matched_path r) (cr_outcome r) (cr_primary r) (cr_classes r)
    (cr_freshness r) (cr_completeness r) (cr_consistency r) (cr_surface r) (cr_multipath r)
    (cr_multipath_ambiguous r) (cr_evidence_offered r) (cr_evidence_considered r)
    (cr_evidence_rejected r) (cr_duplicate_evidence r) (cr_judgements r) (cr_differences r)
    (cr_rationale r) (cr_evaluated_at r).

Definition has_class (r : ComparisonResult) (d : DivergenceClass) : bool := bool_decide (d ∈ cr_classes r).
Definition result_is_compliance (r : ComparisonResult) : bool := is_compliance (cr_outcome r).

(** [push_back] on the class set and on the rationale of the result. *)
Record Notes : Set := mk_notes { n_classes : list DivergenceClass; n_rationale : list string }.

Definition notes_new : Notes := mk_notes [] [].
Definition note_class (d : DivergenceClass) (n : Notes) : Notes :=
  mk_notes (add_class (n_classes n) d) (n_rationale n).
Definition note_text (s : string) (n : Notes) : Notes := mk_notes (n_classes n) (n_rationale n ++ [s]).

(** ** Subject *)

Section Engine.
Variables (limits : Limits) (policy : ComparisonPolicy).
Variables (request : ComparisonRequest) (context : ComparisonContext).

(** The generation of the authority state the request names. *)
Definition matching_routes : option RouteGeneration :=
  match ctx_routes context with
  | Some routes =>
      if bool_decide (route_id routes = rq_generation request) &&
         bool_decide (route_epoch routes = as_epoch (ctx_authority context)) &&
         bool_decide (route_incarnation routes = as_incarnation (ctx_authority context))
      then Some routes else None
  | None => None
  end.

Definition topology_matches (routes : RouteGeneration) : bool :=
  match ctx_topology context with
  | None => false
  | Some topology =>
      if negb (bool_decide (topo_id topology = route_topology routes)) ||
         negb (bool_decide (topo_epoch topology = as_epoch (ctx_authority context))) ||
         negb (bool_decide (topo_incarnation topology = as_incarnation (ctx_authority context)))
      then false else true
  end.

(** [path != nullptr ? routes->find_group(path->group) : nullptr] *)
Definition group_of_path (routes : RouteGeneration) (path : PathId) : option PathGroup :=
  match find_path routes path with
  | Some p => find_group routes (path_group p)
  | None => None
  end.

(** The subject one evidence record mentions. *)
Definition group_of_evidence (routes : RouteGeneration) (e : ObservedPathEvidence) : option PathGroup :=
  if present (ev_group e) then find_group routes (maybe_value (ev_group e))
  else if present (ev_path e) then group_of_path routes (maybe_value (ev_path e))
  else if present (ev_origin e) && present (ev_destination e)
  then (find_group_by_endpoints routes (maybe_value (ev_origin e)) (maybe_value (ev_destination e))).1
  else None.

Fixpoint first_group (routes : RouteGeneration) (evidence : list ObservedPathEvidence) : option PathGroup :=
  match evidence with
  | [] => None
  | e :: rest =>
      match group_of_evidence routes e with
      | Some g => Some g
      | None => first_group routes rest
      end
  end.

Definition subject_explicit : bool := present (rq_group request) || present (rq_path request).

Definition resolve_subject (routes : RouteGeneration) : option PathGroup :=
  if present (rq_group request) then find_group routes (maybe_value (rq_group request))
  else if present (rq_path request) then group_of_path routes (maybe_value (rq_path request))
  else first_group routes (rq_evidence request).

(** ** Judging the evidence *)

Definition reject (e : ObservedPathEvidence) (freshness : Freshness) (freshness_reason : string)
    (classes : list DivergenceClass) (rejection : DivergenceClass) (reason : string) : Working :=
  mk_working e [] freshness freshness_reason classes rejection false reason digest_zero.

(** The policy the source of a record is judged under. *)
Definition effective_policy (source : SourceDescriptor) : FreshnessPolicy :=
  let base := cp_freshness policy in
  let aged := 0 <? max_observation_age source in
  mk_policy
    (if aged then max_observation_age source else evidence_max_age base)
    (if aged then Z.max (max_observation_age source) (evidence_expiry base) else evidence_expiry base)
    (generation_max_age base) (generation_expiry base)
    (if 0 <? clock_skew_tolerance source then clock_skew_tolerance source else skew_tolerance base)
    (max_observation_latency base).

(** The fencing classes of one record, in the order they are added. *)
Definition fencing_classes (routes : RouteGeneration) (e : ObservedPathEvidence) : list DivergenceClass :=
  let authority := ctx_authority context in
  let add (c : bool) d classes := if c then add_class classes d else classes in
  let classes := add (negb (bool_decide (ev_epoch e = as_epoch authority)))
    (if id_lt (ev_epoch e) (as_epoch authority) then EpochFenced else EpochAhead) [] in
  let classes := add (negb (bool_decide (ev_claimed_incarnation e = as_incarnation authority)))
    IncarnationFenced classes in
  let classes := add (present (ev_route_generation e) &&
      negb (bool_decide (maybe_value (ev_route_generation e) = rq_generation request)))
    RouteGenerationMismatch classes in
  let classes := add (present (ev_topology_generation e) &&
      negb (bool_decide (maybe_value (ev_topology_generation e) = route_topology routes)))
    TopologyGenerationMismatch classes in
  let classes :=
    if id_lt (ev_revision e) (as_route_revision authority) then add_class classes RevisionFenced
    else if id_lt (as_route_revision authority) (ev_revision e) then add_class classes RevisionAhead
    else classes in
  let classes :=
    if bool_decide (ev_surface e = SurfaceUnsupported) then add_class classes EvidenceUnsupported
    else if bool_decide (ev_surface e = SurfaceUnknown) then add_class classes EvidenceUnknown
    else classes in
  add (require_advisory_or_higher policy && (authority_code (ev_authority e) <? authority_code Advisory))
    AuthorityInsufficient classes.

(** Link correlation of one working hop. *)
Definition correlate (h : ObservedHop) : ObservedHop :=
  match ctx_topology_index context with
  | Some index =>
      if index_valid index then
        if valid (oh_link h) || negb (valid (oh_device h)) || negb (valid (oh_egress h)) then h
        else match resolve_link index (oh_device h) (oh_egress h) with
        | Ok r =>
            if res_known r
            then mk_observed_hop (oh_index h) (oh_device h) (oh_ingress h) (oh_egress h) (res_link r)
                   ProvenanceCorrelated (oh_at h)
            else h
        | Err _ => h
        end
      else h
  | None => h
  end.

(** The rest of the loop body, under the policy of the source. *)
Definition judge_fencing (routes : RouteGeneration) (effective : FreshnessPolicy)
    (e : ObservedPathEvidence) : Working :=
  let freshness := assess_evidence e (ctx_now context) effective in
  let classes := fencing_classes routes e in
  let rejection := select_primary classes in
  if negb (bool_decide (rejection = DivNone)) then
    reject e (fa_state freshness) (fa_reason freshness) classes rejection
      ("excluded as " +:+ to_code rejection)%string
  else
    let hops := map correlate (ev_hops e) in
    mk_working e hops (fa_state freshness) (fa_reason freshness) classes DivNone true
      (fa_reason freshness) (trace_digest hops).

(** One turn of the judging loop. *)
Definition judge (routes : RouteGeneration) (e : ObservedPathEvidence) : Working :=
  match evidence_validate limits e with
  | Err shape =>
      reject e FreshUnknown "" [EvidenceUnknown] EvidenceUnknown
        ("evidence record failed validation: " +:+ message shape)%string
  | Ok _ =>
      match ctx_sources context with
      | None => judge_fencing routes (cp_freshness policy) e
      | Some sources =>
          match registry_find sources (ev_source e) with
          | Err _ =>
              reject e FreshUnknown "" [AuthorityInsufficient] AuthorityInsufficient
                "evidence was produced by an unregistered source"
          | Ok source =>
              if authority_code (source_authority source) <? authority_code (ev_authority e) then
                reject e FreshUnknown "" [AuthorityInsufficient] AuthorityInsufficient
                  "evidence claims more authority than its source is registered with"
              else judge_fencing routes (effective_policy source) e
          end
      end
  end.

(** ** Ordering and duplicates *)

(** The comparator: authority, freshness, completeness, receive time, sequence,
    identity. *)
Definition working_lt (a b : Working) : bool :=
  let ea := w_evidence a in
  let eb := w_evidence b in
  if negb (bool_decide (ev_authority ea = ev_authority eb))
  then authority_code (ev_authority eb) <? authority_code (ev_authority ea) else
  if negb (freshness_severity (w_freshness a) =? freshness_severity (w_freshness b))
  then freshness_severity (w_freshness a) <? freshness_severity (w_freshness b) else
  if negb (bool_decide (ev_declared_completeness ea = ev_declared_completeness eb))
  then completeness_code (ev_declared_completeness eb) <? completeness_code (ev_declared_completeness ea) else
  if negb (bool_decide (ev_received_at ea = ev_received_at eb))
  then time_lt (ev_received_at eb) (ev_received_at ea) else
  if negb (bool_decide (ev_sequence ea = ev_sequence eb))
  then id_lt (ev_sequence eb) (ev_sequence ea) else
  lex_lt (id_bytes (ev_id ea)) (id_bytes (ev_id eb)).

Definition same_identity (a b : Working) : bool :=
  bool_decide (ev_id (w_evidence a) = ev_id (w_evidence b)).

(** The working set every later block reads. *)
Definition judged (routes : RouteGeneration) : list Working :=
  sort_by working_lt (map (judge routes) (rq_evidence request)).

Definition working_set (routes : RouteGeneration) : list Working :=
  unique_by same_identity (judged routes).

Definition duplicates (routes : RouteGeneration) : nat :=
  (length (judged routes) - length (working_set routes))%nat.

Definition accepted_of (working : list Working) : list Working := List.filter w_accepted working.
Definition rejected_of (working : list Working) : nat :=
  length (List.filter (fun w => negb (w_accepted w)) working).

Definition judgement_of (w : Working) : EvidenceJudgement :=
  mk_judgement (ev_id (w_evidence w)) (w_accepted w) (w_rejection w) (w_freshness w)
    (ev_surface (w_evidence w)) (ev_authority (w_evidence w)) (claimed_completeness (w_evidence w))
    (w_classes w) (w_reason w).

(** Every exclusion enters the class set. *)
Definition note_exclusions (working : list Working) (n : Notes) : Notes :=
  foldl (fun n w => if negb (w_accepted w) && negb (bool_decide (w_rejection w = DivNone))
                    then note_class (w_rejection w) n else n) n working.

Definition note_gap (n : Notes) : Notes :=
  if rq_source_sequence_gap request then
    note_text
      "the source sequence ledger holds an unrepaired gap for at least one contributing source"
      (note_class ObservationGap n)
  else n.

(** The loop that picks the rejection an empty comparison reports. *)
Definition empty_rejection (working : list Working) : DivergenceClass :=
  foldl (fun rejection w =>
    if bool_decide (w_rejection w = DivNone) then rejection else
    if bool_decide (rejection = EvidenceUnknown) ||
       (precedence_of (w_rejection w) <? precedence_of rejection)
    then w_rejection w else rejection) EvidenceUnknown working.

(** ** Matching the traces *)

(** Members of the group that the generation declares. *)
Definition members_of (routes : RouteGeneration) (group : PathGroup) : list ExpectedPath :=
  flat_map (fun m => match find_path routes m with Some p => [p] | None => [] end) (group_members group).

Definition matches_exactly (w : Working) (member : ExpectedPath) : bool :=
  bool_decide (trace_match (compare_trace member (w_hops w)) = TraceExact).
Definition matches_prefix (w : Working) (member : ExpectedPath) : bool :=
  bool_decide (trace_match (compare_trace member (w_hops w)) = TracePrefix).

Definition trace_is_exact (members : list ExpectedPath) (w : Working) : bool :=
  existsb (matches_exactly w) members.
Definition trace_is_prefix (members : list ExpectedPath) (w : Working) : bool :=
  existsb (matches_prefix w) members.
Definition matches_a_member (members : list ExpectedPath) (w : Working) : bool :=
  existsb (fun m => matches_exactly w m || matches_prefix w m) members.

(** [matched_members]: each matching member once, in member order. *)
Definition matched_members (members : list ExpectedPath) (w : Working) : list PathId :=
  foldl (fun out m =>
    if (matches_exactly w m || matches_prefix w m) && negb (bool_decide (path_id m ∈ out))
    then out ++ [path_id m] else out) [] members.

(** The first record that claims a path of the group. *)
Fixpoint claimed_reference (routes : RouteGeneration) (group : PathGroupId)
    (evidence : list ObservedPathEvidence) : option ExpectedPath :=
  match evidence with
  | [] => None
  | e :: rest =>
      if negb (present (ev_path e)) then claimed_reference routes group rest else
      match find_path routes (maybe_value (ev_path e)) with
      | Some claimed =>
          if bool_decide (path_group claimed = group) then Some claimed
          else claimed_reference routes group rest
      | None => claimed_reference routes group rest
      end
  end.

(** [std::min_element] by identity: the first of the least. *)
Definition min_member (members : list ExpectedPath) : option ExpectedPath :=
  match members with
  | [] => None
  | m :: rest => Some (foldl (fun best p => if id_lt (path_id p) (path_id best) then p else best) m rest)
  end.

(** The claimed path of the request when the plan has it in the group. *)
Definition requested_reference (routes : RouteGeneration) (group : PathGroupId) : option ExpectedPath :=
  if present (rq_path request) then
    match find_path routes (maybe_value (rq_path request)) with
    | Some claimed => if bool_decide (path_group claimed = group) then Some claimed else None
    | None => None
    end
  else None.

Definition reference_path (routes : RouteGeneration) (group : PathGroup) : option ExpectedPath :=
  match requested_reference routes (group_id group) with
  | Some p => Some p
  | None =>
      match claimed_reference routes (group_id group) (rq_evidence request) with
      | Some p => Some p
      | None => min_member (members_of routes group)
      end
  end.

(** The size of the set of members some record matches. *)
Definition distinct_members (members : list ExpectedPath) (accepted : list Working) : nat :=
  length (remove_dups (flat_map (matched_members members) accepted)).

(** ** Consistency, completeness and differences *)

Definition records_conflict (left right : Working) : bool :=
  let l := ev_path (w_evidence left) in
  let r := ev_path (w_evidence right) in
  present l && present r && bool_decide (maybe_value l = maybe_value r) &&
  negb (traces_compatible (w_hops left) (w_hops right)).

(** The nested loop: the claimed path of the first conflicting pair. *)
Fixpoint find_conflict (accepted : list Working) : option PathId :=
  match accepted with
  | [] => None
  | first :: rest =>
      if existsb (records_conflict first) rest
      then Some (maybe_value (ev_path (w_evidence first)))
      else find_conflict rest
  end.

Definition worst_surface (accepted : list Working) : ProofSurface :=
  foldl (fun worst w =>
    if proof_surface_code worst <? proof_surface_code (ev_surface (w_evidence w))
    then ev_surface (w_evidence w) else worst) SurfaceReal accepted.

Definition worst_freshness (accepted : list Working) : Freshness :=
  foldl (fun worst w => worse_of worst (w_freshness w)) Fresh accepted.

(** The consistency verdict, whether it is a multipath ambiguity, and the notes. *)
Definition consistency_stage (conflict : option PathId) (surface : ProofSurface) (distinct : nat)
    (n : Notes) : ObservationConsistency * bool * Notes :=
  match conflict with
  | Some path =>
      (Conflicting, false,
       note_class EvidenceConflicting
         (note_text ("two accepted records claim path " +:+ id_str path +:+
            " and disagree about the hop trace; the plan declares one trace for that path")%string n))
  | None =>
      if bool_decide (surface = SurfaceUnsupported) then (ConsistencyUnsupported, false, n)
      else if (1 <? distinct)%nat then
        (Ambiguous, true,
         note_text ("the accepted records are consistent with " +:+ to_string (Z.of_nat distinct) +:+
           " members of the group: legitimate multipath, not divergence")%string
           (note_class EvidenceAmbiguous n))
      else (Consistent, false, n)
  end.

(** [std::min] over the member hop counts, starting from the first. *)
Definition shortest_member (members : list ExpectedPath) : nat :=
  match members with
  | [] => 0
  | m :: _ => foldl (fun shortest p => Nat.min shortest (length (path_hops p))) (length (path_hops m)) members
  end.

(** The body of the completeness loop: does the record make the set partial? *)
Definition record_partial (members : list ExpectedPath) (w : Working) : bool :=
  ev_source_truncated (w_evidence w) ||
  bool_decide (ev_declared_completeness (w_evidence w) = Partial) ||
  negb (hop_indices_are_contiguous (w_hops w)) ||
  (trace_is_prefix members w && negb (trace_is_exact members w)) ||
  (negb (matches_a_member members w) && negb (length members =? 0)%nat &&
   (length (w_hops w) <? shortest_member members)%nat).

Definition completeness_stage (members : list ExpectedPath) (accepted : list Working) : EvidenceCompleteness :=
  if rq_source_sequence_gap request then Partial else
  if existsb (record_partial members) accepted then Partial else Complete.

(** The default constructed hops of a difference. *)
Definition expected_hop_new : ExpectedHop := mk_expected_hop id_none 0 id_none id_none id_none id_none false.
Definition observed_hop_new : ObservedHop :=
  mk_observed_hop 0 id_none id_none id_none id_none ProvenanceAbsent unset.

(** One turn of the difference loop: a difference, or nothing to report. *)
Definition hop_difference (order_violation : bool) (i : nat) (expected : option ExpectedHop)
    (observed : option ObservedHop) : option HopDifference :=
  let detail :=
    match expected, observed with
    | Some e, Some o =>
        let detail := per_hop_class e o in
        if order_violation && bool_decide (detail = DeviceMismatch) then HopOrderViolation else detail
    | None, Some _ => HopUnexpected
    | _, None => HopMissing
    end in
  if bool_decide (detail = DivNone) then None else
  Some (mk_difference (wrap_u 32 (Z.of_nat i)) detail (default expected_hop_new expected)
    (default observed_hop_new observed) (bool_decide (is_Some expected)) (bool_decide (is_Some observed))).

Definition hop_differences (reference : list ExpectedHop) (observed : list ObservedHop) : list HopDifference :=
  let order_violation := same_devices_different_order reference observed in
  flat_map (fun i =>
    match hop_difference order_violation i (reference !! i) (observed !! i) with
    | Some d => [d]
    | None => []
    end) (seq 0 (Nat.max (length reference) (length observed))).

Definition note_differences (differences : list HopDifference) (n : Notes) : Notes :=
  foldl (fun n d => note_class (hd_detail d) n) n differences.

(** The loop that looks for a declared link the evidence cannot support. *)
Definition link_unresolved (differences : list HopDifference) (reference : list ExpectedHop)
    (observed : list ObservedHop) : bool :=
  existsb (fun i =>
    negb (existsb (fun d => hd_index d =? Z.of_nat i) differences) &&
    match reference !! i, observed !! i with
    | Some e, Some o =>
        eh_has_egress_link e &&
        (negb (valid (oh_link o)) || bool_decide (oh_provenance o = ProvenanceAbsent))
    | _, _ => false
    end) (seq 0 (Nat.min (length reference) (length observed))).

(** Does the identity a record names exist in the plan? *)
Definition claims_something (w : Working) : bool :=
  present (ev_path (w_evidence w)) || present (ev_group (w_evidence w)).

Definition claim_known (routes : RouteGeneration) (w : Working) : bool :=
  if present (ev_path (w_evidence w))
  then bool_decide (is_Some (find_path routes (maybe_value (ev_path (w_evidence w)))))
  else if present (ev_group (w_evidence w))
  then bool_decide (is_Some (find_group routes (maybe_value (ev_group (w_evidence w)))))
  else false.

Definition path_unknown (routes : RouteGeneration) (accepted : list Working) : bool :=
  if present (rq_path request) && negb (bool_decide (is_Some (find_path routes (maybe_value (rq_path request)))))
  then true
  else existsb claims_something accepted && negb (existsb (claim_known routes) accepted).

(** ** Outcome gates

    Each gate takes the outcome reached so far with the notes, as the chain of
    [if] statements at the end of [compare] does. *)

Definition gate_surface (surface : ProofSurface) (n : Notes) : MatchOutcome * Notes :=
  if bool_decide (surface = SurfaceUnsupported) then
    (OutcomeUnsupported,
     note_text "the accepted evidence belongs to a proof surface this build cannot judge"
       (note_class EvidenceUnsupported n))
  else if bool_decide (surface = SurfaceUnknown) then
    (Indeterminate,
     note_text "the accepted evidence does not state a proof surface" (note_class EvidenceUnknown n))
  else (Match, n).

Definition gate_conflict (conflicting : bool) (s : MatchOutcome * Notes) : MatchOutcome * Notes :=
  if negb (bool_decide (s.1 = OutcomeUnsupported)) && conflicting then (Indeterminate, s.2) else s.

Definition gate_freshness (conflicting : bool) (freshness : Freshness) (s : MatchOutcome * Notes) :
    MatchOutcome * Notes :=
  if negb (bool_decide (s.1 = OutcomeUnsupported)) && negb conflicting &&
     negb (is_compliance_capable freshness) then
    (Indeterminate,
     note_text ("evidence freshness is " +:+ freshness_to_string freshness +:+
       ": stale or unjudgeable evidence cannot validate current behaviour")%string
       (note_class
          (match freshness with
           | Stale => EvidenceStale
           | Expired => EvidenceExpired
           | _ => EvidenceUnknown
           end) s.2))
  else s.

Definition gate_structural (structural : bool) (s : MatchOutcome * Notes) : MatchOutcome * Notes :=
  if bool_decide (s.1 = Match) && structural then (Divergent, s.2) else s.

Definition gate_ambiguity (ambiguous : bool) (s : MatchOutcome * Notes) : MatchOutcome * Notes :=
  if bool_decide (s.1 = Match) && multipath_ambiguity_is_divergence policy && ambiguous then
    (Indeterminate,
     note_text "policy treats multipath ambiguity as a failure to determine the path"
       (note_class EvidenceAmbiguous s.2))
  else s.

Definition gate_completeness (completeness : EvidenceCompleteness) (s : MatchOutcome * Notes) :
    MatchOutcome * Notes :=
  if bool_decide (s.1 = Match) && negb (bool_decide (completeness = Complete)) then
    (Indeterminate,
     note_text "the observation is incomplete: an incomplete observation is never compliance"
       (note_class EvidenceIncomplete s.2))
  else s.

(** Topology, authority and surface of the representative record. *)
Definition gate_support (topology : bool) (representative : Working) (surface : ProofSurface)
    (s : MatchOutcome * Notes) : MatchOutcome * Notes :=
  if bool_decide (s.1 = Match) then
    if require_topology_for_match policy && negb topology then
      (Indeterminate,
       note_text "no topology generation is available to correlate link identity against"
         (note_class TopologyGenerationMismatch s.2))
    else if authority_code (ev_authority (w_evidence representative)) <? authority_code Advisory then
      (Indeterminate,
       note_text "the accepted evidence does not carry enough authority to support compliance"
         (note_class AuthorityInsufficient s.2))
    else if require_real_surface_for_match policy && negb (bool_decide (surface = SurfaceReal)) then
      (Indeterminate,
       note_text "policy requires real evidence for a compliance statement"
         (note_class EvidenceUnsupported s.2))
    else s
  else s.

Definition gate_unmatched (group : PathGroup) (representative_matched : list PathId) (any_matches : bool)
    (s : MatchOutcome * Notes) : MatchOutcome * Notes :=
  if bool_decide (s.1 = Match) && (0 <? length (group_members group))%nat &&
     (length representative_matched =? 0)%nat && negb any_matches
  then (Indeterminate, note_class EvidenceUnknown s.2) else s.

Definition gate_named (matched_path : MaybeId PathIdTag) (members : list ExpectedPath)
    (s : MatchOutcome * Notes) : MatchOutcome * Notes :=
  if bool_decide (s.1 = Match) && negb (present matched_path) && negb (length members =? 0)%nat
  then (Indeterminate, note_class EvidenceUnknown s.2) else s.

(** ** The comparison *)

Definition result_of (group : MaybeId PathGroupIdTag) (topology : TopologyGenerationId) (multipath_ : bool)
    (outcome : MatchOutcome) (primary : DivergenceClass) (n : Notes) : ComparisonResult :=
  mk_result digest_id_zero (rq_generation request) topology group (rq_path request) absent outcome primary
    (n_classes n) FreshUnknown CompletenessUnknown ConsistencyUnknown SurfaceUnknown multipath_ false
    (length (rq_evidence request)) 0 0 0 [] [] (n_rationale n) (ctx_now context).

(** The generation is not the one the authority state contains. *)
Definition generation_mismatch_result : ComparisonResult :=
  seal_result (result_of (rq_group request) id_none false Indeterminate RouteGenerationMismatch
    (note_text ("route generation mismatch: the request names generation " +:+
       id_str (rq_generation request) +:+
       " but the authority state does not contain it at epoch " +:+
       id_str (as_epoch (ctx_authority context)) +:+ " incarnation " +:+
       id_str (as_incarnation (ctx_authority context)))%string
       (note_class RouteGenerationMismatch notes_new))).

(** The class set before the subject is resolved. *)
Definition topology_notes (routes : RouteGeneration) : Notes :=
  if topology_matches routes then notes_new else note_class TopologyGenerationMismatch notes_new.

Definition no_expected_state_result (routes : RouteGeneration) : ComparisonResult :=
  seal_result (result_of (rq_group request) (route_topology routes) false NoExpectedState DivNone
    (note_text ("no expected path state for the subject of this comparison in generation " +:+
       id_str (rq_generation request))%string
    (note_text (if subject_explicit
       then "the named subject is not present in the current plan"
       else "no expected state could be associated with the evidence")%string
     (topology_notes routes)))).

(** No record was accepted. *)
Definition no_accepted_result (routes : RouteGeneration) (group : PathGroup) (working : list Working)
    (duplicate : nat) (n : Notes) : ComparisonResult :=
  let rejection := empty_rejection working in
  let unsupported := bool_decide (rejection = EvidenceUnsupported) in
  let n := note_class rejection n in
  let surface :=
    if existsb (fun w => negb (w_accepted w) && bool_decide (w_rejection w = EvidenceUnsupported)) working
    then SurfaceUnsupported else SurfaceUnknown in
  seal_result (mk_result digest_id_zero (rq_generation request) (route_topology routes)
    (maybe (group_id group)) (rq_path request) absent
    (if unsupported then OutcomeUnsupported else Indeterminate)
    (select_primary (n_classes n)) (n_classes n) FreshUnknown CompletenessUnknown
    (if unsupported then ConsistencyUnsupported else ConsistencyUnknown)
    surface (multipath group) false (length (rq_evidence request)) 0 (rejected_of working) duplicate
    (map judgement_of working) []
    (n_rationale (note_text ("absence of evidence is not evidence: no observation record survived the " +:+
       "fencing and quality gates, so the comparison is indeterminate")%string n))
    (ctx_now context)).

(** What the traces of the accepted records say, before the gates. *)
Record Analysis : Set := mk_analysis {
  an_members : list ExpectedPath;
  an_reference : option ExpectedPath;
  an_matched : list PathId;
  an_any_matches : bool;
  an_conflict : option PathId;
  an_surface : ProofSurface;
  an_freshness : Freshness;
  an_consistency : ObservationConsistency;
  an_ambiguous : bool;
  an_structural : bool;
  an_differences : list HopDifference;
  an_completeness : EvidenceCompleteness;
  an_notes : Notes
}.

Definition analyse (routes : RouteGeneration) (group : PathGroup) (accepted : list Working)
    (representative : Working) (n : Notes) : Analysis :=
  let members := members_of routes group in
  let reference := reference_path routes group in
  let any_matches := existsb (matches_a_member members) accepted in
  let conflict := find_conflict accepted in
  let surface := worst_surface accepted in
  let '(consistency, ambiguous, n) :=
    consistency_stage conflict surface (distinct_members members accepted) n in
  let completeness := completeness_stage members accepted in
  let structural := negb any_matches && negb (length (w_hops representative) =? 0)%nat in
  let differences :=
    match reference with
    | Some p => if structural then hop_differences (path_hops p) (w_hops representative) else []
    | None => []
    end in
  let n := note_differences differences n in
  let unresolved :=
    match reference with
    | Some p => link_unresolved differences (path_hops p) (w_hops representative)
    | None => false
    end in
  let n := if unresolved then note_class LinkUnresolved n else n in
  let completeness := if unresolved then Partial else completeness in
  let n := if path_unknown routes accepted then note_class PathUnknownToPlan n else n in
  mk_analysis members reference (matched_members members representative) any_matches conflict surface
    (worst_freshness accepted) consistency ambiguous structural differences completeness n.

Definition matched_path_of (matched : list PathId) : MaybeId PathIdTag :=
  match matched with [] => absent | p :: _ => maybe p end.

(** The chain of gates. *)
Definition decide_outcome (routes : RouteGeneration) (group : PathGroup) (representative : Working)
    (a : Analysis) : MatchOutcome * Notes :=
  let conflicting := bool_decide (is_Some (an_conflict a)) in
  let s := gate_surface (an_surface a) (an_notes a) in
  let s := gate_conflict conflicting s in
  let s := gate_freshness conflicting (an_freshness a) s in
  let s := gate_structural (an_structural a) s in
  let s := gate_ambiguity (an_ambiguous a) s in
  let s := gate_completeness (an_completeness a) s in
  let s := gate_support (topology_matches routes) representative (an_surface a) s in
  let s := gate_unmatched group (an_matched a) (an_any_matches a) s in
  gate_named (matched_path_of (an_matched a)) (an_members a) s.

(** The comparison of a non-empty set of accepted records. *)
Definition accepted_result (routes : RouteGeneration) (group : PathGroup) (working : list Working)
    (duplicate : nat) (accepted : list Working) (representative : Working) (n : Notes) : ComparisonResult :=
  let a := analyse routes group accepted representative n in
  let '(outcome, n) := decide_outcome routes group representative a in
  let primary := select_primary (n_classes n) in
  let considered := length accepted in
  let rejected := rejected_of working in
  seal_result (mk_result digest_id_zero (rq_generation request) (route_topology routes)
    (maybe (group_id group)) (rq_path request) (matched_path_of (an_matched a)) outcome primary
    (n_classes n) (an_freshness a) (an_completeness a) (an_consistency a) (an_surface a)
    (multipath group) (an_ambiguous a) (length (rq_evidence request)) considered rejected duplicate
    (map judgement_of working) (an_differences a)
    (n_rationale (note_text ("outcome " +:+ outcome_to_string outcome +:+ " with primary class " +:+
       to_code primary +:+ " from " +:+ to_string (Z.of_nat considered) +:+ " accepted record(s) and " +:+
       to_string (Z.of_nat rejected) +:+ " rejected record(s)")%string n))
    (ctx_now context)).

(** [ComparisonEngine::compare] *)
Definition compare : Result ComparisonResult :=
  check? comparison_policy_validate policy in
  fail? negb (valid (rq_generation request)) with
    error InvalidIdentity "comparison request has no route generation" in
  fail? max_evidence_per_comparison limits <? Z.of_nat (length (rq_evidence request)) with
    error CapacityExceeded "comparison request exceeds the configured evidence bound" in
  match matching_routes with
  | None => Ok generation_mismatch_result
  | Some routes =>
      match resolve_subject routes with
      | None => Ok (no_expected_state_result routes)
      | Some group =>
          let working := working_set routes in
          let n := note_gap (note_exclusions working (topology_notes routes)) in
          match accepted_of working with
          | [] => Ok (no_accepted_result routes group working (duplicates routes) n)
          | representative :: _ =>
              Ok (accepted_result routes group working (duplicates routes) (accepted_of working)
                    representative n)
          end
      end
  end.
End Engine.
