(* ===== verification/CompareProps.v ===== *)
(** * Properties of the comparison engine

    What a comparison result guarantees: which requests are answered, which
    evidence is admitted, what a compliance or a divergence statement implies,
    how the gates combine, and what the result does not depend on. *)

From S2P Require Import Prelude Errors StdAlgo Digest Canonical Ids TimeModel Limits Source Topology Observed Expected Freshness Divergence Compare.
#[local] Open Scope Z_scope.

(** ** Admission of evidence *)

Lemma add_class_nil cs d : d <> DivNone -> add_class cs d <> [].
Proof.
  intros Hd. unfold add_class. rewrite bool_decide_eq_false_2 by done.
  case_bool_decide as E; [| by destruct cs]. intros ->. by apply elem_of_nil in E.
Qed.

Lemma add_class_elem cs d c : c ∈ add_class cs d <-> c ∈ cs \/ c = d /\ d <> DivNone.
Proof.
  unfold add_class. repeat case_bool_decide; rewrite ?elem_of_app, ?list_elem_of_singleton; naive_solver.
Qed.

(** A conditional addition leaves the class set empty only when nothing is added. *)
Lemma add_if_nil (c : bool) cs d :
  d <> DivNone -> (if c then add_class cs d else cs) = [] <-> c = false /\ cs = [].
Proof.
  intros Hd. destruct c; [| tauto]. split; [| by intros [? _]].
  intros E. by destruct (add_class_nil cs d Hd).
Qed.

Lemma add_if_not_none (c : bool) cs d :
  Forall (fun x => x <> DivNone) cs -> Forall (fun x => x <> DivNone) (if c then add_class cs d else cs).
Proof.
  intros H. destruct c; [| done]. apply Forall_elem. intros x [Hx | [-> ?]]%add_class_elem; [| done].
  rewrite Forall_elem in H. by apply H.
Qed.

Lemma select_primary_nil cs :
  Forall (fun x => x <> DivNone) cs -> select_primary cs = DivNone <-> cs = [].
Proof.
  intros H. destruct (select_primary_go_spec None cs I) as [H1 _]. split; [| by intros ->].
  intros E. specialize (H1 E). destruct cs as [|c cs]; [done |].
  apply Forall_cons_iff in H as [? _], H1 as [? _]. done.
Qed.

Lemma id_lt_both_false {tag} (a b : StrongId tag) : id_lt a b = false /\ id_lt b a = false <-> a = b.
Proof.
  split; [intros [H1 H2]; exact (klt_total a b H1 H2) |]. intros ->. split; exact (klt_irrefl b).
Qed.

Section Engine.
Variables (limits : Limits) (policy : ComparisonPolicy).
Variables (request : ComparisonRequest) (context : ComparisonContext).

Abbreviation authority := (ctx_authority context).

(** The policy one record is judged under. *)
Definition policy_for (e : ObservedPathEvidence) : FreshnessPolicy :=
  match ctx_sources context with
  | None => cp_freshness policy
  | Some sources =>
      match registry_find sources (ev_source e) with
      | Ok source => effective_policy policy source
      | Err _ => cp_freshness policy
      end
  end.

(** The conditions on one record that the fencing classes check. *)
Definition unfenced (routes : RouteGeneration) (e : ObservedPathEvidence) : Prop :=
  ev_epoch e = as_epoch authority /\ ev_claimed_incarnation e = as_incarnation authority /\
  (present (ev_route_generation e) = true -> maybe_value (ev_route_generation e) = rq_generation request) /\
  (present (ev_topology_generation e) = true ->
     maybe_value (ev_topology_generation e) = route_topology routes) /\
  ev_revision e = as_route_revision authority /\
  (ev_surface e = SurfaceReal \/ ev_surface e = SurfaceSynthetic) /\
  (require_advisory_or_higher policy = true -> authority_code Advisory <= authority_code (ev_authority e)).

(** The record is from a registered source and claims no more authority than it. *)
Definition source_entitled (e : ObservedPathEvidence) : Prop :=
  match ctx_sources context with
  | None => True
  | Some sources => exists d, registry_find sources (ev_source e) = Ok d /\
      authority_code (ev_authority e) <= authority_code (source_authority d)
  end.

Record admissible (routes : RouteGeneration) (e : ObservedPathEvidence) : Prop := {
  adm_valid : evidence_validate limits e = ok;
  adm_entitled : source_entitled e;
  adm_unfenced : unfenced routes e
}.

Lemma fencing_classes_not_none routes e :
  Forall (fun x => x <> DivNone) (fencing_classes policy request context routes e).
Proof.
  unfold fencing_classes. apply add_if_not_none.
  assert (forall cs, Forall (fun x => x <> DivNone) cs -> Forall (fun x => x <> DivNone)
    (if bool_decide (ev_surface e = SurfaceUnsupported) then add_class cs EvidenceUnsupported
     else if bool_decide (ev_surface e = SurfaceUnknown) then add_class cs EvidenceUnknown else cs)) as Hs.
  { intros cs H. destruct (bool_decide (ev_surface e = SurfaceUnsupported));
      [by apply (add_if_not_none true) | by apply add_if_not_none]. }
  apply Hs. destruct (id_lt _ _); [apply (add_if_not_none true) | apply add_if_not_none];
    repeat apply add_if_not_none; constructor.
Qed.

Lemma fencing_classes_nil routes e :
  fencing_classes policy request context routes e = [] <-> unfenced routes e.
Proof.
  unfold fencing_classes. rewrite add_if_nil by done.
  assert (forall cs,
    (if bool_decide (ev_surface e = SurfaceUnsupported) then add_class cs EvidenceUnsupported
     else if bool_decide (ev_surface e = SurfaceUnknown) then add_class cs EvidenceUnknown else cs) = [] <->
    (ev_surface e = SurfaceReal \/ ev_surface e = SurfaceSynthetic) /\ cs = []) as ->.
  { intros cs. destruct (ev_surface e); cbn; (split; [| try naive_solver]);
      intros E; try (by apply add_class_nil in E); auto. }
  assert (forall cs,
    (if id_lt (ev_revision e) (as_route_revision authority) then add_class cs RevisionFenced
     else if id_lt (as_route_revision authority) (ev_revision e) then add_class cs RevisionAhead
     else cs) = [] <-> ev_revision e = as_route_revision authority /\ cs = []) as ->.
  { intros cs. rewrite <- (id_lt_both_false (ev_revision e) (as_route_revision authority)).
    destruct (id_lt (ev_revision e) _), (id_lt (as_route_revision authority) _); split;
      try (by intros [[? ?] ?]); try tauto; intros E; by apply add_class_nil in E. }
  assert ((if id_lt (ev_epoch e) (as_epoch authority) then EpochFenced else EpochAhead) <> DivNone)
    by (by destruct (id_lt _ _)).
  rewrite !add_if_nil by done.
  rewrite !andb_false_iff, !negb_false_iff, !bool_decide_eq_true, Z.ltb_ge. unfold unfenced.
  destruct (present (ev_route_generation e)), (present (ev_topology_generation e)),
    (require_advisory_or_higher policy); naive_solver.
Qed.

Lemma judge_fencing_accepted routes eff e :
  w_accepted (judge_fencing policy request context routes eff e) = true <-> unfenced routes e.
Proof.
  rewrite <- fencing_classes_nil, <- (select_primary_nil _ (fencing_classes_not_none routes e)).
  unfold judge_fencing. case_bool_decide as E; cbn [negb w_accepted reject]; by split.
Qed.

Lemma judge_evidence routes e : w_evidence (judge limits policy request context routes e) = e.
Proof.
  unfold judge, judge_fencing. repeat case_goal; reflexivity.
Qed.

(** A record is accepted exactly when it is admissible. *)
Lemma judge_accepted routes e :
  w_accepted (judge limits policy request context routes e) = true <-> admissible routes e.
Proof.
  unfold judge. destruct (evidence_validate limits e) as [[]|err] eqn:Ev.
  2:{ split; [done |]. intros [Hv _ _]. by rewrite Ev in Hv. }
  assert (admissible routes e <-> source_entitled e /\ unfenced routes e) as ->.
  { split; [by intros [] | intros [? ?]; by constructor]. }
  unfold source_entitled. destruct (ctx_sources context) as [sources|].
  2:{ rewrite judge_fencing_accepted. tauto. }
  destruct (registry_find sources (ev_source e)) as [d|err] eqn:Ef.
  - destruct (authority_code (source_authority d) <? authority_code (ev_authority e)) eqn:E; bool_prop.
    + split; [done |]. intros [(d' & [= <-] & ?) _]. lia.
    + rewrite judge_fencing_accepted. split; [| tauto]. intros ?. split; [by exists d | done].
  - split; [done |]. by intros [(d' & ? & _) _].
Qed.

(** What the working record of an admissible record holds. *)
Lemma judge_admissible routes e :
  admissible routes e ->
  let w := judge limits policy request context routes e in
  w_hops w = map (correlate context) (ev_hops e) /\ w_rejection w = DivNone /\ w_classes w = [] /\
  w_freshness w = fa_state (assess_evidence e (ctx_now context) (policy_for e)).
Proof.
  intros [Hv He Hu]. unfold judge, policy_for. rewrite Hv. unfold source_entitled in He.
  assert (forall eff, let w := judge_fencing policy request context routes eff e in
    w_hops w = map (correlate context) (ev_hops e) /\ w_rejection w = DivNone /\ w_classes w = [] /\
    w_freshness w = fa_state (assess_evidence e (ctx_now context) eff)) as Hj.
  { intros eff. apply fencing_classes_nil in Hu. unfold judge_fencing. by rewrite Hu. }
  destruct (ctx_sources context) as [sources|]; [| apply Hj].
  destruct He as (d & Hd & Hle). rewrite Hd. rewrite (proj2 (Z.ltb_ge _ _)) by done. apply Hj.
Qed.

(** A rejected record says why. *)
Lemma judge_rejected routes e :
  w_accepted (judge limits policy request context routes e) = false ->
  w_rejection (judge limits policy request context routes e) <> DivNone.
Proof.
  assert (forall eff, w_accepted (judge_fencing policy request context routes eff e) = false ->
    w_rejection (judge_fencing policy request context routes eff e) <> DivNone) as Hj.
  { intros eff. unfold judge_fencing. case_bool_decide as E; cbn [negb]; [done |]. done. }
  unfold judge. repeat case_goal; try done; apply Hj.
Qed.

(** ** The working set *)

Abbreviation working routes := (working_set limits policy request context routes).
Abbreviation accepted routes := (accepted_of (working routes)).

Lemma working_elem routes w :
  w ∈ working routes -> exists e, e ∈ rq_evidence request /\ w = judge limits policy request context routes e.
Proof.
  intros Hw%unique_by_sub. unfold judged in Hw. rewrite elem_of_sort_by in Hw.
  apply list_elem_of_In, in_map_iff in Hw as (e & <- & He%list_elem_of_In). by exists e.
Qed.

Lemma accepted_elem routes w :
  w ∈ accepted routes -> exists e, e ∈ rq_evidence request /\ admissible routes e /\
    w = judge limits policy request context routes e /\ w ∈ working routes.
Proof.
  intros [Hw Ha]%list_elem_of_In%filter_In. apply list_elem_of_In in Hw.
  destruct (working_elem routes w Hw) as (e & He & ->). exists e.
  split_and!; [done | by apply judge_accepted | done | done].
Qed.

Lemma accepted_evidence routes w :
  w ∈ accepted routes -> w_evidence w ∈ rq_evidence request /\ admissible routes (w_evidence w) /\
    w = judge limits policy request context routes (w_evidence w).
Proof.
  intros (e & He & Ha & -> & _)%accepted_elem. by rewrite !judge_evidence.
Qed.

Lemma filter_length_split {A} (f : A -> bool) l :
  (length (List.filter f l) + length (List.filter (fun x => negb (f x)) l) = length l)%nat.
Proof. induction l as [|x l IH]; simpl; [done |]. destruct (f x); simpl; lia. Qed.

Lemma working_counts routes :
  (length (accepted routes) + rejected_of (working routes) +
   duplicates limits policy request context routes = length (rq_evidence request))%nat.
Proof.
  unfold accepted_of, rejected_of, duplicates. rewrite filter_length_split.
  pose proof (length_unique_by same_identity (judged limits policy request context routes)) as H.
  fold (working routes) in H.
  assert (length (judged limits policy request context routes) = length (rq_evidence request)) as <-
    by (unfold judged; by rewrite length_sort_by, length_map).
  unfold working_set in *. lia.
Qed.

(** ** Totality and the branches of [compare] *)

Abbreviation comparison := (compare limits policy request context).

(** The part of [compare] that follows the guards always answers. *)
Definition answer : ComparisonResult :=
  match matching_routes request context with
  | None => generation_mismatch_result request context
  | Some routes =>
      match resolve_subject request routes with
      | None => no_expected_state_result request context routes
      | Some group =>
          let n := note_gap request (note_exclusions (working routes) (topology_notes context routes)) in
          match accepted routes with
          | [] => no_accepted_result request context routes group (working routes)
                    (duplicates limits policy request context routes) n
          | representative :: _ =>
              accepted_result policy request context routes group (working routes)
                (duplicates limits policy request context routes) (accepted routes) representative n
          end
      end
  end.

Lemma compare_answer :
  comparison =
    check? comparison_policy_validate policy in
    fail? negb (valid (rq_generation request)) with
      error InvalidIdentity "comparison request has no route generation" in
    fail? max_evidence_per_comparison limits <? Z.of_nat (length (rq_evidence request)) with
      error CapacityExceeded "comparison request exceeds the configured evidence bound" in
    Ok answer.
Proof.
  unfold compare, answer. destruct (matching_routes request context) as [routes|]; [| done].
  destruct (resolve_subject request routes) as [group|]; [| done].
  by destruct (accepted routes).
Qed.

Lemma compare_err e :
  comparison = Err e ->
  policy_validate (cp_freshness policy) = Err e \/
  policy_validate (cp_freshness policy) = ok /\
    (valid (rq_generation request) = false /\ code e = InvalidIdentity \/
     valid (rq_generation request) = true /\ code e = CapacityExceeded /\
     max_evidence_per_comparison limits < Z.of_nat (length (rq_evidence request))).
Proof.
  rewrite compare_answer. unfold comparison_policy_validate. generalize answer. intros r.
  destruct (policy_validate (cp_freshness policy)) as [[]|e']; cbn [result_bind ok]; [| by intros [= ->]; left].
  intros E. right. split; [done |].
  destruct (valid (rq_generation request)); cbn [negb] in E; [| left; by injection E as <-].
  right. destruct (_ <? _) eqn:El in E; bool_prop; [by injection E as <- | done].
Qed.

Lemma compare_ok r :
  comparison = Ok r ->
  policy_validate (cp_freshness policy) = ok /\ valid (rq_generation request) = true /\
  Z.of_nat (length (rq_evidence request)) <= max_evidence_per_comparison limits /\ r = answer.
Proof.
  rewrite compare_answer. unfold comparison_policy_validate. generalize answer. intros a H. guards_ok H.
  bool_prop. apply result_bind_ok in G as ([] & Hp & _). by injection H as <-.
Qed.

Lemma seal_result_id r : cr_id (seal_result r) = from_digest (digest_of (result_canonical (seal_result r))).
Proof. reflexivity. Qed.

(** ** Notes only grow *)

Definition grows (n m : Notes) : Prop := forall c, c ∈ n_classes n -> c ∈ n_classes m.

#[local] Instance grows_preorder : PreOrder grows.
Proof. split; [by intros n c | intros n m k H1 H2 c Hc; auto]. Qed.

Lemma grows_class d n : grows n (note_class d n).
Proof. intros c Hc. apply add_class_elem. by left. Qed.

Lemma grows_text t n : grows n (note_text t n).
Proof. by intros c Hc. Qed.

Lemma grows_both d t n : grows n (note_text t (note_class d n)).
Proof. etransitivity; [apply grows_class | apply grows_text]. Qed.

Lemma note_class_elem d n : d <> DivNone -> d ∈ n_classes (note_class d n).
Proof. intros Hd. apply add_class_elem. by right. Qed.

Lemma foldl_grows {A} (f : Notes -> A -> Notes) l n :
  (forall m a, grows m (f m a)) -> grows n (foldl f n l).
Proof.
  intros Hf. revert n. induction l as [|a l IH]; intros n; simpl; [by intros c |].
  etransitivity; [apply Hf | apply IH].
Qed.

Lemma note_exclusions_elem w l n :
  w ∈ l -> w_accepted w = false -> w_rejection w <> DivNone ->
  w_rejection w ∈ n_classes (note_exclusions l n).
Proof.
  intros Hw Ha Hr. revert n. unfold note_exclusions. induction l as [|x l IH]; intros n; simpl.
  { by apply elem_of_nil in Hw. }
  apply elem_of_cons in Hw as [<- | Hw]; [| by apply IH].
  rewrite Ha, bool_decide_eq_false_2 by done. cbn [negb andb].
  apply foldl_grows; [intros m a; case_goal; [apply grows_class | by intros c] | by apply note_class_elem].
Qed.

Lemma note_gap_grows n : grows n (note_gap request n).
Proof.
  unfold note_gap. case_goal; [| by intros c]. etransitivity; [apply grows_class | apply grows_text].
Qed.

Lemma consistency_stage_grows conflict surface distinct n :
  grows n (consistency_stage conflict surface distinct n).2.
Proof.
  unfold consistency_stage. destruct conflict as [path|]; cbn [snd].
  - etransitivity; [apply grows_text | apply grows_class].
  - destruct (bool_decide _); cbn [snd]; [by intros c |]. destruct (1 <? distinct)%nat; cbn [snd]; [| by intros c].
    etransitivity; [apply grows_class | apply grows_text].
Qed.

Lemma gates_grow routes group representative a :
  grows (an_notes a) (decide_outcome policy context routes group representative a).2.
Proof.
  assert (forall b d t (s : MatchOutcome * Notes), grows s.2
    (if b : bool then (Indeterminate, note_text t (note_class d s.2)) else s).2) as Hg.
  { intros [] d t s; [| by intros c]. etransitivity; [apply grows_class | apply grows_text]. }
  assert (forall b d (s : MatchOutcome * Notes), grows s.2
    (if b : bool then (Indeterminate, note_class d s.2) else s).2) as Hc.
  { intros [] d s; [apply grows_class | by intros c]. }
  assert (forall b o (s : MatchOutcome * Notes), grows s.2 (if b : bool then (o, s.2) else s).2) as Hk
    by (by intros [] o s c).
  unfold decide_outcome. cbv zeta.
  etransitivity; [| apply Hc]. etransitivity; [| apply Hc].
  etransitivity; [| unfold gate_support; destruct (bool_decide _); [| by intros c];
    destruct (_ && _); [apply grows_both |]; destruct (_ <? _); [apply grows_both |];
    destruct (_ && _); [apply grows_both | by intros c]].
  etransitivity; [| apply Hg]. etransitivity; [| apply Hg]. etransitivity; [| apply Hk].
  etransitivity; [| apply Hg]. etransitivity; [| apply Hk].
  unfold gate_surface. destruct (bool_decide _); [apply grows_both |].
  destruct (bool_decide _); [apply grows_both | by intros c].
Qed.

Lemma analyse_grows routes group acc representative n :
  grows n (an_notes (analyse request routes group acc representative n)).
Proof.
  unfold analyse. pose proof (consistency_stage_grows (find_conflict acc) (worst_surface acc)
    (distinct_members (members_of routes group) acc) n) as H.
  destruct (consistency_stage _ _ _ n) as [[cs amb] m]. cbn [an_notes snd] in *.
  etransitivity; [exact H |]. etransitivity; [| case_goal; [apply grows_class | by intros c]].
  etransitivity; [| case_goal; [apply grows_class | by intros c]].
  apply foldl_grows. intros k d. apply grows_class.
Qed.

(** C12. Fencing.  Every judgement of a result is about an offered record; it is
    accepted exactly when the record is valid, comes from a source entitled to
    its claim, and belongs to the epoch, incarnation, generations and revision
    of the authority state with a real or synthetic surface and enough
    authority; a record that is not accepted carries a reason class, and that
    class is part of the classification. *)
Theorem evidence_fencing (r : ComparisonResult) (routes : RouteGeneration) :
  comparison = Ok r -> matching_routes request context = Some routes ->
  forall j, j ∈ cr_judgements r -> exists e, e ∈ rq_evidence request /\ ej_id j = ev_id e /\
    (ej_accepted j = true <-> admissible routes e) /\
    (ej_accepted j = false -> ej_rejection j <> DivNone /\ ej_rejection j ∈ cr_classes r).
Proof.
  intros (_ & _ & _ & ->)%compare_ok Hm j. unfold answer. rewrite Hm.
  destruct (resolve_subject request routes) as [group|]; [| by intros ?%elem_of_nil].
  set (n := note_gap request _).
  assert (forall w, w ∈ working routes -> w_accepted w = false -> w_rejection w ∈ n_classes n) as Hn.
  { intros w Hw Ha. apply note_gap_grows, note_exclusions_elem; [done | done |].
    destruct (working_elem routes w Hw) as (e & _ & ->). by apply judge_rejected. }
  assert (forall cs : list DivergenceClass, (forall w, w ∈ working routes -> w_accepted w = false -> w_rejection w ∈ cs) ->
    j ∈ map judgement_of (working routes) -> exists e, e ∈ rq_evidence request /\ ej_id j = ev_id e /\
    (ej_accepted j = true <-> admissible routes e) /\
    (ej_accepted j = false -> ej_rejection j <> DivNone /\ ej_rejection j ∈ cs)) as Hall.
  { intros cs Hcs (w & <- & Hw%list_elem_of_In)%list_elem_of_In%in_map_iff. specialize (Hcs w Hw).
    destruct (working_elem routes w Hw) as (e & He & ->). exists e.
    cbn [judgement_of ej_id ej_accepted ej_rejection]. rewrite judge_evidence, judge_accepted.
    split_and!; [done | done | done |]. intros Ha. split; [by apply judge_rejected | by apply Hcs]. }
  destruct (accepted routes) as [|w l]; [apply Hall | unfold accepted_result].
  - intros w Hw Ha. cbn [no_accepted_result seal_result cr_classes]. apply grows_class. by apply Hn.
  - pose proof (analyse_grows routes group (w :: l) w n) as Hg.
    pose proof (gates_grow routes group w (analyse request routes group (w :: l) w n)) as Hg'.
    destruct (decide_outcome _ _ _ _ _ _) as [o m]. cbn [snd] in Hg'. apply Hall.
    intros w' Hw' Ha. cbn [seal_result cr_classes]. by apply Hg', Hg, Hn.
Qed.

(** ** The outcome as one decision *)

Definition judgeable (surface : ProofSurface) : Prop := surface = SurfaceReal \/ surface = SurfaceSynthetic.

Lemma worst_surface_spec l :
  Forall (fun w => judgeable (ev_surface (w_evidence w))) l ->
  judgeable (worst_surface l) /\
  (worst_surface l = SurfaceReal <-> Forall (fun w => ev_surface (w_evidence w) = SurfaceReal) l).
Proof.
  intros H. unfold worst_surface.
  set (step := fun worst w => if proof_surface_code worst <? proof_surface_code (ev_surface (w_evidence w))
    then ev_surface (w_evidence w) else worst).
  assert (forall s, judgeable s -> judgeable (foldl step s l) /\
    (foldl step s l = SurfaceReal <->
     s = SurfaceReal /\ Forall (fun w => ev_surface (w_evidence w) = SurfaceReal) l)) as Haux.
  { induction H as [|w l Hw Hl IH]; intros s Hs; simpl.
    - split; [done |]. split; [by split; [| constructor] | by intros [? _]].
    - rewrite Forall_cons_iff. destruct (IH (step s w)) as [IH1 IH2].
      { unfold step. by destruct (_ <? _). }
      split; [done |]. rewrite IH2. unfold step, judgeable in *.
      destruct Hs as [-> | ->], Hw as [-> | ->]; cbn; naive_solver. }
  destruct (Haux SurfaceReal) as [H1 H2]; [by left |]. split; [done |]. rewrite H2. by split; [intros [_ ?] |].
Qed.

Lemma worst_freshness_spec l : worst_freshness l = Fresh <-> Forall (fun w => w_freshness w = Fresh) l.
Proof.
  unfold worst_freshness.
  assert (forall f, foldl (fun worst w => worse_of worst (w_freshness w)) f l = Fresh <->
    f = Fresh /\ Forall (fun w => w_freshness w = Fresh) l) as ->; [| by split; [intros [_ ?] |]].
  induction l as [|w l IH]; intros f; simpl; [split; [by split | by intros [? _]] |].
  rewrite IH, worse_of_fresh, Forall_cons_iff. tauto.
Qed.

Lemma accepted_judgeable routes : Forall (fun w => judgeable (ev_surface (w_evidence w))) (accepted routes).
Proof.
  apply Forall_elem. intros w (_ & [_ _ Hu] & _)%accepted_evidence. unfold judgeable. apply Hu.
Qed.

(** The support a match needs beyond the traces. *)
Definition supported (topology : bool) (representative : Working) (surface : ProofSurface) : bool :=
  (negb (require_topology_for_match policy) || topology) &&
  (authority_code Advisory <=? authority_code (ev_authority (w_evidence representative))) &&
  (negb (require_real_surface_for_match policy) || bool_decide (surface = SurfaceReal)).

(** The abstract decision: conflict, freshness, structure, ambiguity,
    completeness, support, and a named path, in that order of precedence. *)
Definition verdict (topology : bool) (group : PathGroup) (representative : Working) (a : Analysis) : MatchOutcome :=
  if bool_decide (is_Some (an_conflict a)) then Indeterminate
  else if negb (bool_decide (an_freshness a = Fresh)) then Indeterminate
  else if an_structural a then Divergent
  else if multipath_ambiguity_is_divergence policy && an_ambiguous a then Indeterminate
  else if negb (bool_decide (an_completeness a = Complete)) then Indeterminate
  else if negb (supported topology representative (an_surface a)) then Indeterminate
  else if (0 <? length (group_members group))%nat && (length (an_matched a) =? 0)%nat && negb (an_any_matches a)
  then Indeterminate
  else if negb (length (an_members a) =? 0)%nat && negb (present (matched_path_of (an_matched a)))
  then Indeterminate
  else Match.

Lemma decide_outcome_verdict routes group representative a :
  judgeable (an_surface a) ->
  (decide_outcome policy context routes group representative a).1 =
  verdict (topology_matches context routes) group representative a.
Proof.
  intros Hs. unfold decide_outcome, verdict, supported. cbv zeta.
  assert (gate_surface (an_surface a) (an_notes a) = (Match, an_notes a)) as ->
    by (unfold gate_surface; by destruct Hs as [-> | ->]).
  generalize (topology_matches context routes). intros topo.
  destruct (bool_decide (is_Some (an_conflict a))); [reflexivity |].
  unfold gate_conflict, gate_freshness, is_compliance_capable. cbn [fst snd andb negb bool_decide].
  rewrite (bool_decide_eq_false_2 (Match = OutcomeUnsupported)) by done. cbn [fst snd andb negb].
  destruct (bool_decide (an_freshness a = Fresh)); cbn [fst snd andb negb]; [| reflexivity].
  unfold gate_structural. rewrite (bool_decide_eq_true_2 (Match = Match)) by done. cbn [andb].
  destruct (an_structural a); [reflexivity |].
  unfold gate_ambiguity. cbn [fst snd]. rewrite (bool_decide_eq_true_2 (Match = Match)) by done. cbn [andb].
  destruct (multipath_ambiguity_is_divergence policy && an_ambiguous a); [reflexivity |].
  unfold gate_completeness. cbn [fst snd]. rewrite (bool_decide_eq_true_2 (Match = Match)) by done. cbn [andb].
  destruct (bool_decide (an_completeness a = Complete)); cbn [negb]; [| reflexivity].
  unfold gate_support. cbn [fst snd]. rewrite (bool_decide_eq_true_2 (Match = Match)) by done.
  rewrite (Z.leb_antisym (authority_code (ev_authority (w_evidence representative)))).
  destruct (require_topology_for_match policy), topo; cbn [andb negb orb]; try reflexivity;
    (destruct (_ <? _); cbn [andb negb]; [reflexivity |]);
    (destruct (require_real_surface_for_match policy), (bool_decide (an_surface a = SurfaceReal));
     cbn [andb negb orb]; try reflexivity);
    unfold gate_unmatched; cbn [fst snd]; rewrite (bool_decide_eq_true_2 (Match = Match)) by done;
    cbn [andb]; (destruct (_ && _ && _); [reflexivity |]);
    unfold gate_named; cbn [fst snd]; rewrite (bool_decide_eq_true_2 (Match = Match)) by done; cbn [andb];
    rewrite andb_comm; by destruct (_ && _).
Qed.

(** ** What the traces say *)

Lemma find_conflict_none l :
  find_conflict l = None <->
  forall i j a b, (i < j)%nat -> l !! i = Some a -> l !! j = Some b -> records_conflict a b = false.
Proof.
  induction l as [|w l IH]; simpl; [by split |]. destruct (existsb (records_conflict w) l) eqn:E.
  - split; [done |]. intros H. apply existsb_elem in E as (x & [j Hj]%list_elem_of_lookup_1 & Hx).
    by rewrite (H 0%nat (S j) w x ltac:(lia) eq_refl Hj) in Hx.
  - rewrite IH. split.
    + intros H [|i] [|j] a b Hij Ha Hb; simpl in *; try lia.
      * injection Ha as <-. destruct (records_conflict w b) eqn:F; [| done].
        assert (existsb (records_conflict w) l = true) as G; [| by rewrite G in E].
        apply existsb_elem. exists b. split; [by eapply list_elem_of_lookup_2 | done].
      * eapply (H i j); [lia | done | done].
    + intros H i j a b Hij. apply (H (S i) (S j)). lia.
Qed.

Lemma members_elem routes group p :
  p ∈ members_of routes group <-> exists m, m ∈ group_members group /\ find_path routes m = Some p.
Proof.
  unfold members_of. rewrite list_elem_of_In, in_flat_map.
  split; intros (m & Hm & H); exists m; (split; [by apply list_elem_of_In |]).
  - destruct (find_path routes m) as [q|]; [| done]. destruct H as [<- | []]. done.
  - rewrite H. by left.
Qed.

Lemma matches_a_member_iff members w :
  matches_a_member members w = true <->
  exists p, p ∈ members /\ (matches_exactly w p = true \/ matches_prefix w p = true).
Proof.
  unfold matches_a_member. rewrite existsb_elem.
  split; intros (p & Hp & H); exists p; (split; [done |]); by apply orb_true_iff.
Qed.

Lemma matched_members_elem members w m :
  m ∈ matched_members members w <->
  exists p, p ∈ members /\ path_id p = m /\ (matches_exactly w p = true \/ matches_prefix w p = true).
Proof.
  unfold matched_members.
  set (step := fun out p => if (matches_exactly w p || matches_prefix w p) && negb (bool_decide (path_id p ∈ out))
    then out ++ [path_id p] else out).
  assert (forall out, m ∈ foldl step out members <-> m ∈ out \/ exists p, p ∈ members /\ path_id p = m /\
    (matches_exactly w p = true \/ matches_prefix w p = true)) as ->.
  2:{ split; [intros [?%elem_of_nil | ?]; done | by right]. }
  induction members as [|p members IH]; intros out; simpl.
  { split; [by left | intros [? | (p & ?%elem_of_nil & _)]; done]. }
  rewrite IH. setoid_rewrite elem_of_cons. unfold step.
  destruct (matches_exactly w p || matches_prefix w p) eqn:E; cbn [andb].
  - apply orb_true_iff in E. case_bool_decide as Ein; cbn [negb].
    + split; [naive_solver |]. intros [? | (q & [-> | ?] & <- & ?)]; eauto.
    + rewrite elem_of_app, list_elem_of_singleton. split; [naive_solver |].
      intros [? | (q & [-> | ?] & <- & ?)]; eauto.
  - bool_prop. split; [naive_solver |].
    intros [? | (q & [-> | ?] & ? & [? | ?])]; [by left | congruence | congruence | |]; right; exists q; auto.
Qed.

Lemma matched_members_nil members w : matched_members members w = [] <-> matches_a_member members w = false.
Proof.
  rewrite <- not_true_iff_false, matches_a_member_iff. split.
  - intros E (p & Hp & Hm). assert (path_id p ∈ matched_members members w) as H
      by (apply matched_members_elem; by exists p). rewrite E in H. by apply elem_of_nil in H.
  - intros H. destruct (matched_members members w) as [|m l] eqn:E; [done |]. exfalso. apply H.
    assert (m ∈ matched_members members w) as (p & Hp & _ & Hm)%matched_members_elem
      by (rewrite E; constructor). by exists p.
Qed.

Lemma first_group_elem routes l g : first_group routes l = Some g -> g ∈ groups routes.
Proof.
  assert (forall i q, find_group routes i = Some q -> q ∈ groups routes) as Hf.
  { intros i q. apply find_sorted_sound. }
  assert (forall p q, group_of_path routes p = Some q -> q ∈ groups routes) as Hp.
  { intros p q. unfold group_of_path. destruct (find_path routes p); [apply Hf | done]. }
  induction l as [|e l IH]; simpl; [done |]. destruct (group_of_evidence routes e) as [q|] eqn:E; [| done].
  intros [= <-]. revert E. unfold group_of_evidence.
  destruct (present (ev_group e)); [apply Hf |]. destruct (present (ev_path e)); [apply Hp |].
  destruct (_ && _); [| done]. unfold find_group_by_endpoints. rewrite endpoints_go_spec. cbn [fst].
  destruct (List.filter _ _) as [|x hits] eqn:Eh; [done |]. intros [= ->].
  assert (q ∈ q :: hits) as Hin by constructor. rewrite <- Eh in Hin.
  by apply list_elem_of_In, filter_In in Hin as [?%list_elem_of_In _].
Qed.

Lemma resolve_subject_elem routes g : resolve_subject request routes = Some g -> g ∈ groups routes.
Proof.
  unfold resolve_subject. destruct (present (rq_group request)); [apply find_sorted_sound |].
  destruct (present (rq_path request)); [| apply first_group_elem].
  unfold group_of_path. destruct (find_path _ _); [apply find_sorted_sound | done].
Qed.

(** The generations of the context went through [finalize]. *)
Definition finalised (routes : RouteGeneration) : Prop :=
  exists l g, route_finalize l g = Ok routes.

Lemma finalised_members routes group :
  finalised routes -> group ∈ groups routes ->
  members_of routes group <> [] /\
  (forall p, p ∈ members_of routes group ->
     p ∈ paths routes /\ path_id p ∈ group_members group /\ path_hops p <> [] /\ valid (path_id p) = true).
Proof.
  intros (l & g & (_ & Hc & ->)%route_finalize_iff) Hg.
  pose proof (route_normal_consistent l g Hc) as (_ & _ & Wp & Wg).
  pose proof (route_normal_sorted l g Hc) as (Sp & _).
  rewrite Forall_elem in Wp. rewrite Forall_elem in Wg. destruct (Wg group Hg) as (_ & _ & _ & _ & Hne & Hmem). split.
  - destruct (group_members group) as [|m ms] eqn:E; [done |].
    destruct (Hmem m ltac:(constructor)) as (p & Hp & Em & _).
    assert (p ∈ members_of (route_normal g) group) as Hin; [| intros E'; rewrite E' in Hin; by apply elem_of_nil in Hin].
    apply members_elem. exists m. split; [rewrite E; constructor |].
    by apply (find_sorted_iff path_id).
  - intros p (m & Hm & Hf)%members_elem. apply find_sorted_sound in Hf as [Hp <-].
    destruct (Wp p Hp) as (? & _ & _ & _ & ? & _). done.
Qed.

(** The verdict of an answer that rests on accepted records. *)
Lemma answer_accepted routes group representative rest :
  matching_routes request context = Some routes -> resolve_subject request routes = Some group ->
  accepted routes = representative :: rest ->
  let n := note_gap request (note_exclusions (working routes) (topology_notes context routes)) in
  let a := analyse request routes group (accepted routes) representative n in
  cr_outcome answer = verdict (topology_matches context routes) group representative a /\
  cr_matched_path answer = matched_path_of (an_matched a) /\
  cr_differences answer = an_differences a /\
  cr_surface answer = an_surface a /\ cr_freshness answer = an_freshness a /\
  cr_completeness answer = an_completeness a /\ cr_consistency answer = an_consistency a /\
  cr_multipath_ambiguous answer = an_ambiguous a.
Proof.
  intros Hm Hs Ha n a. unfold answer. rewrite Hm, Hs. cbv zeta. fold n.
  assert (judgeable (an_surface a)) as Hj.
  { unfold a, analyse. destruct (consistency_stage _ _ _ _) as [[cs amb] m]. cbn [an_surface].
    apply worst_surface_spec, accepted_judgeable. }
  pose proof (decide_outcome_verdict routes group representative a Hj) as Hv.
  destruct (accepted routes) as [|w l]; [done |]. injection Ha as -> ->.
  unfold accepted_result. fold a. destruct (decide_outcome _ _ _ _ _ _) as [o m].
  cbn [fst] in Hv. by subst o.
Qed.

Lemma analyse_fields routes group acc representative n :
  let a := analyse request routes group acc representative n in
  let members := members_of routes group in
  an_members a = members /\ an_matched a = matched_members members representative /\
  an_any_matches a = existsb (matches_a_member members) acc /\ an_conflict a = find_conflict acc /\
  an_surface a = worst_surface acc /\ an_freshness a = worst_freshness acc /\
  an_structural a = negb (existsb (matches_a_member members) acc) &&
                    negb (length (w_hops representative) =? 0)%nat /\
  (an_completeness a = Complete -> completeness_stage request members acc = Complete) /\
  (an_structural a = false -> an_differences a = []).
Proof.
  unfold analyse. destruct (consistency_stage _ _ _ _) as [[cs amb] m].
  cbn [an_members an_matched an_any_matches an_conflict an_surface an_freshness an_structural
    an_completeness an_differences]. split_and!; try done.
  - destruct (match reference_path request routes group with Some _ => _ | None => _ end); [done | auto].
  - intros ->. by destruct (reference_path request routes group).
Qed.

Lemma completeness_stage_complete members acc :
  completeness_stage request members acc = Complete ->
  rq_source_sequence_gap request = false /\ forall w, w ∈ acc -> record_partial members w = false.
Proof.
  unfold completeness_stage. destruct (rq_source_sequence_gap request); [done |].
  destruct (existsb (record_partial members) acc) eqn:E; [done |]. intros _. split; [done |].
  intros w Hw. destruct (record_partial members w) eqn:F; [| done].
  assert (existsb (record_partial members) acc = true) as G; [| by rewrite G in E].
  apply existsb_elem. by exists w.
Qed.

Lemma trace_exact_member members w :
  matches_a_member members w = true -> record_partial members w = false ->
  exists p, p ∈ members /\ path_hops p <> [] /\ traces_conform (path_hops p) (w_hops w) /\
    (length (path_hops p) <= length (w_hops w))%nat.
Proof.
  intros Hm Hp. unfold record_partial in Hp. bool_prop.
  assert (trace_is_exact members w = true) as He.
  { destruct (trace_is_exact members w) eqn:E; [done |]. cbn [negb] in *. rewrite andb_true_r in *.
    apply matches_a_member_iff in Hm as (p & Hin & [Hx | Hx]).
    - assert (trace_is_exact members w = true) as G; [| by rewrite G in E].
      apply existsb_elem. by exists p.
    - assert (trace_is_prefix members w = true) as G; [| congruence].
      apply existsb_elem. by exists p. }
  apply existsb_elem in He as (p & Hin & Hx). exists p. split; [done |].
  unfold matches_exactly in Hx. apply bool_decide_eq_true in Hx.
  by apply (proj1 (proj2 (compare_trace_cases p (w_hops w)))) in Hx.
Qed.

Lemma supported_spec topology representative surface :
  supported topology representative surface = true <->
  (require_topology_for_match policy = true -> topology = true) /\
  authority_code Advisory <= authority_code (ev_authority (w_evidence representative)) /\
  (require_real_surface_for_match policy = true -> surface = SurfaceReal).
Proof.
  unfold supported. rewrite !andb_true_iff, !orb_true_iff, !negb_true_iff, Z.leb_le, bool_decide_eq_true.
  destruct (require_topology_for_match policy), (require_real_surface_for_match policy); naive_solver.
Qed.

(** What the verdict [Match] rests on. *)
Lemma verdict_match topology group representative a :
  verdict topology group representative a = Match ->
  an_conflict a = None /\ an_freshness a = Fresh /\ an_structural a = false /\
  an_completeness a = Complete /\ supported topology representative (an_surface a) = true /\
  (an_members a <> [] -> present (matched_path_of (an_matched a)) = true).
Proof.
  unfold verdict. destruct (an_conflict a) as [c|]; [by rewrite bool_decide_eq_true_2 by eauto |].
  rewrite bool_decide_eq_false_2 by (by intros [? ?]).
  case_bool_decide; cbn [negb]; [| done]. destruct (an_structural a); [done |].
  destruct (_ && an_ambiguous a); [done |]. case_bool_decide; cbn [negb]; [| done].
  destruct (supported _ _ _); cbn [negb]; [| done]. destruct (_ && _ && _); [done |].
  destruct (present (matched_path_of (an_matched a))); [done |].
  rewrite andb_true_r. destruct (an_members a); [| done]. intros _. by split_and!.
Qed.

Lemma verdict_divergent topology group representative a :
  verdict topology group representative a = Divergent ->
  an_conflict a = None /\ an_freshness a = Fresh /\ an_structural a = true.
Proof.
  unfold verdict. destruct (an_conflict a) as [c|]; [by rewrite bool_decide_eq_true_2 by eauto |].
  rewrite bool_decide_eq_false_2 by (by intros [? ?]).
  case_bool_decide; cbn [negb]; [| done]. destruct (an_structural a); [done |].
  destruct (_ && an_ambiguous a); [done |]. case_bool_decide; cbn [negb]; [| done].
  destruct (supported _ _ _); cbn [negb]; [| done]. destruct (_ && _ && _); [done |].
  by destruct (_ && _).
Qed.

(** The branch a result with a definite outcome came from. *)
Lemma answer_definite :
  cr_outcome answer = Match \/ cr_outcome answer = Divergent ->
  exists routes group representative rest,
    matching_routes request context = Some routes /\ resolve_subject request routes = Some group /\
    accepted routes = representative :: rest.
Proof.
  unfold answer. destruct (matching_routes request context) as [routes|] eqn:Em; [| by intros [? | ?]].
  destruct (resolve_subject request routes) as [group|] eqn:Es; [| by intros [? | ?]].
  destruct (accepted routes) as [|w l] eqn:E.
  - unfold no_accepted_result. cbn [seal_result cr_outcome]. by case_bool_decide; intros [? | ?].
  - intros _. by exists routes, group, w, l.
Qed.

Lemma matching_routes_spec routes :
  matching_routes request context = Some routes ->
  ctx_routes context = Some routes /\ route_id routes = rq_generation request /\
  route_epoch routes = as_epoch authority /\ route_incarnation routes = as_incarnation authority.
Proof.
  unfold matching_routes. destruct (ctx_routes context) as [r|]; [| done].
  destruct (_ && _) eqn:E; [| done]. intros [= ->]. by bool_prop.
Qed.

(** What a match says. *)
Definition compliance (r : ComparisonResult) : Prop :=
  exists routes group representative,
    ctx_routes context = Some routes /\ route_id routes = rq_generation request /\
    route_epoch routes = as_epoch authority /\ route_incarnation routes = as_incarnation authority /\
    resolve_subject request routes = Some group /\
    (require_topology_for_match policy = true -> topology_matches context routes = true) /\
    rq_source_sequence_gap request = false /\
    (forall w, w ∈ accepted routes ->
       w_evidence w ∈ rq_evidence request /\ admissible routes (w_evidence w) /\
       fa_state (assess_evidence (w_evidence w) (ctx_now context) (policy_for (w_evidence w))) = Fresh /\
       ev_source_truncated (w_evidence w) = false /\
       ev_declared_completeness (w_evidence w) <> Partial /\
       hop_indices_are_contiguous (w_hops w) = true /\
       (require_real_surface_for_match policy = true -> ev_surface (w_evidence w) = SurfaceReal)) /\
    (forall i j a b, (i < j)%nat -> accepted routes !! i = Some a -> accepted routes !! j = Some b ->
       records_conflict a b = false) /\
    representative ∈ accepted routes /\
    authority_code Advisory <= authority_code (ev_authority (w_evidence representative)) /\
    (exists p, p ∈ paths routes /\ path_id p ∈ group_members group /\ path_hops p <> [] /\
       traces_conform (path_hops p) (w_hops representative) /\
       (length (path_hops p) <= length (w_hops representative))%nat) /\
    (exists m, m ∈ group_members group /\ cr_matched_path r = maybe m /\ valid m = true).

Lemma match_compliance (r : ComparisonResult) :
  comparison = Ok r -> cr_outcome r = Match ->
  (forall routes, ctx_routes context = Some routes -> finalised routes) -> compliance r.
Proof.
  intros (_ & _ & _ & ->)%compare_ok Ho Hfin. unfold compliance.
  destruct (answer_definite (or_introl Ho)) as (routes & group & rep & rest & Hm & Hs & Ha).
  destruct (matching_routes_spec routes Hm) as (Hr & Hid & Hep & Hinc).
  destruct (finalised_members routes group (Hfin routes Hr) (resolve_subject_elem routes group Hs)) as [Hne Hmem].
  destruct (answer_accepted routes group rep rest Hm Hs Ha) as (Hv & Hmp & _).
  set (n := note_gap request _) in *. rewrite Ho in Hv. symmetry in Hv.
  destruct (analyse_fields routes group (accepted routes) rep n)
    as (Fm & Fma & _ & Fc & Fs & Ff & Fst & Fco & _).
  destruct (verdict_match _ _ _ _ Hv) as (Vc & Vf & Vst & Vco & Vsup & Vp).
  rewrite Fm in Vp. specialize (Vp Hne). rewrite Fc in Vc. rewrite Ff in Vf.
  destruct (completeness_stage_complete _ _ (Fco Vco)) as [Hgap Hpart].
  apply worst_freshness_spec in Vf. rewrite Forall_elem in Vf.
  assert (rep ∈ accepted routes) as Hrep by (rewrite Ha; constructor).
  rewrite Fs in *. apply supported_spec in Vsup as (Htopo & Hauth & Hreal).
  pose proof (fun H => proj1 (proj2 (worst_surface_spec _ (accepted_judgeable routes))) (Hreal H)) as Hreal'.
  clear Hreal. rename Hreal' into Hreal.
  assert (an_matched (analyse request routes group (accepted routes) rep n) <> []) as Hmatched.
  { intros E. by rewrite E in Vp. }
  rewrite Hmp. rewrite Fma in *.
  exists routes, group, rep. do 5 (split; [done |]). split; [| split; [done |]].
  { exact Htopo. }
  split.
  { intros w Hw. destruct (accepted_evidence routes w Hw) as (Hev & Hadm & Ew).
    pose proof (Hpart w Hw) as Hp. unfold record_partial in Hp. bool_prop.
    destruct (judge_admissible routes (w_evidence w) Hadm) as (_ & _ & _ & Hfr).
    rewrite <- Ew in Hfr. split_and!; try done.
    - rewrite <- Hfr. by apply Vf.
    - intros Hr'. specialize (Hreal Hr'). rewrite Forall_elem in Hreal. by apply Hreal. }
  split; [by apply find_conflict_none |]. split; [done |]. split; [done |]. split.
  - destruct (trace_exact_member (members_of routes group) rep) as (p & Hp & ? & ? & ?).
    + destruct (matches_a_member (members_of routes group) rep) eqn:E; [done |].
      by apply matched_members_nil in E.
    + by apply Hpart.
    + destruct (Hmem p Hp) as (? & ? & _). exists p. by split_and!.
  - destruct (matched_members (members_of routes group) rep) as [|m ms] eqn:E; [done |].
    exists m. assert (m ∈ matched_members (members_of routes group) rep) as Hin by (rewrite E; constructor).
    apply matched_members_elem in Hin as (p & Hp & <- & _). destruct (Hmem p Hp) as (? & ? & ? & ?).
    by split_and!.
Qed.

(** C1. A match is a compliance statement.  When the outcome is [Match] for a
    finalised plan: the plan is the requested generation of the current epoch
    and incarnation; the topology matches when the policy asks for it; no
    sequence gap was reported; every accepted record is admissible, fresh under
    the policy of its source, untruncated, not declared partial and without
    holes in its hop indices; no two accepted records of one claimed path
    disagree; the representative record carries at least advisory authority and
    its trace agrees hop by hop with the whole of a declared member of the
    subject; and the result names a member of the subject. *)
Theorem match_is_compliance (r : ComparisonResult) :
  comparison = Ok r -> cr_outcome r = Match ->
  (forall routes, ctx_routes context = Some routes -> finalised routes) ->
  exists routes group representative,
    ctx_routes context = Some routes /\ route_id routes = rq_generation request /\
    route_epoch routes = as_epoch authority /\ route_incarnation routes = as_incarnation authority /\
    resolve_subject request routes = Some group /\
    (require_topology_for_match policy = true -> topology_matches context routes = true) /\
    rq_source_sequence_gap request = false /\
    (forall w, w ∈ accepted routes ->
       w_evidence w ∈ rq_evidence request /\ admissible routes (w_evidence w) /\
       fa_state (assess_evidence (w_evidence w) (ctx_now context) (policy_for (w_evidence w))) = Fresh /\
       ev_source_truncated (w_evidence w) = false /\
       ev_declared_completeness (w_evidence w) <> Partial /\
       hop_indices_are_contiguous (w_hops w) = true /\
       (require_real_surface_for_match policy = true -> ev_surface (w_evidence w) = SurfaceReal)) /\
    (forall i j a b, (i < j)%nat -> accepted routes !! i = Some a -> accepted routes !! j = Some b ->
       records_conflict a b = false) /\
    representative ∈ accepted routes /\
    authority_code Advisory <= authority_code (ev_authority (w_evidence representative)) /\
    (exists p, p ∈ paths routes /\ path_id p ∈ group_members group /\ path_hops p <> [] /\
       traces_conform (path_hops p) (w_hops representative) /\
       (length (path_hops p) <= length (w_hops representative))%nat) /\
    (exists m, m ∈ group_members group /\ cr_matched_path r = maybe m /\ valid m = true).
Proof. apply match_compliance. Qed.

Lemma unmatched_nonconforming routes group w p :
  finalised routes -> group ∈ groups routes -> p ∈ members_of routes group ->
  matches_a_member (members_of routes group) w = false -> w_hops w <> [] ->
  ~ traces_conform (path_hops p) (w_hops w).
Proof.
  intros Hf Hg Hp Hm Hh. destruct (finalised_members routes group Hf Hg) as [_ Hmem].
  destruct (Hmem p Hp) as (_ & _ & Hne & _).
  destruct (compare_trace_cases p (w_hops w)) as (_ & He & Hpre & _). intros Hc.
  rewrite <- not_true_iff_false in Hm. apply Hm, matches_a_member_iff. exists p. split; [done |].
  unfold matches_exactly, matches_prefix. rewrite !bool_decide_eq_true, He, Hpre.
  destruct (le_lt_dec (length (path_hops p)) (length (w_hops w))); [by left | by right].
Qed.

(** C15. A divergence is never inferred from doubt.  When the outcome is
    [Divergent] for a finalised plan, the accepted records are admissible, all
    fresh under the policy of their sources and free of conflict, the representative
    observed at least one hop, and every accepted record that observed a hop
    contradicts every declared member of the subject at a compared position: an
    observation that agrees with any alternative of a multipath group is not
    divergence.  Accepted records without hops contradict nothing. *)
Theorem divergence_is_contradiction (r : ComparisonResult) :
  comparison = Ok r -> cr_outcome r = Divergent ->
  (forall routes, ctx_routes context = Some routes -> finalised routes) ->
  exists routes group representative,
    matching_routes request context = Some routes /\ resolve_subject request routes = Some group /\
    representative ∈ accepted routes /\ w_hops representative <> [] /\
    find_conflict (accepted routes) = None /\
    (forall w, w ∈ accepted routes ->
       admissible routes (w_evidence w) /\
       fa_state (assess_evidence (w_evidence w) (ctx_now context) (policy_for (w_evidence w))) = Fresh /\
       (w_hops w <> [] -> forall p, p ∈ members_of routes group ->
          ~ traces_conform (path_hops p) (w_hops w))).
Proof.
  intros (_ & _ & _ & ->)%compare_ok Ho Hfin.
  destruct (answer_definite (or_intror Ho)) as (routes & group & rep & rest & Hm & Hs & Ha).
  destruct (matching_routes_spec routes Hm) as (Hr & _).
  destruct (answer_accepted routes group rep rest Hm Hs Ha) as (Hv & _).
  set (n := note_gap request _) in *. rewrite Ho in Hv. symmetry in Hv.
  destruct (analyse_fields routes group (accepted routes) rep n)
    as (_ & _ & _ & Fc & _ & Ff & Fst & _).
  destruct (verdict_divergent _ _ _ _ Hv) as (Vc & Vf & Vst).
  rewrite Fc in Vc. rewrite Ff in Vf. rewrite Fst in Vst.
  apply worst_freshness_spec in Vf. rewrite Forall_elem in Vf. bool_prop.
  exists routes, group, rep. do 2 (split; [done |]). split; [rewrite Ha; constructor |].
  split; [intros E; by rewrite E in * |]. split; [done |].
  intros w Hw. destruct (accepted_evidence routes w Hw) as (_ & Hadm & Ew).
  destruct (judge_admissible routes (w_evidence w) Hadm) as (_ & _ & _ & Hfr). rewrite <- Ew in Hfr.
  split_and!; [done | rewrite <- Hfr; by apply Vf |].
  intros Hh p Hp. apply (unmatched_nonconforming routes group); try done.
  - by apply Hfin.
  - by apply resolve_subject_elem.
  - destruct (matches_a_member (members_of routes group) w) eqn:E; [| done].
    assert (existsb (matches_a_member (members_of routes group)) (accepted routes) = true) as G;
      [| by rewrite G in *]. apply existsb_elem. by exists w.
Qed.

(** Multipath.  As soon as one accepted trace agrees with one declared
    member of the subject, in whole or as a prefix, the comparison is not
    divergent and reports no hop difference. *)
Theorem multipath_member_not_divergent (r : ComparisonResult) (routes : RouteGeneration)
    (group : PathGroup) (w : Working) (p : ExpectedPath) :
  comparison = Ok r -> matching_routes request context = Some routes ->
  resolve_subject request routes = Some group -> w ∈ accepted routes ->
  p ∈ members_of routes group -> traces_conform (path_hops p) (w_hops w) ->
  path_hops p <> [] -> w_hops w <> [] ->
  cr_outcome r <> Divergent /\ cr_differences r = [].
Proof.
  intros (_ & _ & _ & ->)%compare_ok Hm Hs Hw Hp Hc Hne Hh.
  destruct (accepted routes) as [|rep rest] eqn:Ha; [by apply elem_of_nil in Hw |].
  destruct (answer_accepted routes group rep rest Hm Hs Ha) as (Hv & _ & Hd & _).
  rewrite Ha in Hv, Hd. set (n := note_gap request _) in *.
  destruct (analyse_fields routes group (rep :: rest) rep n) as (_ & _ & _ & _ & _ & _ & Fst & _ & Fd).
  assert (existsb (matches_a_member (members_of routes group)) (rep :: rest) = true) as Hex.
  { apply existsb_elem. exists w. split; [done |]. apply matches_a_member_iff. exists p. split; [done |].
    destruct (compare_trace_cases p (w_hops w)) as (_ & He & Hpre & _).
    unfold matches_exactly, matches_prefix. rewrite !bool_decide_eq_true, He, Hpre.
    destruct (le_lt_dec (length (path_hops p)) (length (w_hops w))); [by left | by right]. }
  rewrite Hex in Fst. cbn [negb andb] in Fst. rewrite Hd. split; [| by apply Fd].
  intros E. rewrite Hv in E. destruct (verdict_divergent _ _ _ _ E) as (_ & _ & F). congruence.
Qed.

Lemma empty_rejection_spec l :
  (empty_rejection l = EvidenceUnsupported -> exists w, w ∈ l /\ w_rejection w = EvidenceUnsupported) /\
  empty_rejection l <> DivNone.
Proof.
  unfold empty_rejection. set (step := fun rejection w => _).
  assert (forall d, d <> DivNone ->
    (foldl step d l = EvidenceUnsupported -> d = EvidenceUnsupported \/
       exists w, w ∈ l /\ w_rejection w = EvidenceUnsupported) /\ foldl step d l <> DivNone) as Haux.
  { induction l as [|w l IH]; intros d Hd; simpl; [split; [by left | done] |].
    assert (step d w = d \/ step d w = w_rejection w /\ w_rejection w <> DivNone) as Hst.
    { unfold step. case_bool_decide; [by left |]. destruct (_ || _); [by right | by left]. }
    destruct (IH (step d w)) as [H1 H2]; [by destruct Hst as [-> | [-> ?]] |]. split; [| done].
    intros E. destruct (H1 E) as [E' | (x & Hx & ?)].
    - destruct Hst as [Hst | [Hst _]]; [left; congruence |]. right. exists w. split; [constructor | congruence].
    - right. exists x. split; [by constructor | done]. }
  destruct (Haux EvidenceUnknown ltac:(done)) as [H1 H2]. split; [| done].
  intros E. by destruct (H1 E) as [? | ?].
Qed.

(** Absence of evidence is not evidence.  When the subject is in the plan
    and no record was accepted, the outcome is never a match nor a divergence:
    it is [Unsupported] only if some record was excluded for its surface, and
    [Indeterminate] otherwise; no freshness, completeness or matched path is
    claimed and the primary class is an evidence problem, never [none]. *)
Theorem no_evidence_no_conclusion (r : ComparisonResult) (routes : RouteGeneration) (group : PathGroup) :
  comparison = Ok r -> matching_routes request context = Some routes ->
  resolve_subject request routes = Some group -> accepted routes = [] ->
  (cr_outcome r = Indeterminate \/
   cr_outcome r = OutcomeUnsupported /\
     exists w, w ∈ working routes /\ w_rejection w = EvidenceUnsupported) /\
  cr_freshness r = FreshUnknown /\ cr_completeness r = CompletenessUnknown /\
  cr_matched_path r = absent /\ cr_differences r = [] /\ cr_primary r <> DivNone.
Proof.
  intros (_ & _ & _ & ->)%compare_ok Hm Hs Ha. unfold answer. rewrite Hm, Hs, Ha.
  unfold no_accepted_result. cbn [seal_result cr_outcome cr_freshness cr_completeness cr_matched_path
    cr_differences cr_primary].
  destruct (empty_rejection_spec (working routes)) as [Hu Hn]. split.
  - case_bool_decide as E; [right | by left]. split; [done | by apply Hu].
  - do 4 (split; [done |]). set (n := note_class _ _).
    destruct (select_primary_go_spec None (n_classes n) I) as [H1 _]. intros E. specialize (H1 E).
    rewrite Forall_elem in H1. apply Hn, H1. by apply note_class_elem.
Qed.
End Engine.

(** ** Independence of the submission order *)

(** The comparator is lexicographic on one key. *)
Definition working_key (w : Working) : list Z :=
  let e := w_evidence w in
  [- authority_code (ev_authority e); freshness_severity (w_freshness w);
   - completeness_code (ev_declared_completeness e); - unix_nanos (ev_received_at e);
   - value (ev_sequence e)] ++ id_bytes (ev_id e).

Lemma working_lt_key a b : working_lt a b = klt (working_key a) (working_key b).
Proof.
  unfold working_lt, working_key. cbn [klt bytes_key_order app lex_lt].
  assert (forall (P : Prop) (dec : Decision P) (x y : Z) (k : bool),
    (P <-> x = y) ->
    (if - x <? - y then true else if - y <? - x then false else k) =
    (if negb (bool_decide P) then y <? x else k)) as Hdesc.
  { intros P dec x y k HP. destruct (decide P) as [H|H];
      [rewrite bool_decide_eq_true_2 by done | rewrite bool_decide_eq_false_2 by done]; rewrite HP in H; cbn [negb];
      repeat case_goal; bool_prop; try done; try lia; symmetry; first [apply Z.ltb_lt | apply Z.ltb_ge]; lia. }
  rewrite (Hdesc (ev_authority (w_evidence a) = ev_authority (w_evidence b)) _);
    [| split; [by intros -> | apply authority_code_inj]].
  f_equal. destruct (freshness_severity (w_freshness a) =? freshness_severity (w_freshness b)) eqn:E; bool_prop.
  - rewrite E, Z.ltb_irrefl. cbn [negb].
    rewrite (Hdesc (ev_declared_completeness (w_evidence a) = ev_declared_completeness (w_evidence b)) _);
      [| split; [by intros -> | apply completeness_code_inj]].
    f_equal. rewrite (Hdesc (ev_received_at (w_evidence a) = ev_received_at (w_evidence b)) _).
    2:{ destruct (ev_received_at (w_evidence a)) as [x], (ev_received_at (w_evidence b)) as [y]. simpl.
        split; [by intros [= ->] | by intros ->]. }
    unfold time_lt. f_equal.
    rewrite (Hdesc (ev_sequence (w_evidence a) = ev_sequence (w_evidence b)) _).
    2:{ destruct (ev_sequence (w_evidence a)) as [x], (ev_sequence (w_evidence b)) as [y]. simpl.
        split; [by intros [= ->] | by intros ->]. }
    reflexivity.
  - cbn [negb]. repeat case_goal; bool_prop; try done; lia.
Qed.

Lemma working_key_id a b : working_key a = working_key b -> ev_id (w_evidence a) = ev_id (w_evidence b).
Proof.
  unfold working_key. intros [= _ _ _ _ _ E]. destruct (ev_id (w_evidence a)) as [x], (ev_id (w_evidence b)) as [y].
  simpl in E. by subst.
Qed.

Definition with_evidence (rq : ComparisonRequest) (l : list ObservedPathEvidence) : ComparisonRequest :=
  mk_request (rq_generation rq) (rq_group rq) (rq_path rq) l (rq_source_sequence_gap rq).

(** Different records carry different identities: what content identities give. *)
Definition distinct_identities (l : list ObservedPathEvidence) : Prop :=
  forall a b, a ∈ l -> b ∈ l -> ev_id a = ev_id b -> a = b.

Section Order.
Variables (limits : Limits) (policy : ComparisonPolicy) (request : ComparisonRequest).
Variables (context : ComparisonContext) (l : list ObservedPathEvidence).

Abbreviation working := (working_set limits policy (with_evidence request l) context).
Abbreviation judged_as := (judge limits policy request context).

Lemma with_evidence_judge routes : judge limits policy (with_evidence request l) context routes = judged_as routes.
Proof. reflexivity. Qed.

Lemma sort_by_ext {A} (f g : A -> A -> bool) (xs : list A) :
  (forall a b, f a b = g a b) -> sort_by f xs = sort_by g xs.
Proof.
  intros H. unfold sort_by. induction xs as [|x xs IH]; simpl; [done |]. rewrite IH.
  generalize (foldr (insert_by g) [] xs). intros ys. induction ys as [|y ys IHy]; simpl; [done |].
  by rewrite H, IHy.
Qed.

(** With distinct identities the working set is strictly ordered and holds one
    working record per offered record. *)
Lemma working_set_strict routes :
  distinct_identities l ->
  strictly_ascending working_key (working routes) /\
  forall w, w ∈ working routes <-> exists e, e ∈ l /\ w = judged_as routes e.
Proof.
  intros Hd.
  assert (forall w, w ∈ map (judged_as routes) l <-> exists e, e ∈ l /\ w = judged_as routes e) as Hmap.
  { intros w. rewrite list_elem_of_In, in_map_iff.
    split; intros (e & H1 & H2); exists e; by rewrite ?list_elem_of_In in *. }
  assert (forall a b, a ∈ map (judged_as routes) l -> b ∈ map (judged_as routes) l ->
    same_identity a b = true -> a = b) as Hinj.
  { intros a b (ea & Ha & ->)%Hmap (eb & Hb & ->)%Hmap. unfold same_identity.
    rewrite bool_decide_eq_true, !judge_evidence. intros E. by rewrite (Hd ea eb Ha Hb E). }
  unfold working_set, judged. rewrite with_evidence_judge. cbn [with_evidence rq_evidence].
  rewrite (sort_by_ext working_lt (fun a b => klt (working_key a) (working_key b))) by apply working_lt_key.
  split.
  - apply sort_unique_strict. intros a b Ha Hb. split; [intros E; by rewrite (Hinj a b Ha Hb E) |].
    intros E%working_key_id. by apply bool_decide_eq_true.
  - intros w. rewrite <- Hmap.
    rewrite <- (elem_of_sort_by (fun a b => klt (working_key a) (working_key b)) w (map (judged_as routes) l)).
    apply unique_by_elem_on. intros a b. rewrite !elem_of_sort_by. apply Hinj.
Qed.
End Order.

(** Every record of a list has a representative among its unique ones. *)
Lemma unique_by_covers {A} (eqb : A -> A -> bool) (l : list A) x :
  (forall y, eqb y y = true) -> x ∈ l -> exists y, y ∈ unique_by eqb l /\ eqb y x = true.
Proof.
  intros Hrefl. destruct l as [|z l]; [by intros H%elem_of_nil |]. cbn [unique_by].
  revert z. induction l as [|w l IH]; intros z Hx.
  { apply list_elem_of_singleton in Hx as ->. exists z. split; [left | done]. }
  apply elem_of_cons in Hx as [-> | Hx]; [exists z; split; [left | done] |]. cbn [unique_from]. destruct (eqb z w) eqn:E.
  - apply elem_of_cons in Hx as [-> | Hx]; [exists z; split; [left | done] |]. apply IH. by right.
  - destruct (IH w Hx) as (y & Hy & Hyx). exists y. split; [by right | done].
Qed.

Section Accounting.
Variables (limits : Limits) (policy : ComparisonPolicy) (request : ComparisonRequest) (context : ComparisonContext).

Abbreviation judgements_of routes := (map judgement_of (working_set limits policy request context routes)).

(** There is a judgement for the identity of every offered record, and for no other. *)
Lemma judgements_identities routes i :
  i ∈ map ej_id (judgements_of routes) <-> i ∈ map ev_id (rq_evidence request).
Proof.
  assert (forall w, w ∈ judged limits policy request context routes <->
    exists e, e ∈ rq_evidence request /\ w = judge limits policy request context routes e) as Hj.
  { intros w. unfold judged. rewrite elem_of_sort_by, list_elem_of_In, in_map_iff.
    split; intros (e & H1 & H2); exists e; by rewrite ?list_elem_of_In in *. }
  rewrite !list_elem_of_In, !in_map_iff. split.
  - intros (j & <- & Hin). apply in_map_iff in Hin as (w & <- & Hw%list_elem_of_In).
    unfold working_set in Hw. apply unique_by_sub, Hj in Hw as (e & He & ->).
    exists e. split; [cbn; by rewrite judge_evidence | by apply list_elem_of_In].
  - intros (e & <- & He%list_elem_of_In).
    destruct (unique_by_covers same_identity (judged limits policy request context routes)
      (judge limits policy request context routes e)) as (w & Hw & E).
    { intros y. by apply bool_decide_eq_true. }
    { apply Hj. by exists e. }
    apply bool_decide_eq_true in E. rewrite judge_evidence in E.
    exists (judgement_of w). split; [exact E |]. by apply in_map, list_elem_of_In.
Qed.

(** Where identities are distinct, no two judgements are about one record. *)
Lemma judgements_distinct routes :
  distinct_identities (rq_evidence request) -> NoDup (map ej_id (judgements_of routes)).
Proof.
  intros Hd. destruct (working_set_strict limits policy request context (rq_evidence request) routes Hd) as [Hs He].
  replace (with_evidence request (rq_evidence request)) with request in Hs, He by by destruct request.
  assert (forall w, w ∈ working_set limits policy request context routes -> exists e, e ∈ rq_evidence request /\
    w = judge limits policy request context routes e) as Hj.
  { intros w (e & Hin & ->)%He. by exists e. }
  clear He. revert Hs Hj. unfold strictly_ascending. generalize (working_set limits policy request context routes).
  intros ws Hs. induction Hs as [|w ws Hs IH Hf]; intros Hj; cbn [map]; [constructor |].
  constructor; [| apply IH; intros; apply Hj; by right].
  rewrite list_elem_of_In, in_map_iff. intros (j & E & Hin). apply in_map_iff in Hin as (v & <- & Hv%list_elem_of_In).
  destruct (Hj w) as (e & Hin & ->); [left |]. destruct (Hj v) as (e' & Hin' & ->); [by right |].
  cbn [judgement_of ej_id] in E. rewrite !judge_evidence in E.
  rewrite (Hd e' e Hin' Hin E) in Hv. rewrite Forall_elem in Hf. specialize (Hf _ Hv). by rewrite klt_irrefl in Hf.
Qed.

(** C17. Every request is answered.  [compare] fails exactly when the policy is
    invalid, the request names no generation or the evidence exceeds the bound,
    each with its own error; otherwise it returns a result sealed with the digest
    of its own canonical encoding.  When the generation is the current one and the
    subject is in its plan, the considered, rejected and duplicate records are as
    many as were offered, there is one judgement per record that is not a
    duplicate, the judgements are about exactly the identities that were offered,
    and each identity has only one as soon as records with one identity are equal;
    otherwise nothing is judged and nothing is counted but the offer. *)
Theorem compare_total :
  match compare limits policy request context with
  | Ok r =>
      policy_validate (cp_freshness policy) = ok /\ valid (rq_generation request) = true /\
      Z.of_nat (length (rq_evidence request)) <= max_evidence_per_comparison limits /\
      cr_id r = from_digest (digest_of (result_canonical r)) /\
      cr_evidence_offered r = length (rq_evidence request) /\
      length (cr_judgements r) = (cr_evidence_considered r + cr_evidence_rejected r)%nat /\
      match (routes ← matching_routes request context; resolve_subject request routes) with
      | Some _ =>
          (cr_evidence_considered r + cr_evidence_rejected r + cr_duplicate_evidence r =
           length (rq_evidence request))%nat /\
          (forall i, i ∈ map ej_id (cr_judgements r) <-> i ∈ map ev_id (rq_evidence request)) /\
          (distinct_identities (rq_evidence request) -> NoDup (map ej_id (cr_judgements r)))
      | None =>
          cr_judgements r = [] /\ cr_evidence_considered r = 0%nat /\ cr_evidence_rejected r = 0%nat /\
          cr_duplicate_evidence r = 0%nat
      end
  | Err e =>
      policy_validate (cp_freshness policy) = Err e \/
      policy_validate (cp_freshness policy) = ok /\
        (valid (rq_generation request) = false /\ code e = InvalidIdentity \/
         valid (rq_generation request) = true /\ code e = CapacityExceeded /\
         max_evidence_per_comparison limits < Z.of_nat (length (rq_evidence request)))
  end.
Proof.
  destruct (compare limits policy request context) as [r|e] eqn:E; [| by eapply compare_err].
  apply compare_ok in E as (Hp & Hv & Hl & Hr). do 3 (split; [done |]). unfold answer in Hr.
  destruct (matching_routes request context) as [routes|]; cbn [mbind option_bind]; [| subst; by split_and!].
  pose proof (working_counts limits policy request context routes) as Hc.
  pose proof (filter_length_split w_accepted (working_set limits policy request context routes)) as Hs.
  fold (accepted_of (working_set limits policy request context routes)) in Hs. unfold rejected_of in *.
  destruct (resolve_subject request routes) as [group|]; [| subst; by split_and!].
  pose proof (judgements_identities routes) as Hi. pose proof (judgements_distinct routes) as Hd. cbv zeta in Hr.
  destruct (accepted_of (working_set limits policy request context routes)) as [|w l]; subst r.
  - split_and!; [done | done | | exact Hc | exact Hi | exact Hd]. etransitivity; [apply length_map |]. symmetry. exact Hs.
  - unfold accepted_result. destruct (decide_outcome _ _ _ _ _ _) as [o n].
    split_and!; [done | done | | exact Hc | exact Hi | exact Hd]. etransitivity; [apply length_map |]. symmetry. exact Hs.
Qed.
End Accounting.

(** Everything a result says, apart from the size of the submission. *)
Definition classification (r : ComparisonResult) : ComparisonResult :=
  mk_result (cr_id r) (cr_generation r) (cr_topology r) (cr_group r) (cr_path r) (cr_matched_path r)
    (cr_outcome r) (cr_primary r) (cr_classes r) (cr_freshness r) (cr_completeness r) (cr_consistency r)
    (cr_surface r) (cr_multipath r) (cr_multipath_ambiguous r) 0 (cr_evidence_considered r)
    (cr_evidence_rejected r) 0 (cr_judgements r) (cr_differences r) (cr_rationale r) (cr_evaluated_at r).

(** The reference path does not depend on which record comes first: no record
    names a path, or the request names one of the subject. *)
Definition reference_fixed (request : ComparisonRequest) (context : ComparisonContext)
    (l : list ObservedPathEvidence) : Prop :=
  (forall e, e ∈ l -> present (ev_path e) = false) \/
  (forall routes group, matching_routes request context = Some routes ->
     resolve_subject request routes = Some group ->
     requested_reference request routes (group_id group) <> None).

Lemma claimed_reference_none routes gid l :
  (forall e, e ∈ l -> present (ev_path e) = false) -> claimed_reference routes gid l = None.
Proof.
  induction l as [|e l IH]; intros H; simpl; [done |].
  rewrite (H e) by constructor. cbn [negb]. apply IH. intros e' He'. apply H. by constructor.
Qed.

Lemma resolve_subject_explicit request l routes :
  subject_explicit request = true -> resolve_subject (with_evidence request l) routes = resolve_subject request routes.
Proof.
  unfold subject_explicit, resolve_subject. cbn [with_evidence rq_group rq_path rq_evidence].
  destruct (present (rq_group request)); [done |]. cbn [orb]. by intros ->.
Qed.

Lemma reference_path_fixed request context l l' routes group :
  (forall e, e ∈ l <-> e ∈ l') -> reference_fixed request context l ->
  matching_routes request context = Some routes -> resolve_subject request routes = Some group ->
  reference_path (with_evidence request l) routes group = reference_path (with_evidence request l') routes group.
Proof.
  intros Hl Hf Hm Hs. unfold reference_path.
  change (requested_reference (with_evidence request l)) with (requested_reference request).
  change (requested_reference (with_evidence request l')) with (requested_reference request).
  cbn [with_evidence rq_evidence]. destruct (requested_reference _ _ _) as [p|] eqn:E; [done |].
  destruct Hf as [Hn | Hr]; [| by destruct (Hr routes group Hm Hs)].
  rewrite !claimed_reference_none; [done | | done]. intros e He. by apply Hn, Hl.
Qed.

Section TwoSubmissions.
Variables (limits : Limits) (policy : ComparisonPolicy) (request : ComparisonRequest).
Variables (context : ComparisonContext) (l l' : list ObservedPathEvidence).
Hypothesis Hset : forall e, e ∈ l <-> e ∈ l'.
Hypothesis Hids : distinct_identities l.

Lemma working_set_same routes :
  working_set limits policy (with_evidence request l) context routes =
  working_set limits policy (with_evidence request l') context routes.
Proof.
  assert (distinct_identities l') as Hids'.
  { intros a b Ha Hb. apply Hids; by apply Hset. }
  destruct (working_set_strict limits policy request context l routes Hids) as [S1 E1].
  destruct (working_set_strict limits policy request context l' routes Hids') as [S2 E2].
  apply (strictly_ascending_ext working_key); [done | done |].
  intros w. rewrite E1, E2. by setoid_rewrite Hset.
Qed.

Lemma analyse_same routes group acc representative n :
  reference_path (with_evidence request l) routes group = reference_path (with_evidence request l') routes group ->
  analyse (with_evidence request l) routes group acc representative n =
  analyse (with_evidence request l') routes group acc representative n.
Proof. intros E. unfold analyse. by rewrite E. Qed.

(** Results that differ in the submission counts only are sealed alike. *)
Lemma seal_result_classification r r' :
  classification r = classification r' -> classification (seal_result r) = classification (seal_result r').
Proof.
  intros E. assert (result_canonical r = result_canonical r') as Ec.
  { change (result_canonical r) with (result_canonical (classification r)).
    change (result_canonical r') with (result_canonical (classification r')). by rewrite E. }
  unfold seal_result, classification in *. rewrite Ec. by injection E as _ -> -> -> -> -> -> -> -> -> -> -> ->
    -> -> -> -> -> -> -> ->.
Qed.
Lemma answer_same :
  subject_explicit request = true -> reference_fixed request context l ->
  classification (answer limits policy (with_evidence request l) context) =
  classification (answer limits policy (with_evidence request l') context).
Proof.
  intros Hexp Href. unfold answer.
  change (matching_routes (with_evidence request l) context) with (matching_routes request context).
  change (matching_routes (with_evidence request l') context) with (matching_routes request context).
  destruct (matching_routes request context) as [routes|] eqn:Hm; [| reflexivity].
  rewrite !resolve_subject_explicit by done.
  destruct (resolve_subject request routes) as [group|] eqn:Hs; [| reflexivity].
  rewrite working_set_same. cbv zeta.
  change (note_gap (with_evidence request l)) with (note_gap request).
  change (note_gap (with_evidence request l')) with (note_gap request).
  set (n := note_gap request _). set (ws := working_set _ _ _ _ _).
  destruct (accepted_of ws) as [|w rest] eqn:Ha; [by apply seal_result_classification |].
  unfold accepted_result.
  rewrite (analyse_same routes group (w :: rest) w n (reference_path_fixed _ _ _ _ _ _ Hset Href Hm Hs)).
  destruct (decide_outcome _ _ _ _ _ _) as [o m]. by apply seal_result_classification.
Qed.

(** C14. For a request with an explicit subject, whose reference path is fixed (no
    record names a path, or the request names one of its subject) and for records
    of which any two with one identity are equal, the classification does not
    depend on how they are submitted: two submissions that contain the same
    records, in any order and with any repetition, get the same result in every
    field but the submission counts, and the same identity.  Without an explicit
    subject or a fixed reference the first record of the submission that names one
    decides them ([fenced_record_names_subject]). *)
Theorem submission_order_irrelevant (r r' : ComparisonResult) :
  compare limits policy (with_evidence request l) context = Ok r ->
  compare limits policy (with_evidence request l') context = Ok r' ->
  subject_explicit request = true -> reference_fixed request context l ->
  classification r = classification r'.
Proof.
  intros (_ & _ & _ & ->)%compare_ok (_ & _ & _ & ->)%compare_ok. apply answer_same.
Qed.
End TwoSubmissions.

(** ** Rejected evidence is inert *)

Lemma accepted_strict limits policy request context l routes :
  distinct_identities l ->
  let ws := working_set limits policy (with_evidence request l) context routes in
  strictly_ascending working_key (accepted_of ws) /\
  forall w, w ∈ accepted_of ws <->
    exists e, e ∈ l /\ admissible limits policy request context routes e /\
      w = judge limits policy request context routes e.
Proof.
  intros Hd ws. destruct (working_set_strict limits policy request context l routes Hd) as [Hs He].
  split; [by apply strictly_ascending_filter |]. intros w. unfold accepted_of.
  rewrite list_elem_of_In, filter_In, <- list_elem_of_In. unfold ws. rewrite He. split.
  - intros [(e & Hin & ->) Ha]. exists e. split_and!; [done | by apply judge_accepted | done].
  - intros (e & Hin & Ha & ->). split; [by exists e | by apply judge_accepted].
Qed.

(** The analysis uses the notes only to extend them. *)
Lemma analyse_notes request routes group acc representative n n' :
  let a := analyse request routes group acc representative n in
  let a' := analyse request routes group acc representative n' in
  an_members a = an_members a' /\ an_matched a = an_matched a' /\ an_any_matches a = an_any_matches a' /\
  an_conflict a = an_conflict a' /\ an_surface a = an_surface a' /\ an_freshness a = an_freshness a' /\
  an_consistency a = an_consistency a' /\ an_ambiguous a = an_ambiguous a' /\
  an_structural a = an_structural a' /\ an_differences a = an_differences a' /\
  an_completeness a = an_completeness a'.
Proof.
  unfold analyse.
  assert ((consistency_stage (find_conflict acc) (worst_surface acc)
      (distinct_members (members_of routes group) acc) n).1 =
    (consistency_stage (find_conflict acc) (worst_surface acc)
      (distinct_members (members_of routes group) acc) n').1) as E.
  { unfold consistency_stage. destruct (find_conflict acc); [done |].
    destruct (bool_decide _); [done |]. by destruct (1 <? _)%nat. }
  destruct (consistency_stage _ _ _ n) as [[cs amb] m], (consistency_stage _ _ _ n') as [[cs' amb'] m'].
  cbn [fst] in E. injection E as -> ->. by split_and!.
Qed.

(** C13. Fenced evidence cannot speak.  Take two submissions to a request with an
    explicit subject for the routes of the generation it names, in each of which
    records with one identity are equal and whose reference path is fixed: no
    record of the submission names a path, or the request names one of its subject.
    When they have the same admissible records, and at least one, the outcome, the
    matched path, the freshness, completeness, consistency and surface verdicts and
    the hop differences are the same, whatever else was submitted.  Without an
    explicit subject a rejected record can decide what the verdict is about
    ([fenced_record_names_subject]). *)
Theorem inadmissible_evidence_inert (limits : Limits) (policy : ComparisonPolicy)
    (request : ComparisonRequest) (context : ComparisonContext) (routes : RouteGeneration)
    (l l' : list ObservedPathEvidence) (r r' : ComparisonResult) :
  compare limits policy (with_evidence request l) context = Ok r ->
  compare limits policy (with_evidence request l') context = Ok r' ->
  matching_routes request context = Some routes ->
  distinct_identities l -> distinct_identities l' ->
  (forall e, admissible limits policy request context routes e -> e ∈ l <-> e ∈ l') ->
  (exists e, e ∈ l /\ admissible limits policy request context routes e) ->
  subject_explicit request = true ->
  reference_fixed request context l -> reference_fixed request context l' ->
  cr_outcome r = cr_outcome r' /\ cr_matched_path r = cr_matched_path r' /\
  cr_freshness r = cr_freshness r' /\ cr_completeness r = cr_completeness r' /\
  cr_consistency r = cr_consistency r' /\ cr_surface r = cr_surface r' /\
  cr_differences r = cr_differences r' /\ cr_multipath_ambiguous r = cr_multipath_ambiguous r'.
Proof.
  intros (_ & _ & _ & ->)%compare_ok (_ & _ & _ & ->)%compare_ok Hm Hd Hd' Hadm (e & He & Ha) Hexp Hf Hf'.
  pose proof (resolve_subject_explicit request l routes Hexp) as Rl.
  pose proof (resolve_subject_explicit request l' routes Hexp) as Rl'.
  destruct (resolve_subject request routes) as [group|] eqn:Hs.
  2:{ unfold answer.
      change (matching_routes (with_evidence request l) context) with (matching_routes request context).
      change (matching_routes (with_evidence request l') context) with (matching_routes request context).
      by rewrite Hm, Rl, Rl'. }
  destruct (accepted_strict limits policy request context l routes Hd) as [S1 E1].
  destruct (accepted_strict limits policy request context l' routes Hd') as [S2 E2].
  assert (accepted_of (working_set limits policy (with_evidence request l) context routes) =
    accepted_of (working_set limits policy (with_evidence request l') context routes)) as Eacc.
  { apply (strictly_ascending_ext working_key); [done | done |]. intros w. rewrite E1, E2.
    split; intros (x & Hx & Hax & ->); exists x; (split; [| done]); by apply (Hadm x Hax). }
  destruct (accepted_of (working_set limits policy (with_evidence request l) context routes))
    as [|rep rest] eqn:Hacc.
  { assert (judge limits policy request context routes e ∈ (@nil Working)) as Hn by (apply E1; by exists e).
    by apply elem_of_nil in Hn. }
  assert (reference_path (with_evidence request l) routes group =
    reference_path (with_evidence request l') routes group) as Eref.
  { unfold reference_path.
    change (requested_reference (with_evidence request l)) with (requested_reference request).
    change (requested_reference (with_evidence request l')) with (requested_reference request).
    cbn [with_evidence rq_evidence].
    destruct (requested_reference request routes (group_id group)) as [p|] eqn:E; [done |].
    destruct Hf as [Hn | Hr]; [| by destruct (Hr routes group Hm Hs)].
    destruct Hf' as [Hn' | Hr]; [| by destruct (Hr routes group Hm Hs)].
    by rewrite !claimed_reference_none. }
  pose proof (answer_accepted limits policy (with_evidence request l) context routes group rep rest Hm Rl Hacc) as A1.
  pose proof (answer_accepted limits policy (with_evidence request l') context routes group rep rest Hm Rl'
    (eq_sym Eacc)) as A2.
  cbv zeta in A1, A2. rewrite Hacc in A1. rewrite <- Eacc in A2.
  rewrite <- (analyse_same request l l' routes group (rep :: rest) rep _ Eref) in A2.
  destruct A1 as (-> & -> & -> & -> & -> & -> & -> & ->). destruct A2 as (-> & -> & -> & -> & -> & -> & -> & ->).
  match goal with |- context [verdict _ _ _ _ (analyse ?q ?ro ?g ?ac ?rp ?n1) =
      verdict _ _ _ _ (analyse _ _ _ _ _ ?n2)] =>
    destruct (analyse_notes q ro g ac rp n1 n2) as (E3 & E4 & E5 & E6 & E7 & E8 & E9 & E10 & E11 & E12 & E13) end.
  unfold verdict. rewrite E3, E4, E5, E6, E7, E8, E9, E10, E11, E12, E13. by split_and!.
Qed.

(** ** The outcome of judged evidence *)

(** C16. The gates implement one decision.  When some record was accepted, the
    outcome is the abstract verdict on the analysis of the accepted traces, by
    decreasing precedence: a conflict or any judgement other than fresh makes it
    indeterminate, a contradiction of every member divergent, and ambiguity the
    policy refuses, incompleteness or missing support indeterminate; only what
    passes every gate is a match. *)
Theorem gates_refine_verdict (limits : Limits) (policy : ComparisonPolicy) (request : ComparisonRequest)
    (context : ComparisonContext) (r : ComparisonResult) (routes : RouteGeneration) (group : PathGroup)
    (representative : Working) (rest : list Working) :
  compare limits policy request context = Ok r -> matching_routes request context = Some routes ->
  resolve_subject request routes = Some group ->
  accepted_of (working_set limits policy request context routes) = representative :: rest ->
  let n := note_gap request
    (note_exclusions (working_set limits policy request context routes) (topology_notes context routes)) in
  let a := analyse request routes group (representative :: rest) representative n in
  cr_outcome r = verdict policy (topology_matches context routes) group representative a /\
  cr_freshness r = worst_freshness (representative :: rest) /\
  cr_surface r = worst_surface (representative :: rest).
Proof.
  intros (_ & _ & _ & ->)%compare_ok Hm Hs Ha n a.
  destruct (answer_accepted _ _ _ _ _ _ _ _ Hm Hs Ha) as (Hv & _ & _ & Hsu & Hfr & _).
  rewrite Ha in *. fold n in Hv, Hsu, Hfr. fold a in Hv, Hsu, Hfr.
  destruct (analyse_fields request routes group (representative :: rest) representative n)
    as (_ & _ & _ & _ & Fs & Ff & _). fold a in Fs, Ff.
  rewrite Hv, Hsu, Hfr, Fs, Ff. by split_and!.
Qed.

(** ** Witnesses *)

Definition example_context : ComparisonContext :=
  mk_context (Some (route_normal example_route)) (Some (topology_normal example_topology))
    (Some example_index) None
    (mk_authority (from_value 1) (from_value 1) (from_value 8) (from_value 1) (from_value 7) (from_value 1))
    (from_unix_nanos 10).

Definition example_request : ComparisonRequest :=
  mk_request (from_value 1) (maybe (from_value 4)) (maybe (from_value 3)) [example_evidence] false.

Abbreviation example_answer rq :=
  (answer default_limits default_comparison_policy rq example_context).

Lemma example_compare rq :
  valid (rq_generation rq) = true -> Z.of_nat (length (rq_evidence rq)) <= 4096 ->
  compare default_limits default_comparison_policy rq example_context = Ok (example_answer rq).
Proof.
  intros Hv Hl. rewrite compare_answer, Hv. cbn [negb].
  rewrite (proj2 (Z.ltb_ge (max_evidence_per_comparison default_limits) _)) by done. reflexivity.
Qed.

Lemma example_finalised routes : ctx_routes example_context = Some routes -> finalised routes.
Proof. intros [= <-]. exists default_limits, example_route. reflexivity. Qed.

Lemma match_is_compliance_witness :
  exists representative, representative ∈ accepted_of (working_set default_limits default_comparison_policy
      example_request example_context (route_normal example_route)) /\
    authority_code Advisory <= authority_code (ev_authority (w_evidence representative)).
Proof.
  destruct (match_is_compliance default_limits default_comparison_policy example_request example_context
    (example_answer example_request) (example_compare example_request eq_refl ltac:(simpl; lia))
    ltac:(by vm_compute) example_finalised)
    as (routes & group & w & [= <-] & _ & _ & _ & _ & _ & _ & _ & _ & Hin & Hau & _).
  by exists w.
Defined.

(** The same observation with another device at the second hop. *)
Definition divergent_evidence : ObservedPathEvidence :=
  mk_evidence digest_id_zero (from_value 7) (from_value 1) (from_value 2) SurfaceReal Advisory
    (maybe (from_value 3)) (maybe (from_value 4)) absent absent (from_value 1) (from_value 1)
    absent absent (from_value 1) (from_unix_nanos 5) (from_unix_nanos 6)
    [mk_observed_hop 0 (from_value 1) id_none (from_value 11) id_none ProvenanceAbsent unset;
     mk_observed_hop 1 (from_value 9) (from_value 12) id_none id_none ProvenanceAbsent unset]
    false Complete digest_zero "".

Lemma divergence_is_contradiction_witness :
  exists routes, find_conflict (accepted_of (working_set default_limits default_comparison_policy
    (with_evidence example_request [divergent_evidence]) example_context routes)) = None.
Proof.
  destruct (divergence_is_contradiction default_limits default_comparison_policy
    (with_evidence example_request [divergent_evidence]) example_context
    (example_answer (with_evidence example_request [divergent_evidence]))
    (example_compare (with_evidence example_request [divergent_evidence]) eq_refl ltac:(simpl; lia))
    ltac:(by vm_compute) example_finalised) as (routes & group & w & _ & _ & _ & _ & H & _).
  by exists routes.
Defined.

(** A record without identity, incarnation or epoch: never admissible. *)
Definition forged_evidence : ObservedPathEvidence :=
  mk_evidence (mk_digest_id (repeat 1 16)) id_none (from_value 1) (from_value 9) SurfaceReal Authoritative
    absent absent absent absent (from_value 1) (from_value 1) absent absent (from_value 1)
    (from_unix_nanos 5) (from_unix_nanos 9) [] false Complete digest_zero "".

Definition example_working : Working :=
  judge default_limits default_comparison_policy example_request example_context
    (route_normal example_route) example_evidence.

Lemma example_accepted :
  accepted_of (working_set default_limits default_comparison_policy example_request example_context
    (route_normal example_route)) = [example_working].
Proof. reflexivity. Qed.

Definition example_member : ExpectedPath := set_path_digest example_path.
Definition example_subject : PathGroup := set_members example_group.

Lemma example_conforms : traces_conform (path_hops example_member) (w_hops example_working).
Proof.
  destruct (compare_trace_cases example_member (w_hops example_working)) as (_ & H & _).
  by apply H; vm_compute.
Qed.

Lemma multipath_member_not_divergent_witness :
  cr_outcome (example_answer example_request) <> Divergent /\
  cr_differences (example_answer example_request) = [].
Proof.
  apply (multipath_member_not_divergent default_limits default_comparison_policy example_request
    example_context _ (route_normal example_route) example_subject example_working example_member
    (example_compare example_request eq_refl ltac:(simpl; lia)) eq_refl eq_refl).
  - rewrite example_accepted. constructor.
  - change (members_of (route_normal example_route) example_subject) with [example_member]. constructor.
  - exact example_conforms.
  - discriminate.
  - discriminate.
Defined.

Lemma evidence_fencing_witness :
  Forall (fun j => exists e, e ∈ rq_evidence example_request /\ ej_id j = ev_id e)
    (cr_judgements (example_answer example_request)).
Proof.
  apply Forall_elem. intros j Hj. destruct (evidence_fencing default_limits default_comparison_policy example_request
    example_context _ (route_normal example_route)
    (example_compare example_request eq_refl ltac:(simpl; lia)) eq_refl j Hj) as (e & He & Hid & _).
  by exists e.
Defined.

Lemma no_evidence_no_conclusion_witness :
  cr_matched_path (example_answer (with_evidence example_request [forged_evidence])) = absent.
Proof.
  destruct (no_evidence_no_conclusion default_limits default_comparison_policy
    (with_evidence example_request [forged_evidence]) example_context _ (route_normal example_route)
    example_subject
    (example_compare (with_evidence example_request [forged_evidence]) eq_refl ltac:(simpl; lia))
    eq_refl eq_refl eq_refl) as (_ & _ & _ & H & _).
  exact H.
Defined.

Lemma gates_refine_verdict_witness :
  cr_freshness (example_answer example_request) = worst_freshness [example_working].
Proof.
  destruct (gates_refine_verdict default_limits default_comparison_policy example_request example_context
    _ (route_normal example_route) example_subject example_working []
    (example_compare example_request eq_refl ltac:(simpl; lia)) eq_refl eq_refl example_accepted)
    as (_ & H & _).
  exact H.
Defined.

Lemma example_reference_fixed l : reference_fixed example_request example_context l.
Proof. right. intros routes group [= <-] [= <-]. discriminate. Qed.

Lemma example_distinct : distinct_identities [example_evidence].
Proof. intros a b ->%list_elem_of_singleton ->%list_elem_of_singleton _. reflexivity. Qed.

Lemma submission_order_irrelevant_witness :
  classification (example_answer (with_evidence example_request [example_evidence])) =
  classification (example_answer (with_evidence example_request [example_evidence; example_evidence])).
Proof.
  apply (submission_order_irrelevant default_limits default_comparison_policy example_request
    example_context [example_evidence] [example_evidence; example_evidence]).
  - intros e. rewrite !elem_of_cons, elem_of_nil. tauto.
  - exact example_distinct.
  - apply example_compare; [reflexivity | simpl; lia].
  - apply example_compare; [reflexivity | simpl; lia].
  - reflexivity.
  - apply example_reference_fixed.
Defined.

Lemma forged_distinct : distinct_identities [forged_evidence; example_evidence].
Proof.
  intros a b. rewrite !elem_of_cons, !elem_of_nil.
  intros [-> | [-> | []]] [-> | [-> | []]] E; first [reflexivity | discriminate E].
Qed.

Lemma inadmissible_evidence_inert_witness :
  cr_outcome (example_answer (with_evidence example_request [example_evidence])) =
  cr_outcome (example_answer (with_evidence example_request [forged_evidence; example_evidence])).
Proof.
  apply (inadmissible_evidence_inert default_limits default_comparison_policy example_request
    example_context (route_normal example_route) [example_evidence] [forged_evidence; example_evidence]
    _ _ (example_compare (with_evidence example_request [example_evidence]) eq_refl ltac:(simpl; lia))
    (example_compare (with_evidence example_request [forged_evidence; example_evidence]) eq_refl
      ltac:(simpl; lia)) eq_refl example_distinct forged_distinct).
  - intros e Ha. rewrite !elem_of_cons, !elem_of_nil. split; [tauto |].
    intros [-> | ?]; [| done]. apply judge_accepted in Ha. discriminate Ha.
  - exists example_evidence. split; [constructor |]. by apply judge_accepted.
  - reflexivity.
  - apply example_reference_fixed.
  - apply example_reference_fixed.
Defined.

(** A record that is delivered again at a later time keeps its identity, but the
    order separates the copies by another record, and only neighbours are taken
    for duplicates: the copies count as two records. *)
Definition other_evidence : ObservedPathEvidence :=
  seal (mk_evidence digest_id_zero (from_value 7) (from_value 1) (from_value 2) SurfaceReal Advisory
    (maybe (from_value 3)) (maybe (from_value 4)) absent absent (from_value 1) (from_value 1)
    absent absent (from_value 1) (from_unix_nanos 5) (from_unix_nanos 7)
    (ev_hops example_evidence) false Complete digest_zero "").

Example redelivery_counts_twice :
  let e := seal example_evidence in
  let r := example_answer (with_evidence example_request [e; with_received_at e (from_unix_nanos 8); other_evidence]) in
  ev_id (with_received_at e (from_unix_nanos 8)) = ev_id e /\
  (cr_evidence_considered r, cr_duplicate_evidence r) = (3%nat, 0%nat).
Proof. vm_compute. split; reflexivity. Qed.

(** ** Where an explicit subject is needed *)

Definition two_groups : RouteGeneration :=
  mk_route (from_value 1) (from_value 1) (from_value 1) (from_value 1) id_none (from_value 8)
    (from_value 1) (from_unix_nanos 0) (from_unix_nanos 0)
    [example_group; mk_group (from_value 5) (from_value 1) (from_value 2) "a-c" [from_value 6]]
    [example_path;
     mk_path (from_value 6) (from_value 5) (from_value 1)
       [mk_expected_hop (from_value 33) 0 (from_value 1) (from_value 10) (from_value 11) id_none false;
        mk_expected_hop (from_value 34) 1 (from_value 9) (from_value 12) (from_value 13) id_none false]
       digest_zero] digest_zero.

Definition two_groups_context : ComparisonContext :=
  mk_context (Some (route_normal two_groups)) (ctx_topology example_context)
    (ctx_topology_index example_context) None (ctx_authority example_context) (ctx_now example_context).

(** A record of an epoch that nobody announced, about the second group. *)
Definition fenced_evidence : ObservedPathEvidence :=
  seal (mk_evidence digest_id_zero (from_value 7) (from_value 1) (from_value 2) SurfaceReal Advisory
    (maybe (from_value 6)) (maybe (from_value 5)) absent absent (from_value 2) (from_value 1)
    absent absent (from_value 1) (from_unix_nanos 5) (from_unix_nanos 7)
    (ev_hops example_evidence) false Complete digest_zero "").

(** Without an explicit subject the first record that names a group decides what
    the verdict is about, also when it is rejected: a record that is fenced turns a
    match into a divergence by being listed first. *)
Example fenced_record_names_subject :
  let outcome_of l :=
    let r := answer default_limits default_comparison_policy
      (mk_request (from_value 1) absent absent l false) two_groups_context in
    (cr_outcome r, map ej_accepted (cr_judgements r)) in
  has_value (route_finalize default_limits two_groups) = true /\
  outcome_of [seal example_evidence; fenced_evidence] = (Match, [false; true]) /\
  outcome_of [fenced_evidence; seal example_evidence] = (Divergent, [false; true]).
Proof. vm_compute. split_and!; reflexivity. Qed.
