(* ===== verification/Finding.v ===== *)
(** * Findings

    Models [include/pathobs/finding.hpp] and [src/finding.cpp]: the durable form
    of a divergence class, its content derived identity, and the bounded
    registry with its lifecycle.  The mutex of the registry serialises its
    operations, so an operation is one state transformer. *)

From S2P Require Import Prelude Errors StdAlgo Digest Canonical Ids TimeModel Limits Source Topology Observed Expected Freshness Divergence Compare.
#[local] Open Scope Z_scope.

(** ** Data *)

Inductive FindingStatus : Set := FindingOpen | Acknowledged | Resolved.

#[global] Instance FindingStatus_eq_dec : EqDecision FindingStatus.
Proof. solve_decision. Defined.

(** The underlying [std::uint8_t] value. *)
Definition finding_status_code (s : FindingStatus) : Z :=
  match s with FindingOpen => 0 | Acknowledged => 1 | Resolved => 2 end.

Definition finding_status_to_string (s : FindingStatus) : string :=
  match s with
  | FindingOpen => "open"
  | Acknowledged => "acknowledged"
  | Resolved => "resolved"
  end.

Definition parse_finding_status (text : string) : Result FindingStatus :=
  if bool_decide (text = "open") then Ok FindingOpen else
  if bool_decide (text = "acknowledged") then Ok Acknowledged else
  if bool_decide (text = "resolved") then Ok Resolved else
  Err (mk_error InvalidFormat "unknown finding status" text).

Record Finding : Set := mk_finding {
  fd_id : FindingId;
  fd_class : DivergenceClass;
  fd_group : MaybeId PathGroupIdTag;
  fd_path : MaybeId PathIdTag;
  fd_generation : RouteGenerationId;
  fd_topology : TopologyGenerationId;
  fd_evidence : list EvidenceId;
  fd_hops : list Z;
  fd_status : FindingStatus;
  fd_occurrences : Z;
  fd_first_seen : TimePoint;
  fd_last_seen : TimePoint;
  fd_last_comparison : ComparisonId;
  fd_detail : string
}.

#[global] Instance Finding_eq_dec : EqDecision Finding.
Proof. solve_decision. Defined.

(** [std::sort] followed by [erase(unique(...))] on keys. *)
Definition sorted_unique {K} `{KeyOrder K} `{!EqDecision K} (l : list K) : list K :=
  unique_by (fun a b => bool_decide (a = b)) (sort_by klt l).

(** The bytes [Finding::identity_digest] hashes, for a class with this code. *)
Definition identity_bytes (class : Z) (f : Finding) : list Z :=
  put_text "pathobs.finding" ++ put_u8 class ++ put_maybe (fd_group f) ++
  put_maybe (fd_path f) ++ put_id (fd_generation f) ++ put_id (fd_topology f) ++
  put_seq put_digest_id (sorted_unique (fd_evidence f)) ++
  put_seq put_u32 (sorted_unique (fd_hops f)).

Definition finding_identity_bytes (f : Finding) : list Z :=
  identity_bytes (divergence_code (fd_class f)) f.

(** [Finding::identity_digest] *)
Definition identity_digest (f : Finding) : Digest := digest_of (finding_identity_bytes f).

Definition finding_identity (f : Finding) : FindingId := from_digest (identity_digest f).

(** [Finding::seal] *)
Definition finding_seal (f : Finding) : Finding :=
  mk_finding (finding_identity f) (fd_class f) (fd_group f) (fd_path f) (fd_generation f)
    (fd_topology f) (fd_evidence f) (fd_hops f) (fd_status f) (fd_occurrences f) (fd_first_seen f)
    (fd_last_seen f) (fd_last_comparison f) (fd_detail f).

Definition is_open (f : Finding) : bool := negb (bool_decide (fd_status f = Resolved)).

(** Assignments to the mutable members of a finding: its lifecycle. *)
Definition with_lifecycle (f : Finding) (status : FindingStatus) (occurrences : Z)
    (first_seen last_seen : TimePoint) (last_comparison : ComparisonId) : Finding :=
  mk_finding (fd_id f) (fd_class f) (fd_group f) (fd_path f) (fd_generation f) (fd_topology f)
    (fd_evidence f) (fd_hops f) status occurrences first_seen last_seen last_comparison (fd_detail f).

Definition with_status (f : Finding) (status : FindingStatus) (now : TimePoint) : Finding :=
  with_lifecycle f status (fd_occurrences f) (fd_first_seen f) now (fd_last_comparison f).

Record FindingRegistry : Set := mk_findings {
  fr_limits : Limits;
  fr_findings : omap FindingId Finding;
  fr_evicted : Z
}.

Definition finding_registry_new (limits : Limits) : FindingRegistry := mk_findings limits [] 0.

Definition with_findings (r : FindingRegistry) (m : omap FindingId Finding) : FindingRegistry :=
  mk_findings (fr_limits r) m (fr_evicted r).

(** ** Operations *)

(** [record]: the candidate built from the result. *)
Definition finding_candidate (limits : Limits) (r : ComparisonResult) : Finding :=
  finding_seal (mk_finding digest_id_zero (cr_primary r) (cr_group r)
    (if present (cr_path r) then cr_path r else cr_matched_path r)
    (cr_generation r) (cr_topology r)
    (take (Z.to_nat (max_finding_evidence limits)) (map ej_id (List.filter ej_accepted (cr_judgements r))))
    (map hd_index (cr_differences r))
    FindingOpen 0 unset unset (cr_id r)
    ("primary class " +:+ to_code (cr_primary r))%string).

(** [record]: the same finding seen again. *)
Definition seen_again (f : Finding) (comparison : ComparisonId) (now : TimePoint) : Finding :=
  with_lifecycle f
    (if bool_decide (fd_status f = Resolved) then FindingOpen else fd_status f)
    (wrap_u 64 (fd_occurrences f + 1)) (fd_first_seen f) now comparison.

(** [record]: the order in which resolved findings are evicted. *)
Definition older (e v : FindingId * Finding) : bool :=
  time_lt (fd_last_seen e.2) (fd_last_seen v.2) ||
  bool_decide (fd_last_seen e.2 = fd_last_seen v.2) && klt e.1 v.1.

(** [record]: one step of the scan for the least recently seen resolved finding. *)
Definition better_victim (victim : option (FindingId * Finding)) (e : FindingId * Finding) :
    option (FindingId * Finding) :=
  if negb (bool_decide (fd_status e.2 = Resolved)) then victim else
  match victim with
  | None => Some e
  | Some v =>
      if older e v then Some e else victim
  end.

Definition victim_of (m : omap FindingId Finding) : option (FindingId * Finding) :=
  fold_left better_victim m None.

(** [record]: make room for one more finding. *)
Definition make_room (r : FindingRegistry) : Result FindingRegistry :=
  if Z.of_nat (length (fr_findings r)) <? max_findings (fr_limits r) then Ok r else
  match victim_of (fr_findings r) with
  | None => Err (error CapacityExceeded
                   "finding registry is full and holds no resolved finding to evict")
  | Some v => Ok (mk_findings (fr_limits r) (om_erase v.1 (fr_findings r)) (wrap_u 64 (fr_evicted r + 1)))
  end.

(** [FindingRegistry::record] *)
Definition record (r : FindingRegistry) (result : ComparisonResult) (now : TimePoint) :
    Result FindingId * FindingRegistry :=
  if bool_decide (cr_primary result = DivNone) then (Ok digest_id_zero, r) else
  let candidate := finding_candidate (fr_limits r) result in
  match om_find (fd_id candidate) (fr_findings r) with
  | Some f =>
      (Ok (fd_id f), with_findings r (om_insert (fd_id candidate) (seen_again f (cr_id result) now)
                                        (fr_findings r)))
  | None =>
      match make_room r with
      | Err e => (Err e, r)
      | Ok r =>
          (Ok (fd_id candidate),
           with_findings r (om_emplace (fd_id candidate)
             (with_lifecycle candidate FindingOpen 1 now now (fd_last_comparison candidate))
             (fr_findings r)))
      end
  end.

(** [FindingRegistry::find] *)
Definition finding_find (r : FindingRegistry) (candidate : FindingId) : Result Finding :=
  match om_find candidate (fr_findings r) with
  | None => Err (mk_error UnknownIdentity "no such finding" (digest_id_str candidate))
  | Some f => Ok f
  end.

(** [FindingRegistry::contains] *)
Definition finding_contains (r : FindingRegistry) (candidate : FindingId) : bool :=
  bool_decide (om_find candidate (fr_findings r) <> None).

(** [FindingRegistry::acknowledge] *)
Definition acknowledge (r : FindingRegistry) (candidate : FindingId) (now : TimePoint) :
    Status * FindingRegistry :=
  match om_find candidate (fr_findings r) with
  | None => (Err (mk_error UnknownIdentity "no such finding" (digest_id_str candidate)), r)
  | Some f =>
      (ok, if bool_decide (fd_status f = FindingOpen)
           then with_findings r (om_insert candidate (with_status f Acknowledged now) (fr_findings r))
           else r)
  end.

(** [resolve_from_match]: the test of [same_subject]. *)
Definition finding_same_subject (result : ComparisonResult) (f : Finding) : bool :=
  present (cr_group result) && present (fd_group f) &&
    bool_decide (maybe_value (cr_group result) = maybe_value (fd_group f)) ||
  present (cr_path result) && present (fd_path f) &&
    bool_decide (maybe_value (cr_path result) = maybe_value (fd_path f)).

(** [resolve_from_match]: the findings a match resolves. *)
Definition resolvable (result : ComparisonResult) (f : Finding) : bool :=
  is_open f && finding_same_subject result f && negb (id_lt (cr_generation result) (fd_generation f)).

(** The loop of [resolve_from_match]: the map after it and the count. *)
Fixpoint resolve_loop (result : ComparisonResult) (now : TimePoint) (m : omap FindingId Finding) :
    omap FindingId Finding * nat :=
  match m with
  | [] => ([], 0%nat)
  | (k, f) :: rest =>
      let (rest, n) := resolve_loop result now rest in
      if resolvable result f then ((k, with_status f Resolved now) :: rest, S n)
      else ((k, f) :: rest, n)
  end.

(** [FindingRegistry::resolve_from_match] *)
Definition resolve_from_match (r : FindingRegistry) (result : ComparisonResult) (now : TimePoint) :
    Result nat * FindingRegistry :=
  if negb (bool_decide (cr_outcome result = Match)) then (Ok 0%nat, r) else
  let (m, n) := resolve_loop result now (fr_findings r) in (Ok n, with_findings r m).

(** [finder_keeps_newest] *)
Definition finder_keeps_newest (existing candidate : Finding) : bool :=
  if negb (bool_decide (fd_last_seen candidate = fd_last_seen existing))
  then time_lt (fd_last_seen existing) (fd_last_seen candidate)
  else fd_occurrences existing <? fd_occurrences candidate.

(** [FindingRegistry::restore] *)
Definition finding_restore (r : FindingRegistry) (f : Finding) : Status * FindingRegistry :=
  if negb (bool_decide (finding_identity f = fd_id f)) then
    (Err (error IntegrityFailure "restored finding identity does not match content"), r)
  else
  match om_find (fd_id f) (fr_findings r) with
  | Some existing =>
      (ok, if finder_keeps_newest existing f
           then with_findings r (om_insert (fd_id f) f (fr_findings r)) else r)
  | None =>
      if negb (Z.of_nat (length (fr_findings r)) <? max_findings (fr_limits r))
      then (Err (error CapacityExceeded "finding registry is full"), r)
      else (ok, with_findings r (om_emplace (fd_id f) f (fr_findings r)))
  end.

Definition finding_all (r : FindingRegistry) : list Finding := map snd (fr_findings r).
Definition finding_size (r : FindingRegistry) : nat := length (fr_findings r).
Definition open_count (r : FindingRegistry) : nat :=
  length (List.filter (fun e => is_open e.2) (fr_findings r)).
Definition finding_clear (r : FindingRegistry) : FindingRegistry := with_findings r [].

(** ** Identity *)

Lemma sorted_unique_elem {K} `{KeyOrder K} `{!EqDecision K} (l : list K) x :
  x ∈ sorted_unique l <-> x ∈ l.
Proof.
  unfold sorted_unique. rewrite unique_by_elem by (intros ? ?; by rewrite bool_decide_eq_true).
  apply elem_of_sort_by.
Qed.

Lemma sorted_unique_strict {K} `{KeyOrder K} `{!EqDecision K} (l : list K) :
  strictly_ascending id (sorted_unique l).
Proof.
  unfold sorted_unique. apply (sort_unique_strict id).
  intros a b _ _. by rewrite bool_decide_eq_true.
Qed.

(** Sorting and deduplicating keeps exactly the set. *)
Lemma sorted_unique_ext {K} `{KeyOrder K} `{!EqDecision K} (l m : list K) :
  sorted_unique l = sorted_unique m <-> (forall x, x ∈ l <-> x ∈ m).
Proof.
  split.
  - intros E x. by rewrite <- (sorted_unique_elem l), E, sorted_unique_elem.
  - intros Hx. apply (strictly_ascending_ext id); try apply sorted_unique_strict.
    intros x. by rewrite !sorted_unique_elem.
Qed.

Lemma sorted_unique_length {K} `{KeyOrder K} `{!EqDecision K} (l : list K) :
  (length (sorted_unique l) <= length l)%nat.
Proof.
  unfold sorted_unique. etransitivity; [apply length_unique_by |]. by rewrite length_sort_by.
Qed.

(** The values the fields of a [Finding] can hold. *)
Record finding_repr (f : Finding) : Prop := mk_finding_repr {
  fr_group_ok : id_ok (maybe_value (fd_group f));
  fr_path_ok : id_ok (maybe_value (fd_path f));
  fr_generation_ok : id_ok (fd_generation f);
  fr_topology_ok : id_ok (fd_topology f);
  fr_evidence_ok : Forall (fun i => length (id_bytes i) = kDigestIdBytes) (fd_evidence f);
  fr_hops_ok : Forall (u_ok 32) (fd_hops f);
  fr_evidence_count : len32 (fd_evidence f);
  fr_hops_count : len32 (fd_hops f)
}.

(** The stable tuple that identifies a finding. *)
Definition same_tuple (a b : Finding) : Prop :=
  fd_class a = fd_class b /\ fd_group a = fd_group b /\ fd_path a = fd_path b /\
  fd_generation a = fd_generation b /\ fd_topology a = fd_topology b /\
  (forall i, i ∈ fd_evidence a <-> i ∈ fd_evidence b) /\
  (forall h, h ∈ fd_hops a <-> h ∈ fd_hops b).

Lemma sorted_unique_repr {K} `{KeyOrder K} `{!EqDecision K} (P : K -> Prop) (l : list K) :
  len32 l -> Forall P l -> len32 (sorted_unique l) /\ Forall P (sorted_unique l).
Proof.
  intros Hl HP. pose proof (sorted_unique_length l). split; [unfold len32 in *; lia |].
  apply Forall_elem. intros x Hx. rewrite sorted_unique_elem in Hx. exact (proj1 (Forall_elem P l) HP x Hx).
Qed.

Lemma divergence_code_byte d : byte_ok (divergence_code d).
Proof. destruct d; unfold byte_ok; simpl; lia. Qed.
#[global] Hint Resolve divergence_code_byte : pathobs.

Lemma divergence_code_injective a b : divergence_code a = divergence_code b -> a = b.
Proof. destruct a, b; simpl; intros E; first [reflexivity | discriminate E]. Qed.

(** The identity of a finding is a digest of its class, its subject, its
    generations, the set of its evidence and the set of its diverging hops: the
    hashed bytes of two findings agree exactly when those agree, whatever the
    order or the repetition of the evidence and hops, and whatever the
    lifecycle, the counts, the times and the detail text. *)
Theorem finding_identity_tuple (a b : Finding) :
  finding_repr a -> finding_repr b ->
  finding_identity_bytes a = finding_identity_bytes b <-> same_tuple a b.
Proof.
  intros [Ha1 Ha2 Ha3 Ha4 Ha5 Ha6 Ha7 Ha8] [Hb1 Hb2 Hb3 Hb4 Hb5 Hb6 Hb7 Hb8].
  unfold finding_identity_bytes, identity_bytes, same_tuple. split.
  - intros E. apply app_inv_head in E.
    do 5 (prefix_step E; [| by cbv beta; auto with pathobs | by cbv beta; auto with pathobs]).
    prefix_step E; [| by apply sorted_unique_repr | by apply sorted_unique_repr].
    rewrite <- (app_nil_r (put_seq put_u32 (sorted_unique (fd_hops a)))),
      <- (app_nil_r (put_seq put_u32 (sorted_unique (fd_hops b)))) in E.
    prefix_step E; [| by apply sorted_unique_repr | by apply sorted_unique_repr].
    rewrite <- !sorted_unique_ext. split_and!; try done. by apply divergence_code_injective.
  - intros (-> & -> & -> & -> & -> & Hev & Hhops).
    by rewrite (proj2 (sorted_unique_ext _ _) Hev), (proj2 (sorted_unique_ext _ _) Hhops).
Qed.

Definition example_evidence_id (b : Z) : EvidenceId := mk_digest_id (replicate kDigestIdBytes b).

Definition example_finding : Finding :=
  finding_seal (mk_finding digest_id_zero HopMissing (maybe (from_value 7)) absent (from_value 3)
    (from_value 2) [example_evidence_id 1; example_evidence_id 2] [2; 1]
    FindingOpen 1 (from_unix_nanos 5) (from_unix_nanos 5) digest_id_zero "").

Lemma finding_identity_tuple_witness :
  let reordered := mk_finding digest_id_zero HopMissing (maybe (from_value 7)) absent (from_value 3)
    (from_value 2) [example_evidence_id 2; example_evidence_id 1; example_evidence_id 2]
    [1; 2] Resolved 9 unset unset digest_id_zero "again" in
  finding_identity_bytes example_finding = finding_identity_bytes reordered.
Proof.
  intros reordered. apply (finding_identity_tuple example_finding reordered).
  - constructor; cbn; repeat constructor; done.
  - constructor; cbn; repeat constructor; done.
  - unfold same_tuple, reordered, example_finding, finding_seal. cbn [fd_class fd_group fd_path
      fd_generation fd_topology fd_evidence fd_hops]. split_and!; try done;
      intros x; rewrite !elem_of_cons; tauto.
Defined.

(** ** The registry *)

Lemma finding_identity_lifecycle f st occ t1 t2 c :
  finding_identity (with_lifecycle f st occ t1 t2 c) = finding_identity f.
Proof. reflexivity. Qed.

(** Every entry is filed under the identity its content determines, and the
    bound holds. *)
Record registry_wf (r : FindingRegistry) : Prop := mk_registry_wf {
  rw_map : om_wf (fr_findings r);
  rw_filed : forall k f, om_find k (fr_findings r) = Some f -> fd_id f = k /\ finding_identity f = k;
  rw_bound : Z.of_nat (length (fr_findings r)) <= max_findings (fr_limits r)
}.

#[local] Instance older_swo : StrictWeakOrder older.
Proof.
  assert (forall a b : TimePoint, a = b <-> unix_nanos a = unix_nanos b) as Ht.
  { intros [a] [b]. simpl. split; [by intros [= ->] | by intros ->]. }
  constructor; unfold older, time_lt; intros *;
    rewrite ?orb_true_iff, ?orb_false_iff, ?andb_true_iff, ?andb_false_iff, ?bool_decide_eq_true,
      ?bool_decide_eq_false, ?Z.ltb_lt, ?Z.ltb_ge, ?Ht.
  - intros [Hlt | [Heq Hk]]; (split; [lia |]); [left; lia | right; by apply klt_asym].
  - intros [Hxy Hxy'] [Hyz Hyz']. split; [lia |].
    destruct (decide (unix_nanos (fd_last_seen x.2) = unix_nanos (fd_last_seen z.2))) as [E|]; [| by left].
    right. destruct Hxy' as [|Hxy'], Hyz' as [|Hyz']; try lia. by eapply swo_negtrans.
Qed.

Definition resolved (e : FindingId * Finding) : Prop := fd_status e.2 = Resolved.

Lemma better_victim_resolved v e :
  resolved e ->
  exists w, better_victim v e = Some w /\ (w = e \/ v = Some w) /\ older e w = false /\
    forall u, v = Some u -> older u w = false.
Proof.
  unfold resolved, better_victim. intros Hr. rewrite bool_decide_eq_true_2 by done. simpl.
  destruct v as [v|].
  - destruct (older e v) eqn:E.
    + exists e. split_and!; [done | by left | apply (swo_irrefl older) |].
      intros u [= <-]. by apply swo_asym.
    + exists v. split_and!; [done | by right | done |]. intros u [= <-]. apply (swo_irrefl older).
  - exists e. split_and!; [done | by left | apply (swo_irrefl older) | done].
Qed.

Lemma better_victim_open v e : ~ resolved e -> better_victim v e = v.
Proof. unfold resolved, better_victim. intros Hr. by rewrite bool_decide_eq_false_2. Qed.

Lemma victim_fold m v :
  match fold_left better_victim m v with
  | None => v = None /\ forall e, e ∈ m -> ~ resolved e
  | Some w =>
      (v = Some w \/ w ∈ m /\ resolved w) /\
      (forall u, v = Some u -> older u w = false) /\
      (forall e, e ∈ m -> resolved e -> older e w = false)
  end.
Proof.
  revert v. induction m as [|e m IH]; intros v; simpl.
  - destruct v as [w|]; [| split; [done | by intros e ?%elem_of_nil]].
    split_and!; [by left | intros u [= ->]; apply (swo_irrefl older) | by intros e ?%elem_of_nil].
  - specialize (IH (better_victim v e)).
    destruct (decide (fd_status e.2 = Resolved)) as [Hr|Hr].
    + destruct (better_victim_resolved v e Hr) as (x & Hx & Hx' & He & Hv). rewrite Hx in IH |- *.
      destruct (fold_left better_victim m (Some x)) as [w|]; [| by destruct IH].
      destruct IH as (Hw & Hu & Hm). specialize (Hu x eq_refl). split_and!.
      * destruct Hw as [[= <-] | [? ?]]; [| right; by rewrite elem_of_cons; auto].
        destruct Hx' as [-> | ->]; [right; by rewrite elem_of_cons; auto | by left].
      * intros u Eu. eapply (swo_negtrans u x w); auto.
      * intros e' [->|?]%elem_of_cons Hr'; [| auto]. by apply (swo_negtrans e x w).
    + rewrite (better_victim_open v e Hr) in IH |- *.
      destruct (fold_left better_victim m v) as [w|].
      * destruct IH as (Hw & Hu & Hm). split_and!; [| done |].
        -- destruct Hw as [? | [? ?]]; [by left | right; rewrite elem_of_cons; tauto].
        -- intros e' [->|?]%elem_of_cons; [done | auto].
      * destruct IH as [-> Hm]. split; [done |]. intros e' [->|?]%elem_of_cons; auto.
Qed.

Lemma victim_of_spec m :
  match victim_of m with
  | None => forall k f, (k, f) ∈ m -> fd_status f <> Resolved
  | Some (k, f) => (k, f) ∈ m /\ fd_status f = Resolved /\
      forall k' f', (k', f') ∈ m -> fd_status f' = Resolved -> older (k', f') (k, f) = false
  end.
Proof.
  pose proof (victim_fold m None) as H. unfold victim_of.
  destruct (fold_left better_victim m None) as [[k f]|].
  - destruct H as ([? | [? ?]] & _ & H); [done |]. split_and!; [done | done |].
    intros k' f' Hin Hr. by apply H.
  - intros k f Hin. exact (proj2 H (k, f) Hin).
Qed.

(** ** Lifecycle operations *)

Lemma wf_filed r k f : registry_wf r -> om_find k (fr_findings r) = Some f -> fd_id f = k.
Proof. intros Hr Hk. apply (rw_filed r Hr k f Hk). Qed.

(** Replacing an entry by one with the same identity. *)
Lemma registry_wf_update r k f f' :
  registry_wf r -> om_find k (fr_findings r) = Some f -> fd_id f' = k -> finding_identity f' = k ->
  registry_wf (with_findings r (om_insert k f' (fr_findings r))).
Proof.
  intros [Hm Hf Hb] Hk Hid Hi. constructor; cbn [fr_findings fr_limits with_findings].
  - by apply om_insert_wf.
  - intros k' f0. destruct (decide (k = k')) as [->|Hne].
    + rewrite om_find_insert. by intros [= <-].
    + rewrite om_find_insert_ne by done. apply Hf.
  - by rewrite (om_insert_length_present k f' f).
Qed.

Lemma om_emplace_fresh {V} (k : FindingId) (v : V) m :
  om_find k m = None -> om_emplace k v m = om_insert k v m.
Proof. unfold om_emplace. by intros ->. Qed.

(** Adding an entry when there is room. *)
Lemma registry_wf_add r k f :
  registry_wf r -> om_find k (fr_findings r) = None -> fd_id f = k -> finding_identity f = k ->
  Z.of_nat (length (fr_findings r)) < max_findings (fr_limits r) ->
  registry_wf (with_findings r (om_emplace k f (fr_findings r))).
Proof.
  intros [Hm Hf Hb] Hk Hid Hi Hroom. rewrite om_emplace_fresh by done.
  constructor; cbn [fr_findings fr_limits with_findings].
  - by apply om_insert_wf.
  - intros k' f0. destruct (decide (k = k')) as [->|Hne].
    + rewrite om_find_insert. by intros [= <-].
    + rewrite om_find_insert_ne by done. apply Hf.
  - rewrite om_insert_length_fresh by done. lia.
Qed.

Lemma om_find_erase_some {V} (k k' : FindingId) (v : V) (m : omap FindingId V) :
  om_wf m -> om_find k' (om_erase k m) = Some v -> om_find k' m = Some v /\ k' <> k.
Proof.
  intros Hm E. destruct (decide (k = k')) as [->|Hne]; [by rewrite om_find_erase in E |].
  by rewrite om_find_erase_ne in E.
Qed.

(** Making room either leaves the registry alone or removes the least recently
    seen resolved finding; it fails only when every finding is unresolved. *)
Lemma make_room_spec r :
  registry_wf r -> 0 < max_findings (fr_limits r) ->
  match make_room r with
  | Ok r' =>
      registry_wf r' /\ fr_limits r' = fr_limits r /\
      Z.of_nat (length (fr_findings r')) < max_findings (fr_limits r) /\
      (r' = r \/
       Z.of_nat (length (fr_findings r)) = max_findings (fr_limits r) /\
       fr_evicted r' = wrap_u 64 (fr_evicted r + 1) /\
       exists k f, om_find k (fr_findings r) = Some f /\ fd_status f = Resolved /\
         fr_findings r' = om_erase k (fr_findings r) /\
         forall k' f', om_find k' (fr_findings r) = Some f' -> fd_status f' = Resolved ->
           older (k', f') (k, f) = false)
  | Err e =>
      code e = CapacityExceeded /\
      Z.of_nat (length (fr_findings r)) = max_findings (fr_limits r) /\
      forall k f, om_find k (fr_findings r) = Some f -> fd_status f <> Resolved
  end.
Proof.
  intros [Hm Hf Hb] Hpos. unfold make_room.
  destruct (Z.of_nat (length (fr_findings r)) <? max_findings (fr_limits r)) eqn:E; bool_prop.
  { split_and!; [done | done | done | by left]. }
  assert (Z.of_nat (length (fr_findings r)) = max_findings (fr_limits r)) as Hfull by lia.
  pose proof (victim_of_spec (fr_findings r)) as Hv.
  destruct (victim_of (fr_findings r)) as [[k f]|].
  - destruct Hv as (Hin & Hr & Hold). pose proof (proj2 (om_find_iff k f _ Hm) Hin) as Hk.
    pose proof (om_erase_length k f _ Hm Hk) as Hlen.
    split_and!; cbn [fr_limits fr_findings fr_evicted fst]; [| done | lia |].
    + constructor; cbn [fr_limits fr_findings].
      * by apply om_erase_wf.
      * intros k' f' [E' _]%om_find_erase_some; [| done]. by apply Hf.
      * lia.
    + right. split_and!; [done | done |]. exists k, f. split_and!; try done.
      intros k' f' Hk'. apply Hold. by apply om_find_elem.
  - split_and!; [done | done |]. intros k f Hk. apply (Hv k). by apply om_find_elem.
Qed.

(** What [record] answers and leaves behind. *)
Definition recorded (r : FindingRegistry) (result : ComparisonResult) (now : TimePoint)
    (i : FindingId) (r' : FindingRegistry) : Prop :=
  exists f, om_find i (fr_findings r') = Some f /\ fd_id f = i /\ is_open f = true /\
    fd_last_seen f = now /\ fd_last_comparison f = cr_id result /\
    match om_find i (fr_findings r) with
    | Some g => fd_occurrences f = wrap_u 64 (fd_occurrences g + 1) /\ fd_first_seen f = fd_first_seen g
    | None => fd_occurrences f = 1 /\ fd_first_seen f = now
    end.

(** The entry [k] was evicted: the registry was full and [k] was the resolved
    finding seen longest ago. *)
Definition evicted_entry (r : FindingRegistry) (k : FindingId) : Prop :=
  Z.of_nat (length (fr_findings r)) = max_findings (fr_limits r) /\
  exists f, om_find k (fr_findings r) = Some f /\ fd_status f = Resolved /\
    forall k' f', om_find k' (fr_findings r) = Some f' -> fd_status f' = Resolved ->
      older (k', f') (k, f) = false.

Lemma finding_candidate_identity limits result :
  finding_identity (finding_candidate limits result) = fd_id (finding_candidate limits result) /\
  fd_last_comparison (finding_candidate limits result) = cr_id result.
Proof. split; reflexivity. Qed.

Lemma record_cases r result now :
  registry_wf r -> 0 < max_findings (fr_limits r) -> cr_primary result <> DivNone ->
  let i := fd_id (finding_candidate (fr_limits r) result) in
  match record r result now with
  | (Ok j, r') =>
      j = i /\ registry_wf r' /\ fr_limits r' = fr_limits r /\ recorded r result now i r' /\
      (forall k, k <> i -> om_find k (fr_findings r') = om_find k (fr_findings r) \/
         om_find k (fr_findings r') = None /\ om_find i (fr_findings r) = None /\ evicted_entry r k)
  | (Err e, r') =>
      r' = r /\ code e = CapacityExceeded /\ om_find i (fr_findings r) = None /\
      Z.of_nat (length (fr_findings r)) = max_findings (fr_limits r) /\
      (forall k f, om_find k (fr_findings r) = Some f -> is_open f = true)
  end.
Proof.
  intros Hr Hpos Hp i. unfold record. rewrite bool_decide_eq_false_2 by done.
  pose proof (finding_candidate_identity (fr_limits r) result) as (Hci & Hcc). subst i.
  revert Hci Hcc. generalize (finding_candidate (fr_limits r) result). intros c Hci Hcc.
  cbv zeta. remember (fd_id c) as i eqn:Hid.
  destruct (om_find i (fr_findings r)) as [g|] eqn:Eg.
  - pose proof (rw_filed r Hr i g Eg) as [Hgd Hgi]. split_and!; [done | | done | |].
    + by apply (registry_wf_update r i g).
    + unfold recorded. cbn [fr_findings with_findings]. rewrite om_find_insert, Eg.
      exists (seen_again g (cr_id result) now). split_and!; try done.
      unfold is_open, seen_again, with_lifecycle. cbn [fd_status].
      by destruct (fd_status g).
    + intros k Hk. left. cbn [fr_findings with_findings]. by rewrite om_find_insert_ne.
  - pose proof (make_room_spec r Hr Hpos) as Hroom.
    destruct (make_room r) as [r0|e].
    + destruct Hroom as (Hr0 & Hl & Hlen & Hcase).
      assert (om_find i (fr_findings r0) = None) as E0.
      { destruct Hcase as [-> | (_ & _ & v & f & _ & _ & -> & _)]; [done |].
        destruct (decide (v = i)) as [->|]; [apply om_find_erase |].
        rewrite om_find_erase_ne; [done | apply (rw_map r Hr) | done]. }
      split_and!; [done | | done | |].
      * apply registry_wf_add; [done | done | by symmetry | done | by rewrite Hl].
      * unfold recorded. cbn [fr_findings with_findings].
        rewrite om_emplace_fresh, om_find_insert, Eg by done. eexists. by split_and!.
      * intros k Hk. cbn [fr_findings with_findings]. rewrite om_emplace_fresh, om_find_insert_ne by done.
        destruct Hcase as [-> | (Hfull & _ & v & f & Hv & Hres & -> & Hold)]; [by left |].
        destruct (decide (v = k)) as [->|].
        -- right. rewrite om_find_erase. do 2 (split; [done |]). split; [done |]. exists f. by split_and!.
        -- left. rewrite om_find_erase_ne; [done | apply (rw_map r Hr) | done].
    + destruct Hroom as (Hc & Hfull & Hall). split_and!; try done.
      intros k f Hk. unfold is_open. rewrite bool_decide_eq_false_2; [done |]. by eapply Hall.
Qed.

(** Recording a result with a divergence class files it under its identity:
    a finding already there gets one more occurrence, keeps the time it was first
    seen, and is reopened if it was resolved; a new one starts open with one
    occurrence.  Every other finding is untouched, except that a full registry
    first evicts the resolved finding seen longest ago.  The call fails only when
    the registry is full of unresolved findings, and then changes nothing.  A
    result without a class changes nothing. *)
Theorem finding_record_spec r result now :
  registry_wf r -> 0 < max_findings (fr_limits r) ->
  (cr_primary result = DivNone -> record r result now = (Ok digest_id_zero, r)) /\
  (cr_primary result <> DivNone ->
   let i := fd_id (finding_candidate (fr_limits r) result) in
   match record r result now with
   | (Ok j, r') =>
       j = i /\ recorded r result now i r' /\
       (forall k, k <> i -> om_find k (fr_findings r') = om_find k (fr_findings r) \/
          om_find k (fr_findings r') = None /\ om_find i (fr_findings r) = None /\ evicted_entry r k)
   | (Err e, r') =>
       r' = r /\ code e = CapacityExceeded /\ om_find i (fr_findings r) = None /\
       Z.of_nat (length (fr_findings r)) = max_findings (fr_limits r) /\
       (forall k f, om_find k (fr_findings r) = Some f -> is_open f = true)
   end).
Proof.
  intros Hr Hpos. split.
  - intros Hp. unfold record. by rewrite bool_decide_eq_true_2.
  - intros Hp i. pose proof (record_cases r result now Hr Hpos Hp) as H. fold i in H.
    destruct (record r result now) as [[j|e] r']; [| done]. by destruct_and! H; split_and!.
Qed.

(** ** Resolution *)

Lemma resolve_loop_find result now m k :
  om_find k (resolve_loop result now m).1 =
  (fun f => if resolvable result f then with_status f Resolved now else f) <$> om_find k m.
Proof.
  induction m as [|[k' f] m IH]; simpl; [done |].
  destruct (resolve_loop result now m) as [m' n]. cbn [fst] in IH.
  destruct (resolvable result f) eqn:E; simpl; case_decide; simpl; rewrite ?E; done.
Qed.

Lemma resolve_loop_keys result now m : map fst (resolve_loop result now m).1 = map fst m.
Proof.
  induction m as [|[k' f] m IH]; simpl; [done |].
  destruct (resolve_loop result now m) as [m' n]. cbn [fst] in IH.
  by destruct (resolvable result f); simpl; rewrite IH.
Qed.

Lemma resolve_loop_count result now m :
  (resolve_loop result now m).2 = length (List.filter (fun e => resolvable result e.2) m).
Proof.
  induction m as [|[k' f] m IH]; simpl; [done |].
  destruct (resolve_loop result now m) as [m' n]. cbn [snd] in IH.
  by destruct (resolvable result f); simpl; rewrite IH.
Qed.

(** Only a match resolves, and it resolves what it speaks for: the open
    findings that name the same group or path and belong to the generation of
    the match or an older one become resolved, all others are unchanged, and the
    count returned is the number of findings resolved.  Afterwards no finding of
    that subject at or below that generation is open. *)
Theorem resolve_from_match_spec r result now :
  let (res, r') := resolve_from_match r result now in
  (cr_outcome result <> Match -> res = Ok 0%nat /\ r' = r) /\
  (cr_outcome result = Match ->
     res = Ok (length (List.filter (fun e => resolvable result e.2) (fr_findings r))) /\
     (forall k, om_find k (fr_findings r') =
        (fun f => if resolvable result f then with_status f Resolved now else f) <$>
        om_find k (fr_findings r)) /\
     (forall k f, om_find k (fr_findings r') = Some f -> finding_same_subject result f = true ->
        value (fd_generation f) <= value (cr_generation result) -> fd_status f = Resolved)).
Proof.
  unfold resolve_from_match. destruct (decide (cr_outcome result = Match)) as [E|E].
  - rewrite bool_decide_eq_true_2 by done. simpl.
    pose proof (resolve_loop_find result now (fr_findings r)) as Hf.
    pose proof (resolve_loop_count result now (fr_findings r)) as Hc.
    destruct (resolve_loop result now (fr_findings r)) as [m n]. cbn [fst snd fr_findings with_findings] in *.
    split; [done |]. intros _. split; [by rewrite Hc |]. split; [done |].
    intros k f Hk Hs Hg. rewrite Hf in Hk.
    destruct (om_find k (fr_findings r)) as [g|]; [| done]. simpl in Hk. injection Hk as <-.
    destruct (resolvable result g) eqn:Er; [done |].
    unfold resolvable in Er. rewrite Hs in Er. unfold id_lt in Er.
    rewrite (proj2 (Z.ltb_ge _ _)), andb_true_r, andb_true_r in Er by done.
    unfold is_open in Er. by bool_prop.
  - rewrite bool_decide_eq_false_2 by done. simpl. by split.
Qed.

Lemma resolve_wf r result now : registry_wf r -> registry_wf (resolve_from_match r result now).2.
Proof.
  intros [Hm Hf Hb]. unfold resolve_from_match.
  destruct (negb (bool_decide (cr_outcome result = Match))); [by constructor |].
  pose proof (resolve_loop_find result now (fr_findings r)) as Hl.
  pose proof (resolve_loop_keys result now (fr_findings r)) as Hk.
  destruct (resolve_loop result now (fr_findings r)) as [m n]. cbn [fst snd] in *.
  constructor; cbn [fr_findings fr_limits with_findings].
  - by apply (om_wf_keys (fr_findings r)).
  - intros k f E. rewrite Hl in E. destruct (om_find k (fr_findings r)) as [g|] eqn:Eg; [| done].
    simpl in E. injection E as <-. destruct (Hf k g Eg). by destruct (resolvable result g).
  - rewrite <- (length_map fst m), Hk, length_map. done.
Qed.

(** ** Restoring *)

(** A finding read back from a store is accepted only under the identity
    its content determines.  Restoring never replaces a record by an older one:
    when it succeeds the registry holds the one of the two that was seen more
    recently, with its status, its times and its count, and restoring the same
    finding again changes nothing.  A refusal changes nothing. *)
Theorem finding_restore_spec r f :
  let (res, r') := finding_restore r f in
  match res with
  | Ok _ =>
      finding_identity f = fd_id f /\
      om_find (fd_id f) (fr_findings r') =
        Some (match om_find (fd_id f) (fr_findings r) with
              | Some g => if finder_keeps_newest g f then f else g
              | None => f
              end) /\
      (forall k, k <> fd_id f -> om_find k (fr_findings r') = om_find k (fr_findings r)) /\
      finding_restore r' f = (ok, r')
  | Err e =>
      r' = r /\
      (code e = IntegrityFailure /\ finding_identity f <> fd_id f \/
       code e = CapacityExceeded /\ om_find (fd_id f) (fr_findings r) = None /\
         max_findings (fr_limits r) <= Z.of_nat (length (fr_findings r)))
  end.
Proof.
  assert (finder_keeps_newest f f = false) as Hself.
  { unfold finder_keeps_newest. rewrite bool_decide_eq_true_2 by done. simpl. apply Z.ltb_irrefl. }
  unfold finding_restore at 1. destruct (decide (finding_identity f = fd_id f)) as [Hi|Hi].
  2:{ rewrite bool_decide_eq_false_2 by done. simpl. split; [done |]. by left. }
  rewrite bool_decide_eq_true_2 by done. cbn [negb].
  destruct (om_find (fd_id f) (fr_findings r)) as [g|] eqn:Eg.
  - destruct (finder_keeps_newest g f) eqn:En; cbn [fr_findings with_findings]; split; try done.
    + rewrite om_find_insert. split; [done |].
      split; [intros k Hk; by rewrite om_find_insert_ne |].
      unfold finding_restore. cbn [fr_findings with_findings].
      by rewrite bool_decide_eq_true_2, om_find_insert, Hself.
    + do 2 (split; [done |]). unfold finding_restore. by rewrite bool_decide_eq_true_2, Eg, En.
  - destruct (Z.of_nat (length (fr_findings r)) <? max_findings (fr_limits r)) eqn:Er; bool_prop;
      cbn [negb fr_findings with_findings].
    + rewrite om_emplace_fresh by done. rewrite om_find_insert. do 2 (split; [done |]).
      split; [intros k Hk; by rewrite om_find_insert_ne |].
      unfold finding_restore. cbn [fr_findings with_findings].
      by rewrite bool_decide_eq_true_2, om_find_insert, Hself.
    + split; [done |]. right. by split_and!.
Qed.

(** ** Every history of the registry *)

Inductive FindingOp : Set :=
  | RecordOp (result : ComparisonResult) (now : TimePoint)
  | AcknowledgeOp (candidate : FindingId) (now : TimePoint)
  | ResolveOp (result : ComparisonResult) (now : TimePoint)
  | RestoreOp (f : Finding)
  | ClearOp.

Definition finding_apply (r : FindingRegistry) (op : FindingOp) : FindingRegistry :=
  match op with
  | RecordOp result now => (record r result now).2
  | AcknowledgeOp candidate now => (acknowledge r candidate now).2
  | ResolveOp result now => (resolve_from_match r result now).2
  | RestoreOp f => (finding_restore r f).2
  | ClearOp => finding_clear r
  end.

Definition finding_history (limits : Limits) (ops : list FindingOp) : FindingRegistry :=
  fold_left finding_apply ops (finding_registry_new limits).

(** How one operation may change the finding filed under [k]. *)
Definition lifecycle_step (op : FindingOp) (f f' : Finding) : Prop :=
  match op with
  | RecordOp result now =>
      f' = f \/ cr_primary result <> DivNone /\ f' = seen_again f (cr_id result) now
  | AcknowledgeOp candidate now =>
      f' = f \/ fd_id f = candidate /\ fd_status f = FindingOpen /\ f' = with_status f Acknowledged now
  | ResolveOp result now =>
      f' = f \/ cr_outcome result = Match /\ resolvable result f = true /\ f' = with_status f Resolved now
  | RestoreOp g => f' = f \/ f' = g /\ fd_id g = fd_id f /\ finder_keeps_newest f g = true
  | ClearOp => False
  end.

Definition lifecycle (r : FindingRegistry) (op : FindingOp) : Prop :=
  forall k f, om_find k (fr_findings r) = Some f ->
    match om_find k (fr_findings (finding_apply r op)) with
    | Some f' => lifecycle_step op f f'
    | None => op = ClearOp \/ evicted_entry r k
    end.

Lemma record_existing_step r result now k f :
  om_find k (fr_findings r) = Some f -> fd_id (finding_candidate (fr_limits r) result) = k ->
  cr_primary result <> DivNone ->
  om_find k (fr_findings (record r result now).2) = Some (seen_again f (cr_id result) now).
Proof.
  intros Hk Hi Hp. unfold record. rewrite bool_decide_eq_false_2, Hi, Hk by done.
  cbn [snd fr_findings with_findings]. by rewrite om_find_insert.
Qed.

Lemma finding_apply_wf r op :
  registry_wf r -> 0 < max_findings (fr_limits r) ->
  registry_wf (finding_apply r op) /\ fr_limits (finding_apply r op) = fr_limits r.
Proof.
  intros Hr Hpos. destruct op as [result now|i now|result now|f|]; cbn [finding_apply].
  - destruct (decide (cr_primary result = DivNone)) as [E|E].
    { unfold record. by rewrite bool_decide_eq_true_2. }
    pose proof (record_cases r result now Hr Hpos E) as H.
    destruct (record r result now) as [[j|e] r']; [| by destruct H as [-> _]].
    destruct H as (_ & H1 & H2 & _). by split.
  - unfold acknowledge. destruct (om_find i (fr_findings r)) as [f|] eqn:E; [| done].
    case_bool_decide; cbn [snd]; [| done]. split; [| done].
    pose proof (rw_filed r Hr i f E) as [Hi Hf]. by apply (registry_wf_update r i f).
  - split; [by apply resolve_wf |]. unfold resolve_from_match. case_goal; [done |].
    by destruct (resolve_loop result now (fr_findings r)).
  - unfold finding_restore. case_bool_decide as Hi; cbn [negb]; [| done].
    destruct (om_find (fd_id f) (fr_findings r)) as [g|] eqn:E.
    + destruct (finder_keeps_newest g f); cbn [snd]; [| done]. split; [| done].
      by apply (registry_wf_update r (fd_id f) g).
    + destruct (_ <? _) eqn:El; cbn [negb snd]; [| done]. bool_prop. split; [| done].
      by apply registry_wf_add.
  - split; [| done]. constructor; cbn; [constructor | done | lia].
Qed.

Lemma finding_apply_lifecycle r op :
  registry_wf r -> 0 < max_findings (fr_limits r) -> lifecycle r op.
Proof.
  intros Hr Hpos k f Hk. pose proof (wf_filed r k f Hr Hk) as Hid.
  destruct op as [result now|i now|result now|g|]; cbn [finding_apply lifecycle_step].
  - destruct (decide (cr_primary result = DivNone)) as [E|E].
    { unfold record. rewrite bool_decide_eq_true_2 by done. cbn [snd]. rewrite Hk. by left. }
    destruct (decide (k = fd_id (finding_candidate (fr_limits r) result))) as [Hi|Hi].
    { rewrite (record_existing_step r result now k f) by done. by right. }
    pose proof (record_cases r result now Hr Hpos E) as H.
    destruct (record r result now) as [[j|e] r']; cbn [snd].
    + destruct H as (_ & _ & _ & _ & H). destruct (H k Hi) as [-> | (-> & _ & Hev)];
        [rewrite Hk; by left | by right].
    + destruct H as [-> _]. rewrite Hk. by left.
  - unfold acknowledge. destruct (om_find i (fr_findings r)) as [f'|] eqn:E; cbn [snd];
      [| rewrite Hk; by left].
    case_bool_decide; cbn [snd]; [| rewrite Hk; by left]. cbn [fr_findings with_findings].
    destruct (decide (i = k)) as [->|].
    + rewrite om_find_insert. right. by simplify_eq.
    + rewrite om_find_insert_ne, Hk by done. by left.
  - unfold resolve_from_match. case_bool_decide as E; cbn [negb snd]; [| rewrite Hk; by left].
    pose proof (resolve_loop_find result now (fr_findings r) k) as Hf.
    destruct (resolve_loop result now (fr_findings r)) as [m n]. cbn [fst snd fr_findings with_findings] in *.
    rewrite Hf, Hk. simpl. destruct (resolvable result f) eqn:Er; [by right | by left].
  - unfold finding_restore. case_bool_decide as Hi; cbn [negb snd]; [| rewrite Hk; by left].
    destruct (decide (fd_id g = k)) as [Hgk|Hgk].
    + rewrite Hgk, Hk. destruct (finder_keeps_newest f g) eqn:En; cbn [snd fr_findings with_findings].
      * rewrite om_find_insert. right. split_and!; congruence.
      * rewrite Hk. by left.
    + destruct (om_find (fd_id g) (fr_findings r)) as [h|] eqn:E.
      * destruct (finder_keeps_newest h g); cbn [snd fr_findings with_findings];
          [rewrite om_find_insert_ne by done |]; rewrite Hk; by left.
      * destruct (_ <? _); cbn [negb snd fr_findings with_findings];
          [rewrite om_emplace_fresh, om_find_insert_ne by done |]; rewrite Hk; by left.
  - by left.
Qed.

Lemma finding_history_wf limits ops :
  0 < max_findings limits ->
  registry_wf (finding_history limits ops) /\ fr_limits (finding_history limits ops) = limits.
Proof.
  intros Hpos. unfold finding_history.
  assert (forall r, registry_wf r -> fr_limits r = limits ->
    registry_wf (fold_left finding_apply ops r) /\ fr_limits (fold_left finding_apply ops r) = limits) as H.
  { induction ops as [|op ops IH]; intros r Hr Hl; [done |]. simpl.
    destruct (finding_apply_wf r op Hr ltac:(by rewrite Hl)) as [Hr' Hl']. apply IH; congruence. }
  apply H; [| done]. constructor; cbn; [constructor | done | lia].
Qed.

(** C24. In every history of the registry the bound holds and each finding is
    filed under the identity its content determines; and one more operation
    changes a finding only along its lifecycle: recording keeps or reopens it,
    acknowledging moves it from open to acknowledged, only a match resolves it,
    only a newer record of the same identity replaces it.  A finding disappears
    only by clearing the registry or, when the registry is full, by evicting the
    resolved finding seen longest ago.  So every operation other than clearing
    keeps every unresolved finding; clearing drops all findings, whatever their
    status. *)
Theorem finding_registry_invariant (limits : Limits) (ops : list FindingOp) (op : FindingOp) :
  0 < max_findings limits ->
  let r := finding_history limits ops in
  Z.of_nat (length (fr_findings r)) <= max_findings limits /\
  (forall k f, om_find k (fr_findings r) = Some f -> fd_id f = k /\ finding_identity f = k) /\
  lifecycle r op /\
  (op <> ClearOp -> forall k f, om_find k (fr_findings r) = Some f -> fd_status f <> Resolved ->
     is_Some (om_find k (fr_findings (finding_apply r op)))) /\
  (op = ClearOp -> fr_findings (finding_apply r op) = []).
Proof.
  intros Hpos r. destruct (finding_history_wf limits ops Hpos) as [Hr Hl]. fold r in Hr, Hl.
  assert (lifecycle r op) as Hlife by (apply finding_apply_lifecycle; [done | by rewrite Hl]).
  split_and!; [rewrite <- Hl; apply (rw_bound r Hr) | apply (rw_filed r Hr) | done | | by intros ->].
  intros Hop k f Hk Hf. specialize (Hlife k f Hk).
  destruct (om_find k (fr_findings (finding_apply r op))) as [f' |]; [by exists f' |].
  destruct Hlife as [-> | (_ & g & Hg & Hres & _)]; [done |]. rewrite Hk in Hg. by injection Hg as <-.
Qed.

(** ** A concrete result *)

Definition example_result (primary : DivergenceClass) (outcome : MatchOutcome) : ComparisonResult :=
  mk_result digest_id_zero (from_value 3) (from_value 2) (maybe (from_value 7)) absent absent
    outcome primary [primary] Fresh Complete Consistent SurfaceReal false false 1 1 0 0
    [] [mk_difference 1 primary expected_hop_new observed_hop_new false false] []
    (from_unix_nanos 10).

Lemma finding_record_spec_witness :
  (record (finding_registry_new default_limits) (example_result HopMissing Divergent) (from_unix_nanos 10)).1
  = Ok (fd_id (finding_candidate default_limits (example_result HopMissing Divergent))).
Proof.
  destruct (finding_record_spec (finding_registry_new default_limits) (example_result HopMissing Divergent)
    (from_unix_nanos 10)) as [_ H].
  - constructor; [constructor | done | by vm_compute].
  - by vm_compute.
  - specialize (H ltac:(discriminate)). cbv zeta in H.
    destruct (record _ _ _) as [[j|e] r'].
    + by destruct H as [-> _].
    + by destruct H as (_ & _ & _ & H & _).
Defined.

Lemma finding_registry_invariant_witness :
  let ops := [RecordOp (example_result HopMissing Divergent) (from_unix_nanos 10)] in
  let later := RecordOp (example_result PortMismatch Divergent) (from_unix_nanos 11) in
  length (fr_findings (finding_history default_limits ops)) = 1%nat /\
  Z.of_nat (length (fr_findings (finding_history default_limits ops))) <= 65536 /\
  forall k f, om_find k (fr_findings (finding_history default_limits ops)) = Some f -> fd_status f <> Resolved ->
    is_Some (om_find k (fr_findings (finding_apply (finding_history default_limits ops) later))).
Proof.
  intros ops later. destruct (finding_registry_invariant default_limits ops later) as (Hb & _ & _ & Hkept & _);
    [by vm_compute |].
  split; [by vm_compute |]. split; [exact Hb |]. apply Hkept. discriminate.
Defined.

(** A finding that was resolved by a match is reopened when it is seen again. *)
Example finding_reopens :
  map fd_status (finding_all (finding_history default_limits
    [RecordOp (example_result HopMissing Divergent) (from_unix_nanos 10);
     ResolveOp (example_result DivNone Match) (from_unix_nanos 11);
     RecordOp (example_result HopMissing Divergent) (from_unix_nanos 12)])) = [FindingOpen].
Proof. by vm_compute. Qed.
