(* ===== verification/History.v ===== *)
(** * Comparison history

    Models [include/pathobs/history.hpp] and [src/history.cpp]: the bounded log of
    comparison results, its eviction, queries and pruning.  The deque is a list,
    oldest record first; the mutex makes each operation one step. *)

From S2P Require Import Prelude Errors StdAlgo Digest Canonical Ids TimeModel Limits Source Topology Observed Expected Freshness Divergence Compare.
#[local] Open Scope Z_scope.

(** ** Data *)

Record HistoryRecord : Set := mk_history_record {
  hr_id : ComparisonId;
  hr_generation : RouteGenerationId;
  hr_topology : TopologyGenerationId;
  hr_group : MaybeId PathGroupIdTag;
  hr_path : MaybeId PathIdTag;
  hr_matched_path : MaybeId PathIdTag;
  hr_outcome : MatchOutcome;
  hr_primary : DivergenceClass;
  hr_freshness : Freshness;
  hr_completeness : EvidenceCompleteness;
  hr_consistency : ObservationConsistency;
  hr_surface : ProofSurface;
  hr_evidence_considered : Z;
  hr_evidence_rejected : Z;
  hr_evaluated_at : TimePoint
}.

#[global] Instance HistoryRecord_eq_dec : EqDecision HistoryRecord.
Proof. solve_decision. Defined.

Record HistoryQuery : Set := mk_history_query {
  hq_group : MaybeId PathGroupIdTag;
  hq_path : MaybeId PathIdTag;
  hq_generation : MaybeId RouteGenerationIdTag;
  hq_since : TimePoint;
  hq_outcome_filter : MatchOutcome;
  hq_filter_by_outcome : bool;
  hq_limit : Z;
  hq_now : TimePoint;
  hq_apply_window : bool
}.

(** The default member initialisers. *)
Definition history_query_new : HistoryQuery :=
  mk_history_query absent absent absent unset NoExpectedState false 256 unset false.

Record HistoryQueryResult : Set := mk_history_answer {
  ha_records : list HistoryRecord;
  ha_matched : nat;
  ha_excluded_by_window : nat;
  ha_excluded_by_filter : nat;
  ha_truncated : bool
}.

Record HistoryStore : Set := mk_history {
  hs_limits : Limits;
  hs_records : list HistoryRecord;
  hs_evicted_by_limit : Z;
  hs_evicted_by_window : Z
}.

Definition history_new (limits : Limits) : HistoryStore := mk_history limits [] 0 0.

(** ** Appending *)

(** [same_subject] *)
Definition history_same_subject (record : HistoryRecord) (group : MaybeId PathGroupIdTag)
    (path : MaybeId PathIdTag) : bool :=
  if present group && present (hr_group record) &&
     bool_decide (maybe_value group = maybe_value (hr_group record)) then true else
  if present path && present (hr_path record) &&
     bool_decide (maybe_value path = maybe_value (hr_path record)) then true else false.

(** [append]: the record built from the result. *)
Definition history_record_of (r : ComparisonResult) : HistoryRecord :=
  mk_history_record (cr_id r) (cr_generation r) (cr_topology r) (cr_group r) (cr_path r)
    (cr_matched_path r) (cr_outcome r) (cr_primary r) (cr_freshness r) (cr_completeness r)
    (cr_consistency r) (cr_surface r) (wrap_u 32 (Z.of_nat (cr_evidence_considered r)))
    (wrap_u 32 (Z.of_nat (cr_evidence_rejected r))) (cr_evaluated_at r).

(** The inner loop of [append]: how many records share the subject of [x]. *)
Definition subject_count (records : list HistoryRecord) (x : HistoryRecord) : nat :=
  length (List.filter (fun y => history_same_subject y (hr_group x) (hr_path x)) records).

(** The scan of [append] for the first record of the largest subject over its
    cap: the state of the loop is [worst_count] and [worst_index]. *)
Fixpoint worst_go (cap : Z) (records : list HistoryRecord) (rest : list HistoryRecord) (i : nat)
    (worst : nat * option nat) : option nat :=
  match rest with
  | [] => worst.2
  | x :: rest =>
      let count := subject_count records x in
      worst_go cap records rest (S i)
        (if (cap <? Z.of_nat count) && (worst.1 <? count)%nat then (count, Some i) else worst)
  end.

Definition worst_subject (cap : Z) (records : list HistoryRecord) : option nat :=
  worst_go cap records records 0 (0%nat, None).

(** [records_.erase(records_.begin() + index)] *)
Definition erase_at {A} (i : nat) (l : list A) : list A := take i l ++ drop (S i) l.

(** [append]: [for (;;)], with the records that are left and the number erased.
    Each round erases one record, so their number is enough fuel. *)
Fixpoint trim_subjects (fuel : nat) (cap : Z) (records : list HistoryRecord) :
    list HistoryRecord * nat :=
  match fuel with
  | O => (records, O)
  | S fuel =>
      match worst_subject cap records with
      | None => (records, O)
      | Some i =>
          let (records, n) := trim_subjects fuel cap (erase_at i records) in (records, S n)
      end
  end.

(** [append]: [while (records_.size() > max_history_records) pop_front]. *)
Fixpoint trim_front (limit : Z) (records : list HistoryRecord) : list HistoryRecord * nat :=
  match records with
  | [] => ([], O)
  | x :: rest =>
      if limit <? Z.of_nat (length records)
      then let (records, n) := trim_front limit rest in (records, S n)
      else (records, O)
  end.

(** [HistoryStore::append] *)
Definition history_append (s : HistoryStore) (result : ComparisonResult) : Status * HistoryStore :=
  let records := hs_records s ++ [history_record_of result] in
  let (records, n) :=
    trim_subjects (length records) (max_history_per_group (hs_limits s)) records in
  let (records, m) := trim_front (max_history_records (hs_limits s)) records in
  (ok, mk_history (hs_limits s) records
         (wrap_u 64 (hs_evicted_by_limit s + Z.of_nat (n + m))) (hs_evicted_by_window s)).

(** ** Queries *)

Inductive QueryVerdict : Set := Selected | ExcludedByFilter | ExcludedByWindow.

#[global] Instance QueryVerdict_eq_dec : EqDecision QueryVerdict.
Proof. solve_decision. Defined.

(** The age test shared by [query] and [prune]: a raw 64 bit subtraction. *)
Definition outside_window (limits : Limits) (now evaluated : TimePoint) : bool :=
  let age := wrap_i64 (unix_nanos now - unix_nanos evaluated) in
  (0 <? age) && (history_window_nanos limits <? age).

(** The body of the loop of [query]. *)
Definition query_verdict (limits : Limits) (q : HistoryQuery) (record : HistoryRecord) : QueryVerdict :=
  if (present (hq_group q) || present (hq_path q)) &&
     negb (history_same_subject record (hq_group q) (hq_path q)) then ExcludedByFilter else
  if present (hq_generation q) &&
     negb (bool_decide (hr_generation record = maybe_value (hq_generation q))) then ExcludedByFilter else
  if is_set (hq_since q) && is_set (hr_evaluated_at record) &&
     time_lt (hr_evaluated_at record) (hq_since q) then ExcludedByFilter else
  if hq_filter_by_outcome q && negb (bool_decide (hr_outcome record = hq_outcome_filter q))
  then ExcludedByFilter else
  if hq_apply_window q && is_set (hq_now q) && is_set (hr_evaluated_at record) &&
     outside_window limits (hq_now q) (hr_evaluated_at record) then ExcludedByWindow else
  Selected.

(** The comparator of [query]: newest first, then the larger identity. *)
Definition history_before (a b : HistoryRecord) : bool :=
  if negb (bool_decide (hr_evaluated_at a = hr_evaluated_at b))
  then time_lt (hr_evaluated_at b) (hr_evaluated_at a)
  else klt (hr_id b) (hr_id a).

Definition with_verdict (limits : Limits) (q : HistoryQuery) (v : QueryVerdict)
    (records : list HistoryRecord) : list HistoryRecord :=
  List.filter (fun x => bool_decide (query_verdict limits q x = v)) records.

(** [HistoryStore::query] *)
Definition history_query (s : HistoryStore) (q : HistoryQuery) : HistoryQueryResult :=
  let limits := hs_limits s in
  let selected := with_verdict limits q Selected (hs_records s) in
  let sorted := sort_by history_before selected in
  let limit := Z.to_nat (Z.min (hq_limit q) (max_export_records limits)) in
  mk_history_answer (take limit sorted) (length selected)
    (length (with_verdict limits q ExcludedByWindow (hs_records s)))
    (length (with_verdict limits q ExcludedByFilter (hs_records s)))
    (limit <? length sorted)%nat.

(** ** Pruning *)

(** The loop of [prune]. *)
Fixpoint prune_loop (limits : Limits) (now : TimePoint) (records : list HistoryRecord) :
    list HistoryRecord * nat :=
  match records with
  | [] => ([], O)
  | oldest :: rest =>
      if negb (is_set (hr_evaluated_at oldest)) then (records, O) else
      let age := wrap_i64 (unix_nanos now - unix_nanos (hr_evaluated_at oldest)) in
      if (age <=? 0) || (age <=? history_window_nanos limits) then (records, O) else
      let (records, n) := prune_loop limits now rest in (records, S n)
  end.

(** [HistoryStore::prune] *)
Definition history_prune (s : HistoryStore) (now : TimePoint) : Result nat * HistoryStore :=
  if negb (is_set now)
  then (Err (error InvalidArgument "history prune requires an evaluation time"), s)
  else
    let (records, removed) := prune_loop (hs_limits s) now (hs_records s) in
    (Ok removed, mk_history (hs_limits s) records (hs_evicted_by_limit s)
                   (wrap_u 64 (hs_evicted_by_window s + Z.of_nat removed))).

Definition history_size (s : HistoryStore) : nat := length (hs_records s).
Definition history_clear (s : HistoryStore) : HistoryStore :=
  mk_history (hs_limits s) [] (hs_evicted_by_limit s) (hs_evicted_by_window s).

(** ** Eviction *)

Lemma subject_count_sublist l1 l2 x : sublist l1 l2 -> (subject_count l1 x <= subject_count l2 x)%nat.
Proof.
  unfold subject_count. induction 1 as [|y l1 l2 _ IH|y l1 l2 _ IH]; simpl; [lia | |];
    case_match; simpl; lia.
Qed.

Lemma erase_at_sublist {A} i (l : list A) : sublist (erase_at i l) l.
Proof.
  unfold erase_at. revert i.
  induction l as [|x l IH]; intros [|i]; simpl; [done | done | rewrite drop_0 | by apply sublist_skip].
  by apply sublist_cons.
Qed.

Lemma erase_at_length {A} i (l : list A) : (i < length l)%nat -> S (length (erase_at i l)) = length l.
Proof. intros Hi. unfold erase_at. rewrite length_app, length_take, length_drop. lia. Qed.

(** The state of the scan after the records of [pre]. *)
Definition worst_of (cap : Z) (records pre : list HistoryRecord) (worst : nat * option nat) : Prop :=
  match worst.2 with
  | None => worst.1 = 0%nat /\ forall x, x ∈ pre -> Z.of_nat (subject_count records x) <= cap
  | Some k =>
      (exists x, pre !! k = Some x /\ subject_count records x = worst.1) /\ cap < Z.of_nat worst.1 /\
      forall j y, pre !! j = Some y ->
        (subject_count records y <= worst.1)%nat /\ ((j < k)%nat -> (subject_count records y < worst.1)%nat)
  end.

Lemma worst_go_spec cap records rest pre worst :
  0 <= cap -> worst_of cap records pre worst ->
  exists c, worst_of cap records (pre ++ rest) (c, worst_go cap records rest (length pre) worst).
Proof.
  intros Hcap. revert pre worst. induction rest as [|x rest IH]; intros pre worst Hw.
  { exists worst.1. rewrite app_nil_r. by destruct worst. }
  cbn [worst_go]. set (c := subject_count records x).
  replace (pre ++ x :: rest) with ((pre ++ [x]) ++ rest) by (by rewrite <- app_assoc).
  replace (S (length pre)) with (length (pre ++ [x])) by (rewrite length_app; simpl; lia).
  apply IH. unfold worst_of in *. destruct worst as [w o]. cbn [fst snd] in *.
  destruct ((cap <? Z.of_nat c) && (w <? c)%nat) eqn:E; cbn [fst snd].
  - bool_prop. split; [exists x; by rewrite list_lookup_middle |]. split; [lia |].
    intros j y Hj. apply lookup_snoc_Some in Hj as [[Hlt Hj] | [-> ->]]; [| fold c; lia].
    destruct o as [k|].
    + destruct Hw as (_ & _ & Hw). destruct (Hw j y Hj). lia.
    + destruct Hw as [-> Hw]. specialize (Hw y (list_elem_of_lookup_2 _ _ _ Hj)). lia.
  - assert (Z.of_nat c <= cap \/ (c <= w)%nat) as Hc.
    { apply andb_false_iff in E as [E|E]; bool_prop; lia. }
    destruct o as [k|].
    + destruct Hw as ((z & Hz & Hzw) & Hk & Hw). split_and!; [| done |].
      * exists z. split; [| done]. by apply lookup_app_l_Some.
      * intros j y Hj. apply lookup_snoc_Some in Hj as [[Hlt Hj] | [-> ->]]; [by apply Hw |].
        fold c. split; [lia |]. apply lookup_lt_Some in Hz. lia.
    + destruct Hw as [-> Hw]. split; [done |].
      intros y [Hy | ->%list_elem_of_singleton]%elem_of_app; [auto | fold c; lia].
Qed.

Lemma worst_subject_spec cap records :
  0 <= cap ->
  match worst_subject cap records with
  | None => forall x, x ∈ records -> Z.of_nat (subject_count records x) <= cap
  | Some k => exists x, records !! k = Some x /\ cap < Z.of_nat (subject_count records x) /\
      forall j y, records !! j = Some y ->
        (subject_count records y <= subject_count records x)%nat /\
        ((j < k)%nat -> (subject_count records y < subject_count records x)%nat)
  end.
Proof.
  intros Hcap. destruct (worst_go_spec cap records records [] (0%nat, None) Hcap) as [c H].
  { split; [done |]. by intros x ?%elem_of_nil. }
  cbn [app length] in H. change (worst_go cap records records 0 (0%nat, None)) with
    (worst_subject cap records) in H.
  unfold worst_of in H. cbn [fst snd] in H. destruct (worst_subject cap records) as [k|].
  - destruct H as ((x & Hx & <-) & Hc & H). by exists x.
  - by destruct H.
Qed.

Lemma trim_subjects_spec fuel cap records records' n :
  0 <= cap -> (length records <= fuel)%nat -> trim_subjects fuel cap records = (records', n) ->
  sublist records' records /\ (length records' + n = length records)%nat /\
  forall x, x ∈ records' -> Z.of_nat (subject_count records' x) <= cap.
Proof.
  intros Hcap. revert records records' n. induction fuel as [|fuel IH]; intros records records' n Hl E.
  { destruct records; [| simpl in Hl; lia]. injection E as <- <-. split_and!; [done | done |].
    by intros x ?%elem_of_nil. }
  cbn [trim_subjects] in E. pose proof (worst_subject_spec cap records Hcap) as Hw.
  destruct (worst_subject cap records) as [i|]; [| injection E as <- <-; by split_and!].
  destruct Hw as (x & Hx & _). pose proof (erase_at_length i records (lookup_lt_Some _ _ _ Hx)) as Hlen.
  destruct (trim_subjects fuel cap (erase_at i records)) as [l m] eqn:El. injection E as <- <-.
  apply IH in El as (Hs & Hlm & Hb); [| lia]. split_and!; [| lia | done].
  etransitivity; [exact Hs | apply erase_at_sublist].
Qed.

Lemma trim_front_spec limit records records' n :
  0 <= limit -> trim_front limit records = (records', n) ->
  records' = drop n records /\ Z.of_nat (length records') <= limit /\
  (length records' + n = length records)%nat /\
  (Z.of_nat (length records) <= limit -> n = 0%nat).
Proof.
  intros Hlim. revert records' n. induction records as [|x rest IH]; intros records' n E.
  { injection E as <- <-. split_and!; simpl; lia || done. }
  cbn [trim_front] in E. destruct (limit <? Z.of_nat (length (x :: rest))) eqn:El; bool_prop.
  - destruct (trim_front limit rest) as [l m] eqn:Er. injection E as <- <-.
    destruct (IH l m eq_refl) as (-> & H1 & H2 & H3). split_and!; simpl in *; lia || done.
  - injection E as <- <-. split_and!; simpl in *; lia || done.
Qed.

(** Both bounds of the store. *)
Definition history_bounded (s : HistoryStore) : Prop :=
  Z.of_nat (length (hs_records s)) <= max_history_records (hs_limits s) /\
  forall x, x ∈ hs_records s ->
    Z.of_nat (subject_count (hs_records s) x) <= max_history_per_group (hs_limits s).

Definition history_limits_ok (limits : Limits) : Prop :=
  0 <= max_history_records limits /\ 0 <= max_history_per_group limits.

Lemma history_append_cases s result :
  history_limits_ok (hs_limits s) ->
  let s' := (history_append s result).2 in
  let offered := hs_records s ++ [history_record_of result] in
  history_bounded s' /\ hs_limits s' = hs_limits s /\ sublist (hs_records s') offered /\
  hs_evicted_by_limit s' =
    wrap_u 64 (hs_evicted_by_limit s + Z.of_nat (length offered - length (hs_records s'))) /\
  (Z.of_nat (length offered) <= max_history_records (hs_limits s) ->
   (forall x, x ∈ offered -> Z.of_nat (subject_count offered x) <= max_history_per_group (hs_limits s)) ->
   hs_records s' = offered).
Proof.
  intros [Hr Hg]. cbv zeta. unfold history_append. set (offered := hs_records s ++ _).
  destruct (trim_subjects (length offered) _ offered) as [l n] eqn:El.
  destruct (trim_front _ l) as [l' m] eqn:Em. cbn [snd hs_records hs_limits hs_evicted_by_limit].
  pose proof (trim_subjects_spec _ _ _ _ _ Hg (le_n _) El) as (Hs & Hn & Hb).
  pose proof (trim_front_spec _ _ _ _ Hr Em) as (Hl' & Hlen & Hm & Hm0).
  assert (sublist l' l) as Hs' by (subst l'; apply sublist_drop).
  split_and!.
  - split; cbn [hs_records hs_limits]; [exact Hlen |].
    intros x Hx. pose proof (subject_count_sublist l' l x Hs').
    specialize (Hb x (elem_of_sublist _ _ _ Hx Hs')). lia.
  - done.
  - by etransitivity.
  - do 3 f_equal. lia.
  - intros Hfit Hcap. cbn [length] in El.
    assert (l = offered /\ n = 0%nat) as [-> ->].
    { pose proof (worst_subject_spec (max_history_per_group (hs_limits s)) offered Hg) as Hw.
      destruct (worst_subject _ offered) as [i|] eqn:Ew.
      - destruct Hw as (x & Hx & Hc & _). specialize (Hcap x (list_elem_of_lookup_2 _ _ _ Hx)). lia.
      - destruct (length offered); cbn [trim_subjects] in El; [| rewrite Ew in El];
          by injection El as <- <-. }
    rewrite (Hm0 Hfit) in Hl'. by rewrite Hl', drop_0.
Qed.

(** The operations of the store. *)
Inductive HistoryOp : Set :=
  | AppendOp (result : ComparisonResult)
  | PruneOp (now : TimePoint)
  | HistoryClearOp.

Definition history_apply (s : HistoryStore) (op : HistoryOp) : HistoryStore :=
  match op with
  | AppendOp result => (history_append s result).2
  | PruneOp now => (history_prune s now).2
  | HistoryClearOp => history_clear s
  end.

Lemma prune_loop_spec limits now records records' n :
  prune_loop limits now records = (records', n) ->
  records' = drop n records /\ (length records' + n = length records)%nat /\
  (forall x, x ∈ take n records ->
     is_set (hr_evaluated_at x) = true /\ outside_window limits now (hr_evaluated_at x) = true) /\
  (forall x, head records' = Some x ->
     is_set (hr_evaluated_at x) = false \/ outside_window limits now (hr_evaluated_at x) = false).
Proof.
  revert records' n. induction records as [|x rest IH]; intros records' n E.
  { injection E as <- <-. split_and!; try done. by intros x ?%elem_of_nil. }
  cbn [prune_loop] in E. destruct (is_set (hr_evaluated_at x)) eqn:Es; cbn [negb] in E.
  2:{ injection E as <- <-. split_and!; simpl; [done | lia | by intros y ?%elem_of_nil |].
      intros y [= <-]. by left. }
  set (age := wrap_i64 _) in E. destruct ((age <=? 0) || (age <=? history_window_nanos limits)) eqn:Ea.
  - injection E as <- <-. split_and!; simpl; [done | lia | by intros y ?%elem_of_nil |].
    intros y [= <-]. right. unfold outside_window. fold age.
    apply orb_true_iff in Ea. apply andb_false_iff. rewrite !Z.ltb_ge, <- !Z.leb_le. exact Ea.
  - destruct (prune_loop limits now rest) as [l m] eqn:El. injection E as <- <-.
    destruct (IH l m eq_refl) as (-> & Hlen & Hout & Hhead). split_and!; simpl; [done | lia | | done].
    intros y [->|Hy]%elem_of_cons; [| auto]. split; [done |].
    unfold outside_window. fold age. apply orb_false_iff in Ea.
    apply andb_true_iff. rewrite !Z.ltb_lt, <- !Z.leb_gt. exact Ea.
Qed.

Lemma history_apply_bounded s op :
  history_limits_ok (hs_limits s) -> history_bounded s ->
  history_bounded (history_apply s op) /\ hs_limits (history_apply s op) = hs_limits s.
Proof.
  intros Hok [Hl Hc]. destruct op as [result|now|]; cbn [history_apply].
  - by destruct (history_append_cases s result Hok) as (? & ? & _).
  - unfold history_prune. case_goal; [done |].
    destruct (prune_loop (hs_limits s) now (hs_records s)) as [l n] eqn:El. cbn [snd].
    apply prune_loop_spec in El as (-> & Hlen & _).
    split; [| done]. split; cbn [hs_records hs_limits]; [lia |].
    intros x Hx. pose proof (sublist_drop (hs_records s) n) as Hs.
    pose proof (subject_count_sublist _ _ x Hs). specialize (Hc x (elem_of_sublist _ _ _ Hx Hs)). lia.
  - split; [| done]. destruct Hok. split; cbn; [done |]. by intros x ?%elem_of_nil.
Qed.

(** C30. In every history of the store both bounds hold: no more records than
    [max_history_records], and no subject with more records than
    [max_history_per_group]; appending always ends, adds the record of the result
    as the newest one, drops records only to respect a bound, keeps the order of
    the rest, and counts exactly what it dropped. *)
Theorem history_store_bounded (limits : Limits) (ops : list HistoryOp) (result : ComparisonResult) :
  history_limits_ok limits ->
  let s := fold_left history_apply ops (history_new limits) in
  let s' := (history_append s result).2 in
  let offered := hs_records s ++ [history_record_of result] in
  history_bounded s /\ history_bounded s' /\ sublist (hs_records s') offered /\
  hs_evicted_by_limit s' =
    wrap_u 64 (hs_evicted_by_limit s + Z.of_nat (length offered - length (hs_records s'))) /\
  (Z.of_nat (length offered) <= max_history_records limits ->
   (forall x, x ∈ offered -> Z.of_nat (subject_count offered x) <= max_history_per_group limits) ->
   hs_records s' = offered).
Proof.
  intros Hok s.
  assert (history_bounded s /\ hs_limits s = limits) as [Hb Hl].
  { unfold s. assert (forall s0, hs_limits s0 = limits -> history_bounded s0 ->
      history_bounded (fold_left history_apply ops s0) /\
      hs_limits (fold_left history_apply ops s0) = limits) as H.
    { induction ops as [|op ops IH]; intros s0 Hl Hb; [done |]. simpl.
      destruct (history_apply_bounded s0 op ltac:(by rewrite Hl) Hb) as [Hb' Hl'].
      apply IH; [congruence | done]. }
    apply H; [done |]. destruct Hok. split; cbn; [done |]. by intros x ?%elem_of_nil. }
  clearbody s. subst limits. destruct (history_append_cases s result Hok) as (H1 & _ & H2 & H3 & H4).
  by split_and!.
Qed.

(** ** Which record is dropped *)

Lemma first_match {A} (f : A -> bool) (l : list A) :
  existsb f l = true ->
  exists before x after, l = before ++ x :: after /\ f x = true /\ forall y, y ∈ before -> f y = false.
Proof.
  induction l as [|a l IH]; [done |]. cbn [existsb]. destruct (f a) eqn:E.
  - intros _. exists [], a, l. split_and!; [done | done |]. by intros y ?%elem_of_nil.
  - intros (before & x & after & -> & Hx & Hb)%IH. exists (a :: before), x, after.
    split_and!; [done | done |]. intros y [->|?]%elem_of_cons; auto.
Qed.

(** Records that name a group and no path: their subjects are their groups. *)
Definition group_only (x : HistoryRecord) : Prop :=
  present (hr_group x) = true /\ present (hr_path x) = false.

Definition in_group (g : MaybeId PathGroupIdTag) (x : HistoryRecord) : bool :=
  bool_decide (maybe_value g = maybe_value (hr_group x)).

Lemma same_subject_group_only x y :
  group_only x -> group_only y ->
  history_same_subject y (hr_group x) (hr_path x) = in_group (hr_group x) y.
Proof.
  intros [Hx Hx'] [Hy Hy']. unfold history_same_subject, in_group. rewrite Hx, Hx', Hy. simpl.
  by case_bool_decide.
Qed.

Lemma subject_count_group_only records x :
  Forall group_only records -> group_only x ->
  subject_count records x = length (List.filter (in_group (hr_group x)) records).
Proof.
  intros Hr Hx. unfold subject_count. f_equal. apply filter_ext_in. intros y Hy.
  apply same_subject_group_only; [done |]. rewrite Forall_elem in Hr. apply Hr. by apply list_elem_of_In.
Qed.

Lemma erase_at_middle {A} (l1 l2 : list A) x : erase_at (length l1) (l1 ++ x :: l2) = l1 ++ l2.
Proof.
  unfold erase_at. rewrite take_app_length. f_equal.
  rewrite (cons_middle x), app_assoc, drop_app_length'; [done |]. rewrite length_app. simpl. lia.
Qed.

Lemma trim_subjects_within fuel cap records :
  0 <= cap -> (forall x, x ∈ records -> Z.of_nat (subject_count records x) <= cap) ->
  trim_subjects fuel cap records = (records, 0%nat).
Proof.
  intros Hcap Hb. destruct fuel as [|fuel]; [done |]. cbn [trim_subjects].
  pose proof (worst_subject_spec cap records Hcap) as Hw.
  destruct (worst_subject cap records) as [i|]; [| done].
  destruct Hw as (x & Hx & Hc & _). specialize (Hb x (list_elem_of_lookup_2 _ _ _ Hx)). lia.
Qed.

Lemma group_only_count_ext records x y :
  Forall group_only records -> group_only x -> group_only y ->
  in_group (hr_group x) y = true -> subject_count records y = subject_count records x.
Proof.
  intros Hr Hx Hy E. rewrite !subject_count_group_only by done. f_equal. apply filter_ext.
  intros z. unfold in_group in *. apply bool_decide_eq_true in E. by rewrite E.
Qed.

Lemma subject_count_app l1 l2 x : subject_count (l1 ++ l2) x = (subject_count l1 x + subject_count l2 x)%nat.
Proof. unfold subject_count. by rewrite List.filter_app, length_app. Qed.

Lemma existsb_filter {A} (f : A -> bool) (l : list A) :
  (0 < length (List.filter f l))%nat -> existsb f l = true.
Proof. induction l as [|a l IH]; simpl; [lia |]. destruct (f a); [done | exact IH]. Qed.

Lemma in_group_sym x y : in_group (hr_group x) y = in_group (hr_group y) x.
Proof. unfold in_group. apply bool_decide_ext. split; congruence. Qed.

Lemma in_group_trans x y z :
  in_group (hr_group x) y = true -> in_group (hr_group z) y = in_group (hr_group x) z.
Proof.
  unfold in_group. intros E%bool_decide_eq_true. rewrite <- E. apply bool_decide_ext. split; congruence.
Qed.

Lemma subject_count_single x y :
  group_only x -> group_only y -> subject_count [x] y = if in_group (hr_group y) x then 1%nat else 0%nat.
Proof.
  intros Hx Hy. unfold subject_count. cbn [List.filter]. rewrite same_subject_group_only by done.
  by destruct (in_group (hr_group y) x).
Qed.

Section FullGroup.
Context (cap : Z) (old : list HistoryRecord) (x : HistoryRecord).
Hypothesis Hcap : 0 < cap.
Hypothesis Hold : Forall group_only old.
Hypothesis Hx : group_only x.
Hypothesis Hb : forall y, y ∈ old -> Z.of_nat (subject_count old y) <= cap.

Lemma in_own_group : in_group (hr_group x) x = true.
Proof. unfold in_group. by apply bool_decide_eq_true_2. Qed.

Lemma offered_group_only y : y ∈ old ++ [x] -> group_only y.
Proof.
  rewrite Forall_elem in Hold. intros [Hy | ->%list_elem_of_singleton]%elem_of_app; auto.
Qed.

(** The counts once the new record is in. *)
Lemma offered_count y :
  y ∈ old ++ [x] -> subject_count (old ++ [x]) y =
    if in_group (hr_group x) y then S (subject_count old x) else subject_count old y.
Proof.
  intros Hy. pose proof (offered_group_only y Hy) as Hgy.
  rewrite subject_count_app, subject_count_single, <- in_group_sym by done.
  destruct (in_group (hr_group x) y) eqn:E; [| lia].
  rewrite (group_only_count_ext old x y) by done. lia.
Qed.

Lemma other_group_fits y :
  y ∈ old ++ [x] -> in_group (hr_group x) y = false -> Z.of_nat (subject_count old y) <= cap.
Proof.
  intros [Hy | ->%list_elem_of_singleton]%elem_of_app E; [by apply Hb |].
  by rewrite in_own_group in E.
Qed.

Lemma group_below_cap :
  Z.of_nat (subject_count old x) < cap ->
  forall y, y ∈ old ++ [x] -> Z.of_nat (subject_count (old ++ [x]) y) <= cap.
Proof.
  intros Hlt y Hy. rewrite offered_count by done.
  destruct (in_group (hr_group x) y) eqn:E; [lia | by apply other_group_fits].
Qed.

Context (before after : list HistoryRecord) (oldest : HistoryRecord).
Hypothesis Hsplit : old = before ++ oldest :: after.
Hypothesis Holdest : in_group (hr_group x) oldest = true.
Hypothesis Hbefore : forall y, y ∈ before -> in_group (hr_group x) y = false.
Hypothesis Hfull : cap <= Z.of_nat (subject_count old x).

Lemma oldest_in_old : oldest ∈ old.
Proof. rewrite Hsplit, elem_of_app. right. constructor. Qed.

Lemma full_count : Z.of_nat (subject_count old x) = cap.
Proof.
  pose proof (Hb oldest oldest_in_old) as H.
  rewrite (group_only_count_ext old x oldest) in H; [lia | done | done | | done].
  apply offered_group_only, elem_of_app. left. apply oldest_in_old.
Qed.

Lemma oldest_lookup : (old ++ [x]) !! length before = Some oldest.
Proof. rewrite Hsplit, <- app_assoc. by apply list_lookup_middle. Qed.

(** The scan picks the oldest record of the group. *)
Lemma worst_is_oldest : worst_subject cap (old ++ [x]) = Some (length before).
Proof.
  pose proof full_count as Hc. pose proof oldest_lookup as Hlo.
  pose proof (worst_subject_spec cap (old ++ [x]) ltac:(lia)) as Hw.
  pose proof (offered_count oldest (list_elem_of_lookup_2 _ _ _ Hlo)) as Hoc. rewrite Holdest in Hoc.
  destruct (worst_subject cap (old ++ [x])) as [k|];
    [| specialize (Hw oldest (list_elem_of_lookup_2 _ _ _ Hlo)); lia].
  destruct Hw as (z & Hz & Hzc & Hmax). f_equal. pose proof (list_elem_of_lookup_2 _ _ _ Hz) as Hzin.
  rewrite offered_count in Hzc, Hmax by done.
  destruct (in_group (hr_group x) z) eqn:Ez; [| pose proof (other_group_fits z Hzin Ez); lia].
  destruct (Nat.lt_trichotomy k (length before)) as [Hk | [Hk | Hk]]; [| done |].
  - rewrite Hsplit, <- app_assoc, lookup_app_l in Hz by done.
    pose proof (Hbefore z (list_elem_of_lookup_2 _ _ _ Hz)). congruence.
  - destruct (Hmax _ _ Hlo) as [_ Hlt]. specialize (Hlt Hk). lia.
Qed.

Lemma erased_fits y :
  y ∈ before ++ after ++ [x] -> Z.of_nat (subject_count (before ++ after ++ [x]) y) <= cap.
Proof.
  intros Hy. pose proof full_count as Hc.
  assert (y ∈ old ++ [x]) as Hy'.
  { rewrite Hsplit. rewrite !elem_of_app, ?elem_of_cons in *. tauto. }
  pose proof (offered_group_only y Hy') as Hgy. pose proof (offered_count y Hy') as Hcount.
  assert (group_only oldest) as Hgo by (apply offered_group_only, elem_of_app; left; apply oldest_in_old).
  rewrite Hsplit in Hcount at 1. rewrite <- app_assoc in Hcount.
  change ((oldest :: after) ++ [x]) with ([oldest] ++ after ++ [x]) in Hcount.
  rewrite (subject_count_app before), (subject_count_app [oldest]) in Hcount.
  rewrite subject_count_app. rewrite subject_count_single in Hcount by done.
  rewrite (in_group_trans x oldest y) in Hcount by done.
  destruct (in_group (hr_group x) y) eqn:E; [lia |].
  pose proof (other_group_fits y Hy' E). lia.
Qed.

Lemma trim_full_group :
  trim_subjects (length (old ++ [x])) cap (old ++ [x]) = (before ++ after ++ [x], 1%nat).
Proof.
  rewrite length_app. simpl. rewrite Nat.add_1_r. cbn [trim_subjects]. rewrite worst_is_oldest.
  assert (erase_at (length before) (old ++ [x]) = before ++ after ++ [x]) as ->.
  { rewrite Hsplit, <- app_assoc. apply (erase_at_middle before (after ++ [x]) oldest). }
  rewrite trim_subjects_within; [done | lia | apply erased_fits].
Qed.
End FullGroup.

(** Among records that name their group and no path, appending to a store
    within its bounds drops exactly the oldest record of the group when the group
    is at its cap, and nothing otherwise: the new record always stays. *)
Theorem history_drops_oldest_of_group (cap : Z) (old : list HistoryRecord) (x : HistoryRecord) :
  0 < cap -> Forall group_only old -> group_only x ->
  (forall y, y ∈ old -> Z.of_nat (subject_count old y) <= cap) ->
  let trimmed := trim_subjects (length (old ++ [x])) cap (old ++ [x]) in
  (Z.of_nat (subject_count old x) < cap -> trimmed = (old ++ [x], 0%nat)) /\
  (cap <= Z.of_nat (subject_count old x) ->
   exists before oldest after, old = before ++ oldest :: after /\
     in_group (hr_group x) oldest = true /\
     (forall y, y ∈ before -> in_group (hr_group x) y = false) /\
     trimmed = (before ++ after ++ [x], 1%nat)).
Proof.
  intros Hcap Hold Hx Hb trimmed. split.
  - intros Hlt. apply trim_subjects_within; [lia |]. by apply group_below_cap.
  - intros Hge.
    assert (existsb (in_group (hr_group x)) old = true) as Hex.
    { apply existsb_filter. rewrite <- subject_count_group_only by done. lia. }
    apply first_match in Hex as (before & oldest & after & E & Ho & Hbefore).
    exists before, oldest, after. split_and!; try done. by eapply trim_full_group.
Qed.

(** A finding.  When a record names both a group and a path, its subject can be
    larger than any other, and then the record just appended is the one that is
    dropped, although it is the newest and no older subject has to shrink. *)
Definition example_record (id : Z) (group : MaybeId PathGroupIdTag) (path : MaybeId PathIdTag)
    (at_ : Z) : HistoryRecord :=
  mk_history_record (mk_digest_id (replicate kDigestIdBytes id)) (from_value 1) (from_value 1) group path
    absent Match DivNone Fresh Complete Consistent SurfaceReal 1 0 (from_unix_nanos at_).

Example newest_record_dropped :
  let a := example_record 1 (maybe (from_value 7)) absent 1 in
  let b := example_record 2 absent (maybe (from_value 9)) 2 in
  let c := example_record 3 (maybe (from_value 7)) (maybe (from_value 9)) 3 in
  trim_subjects 3 1 [a; b; c] = ([a; b], 1%nat).
Proof. by vm_compute. Qed.

Lemma history_drops_oldest_of_group_witness :
  let record i := example_record i (maybe (from_value 7)) absent i in
  trim_subjects 3 2 [record 1; record 2; record 3] = ([record 2; record 3], 1%nat).
Proof.
  intros record.
  destruct (history_drops_oldest_of_group 2 [record 1; record 2] (record 3)) as [_ H].
  - done.
  - by repeat constructor.
  - done.
  - apply Forall_elem. repeat constructor; by vm_compute.
  - destruct H as (before & oldest & after & E & Ho & Hb & Ht); [by vm_compute |].
    destruct before as [|y before].
    + injection E as <- <-. exact Ht.
    + injection E as <- _. specialize (Hb (record 1) ltac:(constructor)). by vm_compute in Hb.
Defined.

(** ** Queries *)

Lemma history_time_eq (a b : HistoryRecord) :
  hr_evaluated_at a = hr_evaluated_at b <->
  unix_nanos (hr_evaluated_at a) = unix_nanos (hr_evaluated_at b).
Proof.
  destruct (hr_evaluated_at a), (hr_evaluated_at b). simpl. split; [by intros [= ->] | by intros ->].
Qed.

#[local] Instance history_before_swo : StrictWeakOrder history_before.
Proof.
  assert (forall a b, history_before a b = true <->
    unix_nanos (hr_evaluated_at b) < unix_nanos (hr_evaluated_at a) \/
    unix_nanos (hr_evaluated_at a) = unix_nanos (hr_evaluated_at b) /\ klt (hr_id b) (hr_id a) = true) as H.
  { intros a b. unfold history_before, time_lt.
    destruct (decide (hr_evaluated_at a = hr_evaluated_at b)) as [E|E].
    - rewrite bool_decide_eq_true_2 by done. cbn [negb]. apply history_time_eq in E. split; [auto |].
      intros [? | [_ ?]]; [lia | done].
    - rewrite bool_decide_eq_false_2 by done. cbn [negb]. rewrite history_time_eq in E.
      rewrite Z.ltb_lt. split; [auto |]. by intros [? | [? _]]. }
  constructor; intros *.
  - intros Hxy%H. apply not_true_iff_false. intros Hyx%H.
    destruct Hxy as [?|[? Hk]], Hyx as [?|[? Hk']]; try lia. apply klt_asym in Hk. congruence.
  - intros Hxy%not_true_iff_false Hyz%not_true_iff_false. apply not_true_iff_false.
    rewrite H in *. intros [?|[? Hk]]; [destruct Hxy; left; lia |].
    destruct (decide (unix_nanos (hr_evaluated_at x) = unix_nanos (hr_evaluated_at y)));
      [| destruct (Z.lt_gt_cases (unix_nanos (hr_evaluated_at x)) (unix_nanos (hr_evaluated_at y))) as [Hl _];
         destruct (Hl ltac:(done)); [destruct Hyz | destruct Hxy]; left; lia].
    assert (klt (hr_id y) (hr_id x) = false) as K1 by (apply not_true_iff_false; intros ?; apply Hxy; right; auto).
    assert (klt (hr_id z) (hr_id y) = false) as K2.
    { apply not_true_iff_false; intros ?; apply Hyz; right; split; [lia | done]. }
    pose proof (swo_negtrans _ _ _ K2 K1). congruence.
Qed.

Lemma with_verdict_elem limits q v records x :
  x ∈ with_verdict limits q v records <-> x ∈ records /\ query_verdict limits q x = v.
Proof.
  unfold with_verdict. rewrite list_elem_of_In, filter_In, <- list_elem_of_In, bool_decide_eq_true. done.
Qed.

Lemma with_verdict_counts limits q records :
  (length (with_verdict limits q Selected records) +
   length (with_verdict limits q ExcludedByWindow records) +
   length (with_verdict limits q ExcludedByFilter records) = length records)%nat.
Proof.
  unfold with_verdict. induction records as [|x records IH]; simpl; [done |].
  destruct (query_verdict limits q x); simpl; lia.
Qed.

(** A query answers with the newest selected records, newest first: every
    record is counted once as matched, out of window or filtered; the answer is
    the whole selection, or a prefix of it as long as the limit, and then it says
    so; no record left out comes before one that is returned. *)
Theorem history_query_spec (s : HistoryStore) (q : HistoryQuery) :
  let a := history_query s q in
  let limit := Z.to_nat (Z.min (hq_limit q) (max_export_records (hs_limits s))) in
  (ha_matched a + ha_excluded_by_window a + ha_excluded_by_filter a = length (hs_records s))%nat /\
  length (ha_records a) = Nat.min limit (ha_matched a) /\
  (ha_truncated a = true <-> (limit < ha_matched a)%nat) /\
  ascending history_before (ha_records a) /\
  exists rest,
    (forall x, x ∈ ha_records a ++ rest <->
       x ∈ hs_records s /\ query_verdict (hs_limits s) q x = Selected) /\
    (ha_truncated a = false -> rest = []) /\
    (forall x y, x ∈ ha_records a -> y ∈ rest -> history_before y x = false).
Proof.
  intros a limit. unfold a, history_query. cbn [ha_matched ha_excluded_by_window ha_excluded_by_filter
    ha_records ha_truncated]. fold limit.
  set (sel := with_verdict _ _ Selected _).
  pose proof (sort_by_ascending history_before sel) as Hs.
  pose proof (length_sort_by history_before sel) as Hl.
  assert (forall x, x ∈ sort_by history_before sel <->
    x ∈ hs_records s /\ query_verdict (hs_limits s) q x = Selected) as Hin.
  { intros x. rewrite elem_of_sort_by. apply with_verdict_elem. }
  revert Hs Hl Hin. generalize (sort_by history_before sel). intros l Hs Hl Hin.
  split_and!; [apply with_verdict_counts | rewrite length_take; lia | rewrite Nat.ltb_lt; lia | |].
  - unfold ascending in *. rewrite <- (take_drop limit l) in Hs. by apply StronglySorted_app_1_l in Hs.
  - exists (drop limit l). split_and!.
    + intros x. rewrite take_drop. apply Hin.
    + intros Ht%Nat.ltb_ge. by apply drop_ge.
    + unfold ascending in Hs. rewrite <- (take_drop limit l) in Hs.
      intros x y Hx Hy. rewrite StronglySorted_app in Hs. by apply Hs.
Qed.

(** ** Pruning *)

(** The evaluation times of the records ascend, and no age overflows. *)
Definition history_in_order (now : TimePoint) (records : list HistoryRecord) : Prop :=
  StronglySorted (fun x y => unix_nanos (hr_evaluated_at x) <= unix_nanos (hr_evaluated_at y)) records /\
  forall x, x ∈ records -> is_set (hr_evaluated_at x) = true /\
    i64_ok (unix_nanos now - unix_nanos (hr_evaluated_at x)).

Lemma outside_window_exact limits now t :
  i64_ok (unix_nanos now - unix_nanos t) ->
  outside_window limits now t = bool_decide (0 < unix_nanos now - unix_nanos t) &&
    bool_decide (history_window_nanos limits < unix_nanos now - unix_nanos t).
Proof.
  intros H. unfold outside_window. rewrite wrap_i64_small by done.
  f_equal; case_bool_decide; [by apply Z.ltb_lt | by apply Z.ltb_nlt | by apply Z.ltb_lt | by apply Z.ltb_nlt].
Qed.

(** Pruning needs an evaluation time; it drops records from the front only,
    each of them set and outside the window, up to the first record that is not;
    the count is exact.  On a log whose evaluation times ascend, what remains is
    exactly the records inside the window. *)
Theorem history_prune_spec (s : HistoryStore) (now : TimePoint) :
  match history_prune s now with
  | (Ok n, s') =>
      is_set now = true /\ hs_records s' = drop n (hs_records s) /\ (n <= length (hs_records s))%nat /\
      (forall x, x ∈ take n (hs_records s) -> is_set (hr_evaluated_at x) = true /\
         outside_window (hs_limits s) now (hr_evaluated_at x) = true) /\
      (history_in_order now (hs_records s) ->
       forall x, x ∈ hs_records s' -> outside_window (hs_limits s) now (hr_evaluated_at x) = false)
  | (Err e, s') => s' = s /\ is_set now = false /\ code e = InvalidArgument
  end.
Proof.
  unfold history_prune. destruct (is_set now) eqn:En; cbn [negb]; [| done].
  destruct (prune_loop (hs_limits s) now (hs_records s)) as [l n] eqn:El.
  apply prune_loop_spec in El as (-> & Hlen & Hout & Hhead). cbn [hs_records].
  split_and!; [done | done | lia | done |].
  intros [Hs Hok] x Hx. pose proof (elem_of_sublist _ _ _ Hx (sublist_drop _ n)) as Hx'.
  rewrite <- (take_drop n) in Hs. rewrite StronglySorted_app in Hs. destruct Hs as (_ & _ & Hs).
  assert (forall z, z ∈ drop n (hs_records s) -> z ∈ hs_records s) as Hsub.
  { intros z Hz. exact (elem_of_sublist _ _ _ Hz (sublist_drop _ n)). }
  destruct (drop n (hs_records s)) as [|y rest]; [by apply elem_of_nil in Hx |].
  assert (y ∈ hs_records s) as Hy by (apply Hsub; constructor).
  destruct (Hok x Hx') as [_ Hxi], (Hok y Hy) as [Hyset Hyi].
  destruct (Hhead y eq_refl) as [? | Hw]; [congruence |].
  rewrite outside_window_exact in Hw |- * by done.
  apply StronglySorted_inv in Hs as [_ Hall]. rewrite Forall_elem in Hall.
  assert (unix_nanos (hr_evaluated_at y) <= unix_nanos (hr_evaluated_at x)).
  { apply elem_of_cons in Hx as [->|Hx]; [lia | by apply Hall]. }
  apply andb_false_iff in Hw. apply andb_false_iff. rewrite !bool_decide_eq_false in *. lia.
Qed.

(** A finding.  The log is in order of insertion, not of evaluation, and the loop
    stops at the first record inside the window: an older record behind a newer
    one survives pruning. *)
Example prune_keeps_older_record :
  let hour := 3600 * 1000000000 in
  let s := mk_history default_limits
    [example_record 1 absent absent (5 * hour); example_record 2 absent absent hour] 0 0 in
  map hr_evaluated_at (hs_records (history_prune s (from_unix_nanos (5 * hour))).2) =
    [from_unix_nanos (5 * hour); from_unix_nanos hour].
Proof. by vm_compute. Qed.

Definition example_match : ComparisonResult :=
  mk_result digest_id_zero (from_value 3) (from_value 2) (maybe (from_value 7)) absent absent
    Match DivNone [] Fresh Complete Consistent SurfaceReal false false 1 1 0 0 [] [] []
    (from_unix_nanos 10).

Lemma history_store_bounded_witness :
  let s := (history_append (history_new default_limits) example_match).2 in
  sublist (hs_records s) [history_record_of example_match].
Proof.
  intros s.
  destruct (history_store_bounded default_limits [] example_match ltac:(split; by vm_compute))
    as (_ & _ & H & _).
  exact H.
Defined.
