(* ===== verification/Codec.v ===== *)
(** * Record codec

    Models [include/pathobs/codec.hpp] and [src/codec.cpp]: the encoding of the six
    record types and the decoders that recompute every identity.  The decoders of
    comparisons and findings cast some bytes to an enumeration without a range
    check; such a member keeps its byte here ([ComparisonWire], [FindingWire]). *)

From S2P Require Import Prelude Errors StdAlgo Digest Canonical Ids TimeModel Limits Source Topology Observed Expected Freshness Divergence Compare Finding.
#[local] Open Scope Z_scope.
#[local] Open Scope pathobs_scope.

Definition kMaxSequenceElements : Z := 4000000.

(** ** Shared readers *)

(** [for (i = 0; i < count; ++i) { read one; push_back }] *)
Fixpoint get_n {A} (n : nat) (get : Reader A) : Reader (list A) :=
  match n with
  | O => reader_ret []
  | S n => x <~ get; rest <~ get_n n get; reader_ret (x :: rest)
  end.

Definition get_seq {A} (max : Z) (get : Reader A) : Reader (list A) :=
  count <~ get_count max; get_n (Z.to_nat count) get.

(** [if (v > last) return Error{InvalidFormat}; static_cast<E>(v)]; [values] lists
    the enumerators in the order of their underlying values. *)
Definition get_enum {A} (values : list A) (message : string) : Reader A :=
  code <~ get_u8;
  match values !! Z.to_nat code with
  | Some v => reader_ret v
  | None => reader_fail (error InvalidFormat message)
  end.

(** [read_maybe_strong]: an absent identity ignores the value that follows. *)
Definition get_maybe {tag} : Reader (MaybeId tag) :=
  present <~ get_boolean;
  raw <~ get_u64;
  reader_ret (if present : bool then maybe (from_value raw) else absent).

Definition get_time : Reader TimePoint := nanos <~ get_i64; reader_ret (from_unix_nanos nanos).
Definition put_time (t : TimePoint) : list Z := put_i64 (unix_nanos t).

(** The domain tag every record starts with. *)
Definition expect_tag {A} (tag message : string) (k : Reader A) : Reader A :=
  text <~ get_text 64;
  if negb (bool_decide (text = tag)) then reader_fail (error InvalidFormat message) else k.

(** A check on a decoded value. *)
Definition reader_check (s : Status) : Reader unit :=
  match s with Ok u => reader_ret u | Err e => reader_fail e end.

Definition source_kinds : list SourceKind :=
  [KindUnknown; RoutingAuthority; TopologyAuthority; TelemetryObserver; ReplayFile; TestHarness; Simulator].
Definition proof_surfaces : list ProofSurface :=
  [SurfaceUnknown; SurfaceReal; SurfaceSynthetic; SurfaceUnsupported].
Definition authority_classes : list AuthorityClass :=
  [AuthorityNone; Informational; Advisory; Authoritative].
Definition device_roles : list DeviceRole := [RoleUnknown; Switch; Router; Host; LineCard; Appliance].
Definition link_kinds : list LinkKind := [LinkUnknown; Physical; Logical; Tunnel; Lag].
Definition provenances : list HopLinkProvenance := [ProvenanceAbsent; ProvenanceObserved; ProvenanceCorrelated].
Definition completenesses : list EvidenceCompleteness := [CompletenessUnknown; Partial; Complete].
Definition outcomes : list MatchOutcome :=
  [NoExpectedState; Match; Divergent; Indeterminate; OutcomeUnsupported].
Definition finding_statuses : list FindingStatus := [FindingOpen; Acknowledged; Resolved].

(** ** Source descriptors *)

Definition encode_source (d : SourceDescriptor) : list Z :=
  put_text "pathobs.record.source" ++ put_id (source_id d) ++ put_text (source_name d) ++
  put_u8 (source_kind_code (source_kind d)) ++ put_u8 (proof_surface_code (source_surface d)) ++
  put_u8 (authority_code (source_authority d)) ++
  put_boolean (cap_expected_state (source_capabilities d)) ++
  put_boolean (cap_observed_evidence (source_capabilities d)) ++
  put_boolean (cap_topology (source_capabilities d)) ++
  put_i64 (max_observation_age d) ++ put_i64 (clock_skew_tolerance d).

Definition decode_source_descriptor (limits : Limits) : Reader SourceDescriptor :=
  expect_tag "pathobs.record.source" "record is not a source descriptor" (
  source_id <~ get_id;
  name <~ get_text (max_string_bytes limits);
  kind <~ get_enum source_kinds "source kind is out of range";
  surface <~ get_enum proof_surfaces "proof surface is out of range";
  authority <~ get_enum authority_classes "authority class is out of range";
  expected_state <~ get_boolean;
  observed <~ get_boolean;
  topology <~ get_boolean;
  age <~ get_i64;
  skew <~ get_i64;
  let value := mk_source source_id name kind surface authority
                 (mk_capabilities expected_state observed topology) age skew in
  _ <~ reader_check (source_validate value);
  reader_ret value).

(** ** Topology generations *)

Definition encode_topology (g : TopologyGeneration) : list Z :=
  put_text "pathobs.record.topology" ++
  put_id (topo_id g) ++ put_id (topo_epoch g) ++ put_id (topo_incarnation g) ++
  put_id (topo_revision g) ++ put_id (topo_sequence g) ++ put_id (topo_source g) ++
  put_time (topo_created g) ++ put_time (topo_received g) ++
  put_seq put_device (devices g) ++ put_seq put_port (ports g) ++ put_seq put_link (links g).

Definition get_device (limits : Limits) : Reader DeviceRecord :=
  device_id <~ get_id;
  name <~ get_text (max_string_bytes limits);
  role <~ get_enum device_roles "device role is out of range";
  reader_ret (mk_device device_id name role).

Definition get_port (limits : Limits) : Reader PortRecord :=
  port_id <~ get_id;
  device_id <~ get_id;
  name <~ get_text (max_string_bytes limits);
  index <~ get_u32;
  reader_ret (mk_port port_id device_id name index).

Definition get_link : Reader LinkRecord :=
  link_id <~ get_id;
  local_device <~ get_id;
  local_port <~ get_id;
  remote_device <~ get_id;
  remote_port <~ get_id;
  kind <~ get_enum link_kinds "link kind is out of range";
  reader_ret (mk_link link_id local_device local_port remote_device remote_port kind).

(** [value.finalize(limits)] in a decoder. *)
Definition finalized_topology (limits : Limits) (g : TopologyGeneration) : Reader TopologyGeneration :=
  match topology_finalize limits g with
  | (Ok _, g) => reader_ret g
  | (Err e, _) => reader_fail e
  end.

Definition decode_topology_generation (limits : Limits) : Reader TopologyGeneration :=
  expect_tag "pathobs.record.topology" "record is not a topology generation" (
  id <~ get_id;
  epoch <~ get_id;
  incarnation <~ get_id;
  revision <~ get_id;
  sequence <~ get_id;
  source <~ get_id;
  created <~ get_time;
  received <~ get_time;
  ds <~ get_seq (max_devices_per_topology limits) (get_device limits);
  ps <~ get_seq kMaxSequenceElements (get_port limits);
  ls <~ get_seq (max_links_per_topology limits) get_link;
  finalized_topology limits
    (mk_topology id epoch incarnation revision sequence source created received ds ps ls digest_zero)).

(** ** Route generations *)

Definition put_path (p : ExpectedPath) : list Z :=
  put_id (path_id p) ++ put_id (path_group p) ++ put_id (path_generation p) ++
  put_seq put_expected_hop (path_hops p).

Definition encode_routes (g : RouteGeneration) : list Z :=
  put_text "pathobs.record.routes" ++
  put_id (route_id g) ++ put_id (route_epoch g) ++ put_id (route_incarnation g) ++
  put_id (route_revision g) ++ put_id (route_sequence g) ++ put_id (route_source g) ++
  put_id (route_topology g) ++ put_time (route_created g) ++ put_time (route_received g) ++
  put_seq put_group (groups g) ++ put_seq put_path (paths g).

Definition get_group (limits : Limits) : Reader PathGroup :=
  group_id <~ get_id;
  origin <~ get_id;
  destination <~ get_id;
  label <~ get_text (max_string_bytes limits);
  members <~ get_seq (max_members_per_group limits) get_id;
  reader_ret (mk_group group_id origin destination label members).

Definition get_expected_hop : Reader ExpectedHop :=
  hop_id <~ get_id;
  index <~ get_u32;
  device <~ get_id;
  ingress <~ get_id;
  egress <~ get_id;
  has_link <~ get_boolean;
  link <~ get_id;
  reader_ret (mk_expected_hop hop_id index device ingress egress link has_link).

Definition get_path (limits : Limits) : Reader ExpectedPath :=
  path_id <~ get_id;
  group_id <~ get_id;
  generation <~ get_id;
  hops <~ get_seq (max_hops_per_path limits) get_expected_hop;
  reader_ret (mk_path path_id group_id generation hops digest_zero).

Definition finalized_routes (limits : Limits) (g : RouteGeneration) : Reader RouteGeneration :=
  match route_finalize limits g with
  | Ok g => reader_ret g
  | Err e => reader_fail e
  end.

Definition decode_route_generation (limits : Limits) : Reader RouteGeneration :=
  expect_tag "pathobs.record.routes" "record is not a route generation" (
  id <~ get_id;
  epoch <~ get_id;
  incarnation <~ get_id;
  revision <~ get_id;
  sequence <~ get_id;
  source <~ get_id;
  topology <~ get_id;
  created <~ get_time;
  received <~ get_time;
  gs <~ get_seq (max_groups_per_generation limits) (get_group limits);
  ps <~ get_seq (max_paths_per_generation limits) (get_path limits);
  finalized_routes limits
    (mk_route id epoch incarnation revision sequence source topology created received gs ps digest_zero)).

(** ** Evidence *)

Definition encode_evidence (e : ObservedPathEvidence) : list Z :=
  put_text "pathobs.record.evidence" ++ put_digest_id (ev_id e) ++
  put_id (ev_source e) ++ put_id (ev_incarnation e) ++ put_id (ev_sequence e) ++
  put_u8 (proof_surface_code (ev_surface e)) ++ put_u8 (authority_code (ev_authority e)) ++
  put_maybe (ev_path e) ++ put_maybe (ev_group e) ++ put_maybe (ev_origin e) ++
  put_maybe (ev_destination e) ++
  put_id (ev_epoch e) ++ put_id (ev_claimed_incarnation e) ++
  put_maybe (ev_route_generation e) ++ put_maybe (ev_topology_generation e) ++
  put_id (ev_revision e) ++ put_time (ev_observed_at e) ++ put_time (ev_received_at e) ++
  put_boolean (ev_source_truncated e) ++ put_u8 (completeness_code (ev_declared_completeness e)) ++
  put_digest (ev_payload_digest e) ++ put_text (ev_note e) ++ put_seq put_hop (ev_hops e).

Definition get_hop : Reader ObservedHop :=
  index <~ get_u32;
  device <~ get_id;
  ingress <~ get_id;
  egress <~ get_id;
  link <~ get_id;
  provenance <~ get_enum provenances "hop link provenance is out of range";
  at_ <~ get_time;
  reader_ret (mk_observed_hop index device ingress egress link provenance at_).

(** The end of [decode_evidence]: validate without an identity, then compare the
    stored identity with the recomputed one. *)
Definition checked_evidence (limits : Limits) (stored : EvidenceId) (e : ObservedPathEvidence) :
    Reader ObservedPathEvidence :=
  _ <~ reader_check (evidence_validate limits e);
  let recomputed := compute_evidence_id e in
  if negb (bool_decide (recomputed = stored)) then
    reader_fail (mk_error IntegrityFailure "evidence identity does not match its content"
      ("stored " +:+ digest_id_str stored +:+ " recomputed " +:+ digest_id_str recomputed)%string)
  else reader_ret (with_identity e stored).

Definition decode_evidence (limits : Limits) : Reader ObservedPathEvidence :=
  expect_tag "pathobs.record.evidence" "record is not an evidence record" (
  stored_id <~ get_digest_id;
  source <~ get_id;
  incarnation <~ get_id;
  sequence <~ get_id;
  surface <~ get_enum proof_surfaces "proof surface is out of range";
  authority <~ get_enum authority_classes "authority class is out of range";
  path <~ get_maybe;
  group <~ get_maybe;
  origin <~ get_maybe;
  destination <~ get_maybe;
  epoch <~ get_id;
  claimed <~ get_id;
  route_generation <~ get_maybe;
  topology_generation <~ get_maybe;
  revision <~ get_id;
  observed_at <~ get_time;
  received_at <~ get_time;
  truncated <~ get_boolean;
  completeness <~ get_enum completenesses "evidence completeness is out of range";
  payload_digest <~ get_digest;
  note <~ get_text 4096;
  hops <~ get_seq (max_hops_per_path limits) get_hop;
  checked_evidence limits stored_id
    (mk_evidence digest_id_zero source incarnation sequence surface authority path group origin
       destination epoch claimed route_generation topology_generation revision observed_at received_at
       hops truncated completeness payload_digest note)).

(** ** Comparison results

    The decoder casts every enumeration of a comparison but the outcome without
    a range check, and the fields that are not on the wire keep their initial
    values.  A decoded comparison therefore holds codes, not enumerators. *)

Record JudgementWire : Set := mk_judgement_wire {
  jw_id : EvidenceId;
  jw_accepted : bool;
  jw_rejection : Z;
  jw_freshness : Z;
  jw_surface : Z;
  jw_authority : Z;
  jw_completeness : Z;
  jw_classes : list Z
}.

Record DifferenceWire : Set := mk_difference_wire {
  dw_index : Z;
  dw_detail : Z;
  dw_has_expected : bool;
  dw_has_observed : bool
}.

Record ComparisonWire : Set := mk_comparison_wire {
  cw_id : ComparisonId;
  cw_generation : RouteGenerationId;
  cw_topology : TopologyGenerationId;
  cw_group : MaybeId PathGroupIdTag;
  cw_path : MaybeId PathIdTag;
  cw_matched_path : MaybeId PathIdTag;
  cw_outcome : MatchOutcome;
  cw_primary : Z;
  cw_classes : list Z;
  cw_freshness : Z;
  cw_completeness : Z;
  cw_consistency : Z;
  cw_surface : Z;
  cw_multipath : bool;
  cw_multipath_ambiguous : bool;
  cw_considered : Z;
  cw_rejected : Z;
  cw_judgements : list JudgementWire;
  cw_differences : list DifferenceWire;
  cw_evaluated_at : TimePoint
}.

Definition put_judgement_wire (j : JudgementWire) : list Z :=
  put_digest_id (jw_id j) ++ put_boolean (jw_accepted j) ++ put_u8 (jw_rejection j) ++
  put_u8 (jw_freshness j) ++ put_u8 (jw_surface j) ++ put_u8 (jw_authority j) ++
  put_u8 (jw_completeness j) ++ put_seq put_u8 (jw_classes j).

Definition put_difference_wire (d : DifferenceWire) : list Z :=
  put_u32 (dw_index d) ++ put_u8 (dw_detail d) ++ put_boolean (dw_has_expected d) ++
  put_boolean (dw_has_observed d).

(** [write_canonical] on a decoded comparison. *)
Definition wire_canonical (w : ComparisonWire) : list Z :=
  put_text "pathobs.comparison" ++
  put_id (cw_generation w) ++ put_id (cw_topology w) ++
  put_maybe (cw_group w) ++ put_maybe (cw_path w) ++ put_maybe (cw_matched_path w) ++
  put_u8 (outcome_code (cw_outcome w)) ++ put_u8 (cw_primary w) ++ put_seq put_u8 (cw_classes w) ++
  put_u8 (cw_freshness w) ++ put_u8 (cw_completeness w) ++ put_u8 (cw_consistency w) ++
  put_u8 (cw_surface w) ++ put_boolean (cw_multipath w) ++ put_boolean (cw_multipath_ambiguous w) ++
  put_u32 (cw_considered w) ++ put_u32 (cw_rejected w) ++
  put_seq put_judgement_wire (cw_judgements w) ++ put_seq put_difference_wire (cw_differences w) ++
  put_time (cw_evaluated_at w).

Definition encode_comparison (r : ComparisonResult) : list Z :=
  put_text "pathobs.record.comparison" ++ put_digest_id (cr_id r) ++ result_canonical r.

Definition get_judgement (limits : Limits) : Reader JudgementWire :=
  id <~ get_digest_id;
  accepted <~ get_boolean;
  rejection <~ get_u8;
  freshness <~ get_u8;
  surface <~ get_u8;
  authority <~ get_u8;
  completeness <~ get_u8;
  classes <~ get_seq 64 get_u8;
  reader_ret (mk_judgement_wire id accepted rejection freshness surface authority completeness classes).

Definition get_difference : Reader DifferenceWire :=
  index <~ get_u32;
  detail <~ get_u8;
  has_expected <~ get_boolean;
  has_observed <~ get_boolean;
  reader_ret (mk_difference_wire index detail has_expected has_observed).

(** [if (present) value.m = Maybe(id)], with both fields read. *)
Definition get_maybe_id {tag} : Reader (MaybeId tag) :=
  present <~ get_boolean;
  id <~ get_id;
  reader_ret (if present : bool then maybe id else absent).

Definition expect_body_tag {A} (k : Reader A) : Reader A :=
  tag <~ get_text 64;
  if negb (bool_decide (tag = "pathobs.comparison"%string))
  then reader_fail (mk_error InvalidFormat "comparison body tag does not match" tag) else k.

Definition checked_comparison (stored : ComparisonId) (w : ComparisonWire) : Reader ComparisonWire :=
  let recomputed := from_digest (digest_of (wire_canonical w)) in
  if negb (bool_decide (recomputed = stored)) then
    reader_fail (mk_error IntegrityFailure "comparison identity does not match its content"
      ("stored " +:+ digest_id_str stored +:+ " recomputed " +:+ digest_id_str recomputed)%string)
  else reader_ret (mk_comparison_wire stored (cw_generation w) (cw_topology w) (cw_group w) (cw_path w)
    (cw_matched_path w) (cw_outcome w) (cw_primary w) (cw_classes w) (cw_freshness w)
    (cw_completeness w) (cw_consistency w) (cw_surface w) (cw_multipath w) (cw_multipath_ambiguous w)
    (cw_considered w) (cw_rejected w) (cw_judgements w) (cw_differences w) (cw_evaluated_at w)).

Definition decode_comparison (limits : Limits) : Reader ComparisonWire :=
  expect_tag "pathobs.record.comparison" "record is not a comparison" (
  stored_id <~ get_digest_id;
  expect_body_tag (
  generation <~ get_id;
  topology <~ get_id;
  group <~ get_maybe_id;
  path <~ get_maybe_id;
  matched <~ get_maybe_id;
  outcome <~ get_enum outcomes "match outcome is out of range";
  primary <~ get_u8;
  classes <~ get_seq 64 get_u8;
  freshness <~ get_u8;
  completeness <~ get_u8;
  consistency <~ get_u8;
  surface <~ get_u8;
  multipath <~ get_boolean;
  multipath_ambiguous <~ get_boolean;
  considered <~ get_u32;
  rejected <~ get_u32;
  judgements <~ get_seq (max_evidence_per_comparison limits) (get_judgement limits);
  differences <~ get_seq (max_hops_per_path limits) get_difference;
  evaluated_at <~ get_time;
  checked_comparison stored_id
    (mk_comparison_wire digest_id_zero generation topology group path matched outcome primary classes
       freshness completeness consistency surface multipath multipath_ambiguous considered rejected
       judgements differences evaluated_at))).

(** ** Findings *)

(** A decoded finding: its class is an unchecked byte, so [fw_finding] carries
    every other member and a placeholder class. *)
Record FindingWire : Set := mk_finding_wire { fw_class : Z; fw_finding : Finding }.

Definition encode_finding (f : Finding) : list Z :=
  put_text "pathobs.record.finding" ++ put_digest_id (fd_id f) ++ put_u8 (divergence_code (fd_class f)) ++
  put_maybe (fd_group f) ++ put_maybe (fd_path f) ++ put_id (fd_generation f) ++
  put_id (fd_topology f) ++ put_seq put_digest_id (fd_evidence f) ++ put_seq put_u32 (fd_hops f) ++
  put_u8 (finding_status_code (fd_status f)) ++ put_u64 (fd_occurrences f) ++
  put_time (fd_first_seen f) ++ put_time (fd_last_seen f) ++ put_digest_id (fd_last_comparison f) ++
  put_text (fd_detail f).

(** [identity_digest] on a decoded finding. *)
Definition wire_identity (w : FindingWire) : FindingId :=
  from_digest (digest_of (identity_bytes (fw_class w) (fw_finding w))).

Definition checked_finding (stored : FindingId) (w : FindingWire) : Reader FindingWire :=
  let recomputed := wire_identity w in
  if negb (bool_decide (recomputed = stored)) then
    reader_fail (mk_error IntegrityFailure "finding identity does not match its content"
      ("stored " +:+ digest_id_str stored +:+ " recomputed " +:+ digest_id_str recomputed)%string)
  else
    let f := fw_finding w in
    reader_ret (mk_finding_wire (fw_class w)
      (mk_finding stored (fd_class f) (fd_group f) (fd_path f) (fd_generation f) (fd_topology f)
         (fd_evidence f) (fd_hops f) (fd_status f) (fd_occurrences f) (fd_first_seen f)
         (fd_last_seen f) (fd_last_comparison f) (fd_detail f))).

Definition decode_finding (limits : Limits) : Reader FindingWire :=
  expect_tag "pathobs.record.finding" "record is not a finding" (
  stored_id <~ get_digest_id;
  cls <~ get_u8;
  group <~ get_maybe;
  path <~ get_maybe;
  generation <~ get_id;
  topology <~ get_id;
  evidence <~ get_seq (max_finding_evidence limits) get_digest_id;
  hops <~ get_seq (max_hops_per_path limits) get_u32;
  status <~ get_enum finding_statuses "finding status is out of range";
  occurrences <~ get_u64;
  first_seen <~ get_time;
  last_seen <~ get_time;
  last_comparison <~ get_digest_id;
  detail <~ get_text (max_string_bytes limits);
  checked_finding stored_id (mk_finding_wire cls
    (mk_finding digest_id_zero DivNone group path generation topology evidence hops status occurrences
       first_seen last_seen last_comparison detail))).

(** [decode_exact<T>]: a complete payload, with nothing left over. *)
Definition decode_exact {A} (decode : Reader A) (payload : list Z) : Result A :=
  let? (value, rest) := decode payload in
  check? expect_end rest in
  Ok value.

(** ** Reading back what was written *)

Lemma wire_bind {A B} (put : A -> list Z) (get : Reader A) valid `{!Wire put get valid}
    (k : A -> Reader B) a rest :
  valid a -> reader_bind get k (put a ++ rest) = k a rest.
Proof. intros Ha. by rewrite (reader_bind_ok _ _ _ _ _ (wire_roundtrip a rest Ha)). Qed.

(** The enumerators of a type in the order of their codes. *)
Class EnumCodes {A : Type} (code : A -> Z) (values : list A) : Prop := {
  enum_lookup v : values !! Z.to_nat (code v) = Some v;
  enum_byte v : byte_ok (code v)
}.

#[export] Instance source_kind_enum : EnumCodes source_kind_code source_kinds.
Proof. by split; intros []. Qed.
#[export] Instance proof_surface_enum : EnumCodes proof_surface_code proof_surfaces.
Proof. by split; intros []. Qed.
#[export] Instance authority_enum : EnumCodes authority_code authority_classes.
Proof. by split; intros []. Qed.
#[export] Instance device_role_enum : EnumCodes device_role_code device_roles.
Proof. by split; intros []. Qed.
#[export] Instance link_kind_enum : EnumCodes link_kind_code link_kinds.
Proof. by split; intros []. Qed.
#[export] Instance provenance_enum : EnumCodes provenance_code provenances.
Proof. by split; intros []. Qed.
#[export] Instance completeness_enum : EnumCodes completeness_code completenesses.
Proof. by split; intros []. Qed.
#[export] Instance outcome_enum : EnumCodes outcome_code outcomes.
Proof. by split; intros []. Qed.
#[export] Instance finding_status_enum : EnumCodes finding_status_code finding_statuses.
Proof. by split; intros []. Qed.

#[export] Instance wire_enum {A} (code : A -> Z) values message `{!EnumCodes code values} :
  Wire (fun v => put_u8 (code v)) (get_enum values message) (fun _ => True).
Proof.
  intros v rest _. unfold get_enum.
  rewrite (wire_bind put_u8 get_u8 byte_ok) by apply (enum_byte (values := values)).
  by rewrite enum_lookup.
Qed.

Lemma enum_bind {A B} (code : A -> Z) values message `{!EnumCodes code values} (k : A -> Reader B) v rest :
  reader_bind (get_enum values message) k (put_u8 (code v) ++ rest) = k v rest.
Proof. exact (wire_bind (fun v => put_u8 (code v)) _ _ k v rest I). Qed.

#[export] Instance wire_time : Wire put_time get_time (fun t => i64_ok (unix_nanos t)).
Proof.
  intros [t] rest Ht. unfold put_time, get_time. by rewrite (wire_bind put_i64 get_i64 i64_ok).
Qed.

(** An identity that is present or zero: what [MaybeId] can hold. *)
Lemma maybe_of_value {tag} (m : MaybeId tag) : (if present m then maybe (maybe_value m) else absent) = m.
Proof.
  destruct m as [[v]]. unfold present, valid. cbn [maybe_value value].
  destruct (v =? 0) eqn:E; cbn [negb]; [| done]. bool_prop. by subst.
Qed.

#[export] Instance wire_maybe tag : Wire (@put_maybe tag) get_maybe (fun m => id_ok (maybe_value m)).
Proof.
  intros m rest Hm. unfold put_maybe, get_maybe. rewrite <- app_assoc.
  rewrite (wire_bind put_boolean get_boolean (fun _ => True)) by done.
  unfold put_id. rewrite (wire_bind put_u64 get_u64 (u_ok 64)) by exact Hm.
  unfold reader_ret. pose proof (maybe_of_value m) as E. destruct m as [[v]]. exact (f_equal (fun x => Ok (x, rest)) E).
Qed.

#[export] Instance wire_maybe_id tag : Wire (@put_maybe tag) get_maybe_id (fun m => id_ok (maybe_value m)).
Proof.
  intros m rest Hm. unfold put_maybe, get_maybe_id. rewrite <- app_assoc.
  rewrite (wire_bind put_boolean get_boolean (fun _ => True)) by done.
  rewrite (wire_bind put_id get_id id_ok) by exact Hm.
  unfold reader_ret. by rewrite maybe_of_value.
Qed.

Lemma get_n_roundtrip {A} (put : A -> list Z) get valid `{!Wire put get valid} l rest :
  Forall valid l -> get_n (length l) get (flat_map put l ++ rest) = Ok (l, rest).
Proof.
  induction 1 as [|x l Hx _ IH]; [done |]. cbn [length get_n flat_map]. rewrite <- app_assoc.
  rewrite (wire_bind put get valid) by done. by rewrite (reader_bind_ok _ _ _ _ _ IH).
Qed.

(** A sequence no longer than the bound of its reader. *)
Definition seq_ok {A} (max : Z) (valid : A -> Prop) (l : list A) : Prop :=
  len32 l /\ Z.of_nat (length l) <= max /\ Forall valid l.

#[export] Instance wire_seq {A} max (put : A -> list Z) get valid `{!Wire put get valid} :
  Wire (put_seq put) (get_seq max get) (seq_ok max valid).
Proof.
  intros l rest (Hl & Hm & Hv). unfold put_seq, get_seq. rewrite <- app_assoc.
  rewrite <- (Nat2Z.id (length l)) at 1.
  rewrite (wire_bind (fun n => put_count (Z.to_nat n)) (get_count max) (fun n => u_ok 32 n /\ n <= max)).
  - rewrite Nat2Z.id. by apply (get_n_roundtrip put get valid).
  - unfold len32 in Hl. split; [unfold u_ok; lia | done].
Qed.

Lemma expect_tag_bind {A} tag message (k : Reader A) rest :
  (String.length tag <= 64)%nat -> expect_tag tag message k (put_text tag ++ rest) = k rest.
Proof.
  intros Ht. unfold expect_tag.
  rewrite (wire_bind put_text (get_text 64)
    (fun s => len32 (string_bytes s) /\ Z.of_nat (length (string_bytes s)) <= 64)).
  - by rewrite bool_decide_eq_true_2.
  - unfold len32. rewrite length_string_bytes. lia.
Qed.

(** Read one field back: the side condition is left when [assumption] and the
    hint database do not close it. *)
Ltac wire_step :=
  rewrite <- ?app_assoc;
  match goal with
  | |- reader_bind (get_enum ?values ?m) ?k (put_u8 (?code ?v) ++ ?rest) = _ =>
      rewrite (enum_bind code values m k v rest)
  | |- reader_bind ?get ?k (?put ?a ++ ?rest) = _ =>
      rewrite (wire_bind put get _ k a rest) by (cbv beta; auto with pathobs)
  end.

(** The text a reader with this bound accepts. *)
Definition text_ok (max : Z) (s : string) : Prop :=
  len32 (string_bytes s) /\ Z.of_nat (length (string_bytes s)) <= max.

#[export] Instance wire_text_ok max : Wire put_text (get_text max) (text_ok max) := wire_text max.

Definition device_repr (max : Z) (d : DeviceRecord) : Prop := id_ok (device_id d) /\ text_ok max (device_name d).

#[export] Instance wire_device limits :
  Wire put_device (get_device limits) (device_repr (max_string_bytes limits)).
Proof.
  intros [i n r] rest [Hi Hn]. unfold put_device, get_device. cbn [device_id device_name device_role] in *.
  by repeat wire_step.
Qed.

Definition port_repr (max : Z) (p : PortRecord) : Prop :=
  id_ok (port_id p) /\ id_ok (port_device p) /\ text_ok max (port_name p) /\ u_ok 32 (port_index p).

#[export] Instance wire_port limits : Wire put_port (get_port limits) (port_repr (max_string_bytes limits)).
Proof.
  intros [i d n x] rest (Hi & Hd & Hn & Hx). unfold put_port, get_port.
  cbn [port_id port_device port_name port_index] in *. by repeat wire_step.
Qed.

Definition link_repr (l : LinkRecord) : Prop :=
  id_ok (link_id l) /\ id_ok (local_device l) /\ id_ok (local_port l) /\
  id_ok (remote_device l) /\ id_ok (remote_port l).

#[export] Instance wire_link : Wire put_link get_link link_repr.
Proof.
  intros x rest (H1 & H2 & H3 & H4 & H5). unfold put_link, get_link. repeat wire_step. by destruct x.
Qed.

Definition expected_hop_repr (h : ExpectedHop) : Prop :=
  id_ok (eh_id h) /\ u_ok 32 (eh_index h) /\ id_ok (eh_device h) /\ id_ok (eh_ingress h) /\
  id_ok (eh_egress h) /\ id_ok (eh_egress_link h).

#[export] Instance wire_expected_hop : Wire put_expected_hop get_expected_hop expected_hop_repr.
Proof.
  intros x rest (H1 & H2 & H3 & H4 & H5 & H6). unfold put_expected_hop, get_expected_hop. repeat wire_step. by destruct x.
Qed.

Definition group_repr (limits : Limits) (g : PathGroup) : Prop :=
  id_ok (group_id g) /\ id_ok (group_origin g) /\ id_ok (group_destination g) /\
  text_ok (max_string_bytes limits) (group_label g) /\
  seq_ok (max_members_per_group limits) id_ok (group_members g).

#[export] Instance wire_group limits : Wire put_group (get_group limits) (group_repr limits).
Proof.
  intros x rest (H1 & H2 & H3 & H4 & H5). unfold put_group, get_group. repeat wire_step. by destruct x.
Qed.

(** A path as it is on the wire: its digest is recomputed by [finalize]. *)
Definition undigested (p : ExpectedPath) : ExpectedPath :=
  mk_path (path_id p) (path_group p) (path_generation p) (path_hops p) digest_zero.

Definition path_repr (limits : Limits) (p : ExpectedPath) : Prop :=
  id_ok (path_id p) /\ id_ok (path_group p) /\ id_ok (path_generation p) /\
  seq_ok (max_hops_per_path limits) expected_hop_repr (path_hops p).

#[export] Instance wire_path limits :
  Wire put_path (get_path limits) (fun p => path_repr limits p /\ path_digest p = digest_zero).
Proof.
  intros x rest [(H1 & H2 & H3 & H4) Hd]. unfold put_path, get_path. repeat wire_step.
  rewrite <- Hd. by destruct x.
Qed.

#[export] Instance wire_hop : Wire put_hop get_hop hop_repr.
Proof.
  intros x rest (H1 & H2 & H3 & H4 & H5 & H6). unfold put_hop, get_hop.
  change (put_i64 (unix_nanos (oh_at x))) with (put_time (oh_at x)). repeat wire_step. by destruct x.
Qed.

Definition judgement_wire_ok (j : JudgementWire) : Prop :=
  length (id_bytes (jw_id j)) = kDigestIdBytes /\ byte_ok (jw_rejection j) /\ byte_ok (jw_freshness j) /\
  byte_ok (jw_surface j) /\ byte_ok (jw_authority j) /\ byte_ok (jw_completeness j) /\
  seq_ok 64 byte_ok (jw_classes j).

#[export] Instance wire_judgement limits : Wire put_judgement_wire (get_judgement limits) judgement_wire_ok.
Proof.
  intros x rest (H1 & H2 & H3 & H4 & H5 & H6 & H7). unfold put_judgement_wire, get_judgement. repeat wire_step. by destruct x.
Qed.

Definition difference_wire_ok (d : DifferenceWire) : Prop := u_ok 32 (dw_index d) /\ byte_ok (dw_detail d).

#[export] Instance wire_difference : Wire put_difference_wire get_difference difference_wire_ok.
Proof.
  intros x rest (H1 & H2). unfold put_difference_wire, get_difference. repeat wire_step. by destruct x.
Qed.

(** ** Whole records *)

Definition source_wire_ok (limits : Limits) (d : SourceDescriptor) : Prop :=
  id_ok (source_id d) /\ text_ok (max_string_bytes limits) (source_name d) /\
  i64_ok (max_observation_age d) /\ i64_ok (clock_skew_tolerance d) /\ source_validate d = ok.

#[export] Instance wire_source limits :
  Wire encode_source (decode_source_descriptor limits) (source_wire_ok limits).
Proof.
  intros x rest (H1 & H2 & H3 & H4 & H5). unfold encode_source, decode_source_descriptor.
  rewrite <- ?app_assoc, expect_tag_bind by (simpl; lia). repeat wire_step.
  cbv zeta. match goal with |- context [mk_source ?a ?b ?c ?d ?e ?f ?g ?h] =>
    replace (mk_source a b c d e f g h) with x by (by destruct x as [x1 x2 x3 x4 x5 [y1 y2 y3] x7 x8]) end.
  by rewrite H5.
Qed.

Definition topology_wire_ok (limits : Limits) (g : TopologyGeneration) : Prop :=
  id_ok (topo_id g) /\ id_ok (topo_epoch g) /\ id_ok (topo_incarnation g) /\ id_ok (topo_revision g) /\
  id_ok (topo_sequence g) /\ id_ok (topo_source g) /\ i64_ok (unix_nanos (topo_created g)) /\
  i64_ok (unix_nanos (topo_received g)) /\
  seq_ok (max_devices_per_topology limits) (device_repr (max_string_bytes limits)) (devices g) /\
  seq_ok kMaxSequenceElements (port_repr (max_string_bytes limits)) (ports g) /\
  seq_ok (max_links_per_topology limits) link_repr (links g) /\
  topology_finalize limits g = (ok, g).

(** [finalize] does not read the digest it replaces. *)
Lemma topology_finalize_digest limits g g' d :
  topology_finalize limits g = (ok, g') ->
  topology_finalize limits (with_records g (devices g) (ports g) (links g) d) = (ok, g').
Proof.
  unfold topology_finalize.
  change (topology_precheck limits (with_records g (devices g) (ports g) (links g) d)) with
    (topology_precheck limits g).
  destruct (topology_precheck limits g); [| done]. cbv zeta. cbn [devices ports links with_records].
  destruct (result_bind _ _); [exact id | done].
Qed.

#[export] Instance wire_topology limits :
  Wire encode_topology (decode_topology_generation limits) (topology_wire_ok limits).
Proof.
  intros x rest (H1 & H2 & H3 & H4 & H5 & H6 & H7 & H8 & H9 & H10 & H11 & H12).
  unfold encode_topology, decode_topology_generation.
  rewrite <- ?app_assoc, expect_tag_bind by (simpl; lia). repeat wire_step.
  apply (topology_finalize_digest _ _ _ digest_zero) in H12. unfold with_records in H12.
  unfold finalized_topology. by rewrite H12.
Qed.

Definition routes_wire_ok (limits : Limits) (g : RouteGeneration) : Prop :=
  id_ok (route_id g) /\ id_ok (route_epoch g) /\ id_ok (route_incarnation g) /\
  id_ok (route_revision g) /\ id_ok (route_sequence g) /\ id_ok (route_source g) /\
  id_ok (route_topology g) /\ i64_ok (unix_nanos (route_created g)) /\
  i64_ok (unix_nanos (route_received g)) /\
  seq_ok (max_groups_per_generation limits) (group_repr limits) (groups g) /\
  seq_ok (max_paths_per_generation limits) (path_repr limits) (paths g) /\
  route_finalize limits g = Ok g.

Lemma check_paths_undigested limits i l : forall prev,
  check_each (check_path limits i) (undigested <$> prev) (map undigested l) =
  check_each (check_path limits i) prev l.
Proof.
  induction l as [|p l IH]; intros prev; [done |]. cbn [map check_each].
  assert (check_path limits i (undigested <$> prev) (undigested p) = check_path limits i prev p) as ->
    by (by destruct prev).
  destruct (check_path limits i prev p); [| done]. cbn [result_bind]. apply (IH (Some p)).
Qed.

(** [finalize] does not read the digests it replaces. *)
Lemma route_finalize_undigested limits g d :
  route_finalize limits (with_expected g (groups g) (map undigested (paths g)) d) = route_finalize limits g.
Proof.
  unfold route_finalize, route_precheck. cbn [paths groups with_expected route_id route_epoch
    route_incarnation route_revision route_source route_topology route_digest].
  rewrite length_map.
  rewrite (sort_by_map by_path_id by_path_id undigested) by done.
  change (@None ExpectedPath) with (undigested <$> @None ExpectedPath) at 1.
  rewrite check_paths_undigested, map_map. reflexivity.
Qed.

Lemma put_paths_undigested l : put_seq put_path (map undigested l) = put_seq put_path l.
Proof.
  unfold put_seq. rewrite length_map, (flat_map_concat_map put_path), map_map, <- flat_map_concat_map.
  reflexivity.
Qed.

Lemma undigested_repr limits l :
  seq_ok (max_paths_per_generation limits) (path_repr limits) l ->
  seq_ok (max_paths_per_generation limits) (fun p => path_repr limits p /\ path_digest p = digest_zero)
    (map undigested l).
Proof.
  intros (Hl & Hm & Hf). split_and!; [unfold len32; by rewrite length_map | by rewrite length_map |].
  apply Forall_fmap. eapply Forall_impl; [exact Hf |]. by intros p Hp.
Qed.

#[export] Instance wire_routes limits :
  Wire encode_routes (decode_route_generation limits) (routes_wire_ok limits).
Proof.
  intros x rest (H1 & H2 & H3 & H4 & H5 & H6 & H7 & H8 & H9 & H10 & H11%undigested_repr & H12).
  rewrite <- (route_finalize_undigested _ _ digest_zero) in H12. unfold with_expected in H12.
  unfold encode_routes, decode_route_generation. rewrite <- put_paths_undigested.
  rewrite <- ?app_assoc, expect_tag_bind by (simpl; lia). repeat wire_step.
  unfold finalized_routes. by rewrite H12.
Qed.

Lemma from_digest_length {tag} (bs : list Z) : length (id_bytes (@from_digest tag (digest_of bs))) = kDigestIdBytes.
Proof.
  unfold from_digest. cbn [id_bytes]. rewrite length_take. by rewrite (proj2 (digest_of_ok bs)).
Qed.

(** A sealed record that validates. *)
Definition evidence_wire_ok (limits : Limits) (e : ObservedPathEvidence) : Prop :=
  evidence_repr e /\ i64_ok (unix_nanos (ev_received_at e)) /\ evidence_validate limits e = ok /\
  ev_id e = compute_evidence_id e.

Lemma evidence_validate_unsealed limits e :
  evidence_validate limits e = ok -> evidence_validate limits (with_identity e digest_id_zero) = ok.
Proof.
  rewrite !evidence_validate_iff. intros []. by constructor.
Qed.

#[export] Instance wire_evidence limits :
  Wire encode_evidence (decode_evidence limits) (evidence_wire_ok limits).
Proof.
  intros x rest (Hr & Hrecv & Hv & Hid).
  pose proof (evidence_validate_unsealed _ _ Hv) as Hu.
  pose proof (proj1 (evidence_validate_iff _ _) Hv) as Hwf.
  destruct Hr as (H1 & H2 & H3 & H4 & H5 & H6 & H7 & H8 & H9 & H10 & H11 & H12 & H13 & H14 & H15 & H16 & H17).
  assert (length (id_bytes (ev_id x)) = kDigestIdBytes) as Hlen by (rewrite Hid; apply from_digest_length).
  assert (text_ok 4096 (ev_note x)) as Hnote.
  { split; [done |]. rewrite length_string_bytes. pose proof (wf_note _ _ Hwf). lia. }
  assert (seq_ok (max_hops_per_path limits) hop_repr (ev_hops x)) as Hhops.
  { split_and!; [done | apply (wf_hop_count _ _ Hwf) | done]. }
  unfold encode_evidence, decode_evidence.
  rewrite <- ?app_assoc, expect_tag_bind by (simpl; lia). repeat wire_step.
  unfold with_identity in Hu. unfold checked_evidence. rewrite Hu. cbn [reader_check].
  unfold reader_bind at 1, reader_ret at 1. cbn [result_bind].
  match goal with |- context [compute_evidence_id ?e] =>
    change (compute_evidence_id e) with (compute_evidence_id x) end.
  rewrite <- Hid, bool_decide_eq_true_2 by done. cbn [negb]. unfold with_identity, reader_ret. by destruct x.
Qed.

(** *** Comparisons *)

Definition wire_judgement_of (j : EvidenceJudgement) : JudgementWire :=
  mk_judgement_wire (ej_id j) (ej_accepted j) (divergence_code (ej_rejection j))
    (freshness_code (ej_freshness j)) (proof_surface_code (ej_surface j))
    (authority_code (ej_authority j)) (completeness_code (ej_completeness j))
    (map divergence_code (ej_classes j)).

Definition wire_difference_of (d : HopDifference) : DifferenceWire :=
  mk_difference_wire (hd_index d) (divergence_code (hd_detail d)) (hd_has_expected d) (hd_has_observed d).

(** What a decoder recovers of a result: the submission counts, the reasons, the
    hops of the differences and the rationale are not on the wire. *)
Definition wire_of_result (r : ComparisonResult) : ComparisonWire :=
  mk_comparison_wire (cr_id r) (cr_generation r) (cr_topology r) (cr_group r) (cr_path r)
    (cr_matched_path r) (cr_outcome r) (divergence_code (cr_primary r))
    (map divergence_code (cr_classes r)) (freshness_code (cr_freshness r))
    (completeness_code (cr_completeness r)) (consistency_code (cr_consistency r))
    (proof_surface_code (cr_surface r)) (cr_multipath r) (cr_multipath_ambiguous r)
    (wrap_u 32 (Z.of_nat (cr_evidence_considered r))) (wrap_u 32 (Z.of_nat (cr_evidence_rejected r)))
    (map wire_judgement_of (cr_judgements r)) (map wire_difference_of (cr_differences r))
    (cr_evaluated_at r).

Lemma put_seq_map {A B} (put : B -> list Z) (f : A -> B) l :
  put_seq put (map f l) = put_seq (fun x => put (f x)) l.
Proof.
  unfold put_seq. rewrite length_map, flat_map_concat_map, map_map, <- flat_map_concat_map. done.
Qed.

Lemma wire_canonical_of r : wire_canonical (wire_of_result r) = result_canonical r.
Proof.
  assert (forall j, put_judgement_wire (wire_judgement_of j) = put_judgement j) as Hj.
  { intros j. unfold put_judgement_wire, put_judgement. cbn [jw_id jw_accepted jw_rejection jw_freshness
      jw_surface jw_authority jw_completeness jw_classes wire_judgement_of]. by rewrite put_seq_map. }
  unfold wire_canonical, result_canonical. cbn [cw_generation cw_topology cw_group cw_path cw_matched_path
    cw_outcome cw_primary cw_classes cw_freshness cw_completeness cw_consistency cw_surface cw_multipath
    cw_multipath_ambiguous cw_considered cw_rejected cw_judgements cw_differences cw_evaluated_at
    wire_of_result].
  rewrite !put_seq_map. unfold put_seq at 2. rewrite (flat_map_ext _ _ Hj). done.
Qed.

Definition judgement_repr (j : EvidenceJudgement) : Prop :=
  length (id_bytes (ej_id j)) = kDigestIdBytes /\ (length (ej_classes j) <= 64)%nat.

(** A sealed result whose fields fit their encodings. *)
Definition comparison_wire_ok (limits : Limits) (r : ComparisonResult) : Prop :=
  cr_id r = from_digest (digest_of (result_canonical r)) /\
  id_ok (cr_generation r) /\ id_ok (cr_topology r) /\ id_ok (maybe_value (cr_group r)) /\
  id_ok (maybe_value (cr_path r)) /\ id_ok (maybe_value (cr_matched_path r)) /\
  (length (cr_classes r) <= 64)%nat /\
  seq_ok (max_evidence_per_comparison limits) judgement_repr (cr_judgements r) /\
  seq_ok (max_hops_per_path limits) (fun d => u_ok 32 (hd_index d)) (cr_differences r) /\
  i64_ok (unix_nanos (cr_evaluated_at r)).

Lemma seq_ok_map {A B} max (P : A -> Prop) (Q : B -> Prop) (f : A -> B) l :
  (forall x, P x -> Q (f x)) -> seq_ok max P l -> seq_ok max Q (map f l).
Proof.
  intros HPQ (Hl & Hm & Hf). unfold seq_ok, len32 in *. rewrite length_map. split_and!; [done | done |].
  apply Forall_fmap. by eapply Forall_impl.
Qed.

Lemma codes_ok {A} (code : A -> Z) (l : list A) :
  (forall x, byte_ok (code x)) -> (length l <= 64)%nat -> seq_ok 64 byte_ok (map code l).
Proof.
  intros Hc Hl. unfold seq_ok, len32. rewrite length_map. split_and!; [lia | lia |].
  apply Forall_fmap. apply Forall_elem. intros x _. apply Hc.
Qed.

Lemma freshness_byte f : byte_ok (freshness_code f).
Proof. by destruct f. Qed.
Lemma consistency_byte c : byte_ok (consistency_code c).
Proof. by destruct c. Qed.
#[local] Hint Resolve freshness_byte consistency_byte proof_surface_byte authority_byte
  completeness_byte divergence_code_byte codes_ok : pathobs.

Lemma comparison_wire_roundtrip limits r rest :
  comparison_wire_ok limits r ->
  decode_comparison limits (encode_comparison r ++ rest) = Ok (wire_of_result r, rest).
Proof.
  intros (Hid & H1 & H2 & H3 & H4 & H5 & H6 & H7 & H8 & H9).
  pose proof (wire_canonical_of r) as Hcanon.
  assert (forall x, u_ok 32 (wrap_u 32 x)) as Hw by (intros; by apply wrap_u_range).
  assert (length (id_bytes (cr_id r)) = kDigestIdBytes) as Hlen by (rewrite Hid; apply from_digest_length).
  apply (seq_ok_map _ _ judgement_wire_ok wire_judgement_of) in H7.
  2:{ intros j [Hj Hc]. unfold judgement_wire_ok, wire_judgement_of. cbn. split_and!; auto with pathobs. }
  apply (seq_ok_map _ _ difference_wire_ok wire_difference_of) in H8.
  2:{ intros d Hd. split; [done | apply divergence_code_byte]. }
  unfold encode_comparison. rewrite <- Hcanon. unfold decode_comparison, wire_canonical.
  rewrite <- ?app_assoc, expect_tag_bind by (simpl; lia). wire_step.
  unfold expect_body_tag.
  rewrite (wire_bind put_text (get_text 64) _) by (vm_compute; split; [done | congruence]).
  rewrite bool_decide_eq_true_2 by done. cbn [negb].
  cbn [wire_of_result cw_generation cw_topology cw_group cw_path cw_matched_path cw_outcome cw_primary
    cw_classes cw_freshness cw_completeness cw_consistency cw_surface cw_multipath cw_multipath_ambiguous
    cw_considered cw_rejected cw_judgements cw_differences cw_evaluated_at].
  repeat wire_step.
  unfold checked_comparison. change (wire_canonical (mk_comparison_wire _ _ _ _ _ _ _ _ _ _ _ _ _ _ _ _ _ _ _ _))
    with (wire_canonical (wire_of_result r)).
  by rewrite Hcanon, <- Hid, bool_decide_eq_true_2 by done.
Qed.

(** *** Findings *)

Definition wire_of_finding (f : Finding) : FindingWire :=
  mk_finding_wire (divergence_code (fd_class f))
    (mk_finding (fd_id f) DivNone (fd_group f) (fd_path f) (fd_generation f) (fd_topology f)
       (fd_evidence f) (fd_hops f) (fd_status f) (fd_occurrences f) (fd_first_seen f) (fd_last_seen f)
       (fd_last_comparison f) (fd_detail f)).

Definition finding_wire_ok (limits : Limits) (f : Finding) : Prop :=
  finding_repr f /\ finding_identity f = fd_id f /\
  Z.of_nat (length (fd_evidence f)) <= max_finding_evidence limits /\
  Z.of_nat (length (fd_hops f)) <= max_hops_per_path limits /\
  u_ok 64 (fd_occurrences f) /\ i64_ok (unix_nanos (fd_first_seen f)) /\
  i64_ok (unix_nanos (fd_last_seen f)) /\ length (id_bytes (fd_last_comparison f)) = kDigestIdBytes /\
  text_ok (max_string_bytes limits) (fd_detail f).

Lemma finding_wire_roundtrip limits f rest :
  finding_wire_ok limits f ->
  decode_finding limits (encode_finding f ++ rest) = Ok (wire_of_finding f, rest).
Proof.
  intros ([H1 H2 H3 H4 H5 H6 H7 H8] & Hid & H9 & H10 & H11 & H12 & H13 & H14 & H15).
  assert (length (id_bytes (fd_id f)) = kDigestIdBytes) as Hlen by (rewrite <- Hid; apply from_digest_length).
  assert (seq_ok (max_finding_evidence limits) (fun i => length (id_bytes i) = kDigestIdBytes) (fd_evidence f))
    as He by (by split_and!).
  assert (seq_ok (max_hops_per_path limits) (u_ok 32) (fd_hops f)) as Hh by (by split_and!).
  unfold encode_finding, decode_finding.
  rewrite <- ?app_assoc, expect_tag_bind by (simpl; lia). repeat wire_step.
  unfold checked_finding. cbv zeta.
  match goal with |- context [wire_identity ?w] =>
    change (wire_identity w) with (finding_identity f) end.
  rewrite Hid, bool_decide_eq_true_2 by done. reflexivity.
Qed.

(** ** What a decoder accepts *)

(** Every value a reader returns satisfies [P]. *)
Definition ensures {A} (r : Reader A) (P : A -> Prop) : Prop :=
  forall data a rest, r data = Ok (a, rest) -> P a.

Lemma ensures_bind {A B} (r : Reader A) (k : A -> Reader B) P :
  (forall x, ensures (k x) P) -> ensures (reader_bind r k) P.
Proof.
  intros H data b rest. unfold reader_bind. destruct (r data) as [[a rest']|e]; [apply H | done].
Qed.

Lemma ensures_ret {A} (a : A) (P : A -> Prop) : P a -> ensures (reader_ret a) P.
Proof. intros Ha data b rest [= <- _]. done. Qed.

Lemma ensures_fail {A} e (P : A -> Prop) : ensures (reader_fail e) P.
Proof. by intros data a rest. Qed.

Lemma ensures_if {A} (c : bool) (r s : Reader A) P :
  (c = true -> ensures r P) -> (c = false -> ensures s P) -> ensures (if c then r else s) P.
Proof. destruct c; auto. Qed.

Lemma ensures_check {A} (s : Status) (k : unit -> Reader A) P :
  (s = ok -> ensures (k tt) P) -> ensures (reader_bind (reader_check s) k) P.
Proof.
  intros H. destruct s as [[]|e]; [apply (H eq_refl) | by intros data a rest].
Qed.

(** Follow a decoder to its last check. *)
Ltac follow :=
  repeat first
    [ apply ensures_fail
    | apply ensures_check; intros ?
    | apply ensures_bind; intros ?
    | apply ensures_if; intros ? ].

Lemma decoded_source limits : ensures (decode_source_descriptor limits) (fun d => source_validate d = ok).
Proof. unfold decode_source_descriptor, expect_tag. follow. by apply ensures_ret. Qed.

Lemma decoded_topology limits :
  ensures (decode_topology_generation limits) (fun g =>
    topology_consistent g /\ topology_sorted g /\ topo_digest g = topology_canonical_digest g).
Proof.
  unfold decode_topology_generation, expect_tag. follow. unfold finalized_topology.
  match goal with |- context [topology_finalize limits ?g] => set (raw := g) end.
  destruct (topology_finalize_cases limits raw) as [(-> & _ & Hc) | ((e & He) & _)].
  - apply ensures_ret. split_and!; [| by apply topology_normal_sorted | done].
    apply (topology_reordered_consistent raw); [apply topology_normal_reordered | done].
  - destruct (topology_finalize limits raw) as [s g]. simpl in He. subst s. apply ensures_fail.
Qed.

Lemma decoded_routes limits :
  ensures (decode_route_generation limits) (fun g =>
    route_consistent limits g /\ route_sorted g /\ route_digest g = route_canonical_digest g).
Proof.
  unfold decode_route_generation, expect_tag. follow. unfold finalized_routes.
  match goal with |- context [route_finalize limits ?g] => set (raw := g) end.
  destruct (route_finalize limits raw) as [g|e] eqn:E; [| apply ensures_fail].
  apply route_finalize_iff in E as (_ & Hc & ->). apply ensures_ret.
  split_and!; [by apply route_normal_consistent | by eapply route_normal_sorted | done].
Qed.

Lemma decoded_evidence limits :
  ensures (decode_evidence limits) (fun e =>
    evidence_validate limits e = ok /\ ev_id e = compute_evidence_id e).
Proof.
  unfold decode_evidence, expect_tag. follow. unfold checked_evidence. follow. bool_prop.
  apply ensures_ret. match goal with H : evidence_validate limits ?e = ok |- _ => set (raw := e) in * end.
  split; [| done]. rewrite evidence_validate_iff in *.
  match goal with H : evidence_wf _ _ |- _ => destruct H end. by constructor.
Qed.

Lemma decoded_comparison limits :
  ensures (decode_comparison limits) (fun w => cw_id w = from_digest (digest_of (wire_canonical w))).
Proof.
  unfold decode_comparison, expect_tag, expect_body_tag. follow. unfold checked_comparison.
  cbv zeta. follow. bool_prop. by apply ensures_ret.
Qed.

Lemma decoded_finding limits :
  ensures (decode_finding limits) (fun w => fd_id (fw_finding w) = wire_identity w).
Proof.
  unfold decode_finding, expect_tag. follow. unfold checked_finding. cbv zeta. follow. bool_prop.
  by apply ensures_ret.
Qed.

Lemma decode_exact_ok {A} (decode : Reader A) P payload a :
  ensures decode P -> decode_exact decode payload = Ok a -> P a.
Proof.
  intros H E. unfold decode_exact in E. destruct (decode payload) as [[b rest]|e] eqn:Ed; [| done].
  cbn [result_bind] in E. destruct rest; [| done]. injection E as <-. by eapply H.
Qed.

Lemma decode_exact_encode {A} (decode : Reader A) payload (a : A) junk :
  (forall rest, decode (payload ++ rest) = Ok (a, rest)) ->
  decode_exact decode payload = Ok a /\
  (junk <> [] -> err_code (decode_exact decode (payload ++ junk)) = Some InvalidFormat).
Proof.
  intros H. unfold decode_exact. split.
  - rewrite <- (app_nil_r payload), H. done.
  - intros Hj. rewrite H. by destruct junk.
Qed.

(** ** The contract of the codec *)

(** C31. What is encoded is decoded.  For every record that its type admits, the
    decoder applied to the encoding returns, for a source, a topology generation, a
    route generation and an evidence record, that record; for a comparison and for
    a finding the members that are on the wire ([wire_of_result],
    [wire_of_finding]): a comparison comes back without the counts of offered and
    duplicate records, the reasons of its judgements, the hops inside its
    differences and its rationale, and with its enumerations as the bytes that
    were written.  The same payload with anything
    appended is refused. *)
Theorem codec_roundtrip (limits : Limits) (junk : list Z) :
  (forall d, source_wire_ok limits d ->
     decode_exact (decode_source_descriptor limits) (encode_source d) = Ok d /\
     (junk <> [] -> err_code (decode_exact (decode_source_descriptor limits) (encode_source d ++ junk)) =
        Some InvalidFormat)) /\
  (forall g, topology_wire_ok limits g ->
     decode_exact (decode_topology_generation limits) (encode_topology g) = Ok g /\
     (junk <> [] -> err_code (decode_exact (decode_topology_generation limits) (encode_topology g ++ junk)) =
        Some InvalidFormat)) /\
  (forall g, routes_wire_ok limits g ->
     decode_exact (decode_route_generation limits) (encode_routes g) = Ok g /\
     (junk <> [] -> err_code (decode_exact (decode_route_generation limits) (encode_routes g ++ junk)) =
        Some InvalidFormat)) /\
  (forall e, evidence_wire_ok limits e ->
     decode_exact (decode_evidence limits) (encode_evidence e) = Ok e /\
     (junk <> [] -> err_code (decode_exact (decode_evidence limits) (encode_evidence e ++ junk)) =
        Some InvalidFormat)) /\
  (forall r, comparison_wire_ok limits r ->
     decode_exact (decode_comparison limits) (encode_comparison r) = Ok (wire_of_result r) /\
     (junk <> [] -> err_code (decode_exact (decode_comparison limits) (encode_comparison r ++ junk)) =
        Some InvalidFormat)) /\
  (forall f, finding_wire_ok limits f ->
     decode_exact (decode_finding limits) (encode_finding f) = Ok (wire_of_finding f) /\
     (junk <> [] -> err_code (decode_exact (decode_finding limits) (encode_finding f ++ junk)) =
        Some InvalidFormat)).
Proof.
  split_and!; intros x Hx; apply decode_exact_encode; intros rest;
    first [ by apply (wire_roundtrip (put := encode_source))
          | by apply (wire_roundtrip (put := encode_topology))
          | by apply (wire_roundtrip (put := encode_routes))
          | by apply (wire_roundtrip (put := encode_evidence))
          | by apply comparison_wire_roundtrip
          | by apply finding_wire_roundtrip ].
Qed.

Lemma codec_roundtrip_witness :
  decode_exact (decode_evidence default_limits) (encode_evidence (seal example_evidence)) = Ok (seal example_evidence) /\
  err_code (decode_exact (decode_source_descriptor default_limits) (encode_source example_source ++ [0])) =
    Some InvalidFormat.
Proof.
  destruct (codec_roundtrip default_limits [0]) as (Hs & _ & _ & He & _). split.
  - apply He. split; [exact example_evidence_repr |]. do 2 (split; [by vm_compute |]). done.
  - apply Hs; [| done]. do 4 (split; [by vm_compute |]). by vm_compute.
Defined.

(** C32. A rewritten payload cannot pass as the record it claims to be: whatever
    bytes a decoder accepts, the value it returns is valid, its generations are
    finalized, and its identity is the one its content determines. *)
Theorem codec_integrity (limits : Limits) (payload : list Z) :
  (forall d, decode_exact (decode_source_descriptor limits) payload = Ok d -> source_validate d = ok) /\
  (forall g, decode_exact (decode_topology_generation limits) payload = Ok g ->
     topology_consistent g /\ topology_sorted g /\ topo_digest g = topology_canonical_digest g) /\
  (forall g, decode_exact (decode_route_generation limits) payload = Ok g ->
     route_consistent limits g /\ route_sorted g /\ route_digest g = route_canonical_digest g) /\
  (forall e, decode_exact (decode_evidence limits) payload = Ok e ->
     evidence_validate limits e = ok /\ ev_id e = compute_evidence_id e) /\
  (forall w, decode_exact (decode_comparison limits) payload = Ok w ->
     cw_id w = from_digest (digest_of (wire_canonical w))) /\
  (forall w, decode_exact (decode_finding limits) payload = Ok w ->
     fd_id (fw_finding w) = wire_identity w).
Proof.
  split_and!; intros x E;
    [ exact (decode_exact_ok _ _ _ _ (decoded_source limits) E)
    | exact (decode_exact_ok _ _ _ _ (decoded_topology limits) E)
    | exact (decode_exact_ok _ _ _ _ (decoded_routes limits) E)
    | exact (decode_exact_ok _ _ _ _ (decoded_evidence limits) E)
    | exact (decode_exact_ok _ _ _ _ (decoded_comparison limits) E)
    | exact (decode_exact_ok _ _ _ _ (decoded_finding limits) E) ].
Qed.

(** A finding.  The class of a finding is cast without a range check: a payload
    with a class byte that names no class is accepted when its identity was
    computed over that byte. *)
Definition unknown_class_finding : FindingWire :=
  mk_finding_wire 200 (mk_finding digest_id_zero DivNone absent absent (from_value 1) (from_value 1) [] []
    FindingOpen 1 (from_unix_nanos 1) (from_unix_nanos 1) digest_id_zero "").

Definition unknown_class_payload : list Z :=
  put_text "pathobs.record.finding" ++ put_digest_id (wire_identity unknown_class_finding) ++ put_u8 200 ++
  put_maybe (@absent PathGroupIdTag) ++ put_maybe (@absent PathIdTag) ++ put_u64 1 ++ put_u64 1 ++
  put_count 0 ++ put_count 0 ++ put_u8 0 ++ put_u64 1 ++ put_i64 1 ++ put_i64 1 ++
  put_digest_id (@digest_id_zero ComparisonIdTag) ++ put_text "".

Example finding_class_unchecked :
  match decode_exact (decode_finding default_limits) unknown_class_payload with
  | Ok w => fw_class w = 200
  | Err _ => False
  end.
Proof. by vm_compute. Qed.
