(* ===== verification/Transport.v ===== *)
(** * Framed transport

    Models [include/pathobs/transport.hpp], [src/transport.cpp] and the two
    transfer loops of [src/socket.cpp].  A stream socket is the bytes its peer
    sent, the sizes in which the system delivers and accepts them, how the stream
    ends, and the text of its last error; each call of [::recv] or [::send] transfers at least one byte or
    reports the end.  [system_init], binding, listening and connecting are
    system calls and not modelled. *)

From S2P Require Import Prelude Errors Digest Canonical Limits.
#[local] Open Scope Z_scope.

(** ** Frames *)

Definition kFrameMagic : Z := 0x54424F50.
Definition kFrameHeaderBytes : nat := 20.
Definition kWireProtocolVersion : Z := 1.

Inductive FrameType : Set :=
  | Hello | EvidenceFrame | RouteFrame | TopologyFrame | SourceFrame | Ack | ErrorFrame | Bye
  | Heartbeat | ComparisonFrame.

#[global] Instance FrameType_eq_dec : EqDecision FrameType.
Proof. solve_decision. Defined.

(** The underlying [std::uint16_t] value. *)
Definition frame_type_code (t : FrameType) : Z :=
  match t with
  | Hello => 1 | EvidenceFrame => 2 | RouteFrame => 3 | TopologyFrame => 4 | SourceFrame => 5
  | Ack => 6 | ErrorFrame => 7 | Bye => 8 | Heartbeat => 9 | ComparisonFrame => 10
  end.

Definition frame_type_to_string (t : FrameType) : string :=
  match t with
  | Hello => "hello"
  | EvidenceFrame => "evidence"
  | RouteFrame => "route_generation"
  | TopologyFrame => "topology_generation"
  | SourceFrame => "source_descriptor"
  | Ack => "ack"
  | ErrorFrame => "error"
  | Bye => "bye"
  | Heartbeat => "heartbeat"
  | ComparisonFrame => "comparison_result"
  end.

Definition parse_frame_type (raw : Z) : Result FrameType :=
  match raw with
  | 1 => Ok Hello
  | 2 => Ok EvidenceFrame
  | 3 => Ok RouteFrame
  | 4 => Ok TopologyFrame
  | 5 => Ok SourceFrame
  | 6 => Ok Ack
  | 7 => Ok ErrorFrame
  | 8 => Ok Bye
  | 9 => Ok Heartbeat
  | 10 => Ok ComparisonFrame
  | _ => Err (mk_error ProtocolViolation "unknown frame type" (to_string raw))
  end.

Record Frame : Set := mk_frame { frame_type : FrameType; frame_flags : Z; frame_payload : list Z }.

(** [encode_frame] *)
Definition encode_frame (type : FrameType) (flags : Z) (payload : list Z) : list Z :=
  put_u32 kFrameMagic ++ put_u16 kWireProtocolVersion ++ put_u16 (frame_type_code type) ++
  put_u32 flags ++ put_u32 (wrap_u 32 (Z.of_nat (length payload))) ++ put_u32 (crc32c payload) ++
  payload.

(** ** Sockets *)

Record Socket : Set := mk_socket {
  sk_valid : bool;
  sk_stream : list Z;
  sk_chunks : list nat;
  sk_reset : bool;
  sk_writable : bool;
  sk_sent : list Z;
  sk_accepts : list Z;
  sk_retained : nat;
  sk_error : string
}.

Inductive RecvResult : Set := RecvData (bytes : list Z) | RecvClosed | RecvFailed.

Definition with_stream (s : Socket) (stream : list Z) (chunks : list nat) : Socket :=
  mk_socket (sk_valid s) stream chunks (sk_reset s) (sk_writable s) (sk_sent s) (sk_accepts s)
    (sk_retained s) (sk_error s).

(** [::recv] of at most [chunk] bytes: the system delivers one more than the next
    chunk size, or everything it has. *)
Definition sys_recv (chunk : nat) (s : Socket) : RecvResult * Socket :=
  match sk_stream s with
  | [] => (if sk_reset s then RecvFailed else RecvClosed, s)
  | _ =>
      let n := match sk_chunks s with [] => chunk | size :: _ => Nat.min chunk (S size) end in
      (RecvData (take n (sk_stream s)), with_stream s (drop n (sk_stream s)) (tail (sk_chunks s)))
  end.

(** [remaining > 2147483647 ? 2147483647 : remaining] *)
Definition chunk_size (remaining : nat) : nat := Z.to_nat (Z.min (Z.of_nat remaining) 2147483647).

(** The loop of [Socket::recv_exact]; every round receives a byte, so the number
    of bytes wanted is enough fuel. *)
Fixpoint recv_loop (fuel wanted : nat) (received : list Z) (s : Socket) : Result (list Z) * Socket :=
  match fuel with
  | O => (Ok received, s)
  | S fuel =>
      if (wanted =? 0)%nat then (Ok received, s) else
      match sys_recv (chunk_size wanted) s with
      | (RecvClosed, s) => (Err (mk_error ConnectionClosed "peer closed the connection" (sk_error s)), s)
      | (RecvFailed, s) => (Err (mk_error TransportFailure "recv() failed" (sk_error s)), s)
      | (RecvData bytes, s) => recv_loop fuel (wanted - length bytes) (received ++ bytes) s
      end
  end.

(** [Socket::recv_exact] *)
Definition recv_exact (wanted : nat) (s : Socket) : Result (list Z) * Socket :=
  if negb (sk_valid s) then (Err (error InvalidState "recv() on an invalid socket"), s)
  else recv_loop wanted wanted [] s.

(** [::send] of [chunk] bytes: the number accepted, as the system decides; not
    positive when it fails. *)
Definition sys_send (chunk : list Z) (s : Socket) : Z * Socket :=
  let rc := if negb (sk_writable s) then -1 else
            match sk_accepts s with
            | [] => Z.of_nat (length chunk)
            | rc :: _ => Z.min rc (Z.of_nat (length chunk))
            end in
  (rc, mk_socket (sk_valid s) (sk_stream s) (sk_chunks s) (sk_reset s) (sk_writable s)
         (sk_sent s ++ take (Z.to_nat rc) chunk) (tail (sk_accepts s)) (sk_retained s) (sk_error s)).

(** The loop of [Socket::send_all]. *)
Fixpoint send_loop (fuel : nat) (data : list Z) (s : Socket) : Status * Socket :=
  match fuel with
  | O => (ok, s)
  | S fuel =>
      match data with
      | [] => (ok, s)
      | _ =>
          let (rc, s) := sys_send (take (chunk_size (length data)) data) s in
          if rc <=? 0 then (Err (mk_error TransportFailure "send() failed" (sk_error s)), s)
          else send_loop fuel (drop (Z.to_nat rc) data) s
      end
  end.

(** [Socket::send_all] *)
Definition send_all (data : list Z) (s : Socket) : Status * Socket :=
  if negb (sk_valid s) then (Err (error InvalidState "send() on an invalid socket"), s)
  else send_loop (length data) data s.

(** [Socket::shutdown_both]: nothing is accepted any more, and the stream ends
    after those bytes already received that the system still delivers; how many
    these are differs between systems. *)
Definition shutdown_both (s : Socket) : Socket :=
  mk_socket (sk_valid s) (take (sk_retained s) (sk_stream s)) (sk_chunks s) false false (sk_sent s)
    (sk_accepts s) (sk_retained s) (sk_error s).

(** [Socket::close] *)
Definition socket_close (s : Socket) : Socket :=
  mk_socket false [] [] false false (sk_sent s) [] (sk_retained s) (sk_error s).

(** ** Channels *)

Record FramedChannel : Set := mk_channel { ch_socket : Socket; ch_limits : Limits }.

Definition with_socket (c : FramedChannel) (s : Socket) : FramedChannel := mk_channel s (ch_limits c).

(** [FramedChannel::send] *)
Definition channel_send (c : FramedChannel) (type : FrameType) (payload : list Z) : Status * FramedChannel :=
  if negb (sk_valid (ch_socket c)) then (Err (error InvalidState "send on a closed channel"), c) else
  if max_frame_bytes (ch_limits c) <? Z.of_nat (length payload) then
    (Err (error CapacityExceeded "frame payload exceeds the configured bound"), c)
  else
    let (status, s) := send_all (encode_frame type 0 payload) (ch_socket c) in
    (status, with_socket c s).

(** [FramedChannel::receive], after the header. *)
Definition receive_payload (c : FramedChannel) (type : FrameType) (header : list Z) :
    Result Frame * FramedChannel :=
  let flags := field 8 4 header in
  let payload_bytes := field 12 4 header in
  let payload_crc := field 16 4 header in
  if max_frame_bytes (ch_limits c) <? payload_bytes then
    (Err (error CapacityExceeded "frame payload exceeds the configured bound"),
     with_socket c (shutdown_both (ch_socket c)))
  else
    match (if 0 <? payload_bytes then recv_exact (Z.to_nat payload_bytes) (ch_socket c)
           else (Ok [], ch_socket c)) with
    | (Err e, s) => (Err e, with_socket c s)
    | (Ok payload, s) =>
        if negb (crc32c payload =? payload_crc) then
          (Err (error IntegrityFailure "frame payload failed its integrity check"),
           with_socket c (shutdown_both s))
        else (Ok (mk_frame type flags payload), with_socket c s)
    end.

(** [FramedChannel::receive] *)
Definition channel_receive (c : FramedChannel) : Result Frame * FramedChannel :=
  match recv_exact kFrameHeaderBytes (ch_socket c) with
  | (Err e, s) => (Err e, with_socket c s)
  | (Ok header, s) =>
      let c := with_socket c s in
      if negb (field 0 4 header =? kFrameMagic) then
        (Err (error ProtocolViolation "frame magic does not match"),
         with_socket c (shutdown_both s))
      else
      let version := field 4 2 header in
      if negb (version =? kWireProtocolVersion) then
        (Err (mk_error UnsupportedVersion "wire protocol version is not supported" (to_string version)),
         with_socket c (shutdown_both s))
      else
      match parse_frame_type (field 6 2 header) with
      | Err e => (Err e, c)
      | Ok type => receive_payload c type header
      end
  end.

Definition channel_shutdown (c : FramedChannel) : FramedChannel := with_socket c (shutdown_both (ch_socket c)).
Definition channel_close (c : FramedChannel) : FramedChannel := with_socket c (socket_close (ch_socket c)).

(** ** Transfers *)

Lemma chunk_size_pos n : (0 < n)%nat -> (0 < chunk_size n <= n)%nat.
Proof. unfold chunk_size. lia. Qed.

(** One [::recv] delivers a non-empty prefix of the stream. *)
Lemma sys_recv_spec chunk s :
  (0 < chunk)%nat -> sk_stream s <> [] ->
  exists n chunks, (0 < n <= length (sk_stream s))%nat /\ (n <= chunk)%nat /\
    sys_recv chunk s = (RecvData (take n (sk_stream s)), with_stream s (drop n (sk_stream s)) chunks).
Proof.
  intros Hc Hs. unfold sys_recv.
  destruct (sk_stream s) as [|b stream] eqn:E; [done |].
  set (n := match sk_chunks s with [] => chunk | size :: _ => Nat.min chunk (S size) end).
  assert (0 < n <= chunk)%nat as Hn by (unfold n; destruct (sk_chunks s); lia).
  exists (Nat.min n (length (b :: stream))), (tail (sk_chunks s)).
  split_and!; [simpl; lia | lia | lia |].
  destruct (le_lt_dec n (length (b :: stream))).
  - by rewrite Nat.min_l.
  - rewrite Nat.min_r by lia. rewrite !(take_ge (b :: stream)), !(drop_ge (b :: stream)) by lia. reflexivity.
Qed.

(** The result of [recv_exact] does not depend on how the stream is cut. *)
Lemma recv_loop_spec fuel wanted received s :
  (wanted <= fuel)%nat ->
  exists chunks,
    recv_loop fuel wanted received s =
      if (wanted <=? length (sk_stream s))%nat
      then (Ok (received ++ take wanted (sk_stream s)),
            with_stream s (drop wanted (sk_stream s)) chunks)
      else (Err (if sk_reset s then mk_error TransportFailure "recv() failed" (sk_error s)
                 else mk_error ConnectionClosed "peer closed the connection" (sk_error s)),
            with_stream s [] chunks).
Proof.
  revert wanted received s. induction fuel as [|fuel IH]; intros wanted received s Hf.
  { exists (sk_chunks s). replace wanted with 0%nat by lia. simpl.
    rewrite take_0, drop_0, app_nil_r. f_equal. by destruct s. }
  cbn [recv_loop]. destruct (Nat.eqb_spec wanted 0) as [->|Hw].
  { exists (sk_chunks s). simpl. rewrite take_0, drop_0, app_nil_r. f_equal. by destruct s. }
  pose proof (chunk_size_pos wanted ltac:(lia)) as Hc.
  destruct (decide (sk_stream s = [])) as [E|E].
  - exists (sk_chunks s). unfold sys_recv. rewrite E. simpl.
    destruct wanted; [done |]. simpl. assert (s = with_stream s [] (sk_chunks s)) as Hs by (destruct s; simpl in *; by subst).
    rewrite <- Hs. by destruct (sk_reset s).
  - destruct (sys_recv_spec (chunk_size wanted) s) as (n & chunks & Hn & Hnc & ->); [lia | done |].
    destruct (IH (wanted - length (take n (sk_stream s)))%nat (received ++ take n (sk_stream s))
      (with_stream s (drop n (sk_stream s)) chunks)) as [chunks' ->].
    { rewrite length_take. lia. }
    exists chunks'. cbn [sk_stream sk_reset with_stream]. rewrite length_take, length_drop.
    replace (n `min` length (sk_stream s))%nat with n by lia.
    destruct (Nat.leb_spec wanted (length (sk_stream s))).
    + rewrite (proj2 (Nat.leb_le _ _)) by lia. unfold with_stream. simpl. f_equal; [f_equal |].
      * rewrite <- app_assoc. f_equal.
        rewrite <- (take_drop n (take wanted (sk_stream s))), take_take, Nat.min_l by lia. f_equal.
        by rewrite skipn_firstn_comm.
      * f_equal. rewrite skipn_skipn. f_equal. lia.
    + by rewrite (proj2 (Nat.leb_gt _ _)) by lia.
Qed.

Lemma recv_exact_spec wanted s :
  sk_valid s = true ->
  exists chunks,
    recv_exact wanted s =
      if (wanted <=? length (sk_stream s))%nat
      then (Ok (take wanted (sk_stream s)), with_stream s (drop wanted (sk_stream s)) chunks)
      else (Err (if sk_reset s then mk_error TransportFailure "recv() failed" (sk_error s)
                 else mk_error ConnectionClosed "peer closed the connection" (sk_error s)),
            with_stream s [] chunks).
Proof.
  intros Hv. unfold recv_exact. rewrite Hv. cbn [negb].
  destruct (recv_loop_spec wanted wanted [] s (le_n _)) as [chunks ->]. by exists chunks.
Qed.

(** A system that never fails a send accepts everything, in any pieces. *)
Lemma send_loop_spec fuel data s :
  (length data <= fuel)%nat -> sk_writable s = true -> Forall (fun rc => 0 < rc) (sk_accepts s) ->
  exists accepts, Forall (fun rc => 0 < rc) accepts /\
    send_loop fuel data s =
      (ok, mk_socket (sk_valid s) (sk_stream s) (sk_chunks s) (sk_reset s) (sk_writable s)
             (sk_sent s ++ data) accepts (sk_retained s) (sk_error s)).
Proof.
  revert data s. induction fuel as [|fuel IH]; intros data s Hf Hw Ha.
  { destruct data; [| simpl in Hf; lia]. exists (sk_accepts s). split; [done |]. simpl. rewrite app_nil_r. f_equal. by destruct s. }
  destruct data as [|b data].
  { exists (sk_accepts s). split; [done |]. simpl. rewrite app_nil_r. f_equal. by destruct s. }
  cbn [send_loop]. set (d := b :: data) in *.
  pose proof (chunk_size_pos (length d) ltac:(unfold d; simpl; lia)) as Hc.
  unfold sys_send. rewrite Hw. cbn [negb].
  set (rc := match sk_accepts s with [] => _ | _ :: _ => _ end).
  assert (0 < rc <= Z.of_nat (chunk_size (length d)) /\ Forall (fun rc => 0 < rc) (tail (sk_accepts s))) as [Hrc Hta].
  { clear IH. unfold rc. rewrite length_take.
    destruct (sk_accepts s) as [|a accepts]; [split; [lia | constructor] |].
    inversion Ha; subst. split; [lia | done]. }
  rewrite (proj2 (Z.leb_gt _ _)) by lia.
  match goal with |- context [send_loop fuel _ ?s'] =>
    destruct (IH (drop (Z.to_nat rc) d) s') as (accepts & Hacc & ->) end; try done.
  { rewrite length_drop. simpl in Hf |- *. lia. }
  exists accepts. split; [done |].
  cbn [sk_valid sk_stream sk_chunks sk_reset sk_writable sk_sent]. rewrite <- app_assoc, take_take.
  rewrite Nat.min_l by lia. by rewrite take_drop.
Qed.

(** ** Frame headers *)

Lemma frame_type_code_range t : u_ok 16 (frame_type_code t).
Proof. unfold u_ok. destruct t; simpl; lia. Qed.

Lemma parse_frame_type_code t : parse_frame_type (frame_type_code t) = Ok t.
Proof. by destruct t. Qed.

Lemma parse_frame_type_inv raw t : parse_frame_type raw = Ok t -> raw = frame_type_code t.
Proof.
  unfold parse_frame_type. intros H.
  repeat (match goal with H : context [match ?x with _ => _ end] |- _ => destruct x end; try discriminate);
    by injection H as <-.
Qed.

Lemma length_encode_frame t fl p : length (encode_frame t fl p) = (kFrameHeaderBytes + length p)%nat.
Proof. unfold encode_frame, put_u32, put_u16. rewrite !length_app, !length_le_bytes. done. Qed.

(** The header of a frame, by its fields. *)
Definition header_of (magic version type flags size crc : Z) : list Z :=
  put_u32 magic ++ put_u16 version ++ put_u16 type ++ put_u32 flags ++ put_u32 size ++ put_u32 crc.

Lemma header_of_fields magic version type flags size crc :
  u_ok 32 magic -> u_ok 16 version -> u_ok 16 type -> u_ok 32 flags -> u_ok 32 size -> u_ok 32 crc ->
  let h := header_of magic version type flags size crc in
  length h = kFrameHeaderBytes /\ field 0 4 h = magic /\ field 4 2 h = version /\
  field 6 2 h = type /\ field 8 4 h = flags /\ field 12 4 h = size /\ field 16 4 h = crc.
Proof.
  intros. change (field 0 4 h) with (le_value (le_bytes 4 magic)).
  change (field 4 2 h) with (le_value (le_bytes 2 version)).
  change (field 6 2 h) with (le_value (le_bytes 2 type)).
  change (field 8 4 h) with (le_value (le_bytes 4 flags)).
  change (field 12 4 h) with (le_value (le_bytes 4 size)).
  change (field 16 4 h) with (le_value (le_bytes 4 crc)).
  rewrite !le_value_le_bytes_small by done. by split_and!.
Qed.

Lemma encode_frame_header t fl p :
  encode_frame t fl p =
    header_of kFrameMagic kWireProtocolVersion (frame_type_code t) fl
      (wrap_u 32 (Z.of_nat (length p))) (crc32c p) ++ p.
Proof. unfold encode_frame, header_of. by rewrite <- !app_assoc. Qed.

(** A header is the encoding of its fields. *)
Lemma header_fields header :
  bytes_ok header -> length header = kFrameHeaderBytes ->
  header = header_of (field 0 4 header) (field 4 2 header) (field 6 2 header)
             (field 8 4 header) (field 12 4 header) (field 16 4 header).
Proof.
  intros Hb Hl. unfold kFrameHeaderBytes in Hl. unfold header_of, put_u32, put_u16.
  pose proof (field_split 0 4 header Hb ltac:(lia)) as H0.
  pose proof (field_split 4 2 header Hb ltac:(lia)) as H4.
  pose proof (field_split 6 2 header Hb ltac:(lia)) as H6.
  pose proof (field_split 8 4 header Hb ltac:(lia)) as H8.
  pose proof (field_split 12 4 header Hb ltac:(lia)) as H12.
  pose proof (field_split 16 4 header Hb ltac:(lia)) as H16.
  rewrite drop_0 in H0. rewrite H0 at 1. cbn [Nat.add].
  rewrite H4 at 1. cbn [Nat.add]. rewrite H6 at 1. cbn [Nat.add]. rewrite H8 at 1. cbn [Nat.add].
  rewrite H12 at 1. cbn [Nat.add]. rewrite H16 at 1. cbn [Nat.add].
  rewrite (drop_ge header 20) by lia. by rewrite app_nil_r.
Qed.

(** ** Receiving *)

Lemma take_drop_prefix {A} n (l : list A) : (n <= length l)%nat ->
  exists pre post, l = pre ++ post /\ length pre = n /\ take n l = pre /\ drop n l = post.
Proof.
  intros Hn. exists (take n l), (drop n l). rewrite take_drop, length_take. split_and!; lia || done.
Qed.

(** [recv_exact] when enough was sent. *)
Lemma recv_exact_prefix pre post s :
  sk_valid s = true -> sk_stream s = pre ++ post ->
  exists chunks, recv_exact (length pre) s = (Ok pre, with_stream s post chunks).
Proof.
  intros Hv Hs. destruct (recv_exact_spec (length pre) s Hv) as [chunks ->]. exists chunks.
  rewrite Hs, length_app. rewrite (proj2 (Nat.leb_le _ _)) by lia.
  by rewrite take_app_length, drop_app_length.
Qed.

(** The payload of a frame, however the stream is cut. *)
Lemma recv_payload pre post s :
  sk_valid s = true -> sk_stream s = pre ++ post ->
  exists chunks,
    (if 0 <? Z.of_nat (length pre) then recv_exact (length pre) s else (Ok [], s)) =
    (Ok pre, with_stream s post chunks).
Proof.
  intros Hv Hs. destruct pre as [|b pre].
  - exists (sk_chunks s). simpl in Hs |- *. rewrite <- Hs. f_equal. by destruct s.
  - cbn [length]. rewrite (proj2 (Z.ltb_lt _ _)) by lia. by apply (recv_exact_prefix (b :: pre)).
Qed.

(** A frame on the stream is received, and only that frame. *)
Lemma channel_receive_complete c t fl p rest :
  sk_valid (ch_socket c) = true -> u_ok 32 fl -> bytes_ok p ->
  Z.of_nat (length p) <= max_frame_bytes (ch_limits c) -> u_ok 32 (max_frame_bytes (ch_limits c)) ->
  sk_stream (ch_socket c) = encode_frame t fl p ++ rest ->
  exists chunks,
    channel_receive c = (Ok (mk_frame t fl p), with_socket c (with_stream (ch_socket c) rest chunks)).
Proof.
  intros Hv Hfl Hp Hmax Hu Hs. rewrite encode_frame_header, <- app_assoc in Hs.
  assert (u_ok 32 (Z.of_nat (length p))) as Hlen by (unfold u_ok in *; lia).
  rewrite wrap_u_small in Hs by (done || lia).
  destruct (header_of_fields kFrameMagic kWireProtocolVersion (frame_type_code t) fl
    (Z.of_nat (length p)) (crc32c p)) as (Hh & Hf0 & Hf4 & Hf6 & Hf8 & Hf12 & Hf16);
    [done | done | apply frame_type_code_range | done | done | by apply crc32c_ok |].
  destruct (recv_exact_prefix _ _ _ Hv Hs) as [chunks Hr]. rewrite Hh in Hr.
  unfold channel_receive. rewrite Hr, Hf0, Hf4, Hf6, !Z.eqb_refl. cbn [negb].
  rewrite parse_frame_type_code. unfold receive_payload. rewrite Hf8, Hf12, Hf16.
  cbn [ch_limits ch_socket with_socket].
  rewrite (proj2 (Z.ltb_ge _ _)) by done. rewrite Nat2Z.id.
  destruct (recv_payload p rest (with_stream (ch_socket c) (p ++ rest) chunks)) as [chunks' ->]; [done | done |].
  rewrite Z.eqb_refl. cbn [negb]. by exists chunks'.
Qed.

(** Whatever is accepted was encoded that way. *)
Lemma receive_payload_sound c type header f c' :
  sk_valid (ch_socket c) = true -> bytes_ok (sk_stream (ch_socket c)) -> bytes_ok header ->
  receive_payload c type header = (Ok f, c') ->
  exists chunks, c' = with_socket c (with_stream (ch_socket c) (sk_stream (ch_socket c')) chunks) /\
  sk_stream (ch_socket c) = frame_payload f ++ sk_stream (ch_socket c') /\
  f = mk_frame type (field 8 4 header) (frame_payload f) /\
  field 12 4 header = Z.of_nat (length (frame_payload f)) /\
  Z.of_nat (length (frame_payload f)) <= max_frame_bytes (ch_limits c) /\
  field 16 4 header = crc32c (frame_payload f).
Proof.
  intros Hv Hb Hh H. unfold receive_payload in H.
  destruct (Z.ltb_spec (max_frame_bytes (ch_limits c)) (field 12 4 header)) as [|Hle]; [done |].
  pose proof (field_u32 12 header Hh) as Hu. unfold u_ok in Hu.
  set (n := Z.to_nat (field 12 4 header)) in *.
  assert (field 12 4 header = Z.of_nat n) as Hn by (unfold n; lia). clearbody n. rewrite Hn in H, Hle |- *.
  destruct (le_lt_dec n (length (sk_stream (ch_socket c)))) as [Hl|Hl].
  - destruct (take_drop_prefix n (sk_stream (ch_socket c)) Hl) as (pre & post & Hs & Hpre & _ & _).
    subst n. destruct (recv_payload pre post _ Hv Hs) as [chunks Hr].
    rewrite Hr in H. destruct (Z.eqb_spec (crc32c pre) (field 16 4 header)) as [He|]; [| done].
    injection H as <- <-. exists chunks. split_and!; done.
  - exfalso. rewrite (proj2 (Z.ltb_lt _ _)) in H by lia.
    destruct (recv_exact_spec n (ch_socket c) Hv) as [chunks Hr].
    rewrite Hr, (proj2 (Nat.leb_gt _ _)) in H by lia. done.
Qed.

Lemma channel_receive_sound c f c' :
  sk_valid (ch_socket c) = true -> bytes_ok (sk_stream (ch_socket c)) ->
  u_ok 32 (max_frame_bytes (ch_limits c)) -> channel_receive c = (Ok f, c') ->
  (exists chunks, c' = with_socket c (with_stream (ch_socket c) (sk_stream (ch_socket c')) chunks)) /\
  sk_stream (ch_socket c) =
    encode_frame (frame_type f) (frame_flags f) (frame_payload f) ++ sk_stream (ch_socket c') /\
  u_ok 32 (frame_flags f) /\ Z.of_nat (length (frame_payload f)) <= max_frame_bytes (ch_limits c).
Proof.
  intros Hv Hb Hu H. unfold channel_receive in H.
  destruct (recv_exact_spec kFrameHeaderBytes (ch_socket c) Hv) as [chunks Hr]. rewrite Hr in H.
  destruct (Nat.leb_spec kFrameHeaderBytes (length (sk_stream (ch_socket c)))) as [Hl|]; [| done].
  destruct (take_drop_prefix _ _ Hl) as (header & stream & Hs & Hlen & Ht & Hd). rewrite Ht, Hd in H.
  rewrite Hs in Hb. apply Forall_app in Hb as [Hhb Hsb].
  destruct (Z.eqb_spec (field 0 4 header) kFrameMagic) as [Hmagic|]; [cbn [negb] in H | done].
  destruct (Z.eqb_spec (field 4 2 header) kWireProtocolVersion) as [Hver|]; [cbn [negb] in H | done].
  destruct (parse_frame_type (field 6 2 header)) as [t|] eqn:Et; [| done].
  apply parse_frame_type_inv in Et.
  destruct (receive_payload_sound
    (with_socket c (with_stream (ch_socket c) stream chunks)) _ _ _ _ Hv Hsb Hhb H) as (chunks' & Hc & Hst & Hf & Hsize & Hmax & Hcrc).
  cbn [ch_socket with_socket sk_stream with_stream ch_limits] in *.
  split; [by exists chunks' |]. rewrite Hf at 1 2. cbn [frame_type frame_flags]. split_and!.
  - rewrite encode_frame_header, <- app_assoc, <- Hst, Hs. f_equal.
    rewrite (header_fields header Hhb Hlen) at 1.
    rewrite Hmagic, Hver, Et, Hsize, Hcrc. by rewrite wrap_u_small by (done || (unfold u_ok in *; lia)).
  - rewrite Hf. by apply field_u32.
  - done.
Qed.

(** ** Sending *)

(** A channel that can send. *)
Definition sendable (s : Socket) : Prop :=
  sk_valid s = true /\ sk_writable s = true /\ Forall (fun rc => 0 < rc) (sk_accepts s).

Lemma channel_send_spec c t p :
  sendable (ch_socket c) -> Z.of_nat (length p) <= max_frame_bytes (ch_limits c) ->
  exists c', channel_send c t p = (ok, c') /\ sendable (ch_socket c') /\ ch_limits c' = ch_limits c /\
    sk_sent (ch_socket c') = sk_sent (ch_socket c) ++ encode_frame t 0 p.
Proof.
  intros (Hv & Hw & Ha) Hp. unfold channel_send, send_all. rewrite Hv. cbn [negb].
  rewrite (proj2 (Z.ltb_ge _ _)) by done.
  destruct (send_loop_spec _ (encode_frame t 0 p) (ch_socket c) (le_n _) Hw Ha) as (accepts & Hacc & ->).
  eexists. by split.
Qed.

Lemma shutdown_send_loop fuel data s :
  sk_writable s = false -> (0 < length data <= fuel)%nat ->
  fst (send_loop fuel data s) = Err (mk_error TransportFailure "send() failed" (sk_error s)).
Proof.
  intros Hw Hf. destruct fuel as [|fuel]; [lia |]. destruct data as [|b data]; [simpl in Hf; lia |].
  cbn [send_loop]. unfold sys_send. by rewrite Hw.
Qed.

(** Nothing can be sent on a channel that was shut down. *)
Lemma channel_send_shut c t p :
  sk_writable (ch_socket c) = false -> fst (channel_send c t p) <> ok.
Proof.
  intros Hw. unfold channel_send, send_all. destruct (sk_valid (ch_socket c)); [| done]. cbn [negb].
  destruct (_ <? _); [done |].
  pose proof (shutdown_send_loop (length (encode_frame t 0 p)) (encode_frame t 0 p) (ch_socket c) Hw) as Hs.
  destruct (send_loop _ _ _) as [status s]. cbn [fst] in *. rewrite Hs; [done |].
  rewrite length_encode_frame. unfold kFrameHeaderBytes. lia.
Qed.

(** The sender's and the receiver's loops over a sequence of frames. *)
Fixpoint send_frames (c : FramedChannel) (frames : list (FrameType * list Z)) : Status * FramedChannel :=
  match frames with
  | [] => (ok, c)
  | (t, p) :: frames =>
      match channel_send c t p with
      | (Ok _, c) => send_frames c frames
      | (Err e, c) => (Err e, c)
      end
  end.

Fixpoint receive_frames (n : nat) (c : FramedChannel) : Result (list Frame) * FramedChannel :=
  match n with
  | O => (Ok [], c)
  | S n =>
      match channel_receive c with
      | (Err e, c) => (Err e, c)
      | (Ok f, c) =>
          match receive_frames n c with
          | (Ok fs, c) => (Ok (f :: fs), c)
          | r => r
          end
      end
  end.

(** The bytes of a sequence of frames. *)
Definition frames_wire (frames : list (FrameType * list Z)) : list Z :=
  concat (map (fun '(t, p) => encode_frame t 0 p) frames).

(** Payloads of bytes within a bound. *)
Definition payloads_ok (bound : Z) (frames : list (FrameType * list Z)) : Prop :=
  Forall (fun '(_, p) => bytes_ok p /\ Z.of_nat (length p) <= bound) frames.

Lemma send_frames_spec frames c :
  sendable (ch_socket c) -> payloads_ok (max_frame_bytes (ch_limits c)) frames ->
  exists c', send_frames c frames = (ok, c') /\ sendable (ch_socket c') /\
    sk_sent (ch_socket c') = sk_sent (ch_socket c) ++ frames_wire frames.
Proof.
  intros Hs Hp. revert c Hs Hp. induction frames as [|[t p] frames IH]; intros c Hs Hp.
  { exists c. by rewrite app_nil_r. }
  apply Forall_cons_1 in Hp as [[_ Hl] Hp']. cbn [send_frames].
  destruct (channel_send_spec c t p Hs Hl) as (c1 & -> & Hs1 & Hl1 & Hsent).
  destruct (IH c1 Hs1) as (c2 & -> & Hs2 & Hsent2); [by rewrite Hl1 |].
  exists c2. rewrite Hsent2, Hsent, <- app_assoc. done.
Qed.

Lemma receive_frames_spec frames c rest :
  sk_valid (ch_socket c) = true -> u_ok 32 (max_frame_bytes (ch_limits c)) ->
  payloads_ok (max_frame_bytes (ch_limits c)) frames ->
  sk_stream (ch_socket c) = frames_wire frames ++ rest ->
  exists c', receive_frames (length frames) c =
      (Ok (map (fun '(t, p) => mk_frame t 0 p) frames), c') /\
    sk_stream (ch_socket c') = rest.
Proof.
  intros Hv Hu Hp. revert c Hv Hu Hp. induction frames as [|[t p] frames IH]; intros c Hv Hu Hp Hs.
  { by exists c. }
  apply Forall_cons_1 in Hp as [[Hb Hl] Hp']. cbn [length receive_frames].
  unfold frames_wire in Hs. cbn [map concat] in Hs. rewrite <- app_assoc in Hs.
  destruct (channel_receive_complete c t 0 p _ Hv ltac:(done) Hb Hl Hu Hs) as [chunks ->].
  destruct (IH (with_socket c (with_stream (ch_socket c) (frames_wire frames ++ rest) chunks)))
    as (c' & Hr & Hrest); [done .. |].
  unfold frames_wire in Hr. rewrite Hr. by exists c'.
Qed.

(** C38. What a channel sends, the channel at the other end receives: whatever
    pieces the system accepts and delivers, a sequence of frames within the
    bounds is sent completely and is received unchanged, in order, leaving
    exactly the bytes that follow it. *)
Theorem transport_delivers_in_order frames c d rest :
  sendable (ch_socket c) -> payloads_ok (max_frame_bytes (ch_limits c)) frames ->
  sk_valid (ch_socket d) = true -> u_ok 32 (max_frame_bytes (ch_limits d)) ->
  payloads_ok (max_frame_bytes (ch_limits d)) frames -> sk_sent (ch_socket c) = [] ->
  exists c',
    send_frames c frames = (ok, c') /\
    (sk_stream (ch_socket d) = sk_sent (ch_socket c') ++ rest ->
     exists d', receive_frames (length frames) d =
         (Ok (map (fun '(t, p) => mk_frame t 0 p) frames), d') /\
       sk_stream (ch_socket d') = rest).
Proof.
  intros Hs Hp Hv Hu Hpd He. destruct (send_frames_spec frames c Hs Hp) as (c' & Hr & _ & Hsent).
  exists c'. split; [done |]. rewrite Hsent, He. by apply receive_frames_spec.
Qed.

(** A channel whose socket takes three bytes, then two, and delivers four, then one. *)
Definition demo_channel (stream : list Z) : FramedChannel :=
  mk_channel (mk_socket true stream [3%nat; 0%nat] false true [] [3; 2] 0 EmptyString) default_limits.

Lemma transport_delivers_in_order_witness :
  exists c',
    send_frames (demo_channel []) [(Hello, [1; 2; 3]); (Bye, [])] = (ok, c') /\
    (exists d', receive_frames 2 (demo_channel (sk_sent (ch_socket c') ++ [9])) =
       (Ok [mk_frame Hello 0 [1; 2; 3]; mk_frame Bye 0 []], d') /\ sk_stream (ch_socket d') = [9]).
Proof.
  destruct (transport_delivers_in_order [(Hello, [1; 2; 3]); (Bye, [])] (demo_channel [])
    (demo_channel (frames_wire [(Hello, [1; 2; 3]); (Bye, [])] ++ [9])) [9]) as (c' & Hs & Hd).
  - split_and!; [done .. |]. repeat constructor.
  - repeat constructor; try done; lia.
  - done.
  - done.
  - repeat constructor; try done; lia.
  - done.
  - exists c'. split; [exact Hs |]. vm_compute in Hs. injection Hs as <-. apply Hd. by vm_compute.
Defined.

(** A channel accepts exactly the encodings of frames: a frame is received,
    leaving [rest], just when the unread bytes are the encoding of that frame
    followed by [rest], with a payload within the configured bound; so nothing
    with another magic, version, unknown type, or checksum is accepted, and no
    byte of the next frame is consumed. *)
Theorem transport_receive_exact c f rest :
  sk_valid (ch_socket c) = true -> bytes_ok (sk_stream (ch_socket c)) ->
  u_ok 32 (max_frame_bytes (ch_limits c)) ->
  (exists c', channel_receive c = (Ok f, c') /\ sk_stream (ch_socket c') = rest) <->
  sk_stream (ch_socket c) = encode_frame (frame_type f) (frame_flags f) (frame_payload f) ++ rest /\
  u_ok 32 (frame_flags f) /\ Z.of_nat (length (frame_payload f)) <= max_frame_bytes (ch_limits c).
Proof.
  intros Hv Hb Hu. split.
  - intros (c' & Hr & <-). by destruct (channel_receive_sound c f c' Hv Hb Hu Hr) as (_ & ? & ? & ?).
  - intros (Hs & Hfl & Hmax).
    assert (bytes_ok (frame_payload f)) as Hp.
    { rewrite Hs, encode_frame_header, <- app_assoc in Hb.
      apply Forall_app in Hb as [_ Hb]. by apply Forall_app in Hb as [? _]. }
    destruct (channel_receive_complete c _ _ _ rest Hv Hfl Hp Hmax Hu Hs) as [chunks Hr].
    eexists. split; [rewrite Hr; by destruct f | done].
Qed.

Lemma transport_receive_exact_witness :
  exists c', channel_receive (demo_channel (encode_frame Ack 7 [1; 2] ++ [5])) =
      (Ok (mk_frame Ack 7 [1; 2]), c') /\ sk_stream (ch_socket c') = [5].
Proof.
  apply (transport_receive_exact (demo_channel (encode_frame Ack 7 [1; 2] ++ [5]))).
  - done.
  - vm_compute. repeat constructor; discriminate.
  - done.
  - split_and!; done.
Defined.

(** ** Failures *)

Lemma recv_exact_error wanted s e s' :
  sk_valid s = true -> recv_exact wanted s = (Err e, s') ->
  (code e = ConnectionClosed \/ code e = TransportFailure) /\ sk_stream s' = [].
Proof.
  intros Hv H. destruct (recv_exact_spec wanted s Hv) as [chunks Hr]. rewrite Hr in H.
  destruct (_ <=? _)%nat; [done |]. injection H as <- <-. split; [| done].
  destruct (sk_reset s); [by right | by left].
Qed.

(** C39. Every failed receive is final, but one: either the stream had ended, and
    nothing is left of it, or the channel was shut down, and no later send
    succeeds; the exception is a frame of unknown type, which leaves the channel
    open and its payload unread, where the next receive looks for a header. *)
Theorem transport_fails_closed c e c' :
  sk_valid (ch_socket c) = true -> channel_receive c = (Err e, c') ->
  ((code e = ConnectionClosed \/ code e = TransportFailure) /\ sk_stream (ch_socket c') = []) \/
  (sk_writable (ch_socket c') = false /\ (forall t p, fst (channel_send c' t p) <> ok)) \/
  (message e = "unknown frame type"%string /\
   sk_stream (ch_socket c') = drop kFrameHeaderBytes (sk_stream (ch_socket c)) /\
   sk_writable (ch_socket c') = sk_writable (ch_socket c)).
Proof.
  assert (forall s, sk_writable s = false -> forall l,
    sk_writable (ch_socket (mk_channel s l)) = false /\
    (forall t p, fst (channel_send (mk_channel s l) t p) <> ok)) as Hshut.
  { intros s Hw l. split; [done |]. intros t p. by apply channel_send_shut. }
  intros Hv H. unfold channel_receive in H.
  destruct (recv_exact _ _) as [[header|e1] s] eqn:Er; [| by injection H as <- <-; left; eapply recv_exact_error].
  destruct (recv_exact_spec kFrameHeaderBytes _ Hv) as [chunks Hr]. rewrite Hr in Er.
  destruct (Nat.leb_spec kFrameHeaderBytes (length (sk_stream (ch_socket c)))); [| done].
  injection Er as <- <-.
  destruct (negb _); [injection H as <- <-; right; left; by apply Hshut |].
  destruct (negb _); [injection H as <- <-; right; left; by apply Hshut |].
  destruct (parse_frame_type _) eqn:Et.
  - unfold receive_payload in H. destruct (_ <? _); [injection H as <- <-; right; left; by apply Hshut |].
    destruct (if _ <? _ then _ else _) as [[payload|e1] s] eqn:Er.
    + destruct (negb _); [injection H as <- <-; right; left; by apply Hshut | done].
    + injection H as <- <-. left. destruct (_ <? _) in Er; [| done]. by eapply recv_exact_error, Er.
  - injection H as <- <-. right. right. split_and!; [| done | done].
    unfold parse_frame_type in Et.
    repeat (match goal with H : context [match ?x with _ => _ end] |- _ => destruct x end; try discriminate);
      by injection Et as <-.
Qed.

(** An acknowledgement with every byte complemented. *)
Definition garbled_channel : FramedChannel := demo_channel (map (fun b => 255 - b) (encode_frame Ack 0 [])).

Lemma transport_fails_closed_witness :
  sk_writable (ch_socket (snd (channel_receive garbled_channel))) = false.
Proof.
  destruct (transport_fails_closed garbled_channel (error ProtocolViolation "frame magic does not match")
    (snd (channel_receive garbled_channel))) as [[[H | H] _] | [[H _] | [H _]]];
    [done | by vm_compute | done | done | exact H | done].
Defined.

(** A frame of unknown type desynchronises the stream: its payload is taken for
    the next header. *)
Example unknown_frame_type_desynchronises :
  let hidden := encode_frame Bye 0 [] in
  let c := demo_channel (header_of kFrameMagic kWireProtocolVersion 11 0 20 (crc32c hidden) ++ hidden) in
  exists c', channel_receive c = (Err (mk_error ProtocolViolation "unknown frame type" "11"), c') /\
    fst (channel_receive c') = Ok (mk_frame Bye 0 []).
Proof. eexists. split; [by vm_compute |]. by vm_compute. Qed.
