(* ===== verification/Persistence.v ===== *)
(** * Persistence

    Models [include/pathobs/persistence.hpp] and [src/persistence.cpp]: the store
    file, its two header slots, its records, recovery and compaction.

    The files are a map from paths to bytes; every path carries the position of
    the handle that has it open.  Each call into the system consults a list of
    faults: [None], or the end of the list, is success, and [Some n] is a failure,
    which for a transfer comes after [n] bytes.  Bytes handed to [std::fwrite] are
    taken to reach the file at once; what a crash may lose of them is modelled as
    a torn write. *)

From stdpp Require Import gmap.
From S2P Require Import Prelude Errors Digest Canonical Ids TimeModel Limits.
#[local] Open Scope Z_scope.

(** ** Files *)

Record World : Set := mk_world {
  w_files : gmap string (list Z * nat);
  w_faults : list (option nat);
  w_error : string
}.

Definition IO (A : Type) : Type := World -> A * World.

Definition io_ret {A} (a : A) : IO A := fun w => (a, w).
Definition io_bind {A B} (m : IO A) (k : A -> IO B) : IO B := fun w => let (a, w) := m w in k a w.

(** [PATHOBS_TRY] *)
Definition io_try {A B} (m : IO (Result A)) (k : A -> IO (Result B)) : IO (Result B) :=
  io_bind m (fun r => match r with Err e => io_ret (Err e) | Ok a => k a end).

Notation "'io' x ':=' m 'in' k" := (io_bind m (fun x => k))
  (at level 10, x name, m at level 100, k at level 200) : pathobs_scope.
Notation "'try' x ':=' m 'in' k" := (io_try m (fun x => k))
  (at level 10, x name, m at level 100, k at level 200) : pathobs_scope.

Definition fault : IO (option nat) := fun w =>
  match w_faults w with
  | [] => (None, w)
  | f :: faults => (f, mk_world (w_files w) faults (w_error w))
  end.

Definition get_file (path : string) : IO (list Z * nat) := fun w =>
  (default ([], 0%nat) (w_files w !! path), w).

Definition set_file (path : string) (bytes : list Z) (position : nat) : IO unit := fun w =>
  (tt, mk_world (<[path := (bytes, position)]> (w_files w)) (w_faults w) (w_error w)).

Definition set_position (path : string) (position : nat) : IO unit := fun w =>
  (tt, mk_world (alter (fun file => (file.1, position)) path (w_files w)) (w_faults w) (w_error w)).

(** [std::fopen] with [rb] and [r+b]: the file has to exist. *)
Definition f_open (path : string) : IO bool :=
  io f := fault in
  fun w =>
    match f, w_files w !! path with
    | None, Some _ => (true, (set_position path 0 w).2)
    | _, _ => (false, w)
    end.

(** [std::fopen] with [w+b]: the file is empty afterwards. *)
Definition f_create (path : string) : IO bool :=
  io f := fault in
  match f with Some _ => io_ret false | None => io _ := set_file path [] 0 in io_ret true end.

(** [std::filesystem::file_size] *)
Definition f_size (path : string) : IO (option nat) :=
  io f := fault in io file := get_file path in
  io_ret (match f with Some _ => None | None => Some (length file.1) end).

(** [std::fseek], to a position or to the end. *)
Definition f_seek (path : string) (position : nat) : IO bool :=
  io f := fault in
  match f with
  | Some _ => io_ret false
  | None => io _ := set_position path position in io_ret true
  end.

Definition f_seek_end (path : string) : IO bool :=
  io f := fault in
  match f with
  | Some _ => io_ret false
  | None => io file := get_file path in io _ := set_position path (length file.1) in io_ret true
  end.

(** [std::ftell] *)
Definition f_tell (path : string) : IO Z :=
  io f := fault in
  match f with
  | Some _ => io_ret (-1)
  | None => io file := get_file path in io_ret (Z.of_nat file.2)
  end.

(** [std::fread] of at most [count] bytes. *)
Definition f_read (path : string) (count : nat) : IO (list Z) :=
  io f := fault in io file := get_file path in
  let count := match f with Some n => Nat.min n count | None => count end in
  let data := take count (drop file.2 file.1) in
  io _ := set_position path (file.2 + length data) in
  io_ret data.

(** The bytes of a file with [data] written at a position, past a gap of zeros
    when the position is beyond the end. *)
Definition splice (bytes : list Z) (position : nat) (data : list Z) : list Z :=
  take position bytes ++ replicate (position - length bytes) 0 ++ data ++ drop (position + length data) bytes.

(** [std::fwrite]: the number of bytes written. *)
Definition f_write (path : string) (data : list Z) : IO nat :=
  io f := fault in io file := get_file path in
  let data := match f with Some n => take n data | None => data end in
  io _ := set_file path (splice file.1 file.2 data) (file.2 + length data) in
  io_ret (length data).

(** [std::fflush] *)
Definition f_flush : IO bool := io f := fault in io_ret (match f with Some _ => false | None => true end).

(** [ftruncate] *)
Definition f_truncate (path : string) (size : nat) : IO bool :=
  io f := fault in
  match f with
  | Some _ => io_ret false
  | None => io file := get_file path in io _ := set_file path (take size file.1) file.2 in io_ret true
  end.

(** [std::filesystem::rename] *)
Definition f_rename (from to : string) : IO bool :=
  io f := fault in
  fun w =>
    match f, w_files w !! from with
    | None, Some file =>
        (true, mk_world (<[to := file]> (delete from (w_files w))) (w_faults w) (w_error w))
    | _, _ => (false, w)
    end.

(** [error_code::message] *)
Definition system_error : IO string := fun w => (w_error w, w).

Definition io_error (what path : string) : string := (what +:+ " failed for " +:+ path)%string.

(** ** Data *)

Definition kStoreHeaderSlotBytes : nat := 64.
Definition kStoreHeaderBytes : nat := 128.
Definition kStoreRecordHeaderBytes : nat := 32.
Definition kMagic : list Z := [80; 65; 84; 72; 79; 66; 83; 1].
Definition kEndianMarker : Z := 0x01020304.
Definition kFlagCleanShutdown : Z := 1.
Definition kStoreFormatVersion : Z := 1.

Inductive RecordType : Set :=
  | SourceRecord | TopologyRecord | RouteRecord | EvidenceRecord | ComparisonRecord | FindingRecord
  | MarkerRecord.

#[global] Instance RecordType_eq_dec : EqDecision RecordType.
Proof. solve_decision. Defined.

(** The underlying [std::uint16_t] value. *)
Definition record_type_code (t : RecordType) : Z :=
  match t with
  | SourceRecord => 1 | TopologyRecord => 2 | RouteRecord => 3 | EvidenceRecord => 4
  | ComparisonRecord => 5 | FindingRecord => 6 | MarkerRecord => 7
  end.

Definition record_type_to_string (t : RecordType) : string :=
  match t with
  | SourceRecord => "source"
  | TopologyRecord => "topology_generation"
  | RouteRecord => "route_generation"
  | EvidenceRecord => "evidence"
  | ComparisonRecord => "comparison"
  | FindingRecord => "finding"
  | MarkerRecord => "marker"
  end.

Definition parse_record_type (raw : Z) : Result RecordType :=
  match raw with
  | 1 => Ok SourceRecord
  | 2 => Ok TopologyRecord
  | 3 => Ok RouteRecord
  | 4 => Ok EvidenceRecord
  | 5 => Ok ComparisonRecord
  | 6 => Ok FindingRecord
  | 7 => Ok MarkerRecord
  | _ => Err (mk_error InvalidFormat "unknown record type" (to_string raw))
  end.

Record StoredRecord : Set := mk_stored { sr_type : RecordType; sr_sequence : Z; sr_payload : list Z }.

(** A valid [HeaderSlot]; one that is not valid is [None]. *)
Record HeaderSlot : Set := mk_slot {
  hs_format_version : Z;
  hs_flags : Z;
  hs_created : Z;
  hs_opened : Z;
  hs_restart_count : Z;
  hs_generation : Z
}.

Record RecoveryReport : Set := mk_recovery {
  rr_created : bool;
  rr_used_secondary_header_slot : bool;
  rr_unclean_previous_shutdown : bool;
  rr_corrupt_tail_truncated : bool;
  rr_truncate_offset : Z;
  rr_truncate_detail : string;
  rr_valid_records : Z;
  rr_invalid_records : Z;
  rr_bytes : Z;
  rr_restart_count : Z;
  rr_header_generation : Z;
  rr_incarnation : StoreIncarnationId;
  rr_created_at : TimePoint;
  rr_opened_at : TimePoint
}.

Record StoreOptions : Set := mk_options { so_limits : Limits; so_read_only : bool }.

Record PersistentStore : Set := mk_store {
  ps_path : string;
  ps_options : StoreOptions;
  ps_open : bool;
  ps_recovery : RecoveryReport;
  ps_record_count : Z;
  ps_size_bytes : Z;
  ps_next_sequence : Z;
  ps_active_slot : nat
}.

(** ** Byte layouts *)

(** [write_slot]: the 56 bytes a slot's checksum covers. *)
Definition slot_body (generation restart_count : Z) (clean : bool) (created opened : TimePoint) : list Z :=
  kMagic ++ put_u32 kStoreFormatVersion ++ put_u32 (Z.of_nat kStoreHeaderSlotBytes) ++
  put_u32 kEndianMarker ++ put_u32 (if clean then kFlagCleanShutdown else 0) ++
  put_i64 (unix_nanos created) ++ put_i64 (unix_nanos opened) ++ put_u32 restart_count ++ put_u32 0 ++
  put_u64 generation.

Definition slot_bytes (generation restart_count : Z) (clean : bool) (created opened : TimePoint) : list Z :=
  let body := slot_body generation restart_count clean created opened in
  body ++ put_u32 (crc32c body) ++ put_u32 0.

(** [read_header_slot], after the read. *)
Definition parse_slot (slot : list Z) : option HeaderSlot :=
  if negb (length slot =? kStoreHeaderSlotBytes)%nat then None else
  if negb (bool_decide (take (length kMagic) slot = kMagic)) then None else
  if negb (field 12 4 slot =? Z.of_nat kStoreHeaderSlotBytes) then None else
  if negb (field 16 4 slot =? kEndianMarker) then None else
  if negb (field 56 4 slot =? crc32c (take 56 slot)) then None else
  Some (mk_slot (field 8 4 slot) (field 20 4 slot) (wrap_i64 (field 24 8 slot))
          (wrap_i64 (field 32 8 slot)) (field 40 4 slot) (field 48 8 slot)).

(** [write_record_header] *)
Definition record_header_body (payload_bytes : nat) (type : RecordType) (sequence payload_checksum : Z) :
    list Z :=
  put_u32 (wrap_u 32 (Z.of_nat payload_bytes)) ++ put_u16 (record_type_code type) ++ [0; 0] ++
  put_u64 sequence ++ put_u32 payload_checksum.

Definition write_record_header (payload_bytes : nat) (type : RecordType) (sequence payload_checksum : Z) :
    list Z :=
  let body := record_header_body payload_bytes type sequence payload_checksum in
  body ++ put_u32 (crc32c body) ++ put_u64 0.

(** ** Headers *)

(** [read_header_slot] *)
Definition read_header_slot (path : string) (slot_index : nat) : IO (Result (option HeaderSlot)) :=
  io sought := f_seek path (slot_index * kStoreHeaderSlotBytes) in
  if negb sought then io_ret (Err (error IoFailure "fseek failed while reading a header slot")) else
  io slot := f_read path kStoreHeaderSlotBytes in
  io_ret (Ok (parse_slot slot)).

(** [write_slot]: the results of [fseek] and [fwrite] are ignored. *)
Definition write_slot (path : string) (slot_index : nat) (generation restart_count : Z) (clean : bool)
    (created opened : TimePoint) : IO unit :=
  io _ := f_seek path (slot_index * kStoreHeaderSlotBytes) in
  io _ := f_write path (slot_bytes generation restart_count clean created opened) in
  io_ret tt.

(** [PersistentStore::write_header_slot] *)
Definition write_header_slot (path : string) (active_slot : nat) (generation restart_count : Z)
    (clean : bool) (created opened : TimePoint) : IO Status :=
  io _ := write_slot path active_slot generation restart_count clean created opened in
  io flushed := f_flush in
  io_ret (if negb flushed then Err (error IoFailure (io_error "fflush" path)) else ok).

(** ** Recovery *)

Definition report_tail (offset : Z) (detail : string) (r : RecoveryReport) : RecoveryReport :=
  mk_recovery (rr_created r) (rr_used_secondary_header_slot r) (rr_unclean_previous_shutdown r)
    true offset detail (rr_valid_records r) (rr_invalid_records r) (rr_bytes r) (rr_restart_count r)
    (rr_header_generation r) (rr_incarnation r) (rr_created_at r) (rr_opened_at r).

Definition report_invalid (r : RecoveryReport) : RecoveryReport :=
  mk_recovery (rr_created r) (rr_used_secondary_header_slot r) (rr_unclean_previous_shutdown r)
    (rr_corrupt_tail_truncated r) (rr_truncate_offset r) (rr_truncate_detail r) (rr_valid_records r) 1
    (rr_bytes r) (rr_restart_count r) (rr_header_generation r) (rr_incarnation r) (rr_created_at r)
    (rr_opened_at r).

(** The checks of a record header: its checksum, the size bound and the type. *)
Definition header_valid (limits : Limits) (header : list Z) : bool :=
  (field 20 4 header =? crc32c (take 20 header)) &&
  (field 0 4 header <=? max_store_record_bytes limits) &&
  has_value (parse_record_type (field 4 2 header)).

(** [scan]: whether the record that starts with [header] is valid; its payload is
    read only when the header is. *)
Definition read_valid (path : string) (limits : Limits) (header : list Z) : IO bool :=
  if negb (header_valid limits header) then io_ret false else
  let payload_bytes := Z.to_nat (field 0 4 header) in
  if (0 <? payload_bytes)%nat then
    io payload := f_read path payload_bytes in
    io_ret (negb (negb (length payload =? payload_bytes)%nat ||
                  negb (crc32c payload =? field 16 4 header)))
  else io_ret (crc32c [] =? field 16 4 header).

(** [scan]: the loop.  Every round reads at least one byte, so the size of the
    file is enough fuel. *)
Fixpoint scan_loop (fuel : nat) (path : string) (limits : Limits) (truncate : bool) (valid offset : Z)
    (recovery : RecoveryReport) : IO (Result Z * RecoveryReport) :=
  match fuel with
  | O => io_ret (Ok valid, recovery)
  | S fuel =>
      io header := f_read path kStoreRecordHeaderBytes in
      if (length header =? 0)%nat then io_ret (Ok valid, recovery) else
      if negb (length header =? kStoreRecordHeaderBytes)%nat then
        if negb truncate then
          io_ret (Err (error TruncatedInput "store ends inside a record header"), report_invalid recovery)
        else io_ret (Ok valid, report_tail offset "store ends inside a record header" recovery)
      else
      io record_valid := read_valid path limits header in
      if negb record_valid then
        if negb truncate then
          io_ret (Err (mk_error CorruptStore "store contains an invalid record"
                         ("offset " +:+ to_string offset)%string), report_invalid recovery)
        else io_ret (Ok valid, report_tail offset "record failed its integrity check" recovery)
      else
      let valid := valid + 1 in
      let offset := offset + Z.of_nat kStoreRecordHeaderBytes + field 0 4 header in
      if max_store_records limits <? valid then
        io_ret (Err (error CapacityExceeded "store holds more records than the configured bound"), recovery)
      else scan_loop fuel path limits truncate valid offset recovery
  end.

(** [PersistentStore::scan] *)
Definition scan (path : string) (limits : Limits) (truncate : bool) (recovery : RecoveryReport) :
    IO (Result Z * RecoveryReport) :=
  io sought := f_seek path kStoreHeaderBytes in
  if negb sought then io_ret (Err (error IoFailure (io_error "fseek" path)), recovery) else
  io file := get_file path in
  io result := scan_loop (S (length file.1)) path limits truncate 0 (Z.of_nat kStoreHeaderBytes) recovery in
  match result.1 with
  | Err e => io_ret result
  | Ok valid =>
      if rr_corrupt_tail_truncated result.2 && truncate then
        io flushed := f_flush in
        if negb flushed then io_ret (Err (error IoFailure (io_error "fflush" path)), result.2) else
        io truncated := f_truncate path (Z.to_nat (rr_truncate_offset result.2)) in
        if negb truncated then io_ret (Err (error IoFailure (io_error "ftruncate" path)), result.2)
        else io_ret result
      else io_ret result
  end.

(** ** Opening *)

(** The report of a store that was created. *)
Definition report_created (now : TimePoint) : RecoveryReport :=
  mk_recovery true false false false 0 "" 0 0 0 0 1 id_none now now.

(** The choice between the header slots: the newer of two valid ones, the
    secondary one on a tie. *)
Definition choose_slot (primary secondary : option HeaderSlot) : option (HeaderSlot * nat) :=
  match primary, secondary with
  | Some p, Some s => if hs_generation p <=? hs_generation s then Some (s, 1%nat) else Some (p, 0%nat)
  | Some p, None => Some (p, 0%nat)
  | None, Some s => Some (s, 1%nat)
  | None, None => None
  end.

(** The report from the chosen slot. *)
Definition report_opened (primary : option HeaderSlot) (chosen : HeaderSlot) (now : TimePoint)
    (restart_count generation : Z) : RecoveryReport :=
  mk_recovery false (negb (bool_decide (is_Some primary)))
    (Z.land (hs_flags chosen) kFlagCleanShutdown =? 0) false 0 "" 0 0 0 restart_count generation id_none
    (from_unix_nanos (hs_created chosen)) now.

(** [open]: a file too short for a header becomes an empty store. *)
Definition create_header (path : string) (options : StoreOptions) (now : TimePoint) :
    IO (Result (RecoveryReport * nat)) :=
  if so_read_only options then io_ret (Err (error CorruptStore "store is too short to contain a header")) else
  io sought := f_seek path 0 in
  if negb sought then io_ret (Err (error IoFailure (io_error "fwrite" path))) else
  io written := f_write path (replicate kStoreHeaderBytes 0) in
  if negb (written =? kStoreHeaderBytes)%nat then io_ret (Err (error IoFailure (io_error "fwrite" path))) else
  try _ := write_header_slot path 0 1 0 false now now in
  io_ret (Ok (report_created now, 0%nat)).

(** [open]: the header of an existing store. *)
Definition open_header (path : string) (options : StoreOptions) (now : TimePoint) :
    IO (Result (RecoveryReport * nat)) :=
  try primary := read_header_slot path 0 in
  try secondary := read_header_slot path 1 in
  match choose_slot primary secondary with
  | None => io_ret (Err (error CorruptStore
              "neither header slot is valid; refusing to guess at the store contents"))
  | Some (chosen, chosen_slot) =>
      if negb (hs_format_version chosen =? kStoreFormatVersion) then
        io_ret (Err (mk_error UnsupportedVersion "store format version is not supported"
                       (to_string (hs_format_version chosen)))) else
      if so_read_only options then
        io_ret (Ok (report_opened primary chosen now (hs_restart_count chosen) (hs_generation chosen),
                    chosen_slot)) else
      let active_slot := match chosen_slot with O => 1%nat | _ => 0%nat end in
      let generation := wrap_u 64 (hs_generation chosen + 1) in
      let restart_count := wrap_u 32 (hs_restart_count chosen + 1) in
      try _ := write_header_slot path active_slot generation restart_count false
                 (from_unix_nanos (hs_created chosen)) now in
      io_ret (Ok (report_opened primary chosen now restart_count generation, active_slot))
  end.

Definition with_incarnation (r : RecoveryReport) : RecoveryReport :=
  mk_recovery (rr_created r) (rr_used_secondary_header_slot r) (rr_unclean_previous_shutdown r)
    (rr_corrupt_tail_truncated r) (rr_truncate_offset r) (rr_truncate_detail r) (rr_valid_records r)
    (rr_invalid_records r) (rr_bytes r) (rr_restart_count r) (rr_header_generation r)
    (from_value (if rr_header_generation r =? 0 then 1 else rr_header_generation r))
    (rr_created_at r) (rr_opened_at r).

Definition with_totals (valid bytes : Z) (r : RecoveryReport) : RecoveryReport :=
  mk_recovery (rr_created r) (rr_used_secondary_header_slot r) (rr_unclean_previous_shutdown r)
    (rr_corrupt_tail_truncated r) (rr_truncate_offset r) (rr_truncate_detail r) valid
    (rr_invalid_records r) bytes (rr_restart_count r) (rr_header_generation r) (rr_incarnation r)
    (rr_created_at r) (rr_opened_at r).

(** [PersistentStore::open] *)
Definition store_open (path : string) (options : StoreOptions) (now : TimePoint) :
    IO (Result PersistentStore) :=
  match limits_validate (so_limits options) with
  | Err e => io_ret (Err e)
  | Ok _ =>
  if negb (is_set now) then
    io_ret (Err (error InvalidArgument "opening a store requires an evaluation time")) else
  io opened := f_open path in
  io opened := (if negb opened && negb (so_read_only options) then f_create path else io_ret opened) in
  if negb opened then io_ret (Err (error IoFailure (io_error "fopen" path))) else
  io file_size := f_size path in
  match file_size with
  | None =>
      io message := system_error in
      io_ret (Err (mk_error IoFailure (io_error "file_size" path) message))
  | Some file_size =>
  try header := (if (file_size <? kStoreHeaderBytes)%nat then create_header path options now
                 else open_header path options now) in
  io scanned := scan path (so_limits options) (negb (so_read_only options)) (with_incarnation header.1) in
  match scanned.1 with
  | Err e => io_ret (Err e)
  | Ok valid_records =>
      io sought := f_seek_end path in
      if negb sought then io_ret (Err (error IoFailure (io_error "fseek" path))) else
      io end_ := f_tell path in
      let size_bytes := if end_ <? 0 then 0 else end_ in
      io_ret (Ok (mk_store path options true (with_totals valid_records size_bytes scanned.2)
                    valid_records size_bytes (valid_records + 1) header.2))
  end
  end
  end.

(** ** Operations *)

Definition with_counts (s : PersistentStore) (record_count size_bytes next_sequence : Z) : PersistentStore :=
  mk_store (ps_path s) (ps_options s) (ps_open s) (ps_recovery s) record_count size_bytes next_sequence
    (ps_active_slot s).

(** [append]: the checks before anything is written. *)
Definition append_check (s : PersistentStore) (payload : list Z) : Status :=
  let limits := so_limits (ps_options s) in
  fail? negb (ps_open s) with error InvalidState "append on a closed store" in
  fail? so_read_only (ps_options s) with error ReadOnlyStore "append on a read only store" in
  fail? max_store_record_bytes limits <? Z.of_nat (length payload) with
    error CapacityExceeded "record exceeds the configured record bound" in
  fail? max_store_records limits <? ps_record_count s + 1 with
    error CapacityExceeded "store has reached its configured record bound" in
  fail? (max_store_bytes limits <? ps_size_bytes s) ||
        (max_store_bytes limits - ps_size_bytes s <?
           Z.of_nat kStoreRecordHeaderBytes + Z.of_nat (length payload)) with
    error CapacityExceeded "store has reached its configured byte bound" in
  ok.

(** [append]: the writes. *)
Definition write_record (path : string) (header payload : list Z) : IO Status :=
  io sought := f_seek_end path in
  if negb sought then io_ret (Err (error IoFailure (io_error "fseek" path))) else
  io written := f_write path header in
  if negb (written =? kStoreRecordHeaderBytes)%nat then
    io_ret (Err (error IoFailure (io_error "fwrite" path))) else
  io written := (if (0 <? length payload)%nat then f_write path payload else io_ret 0%nat) in
  if negb (written =? length payload)%nat then io_ret (Err (error IoFailure (io_error "fwrite" path))) else
  io flushed := f_flush in
  if negb flushed then io_ret (Err (error IoFailure (io_error "fflush" path))) else io_ret ok.

(** [PersistentStore::append] *)
Definition append (s : PersistentStore) (type : RecordType) (payload : list Z) :
    IO (Status * PersistentStore) :=
  match append_check s payload with
  | Err e => io_ret (Err e, s)
  | Ok _ =>
      let header := write_record_header (length payload) type (ps_next_sequence s) (crc32c payload) in
      io status := write_record (ps_path s) header payload in
      match status with
      | Err e => io_ret (Err e, s)
      | Ok _ =>
          io_ret (ok, with_counts s (ps_record_count s + 1)
                        (ps_size_bytes s + Z.of_nat kStoreRecordHeaderBytes + Z.of_nat (length payload))
                        (ps_next_sequence s + 1))
      end
  end.

(** [read_all]: one record after its header was read. *)
Definition read_record (path : string) (limits : Limits) (header : list Z) : IO (Result StoredRecord) :=
  let payload_bytes := field 0 4 header in
  if negb (crc32c (take 20 header) =? field 20 4 header) then
    io_ret (Err (error CorruptStore "record header failed its integrity check")) else
  if max_store_record_bytes limits <? payload_bytes then
    io_ret (Err (error CapacityExceeded "record exceeds the configured record bound")) else
  match parse_record_type (field 4 2 header) with
  | Err e => io_ret (Err e)
  | Ok type =>
      io payload := (if 0 <? payload_bytes then f_read path (Z.to_nat payload_bytes) else io_ret []) in
      if negb (Z.of_nat (length payload) =? payload_bytes) then
        io_ret (Err (error TruncatedInput "store ends inside a record payload")) else
      if negb (crc32c payload =? field 16 4 header) then
        io_ret (Err (error CorruptStore "record payload failed its integrity check")) else
      io_ret (Ok (mk_stored type (field 8 8 header) payload))
  end.

(** [read_all]: the loop, with the records so far. *)
Fixpoint read_loop (fuel : nat) (path : string) (limits : Limits) (records : list StoredRecord) :
    IO (Result (list StoredRecord)) :=
  match fuel with
  | O => io_ret (Ok records)
  | S fuel =>
      io header := f_read path kStoreRecordHeaderBytes in
      if (length header =? 0)%nat then io_ret (Ok records) else
      if negb (length header =? kStoreRecordHeaderBytes)%nat then
        io_ret (Err (error TruncatedInput "store ends inside a record header")) else
      try record := read_record path limits header in
      let records := records ++ [record] in
      if max_store_records limits <? Z.of_nat (length records) then
        io_ret (Err (error CapacityExceeded "store holds more records than the bound"))
      else read_loop fuel path limits records
  end.

(** [PersistentStore::read_all] *)
Definition read_all (s : PersistentStore) : IO (Result (list StoredRecord)) :=
  let path := ps_path s in
  if negb (ps_open s) then io_ret (Err (error InvalidState "read_all on a closed store")) else
  io sought := f_seek path kStoreHeaderBytes in
  if negb sought then io_ret (Err (error IoFailure (io_error "fseek" path))) else
  io file := get_file path in
  try records := read_loop (S (length file.1)) path (so_limits (ps_options s)) [] in
  io sought := f_seek_end path in
  io_ret (if negb sought then Err (error IoFailure (io_error "fseek" path)) else Ok records).

(** [PersistentStore::close] *)
Definition store_close (s : PersistentStore) : PersistentStore :=
  mk_store (ps_path s) (ps_options s) false (ps_recovery s) (ps_record_count s) (ps_size_bytes s)
    (ps_next_sequence s) (ps_active_slot s).

(** [compact]: the loop over the records that are kept. *)
Fixpoint rewrite_records (path : string) (records : list StoredRecord) (written : Z) : IO Status :=
  match records with
  | [] => io_ret ok
  | record :: records =>
      let payload := sr_payload record in
      let header := write_record_header (length payload) (sr_type record) (written + 1) (crc32c payload) in
      io n := f_write path header in
      if negb (n =? kStoreRecordHeaderBytes)%nat then
        io_ret (Err (error IoFailure (io_error "fwrite" path))) else
      io n := (if (0 <? length payload)%nat then f_write path payload else io_ret 0%nat) in
      if negb (n =? length payload)%nat then io_ret (Err (error IoFailure (io_error "fwrite" path))) else
      rewrite_records path records (written + 1)
  end.

(** [compact]: the temporary file. *)
Definition write_compacted (temporary : string) (recovery : RecoveryReport) (records : list StoredRecord) :
    IO Status :=
  io created := f_create temporary in
  if negb created then io_ret (Err (error IoFailure (io_error "fopen" temporary))) else
  io n := f_write temporary (replicate kStoreHeaderBytes 0) in
  if negb (n =? kStoreHeaderBytes)%nat then io_ret (Err (error IoFailure (io_error "fwrite" temporary))) else
  try _ := rewrite_records temporary records 0 in
  io _ := write_slot temporary 0 (wrap_u 64 (rr_header_generation recovery + 1))
            (rr_restart_count recovery) false (rr_created_at recovery) (rr_opened_at recovery) in
  io flushed := f_flush in
  io_ret (if negb flushed then Err (error IoFailure (io_error "fflush" temporary)) else ok).

(** [PersistentStore::compact] *)
Definition compact (s : PersistentStore) (keep_newest : nat) : IO (Result nat * PersistentStore) :=
  if so_read_only (ps_options s) then
    io_ret (Err (error ReadOnlyStore "compaction of a read only store"), s) else
  io records := read_all s in
  match records with
  | Err e => io_ret (Err e, s)
  | Ok records =>
      let keep := Nat.min keep_newest (length records) in
      let first := (length records - keep)%nat in
      let temporary := (ps_path s +:+ ".compact")%string in
      io written := write_compacted temporary (ps_recovery s) (drop first records) in
      match written with
      | Err e => io_ret (Err e, s)
      | Ok _ =>
          let s := store_close s in
          io renamed := f_rename temporary (ps_path s) in
          if negb renamed then
            io message := system_error in
            io_ret (Err (mk_error IoFailure "compaction could not replace the store" message), s) else
          io reopened := store_open (ps_path s) (ps_options s) (rr_opened_at (ps_recovery s)) in
          match reopened with
          | Err e => io_ret (Err e, s)
          | Ok s => io_ret (Ok keep, s)
          end
      end
  end.

Definition with_generation (r : RecoveryReport) : RecoveryReport :=
  let generation := wrap_u 64 (rr_header_generation r + 1) in
  mk_recovery (rr_created r) (rr_used_secondary_header_slot r) (rr_unclean_previous_shutdown r)
    (rr_corrupt_tail_truncated r) (rr_truncate_offset r) (rr_truncate_detail r) (rr_valid_records r)
    (rr_invalid_records r) (rr_bytes r) (rr_restart_count r) generation (from_value generation)
    (rr_created_at r) (rr_opened_at r).

(** [PersistentStore::mark_clean] *)
Definition mark_clean (s : PersistentStore) (now : TimePoint) : IO (Status * PersistentStore) :=
  if so_read_only (ps_options s) then io_ret (ok, s) else
  if negb (ps_open s) then io_ret (Err (error InvalidState "mark_clean on a closed store"), s) else
  let slot := match ps_active_slot s with O => 1%nat | _ => 0%nat end in
  let recovery := ps_recovery s in
  io status := write_header_slot (ps_path s) slot (wrap_u 64 (rr_header_generation recovery + 1))
                 (rr_restart_count recovery) true (rr_created_at recovery) now in
  match status with
  | Err e => io_ret (Err e, s)
  | Ok _ =>
      io_ret (ok, mk_store (ps_path s) (ps_options s) (ps_open s) (with_generation recovery)
                    (ps_record_count s) (ps_size_bytes s) (ps_next_sequence s) slot)
  end.
