(* ===== verification/StoreFormat.v ===== *)
(** * The records of a file

    The bytes of a record, and the records of a byte sequence: its longest prefix
    that parses. *)

From stdpp Require Import gmap.
From S2P Require Import Prelude Errors Digest Canonical Ids TimeModel Limits Persistence.
#[local] Open Scope Z_scope.

(** ** The bytes of a record *)

Definition record_bytes (r : StoredRecord) : list Z :=
  write_record_header (length (sr_payload r)) (sr_type r) (sr_sequence r) (crc32c (sr_payload r)) ++
  sr_payload r.

Definition records_wire (rs : list StoredRecord) : list Z := concat (map record_bytes rs).

Definition record_ok (limits : Limits) (r : StoredRecord) : Prop :=
  bytes_ok (sr_payload r) /\ Z.of_nat (length (sr_payload r)) <= max_store_record_bytes limits /\
  u_ok 64 (sr_sequence r).

Lemma record_type_code_range t : u_ok 16 (record_type_code t).
Proof. unfold u_ok. destruct t; simpl; lia. Qed.

Lemma parse_record_type_code t : parse_record_type (record_type_code t) = Ok t.
Proof. by destruct t. Qed.

Lemma length_record_header n t q c : length (write_record_header n t q c) = kStoreRecordHeaderBytes.
Proof. done. Qed.

Lemma length_record_bytes r :
  length (record_bytes r) = (kStoreRecordHeaderBytes + length (sr_payload r))%nat.
Proof. unfold record_bytes. by rewrite length_app, length_record_header. Qed.

Lemma record_header_body_ok n t q c : bytes_ok (record_header_body n t q c).
Proof.
  unfold record_header_body, put_u32, put_u16, put_u64.
  repeat apply Forall_app_2; try apply le_bytes_ok. repeat constructor; lia.
Qed.

(** The fields of a record header. *)
Lemma record_header_fields n t q c :
  u_ok 32 (Z.of_nat n) -> u_ok 64 q -> u_ok 32 c ->
  let h := write_record_header n t q c in
  field 0 4 h = Z.of_nat n /\ field 4 2 h = record_type_code t /\ field 8 8 h = q /\ field 16 4 h = c /\
  field 20 4 h = crc32c (take 20 h).
Proof.
  intros Hn Hq Hc. set (body := record_header_body n t q c).
  change (take 20 (write_record_header n t q c)) with body.
  pose proof (crc32c_ok body (record_header_body_ok n t q c)) as Hb.
  cbv zeta.
  change (field 0 4 (write_record_header n t q c)) with (le_value (le_bytes 4 (wrap_u 32 (Z.of_nat n)))).
  change (field 4 2 (write_record_header n t q c)) with (le_value (le_bytes 2 (record_type_code t))).
  change (field 8 8 (write_record_header n t q c)) with (le_value (le_bytes 8 q)).
  change (field 16 4 (write_record_header n t q c)) with (le_value (le_bytes 4 c)).
  change (field 20 4 (write_record_header n t q c)) with (le_value (le_bytes 4 (crc32c body))).
  pose proof (record_type_code_range t).
  rewrite (wrap_u_small 32) by done. by rewrite !le_value_le_bytes_small by done.
Qed.

(** ** The longest valid prefix *)

(** The record a byte sequence starts with, and what follows it. *)
Definition next_record (limits : Limits) (bytes : list Z) : option (StoredRecord * list Z) :=
  let header := take kStoreRecordHeaderBytes bytes in
  let n := Z.to_nat (field 0 4 header) in
  let payload := take n (drop kStoreRecordHeaderBytes bytes) in
  if (length header =? kStoreRecordHeaderBytes)%nat && header_valid limits header &&
     (length payload =? n)%nat && (crc32c payload =? field 16 4 header)
  then match parse_record_type (field 4 2 header) with
       | Ok type => Some (mk_stored type (field 8 8 header) payload, drop (kStoreRecordHeaderBytes + n) bytes)
       | Err _ => None
       end
  else None.

(** The records of a byte sequence and the bytes after the last valid one. *)
Fixpoint records_of (fuel : nat) (limits : Limits) (bytes : list Z) : list StoredRecord * list Z :=
  match fuel with
  | O => ([], bytes)
  | S fuel =>
      match next_record limits bytes with
      | None => ([], bytes)
      | Some (r, rest) => let (rs, tail) := records_of fuel limits rest in (r :: rs, tail)
      end
  end.

Lemma header_valid_record limits r :
  record_ok limits r -> max_store_record_bytes limits <= 268435456 ->
  header_valid limits (write_record_header (length (sr_payload r)) (sr_type r) (sr_sequence r)
    (crc32c (sr_payload r))) = true.
Proof.
  intros (Hb & Hl & Hq) Hm.
  destruct (record_header_fields (length (sr_payload r)) (sr_type r) (sr_sequence r) (crc32c (sr_payload r)))
    as (H0 & H4 & _ & _ & H20); [unfold u_ok; lia | done | by apply crc32c_ok |].
  unfold header_valid. rewrite H0, H4, H20, Z.eqb_refl, parse_record_type_code.
  rewrite (proj2 (Z.leb_le _ _)) by done. done.
Qed.

(** A record in front is read back, and nothing of what follows. *)
Lemma next_record_bytes limits r rest :
  record_ok limits r -> max_store_record_bytes limits <= 268435456 ->
  next_record limits (record_bytes r ++ rest) = Some (r, rest).
Proof.
  intros Hr Hm. pose proof (header_valid_record limits r Hr Hm) as Hv. destruct Hr as (Hb & Hl & Hq).
  destruct (record_header_fields (length (sr_payload r)) (sr_type r) (sr_sequence r) (crc32c (sr_payload r)))
    as (H0 & H4 & H8 & H16 & _); [unfold u_ok; lia | done | by apply crc32c_ok |].
  unfold next_record, record_bytes. rewrite <- app_assoc.
  set (h := write_record_header _ _ _ _) in *.
  assert (take kStoreRecordHeaderBytes (h ++ sr_payload r ++ rest) = h) as -> by done.
  assert (drop kStoreRecordHeaderBytes (h ++ sr_payload r ++ rest) = sr_payload r ++ rest) as -> by done.
  rewrite H0, H4, H8, H16, Hv, Nat2Z.id, take_app_length, !Nat.eqb_refl, Z.eqb_refl, parse_record_type_code.
  cbn [andb]. rewrite app_assoc, drop_app_length'; [| by rewrite length_app].
  by destruct r.
Qed.

(** A record cut short is not a record. *)
Lemma next_record_torn limits r k :
  record_ok limits r -> max_store_record_bytes limits <= 268435456 -> (k < length (record_bytes r))%nat ->
  next_record limits (take k (record_bytes r)) = None.
Proof.
  intros (Hb & Hl & Hq) Hm Hk. rewrite length_record_bytes in Hk.
  destruct (record_header_fields (length (sr_payload r)) (sr_type r) (sr_sequence r) (crc32c (sr_payload r)))
    as (H0 & _); [unfold u_ok; lia | done | by apply crc32c_ok |].
  unfold next_record, record_bytes in *. set (h := write_record_header _ _ _ _) in *.
  assert (length h = kStoreRecordHeaderBytes) as Hh by done.
  rewrite take_app, Hh. destruct (le_lt_dec kStoreRecordHeaderBytes k) as [Hge|Hlt].
  - rewrite (take_ge h) by lia.
    assert (forall l, take kStoreRecordHeaderBytes (h ++ l) = h) as -> by done.
    assert (forall l, drop kStoreRecordHeaderBytes (h ++ l) = l) as -> by done.
    rewrite H0, Nat2Z.id, take_take, length_take.
    rewrite (proj2 (Nat.eqb_neq (_ `min` _) _)) by lia. by rewrite andb_false_r.
  - replace (k - kStoreRecordHeaderBytes)%nat with 0%nat by lia. rewrite take_0, app_nil_r, take_take.
    rewrite length_take. by rewrite (proj2 (Nat.eqb_neq _ _)) by lia.
Qed.

(** A record takes at least its header. *)
Lemma next_record_length limits bytes r rest :
  next_record limits bytes = Some (r, rest) ->
  length bytes = (kStoreRecordHeaderBytes + length (sr_payload r) + length rest)%nat /\
  rest = drop (kStoreRecordHeaderBytes + length (sr_payload r)) bytes.
Proof.
  unfold next_record. destruct (_ && _) eqn:E; [| done].
  apply andb_prop in E as [E _]. apply andb_prop in E as [E E2]. apply andb_prop in E as [E1 _].
  destruct (parse_record_type _); [| done]. intros [= <- <-]. cbn [sr_payload].
  apply Nat.eqb_eq in E1, E2. rewrite E2, length_drop. rewrite length_take in E1.
  rewrite length_take, length_drop in E2. 
  unfold kStoreRecordHeaderBytes in *. split; [lia |]. done.
Qed.

Lemma records_of_fuel limits fuel fuel' bytes :
  (length bytes <= fuel)%nat -> (length bytes <= fuel')%nat ->
  records_of fuel limits bytes = records_of fuel' limits bytes.
Proof.
  revert fuel' bytes. induction fuel as [|fuel IH]; intros fuel' bytes H H'.
  { destruct bytes; [| simpl in H; lia]. by destruct fuel'. }
  destruct fuel' as [|fuel'].
  { destruct bytes; [done | simpl in H'; lia]. }
  cbn [records_of]. destruct (next_record limits bytes) as [[r rest]|] eqn:E; [| done].
  apply next_record_length in E as [Hl _]. unfold kStoreRecordHeaderBytes in Hl.
  by rewrite (IH fuel' rest) by lia.
Qed.

(** The records of a byte sequence: its longest prefix of valid records. *)
Definition parse_all (limits : Limits) (bytes : list Z) : list StoredRecord * list Z :=
  records_of (length bytes) limits bytes.

Lemma parse_all_step limits bytes :
  parse_all limits bytes =
    match next_record limits bytes with
    | None => ([], bytes)
    | Some (r, rest) => (r :: (parse_all limits rest).1, (parse_all limits rest).2)
    end.
Proof.
  unfold parse_all. destruct (next_record limits bytes) as [[r rest]|] eqn:E.
  - pose proof (next_record_length _ _ _ _ E) as [Hl _]. unfold kStoreRecordHeaderBytes in Hl.
    destruct (length bytes) as [|fuel] eqn:El; [lia |]. cbn [records_of]. rewrite E.
    rewrite (records_of_fuel limits fuel (length rest) rest) by lia. by destruct (records_of _ _ rest).
  - destruct (length bytes); [done |]. cbn [records_of]. by rewrite E.
Qed.

(** Induction over the records of a byte sequence. *)
Lemma parse_all_ind (P : list Z -> Prop) limits :
  (forall bytes, next_record limits bytes = None -> P bytes) ->
  (forall bytes r rest, next_record limits bytes = Some (r, rest) -> P rest -> P bytes) ->
  forall bytes, P bytes.
Proof.
  intros Hnone Hsome bytes. remember (length bytes) as n eqn:En. revert bytes En.
  induction n as [n IH] using lt_wf_ind. intros bytes ->.
  destruct (next_record limits bytes) as [[r rest]|] eqn:E; [| by apply Hnone].
  apply (Hsome _ _ _ E). pose proof (next_record_length _ _ _ _ E) as [Hl _].
  apply (IH (length rest)); [unfold kStoreRecordHeaderBytes in Hl; lia | done].
Qed.

(** Records written one after another are all read back. *)
Lemma parse_all_wire limits rs rest :
  Forall (record_ok limits) rs -> max_store_record_bytes limits <= 268435456 ->
  parse_all limits (records_wire rs ++ rest) =
    (rs ++ (parse_all limits rest).1, (parse_all limits rest).2).
Proof.
  intros Hrs Hm. induction Hrs as [|r rs Hr Hrs IH].
  { change (records_wire [] ++ rest) with rest. by destruct (parse_all limits rest). }
  unfold records_wire. cbn [map concat]. rewrite <- app_assoc, parse_all_step, next_record_bytes by done.
  unfold records_wire in IH. by rewrite IH.
Qed.

Lemma parse_all_torn limits r k :
  record_ok limits r -> max_store_record_bytes limits <= 268435456 -> (k < length (record_bytes r))%nat ->
  parse_all limits (take k (record_bytes r)) = ([], take k (record_bytes r)).
Proof. intros Hr Hm Hk. by rewrite parse_all_step, next_record_torn. Qed.

(** The bytes after the last valid record are a suffix. *)
Lemma parse_all_tail limits bytes :
  (length (parse_all limits bytes).2 <= length bytes)%nat /\
  (parse_all limits bytes).2 = drop (length bytes - length (parse_all limits bytes).2) bytes.
Proof.
  pattern bytes. apply (parse_all_ind _ limits); clear bytes.
  - intros bytes E. rewrite parse_all_step, E. cbn [snd]. by rewrite Nat.sub_diag, drop_0.
  - intros bytes r rest E [IHl IH]. rewrite parse_all_step, E. cbn [snd].
    pose proof (next_record_length _ _ _ _ E) as [Hl Hr].
    split; [lia |]. set (T := (parse_all limits rest).2) in *.
    transitivity (drop (length rest - length T) (drop (kStoreRecordHeaderBytes + length (sr_payload r)) bytes)).
    { by rewrite <- Hr. }
    rewrite drop_drop. f_equal. lia.
Qed.

(** Cutting bytes after a record does not change it. *)
Lemma next_record_take limits bytes r rest m :
  next_record limits bytes = Some (r, rest) ->
  (kStoreRecordHeaderBytes + length (sr_payload r) <= m)%nat ->
  next_record limits (take m bytes) =
    Some (r, take (m - (kStoreRecordHeaderBytes + length (sr_payload r))) rest).
Proof.
  intros E Hm. pose proof (next_record_length _ _ _ _ E) as [Hl Hrest]. revert E. unfold next_record.
  rewrite take_take, Nat.min_l by lia.
  set (header := take kStoreRecordHeaderBytes bytes). set (n := Z.to_nat (field 0 4 header)).
  destruct (_ && _) eqn:Ec; [| done].
  destruct (parse_record_type _); [| done]. intros [= <- <-]. cbn [sr_payload] in *.
  apply andb_prop in Ec as [Ec Hcrc]. apply andb_prop in Ec as [Ec E2].
  apply Nat.eqb_eq in E2. rewrite E2 in *.
  rewrite skipn_firstn_comm, take_take, Nat.min_l by lia. rewrite Ec, E2, Nat.eqb_refl, Hcrc. cbn [andb].
  by rewrite skipn_firstn_comm.
Qed.

(** Without the bytes after the last valid record, nothing is left over. *)
Lemma parse_all_truncated limits bytes :
  parse_all limits (take (length bytes - length (parse_all limits bytes).2) bytes) =
    ((parse_all limits bytes).1, []).
Proof.
  pattern bytes. apply (parse_all_ind _ limits); clear bytes.
  - intros bytes E. rewrite (parse_all_step limits bytes), E. cbn [fst snd]. by rewrite Nat.sub_diag, take_0.
  - intros bytes r rest E IH. rewrite (parse_all_step limits bytes), E. cbn [fst snd].
    pose proof (next_record_length _ _ _ _ E) as [Hl _]. pose proof (parse_all_tail limits rest) as [Ht _].
    rewrite parse_all_step, (next_record_take _ _ _ _ _ E) by lia.
    match goal with |- context [take ?m rest] =>
      replace m with (length rest - length (parse_all limits rest).2)%nat by lia end.
    by rewrite IH.
Qed.
