(* ===== verification/StoreFiles.v ===== *)
(** * Runs of file operations

    What the operations on files do when the system does not fail, which of them
    change no file, and what a failing system may do to an append. *)

From stdpp Require Import gmap.
From S2P Require Import Prelude Errors Digest Canonical Ids TimeModel Limits Persistence StoreFormat.
#[local] Open Scope Z_scope.

(** ** Runs without faults *)

(** The world [w] with one file and the position of its handle, and no faults. *)
Definition holding (w : World) (path : string) (bytes : list Z) (position : nat) : World :=
  mk_world (<[path := (bytes, position)]> (w_files w)) [] (w_error w).

Lemma holding_world w path bytes position :
  w_faults w = [] -> w_files w !! path = Some (bytes, position) -> w = holding w path bytes position.
Proof. intros Hf Hp. destruct w as [files faults e]. unfold holding. cbn in *. subst. by rewrite insert_id. Qed.

Lemma holding_lookup w path bytes position : w_files (holding w path bytes position) !! path = Some (bytes, position).
Proof. apply lookup_insert_eq. Qed.

Lemma holding_holding w path bytes position bytes' position' :
  holding (holding w path bytes position) path bytes' position' = holding w path bytes' position'.
Proof. unfold holding. cbn. by rewrite insert_insert_eq. Qed.

Lemma bind_ret {A B} (b : B) (k : B -> IO A) u : io_bind (io_ret b) k u = k b u.
Proof. done. Qed.

Lemma bind_bind {A B C} (m : IO B) (f : B -> IO C) (k : C -> IO A) u :
  io_bind (io_bind m f) k u = io_bind m (fun b => io_bind (f b) k) u.
Proof. unfold io_bind. by destruct (m u). Qed.

Lemma bind_run {A B} (m : IO B) (k : B -> IO A) u b u' : m u = (b, u') -> io_bind m k u = k b u'.
Proof. intros E. unfold io_bind. by rewrite E. Qed.

Section Steps.
Context (w : World) (path : string) (bytes : list Z) (position : nat).
#[local] Notation here := (holding w path bytes position).

Lemma fault_run : fault here = (None, here).
Proof. done. Qed.

Lemma get_file_run : get_file path here = ((bytes, position), here).
Proof. unfold get_file. by rewrite holding_lookup. Qed.

Lemma set_file_run bytes' position' :
  set_file path bytes' position' here = (tt, holding w path bytes' position').
Proof. unfold set_file, holding. cbn. by rewrite insert_insert_eq. Qed.

Lemma set_position_run position' : set_position path position' here = (tt, holding w path bytes position').
Proof. unfold set_position, holding. cbn. by rewrite alter_insert_eq. Qed.

Lemma f_seek_run n : f_seek path n here = (true, holding w path bytes n).
Proof.
  unfold f_seek. erewrite bind_run by apply fault_run. cbv beta iota.
  erewrite bind_run by apply set_position_run. done.
Qed.

Lemma f_seek_end_run : f_seek_end path here = (true, holding w path bytes (length bytes)).
Proof.
  unfold f_seek_end. erewrite bind_run by apply fault_run. cbv beta iota.
  erewrite bind_run by apply get_file_run. cbv beta. erewrite bind_run by apply set_position_run. done.
Qed.

Lemma f_tell_run : f_tell path here = (Z.of_nat position, here).
Proof. unfold f_tell. erewrite bind_run by apply fault_run. cbv beta iota. by erewrite bind_run by apply get_file_run. Qed.

Lemma f_size_run : f_size path here = (Some (length bytes), here).
Proof. unfold f_size. erewrite bind_run by apply fault_run. cbv beta iota. by erewrite bind_run by apply get_file_run. Qed.

Lemma f_open_run : f_open path here = (true, holding w path bytes 0).
Proof.
  unfold f_open. erewrite bind_run by apply fault_run. cbv beta iota. rewrite holding_lookup. by rewrite set_position_run.
Qed.

Lemma f_read_run n :
  f_read path n here =
    (take n (drop position bytes), holding w path bytes (position + length (take n (drop position bytes)))).
Proof.
  unfold f_read. erewrite bind_run by apply fault_run. cbv beta iota.
  erewrite bind_run by apply get_file_run. cbv beta. erewrite bind_run by apply set_position_run. done.
Qed.

Lemma f_write_run data :
  f_write path data here =
    (length data, holding w path (splice bytes position data) (position + length data)).
Proof.
  unfold f_write. erewrite bind_run by apply fault_run. cbv beta iota.
  erewrite bind_run by apply get_file_run. cbv beta. erewrite bind_run by apply set_file_run. done.
Qed.

Lemma f_flush_run : f_flush here = (true, here).
Proof. done. Qed.

Lemma f_truncate_run n : f_truncate path n here = (true, holding w path (take n bytes) position).
Proof.
  unfold f_truncate. erewrite bind_run by apply fault_run. cbv beta iota.
  erewrite bind_run by apply get_file_run. cbv beta. erewrite bind_run by apply set_file_run. done.
Qed.
End Steps.

Lemma f_open_missing w path :
  w_faults w = [] -> w_files w !! path = None -> f_open path w = (false, w).
Proof. intros Hf Hp. unfold f_open, io_bind, fault. by rewrite Hf, Hp. Qed.

Lemma f_create_run w path : w_faults w = [] -> f_create path w = (true, holding w path [] 0).
Proof. intros Hf. unfold f_create, io_bind, fault, set_file, holding, io_ret. rewrite Hf. cbn. by rewrite Hf. Qed.

Lemma f_rename_run w from to file :
  w_faults w = [] -> w_files w !! from = Some file ->
  f_rename from to w = (true, mk_world (<[to := file]> (delete from (w_files w))) [] (w_error w)).
Proof. intros Hf Hp. unfold f_rename, io_bind, fault. rewrite Hf, Hp. by rewrite Hf. Qed.

(** ** Runs that change no file *)

(** The bytes of the files. *)
Definition file_bytes (w : World) : gmap string (list Z) := fst <$> w_files w.

(** A computation that leaves all files as they are, whatever the system does. *)
Class Silent {A} (m : IO A) : Prop := silent : forall w, file_bytes (m w).2 = file_bytes w.

#[export] Instance silent_ret {A} (a : A) : Silent (io_ret a).
Proof. by intros w. Qed.

#[export] Instance silent_bind {A B} (m : IO A) (k : A -> IO B) :
  Silent m -> (forall a, Silent (k a)) -> Silent (io_bind m k).
Proof. intros Hm Hk w. unfold io_bind. destruct (m w) as [a w'] eqn:E. rewrite Hk. by rewrite <- (Hm w), E. Qed.

#[export] Instance silent_try {A B} (m : IO (Result A)) (k : A -> IO (Result B)) :
  Silent m -> (forall a, Silent (k a)) -> Silent (io_try m k).
Proof. intros Hm Hk. unfold io_try. apply silent_bind; [done |]. intros [a|e]; apply _. Qed.

#[export] Instance silent_if {A} (b : bool) (m m' : IO A) : Silent m -> Silent m' -> Silent (if b then m else m').
Proof. by destruct b. Qed.

#[export] Instance silent_fault : Silent fault.
Proof. intros w. unfold fault. by destruct (w_faults w). Qed.

#[export] Instance silent_get_file path : Silent (get_file path).
Proof. by intros w. Qed.

#[export] Instance silent_set_position path position : Silent (set_position path position).
Proof.
  intros w. unfold file_bytes, set_position. cbn. apply map_eq. intros p. rewrite !lookup_fmap.
  destruct (decide (p = path)) as [->|Hne].
  - rewrite lookup_alter_eq. by destruct (w_files w !! path).
  - by rewrite lookup_alter_ne.
Qed.

#[export] Instance silent_f_open path : Silent (f_open path).
Proof.
  apply silent_bind; [apply _ |]. intros f w. destruct f, (w_files w !! path); try done.
  apply (silent_set_position path 0 w).
Qed.

#[export] Instance silent_f_seek path position : Silent (f_seek path position).
Proof. apply silent_bind; [apply _ |]. intros []; apply _. Qed.

#[export] Instance silent_f_seek_end path : Silent (f_seek_end path).
Proof. apply silent_bind; [apply _ |]. intros []; apply _. Qed.

#[export] Instance silent_f_tell path : Silent (f_tell path).
Proof. apply silent_bind; [apply _ |]. intros []; apply _. Qed.

#[export] Instance silent_f_size path : Silent (f_size path).
Proof. unfold f_size. apply _. Qed.

#[export] Instance silent_f_read path count : Silent (f_read path count).
Proof. unfold f_read. apply _. Qed.

#[export] Instance silent_system_error : Silent system_error.
Proof. by intros w. Qed.

(** ** Runs with faults *)

Lemma fault_any w : exists f w', fault w = (f, w') /\ w_files w' = w_files w.
Proof. unfold fault. destruct (w_faults w) as [|f faults]; by do 2 eexists. Qed.

Lemma f_seek_end_any w path file position :
  w_files w !! path = Some (file, position) ->
  exists b w', f_seek_end path w = (b, w') /\
    w_files w' = if b then <[path := (file, length file)]> (w_files w) else w_files w.
Proof.
  intros Hf. unfold f_seek_end. destruct (fault_any w) as (f & w1 & Hfault & H1).
  erewrite bind_run by apply Hfault. cbv beta. destruct f; [by do 2 eexists |].
  unfold io_bind, get_file, set_position. rewrite H1, Hf. do 2 eexists. split; [done |]. cbn [w_files].
  rewrite <- (insert_id (w_files w) path (file, position) Hf) at 1. by rewrite alter_insert_eq.
Qed.

Lemma f_write_any w path file data :
  w_files w !! path = Some (file, length file) ->
  exists n w', f_write path data w = (n, w') /\ (n <= length data)%nat /\
    w_files w' = <[path := (file ++ take n data, length file + n)%nat]> (w_files w).
Proof.
  intros Hf. unfold f_write. destruct (fault_any w) as (f & w1 & Hfault & H1).
  erewrite bind_run by apply Hfault. cbv beta.
  unfold io_bind, get_file, set_file, io_ret. rewrite H1, Hf. cbn [default fst snd].
  set (written := match f with Some n => take n data | None => data end).
  assert (written = take (length written) data /\ (length written <= length data)%nat) as [Hw Hl].
  { unfold written. destruct f as [n|]; [| by rewrite take_ge].
    rewrite length_take. split; [| lia]. destruct (le_lt_dec n (length data)); [by rewrite Nat.min_l |].
    by rewrite Nat.min_r, !take_ge by lia. }
  exists (length written). eexists. split; [done |]. split; [done |]. cbn [w_files].
  f_equal. f_equal. rewrite <- Hw. unfold splice, id. cbn [fst snd].
  rewrite (take_ge file), Nat.sub_diag, (drop_ge file) by lia. cbn [replicate]. by rewrite app_nil_r.
Qed.

Lemma f_flush_any w : exists b w', f_flush w = (b, w') /\ w_files w' = w_files w.
Proof.
  unfold f_flush. destruct (fault_any w) as (f & w1 & Hfault & H1).
  erewrite bind_run by apply Hfault. cbv beta. by do 2 eexists.
Qed.


(** Runs the next step of a computation on a world without faults. *)
Ltac io_step :=
  first [ rewrite bind_ret | rewrite bind_bind
        | erewrite bind_run by (first [ apply f_seek_run | apply f_seek_end_run | apply f_tell_run
            | apply f_size_run | apply f_open_run | apply f_read_run | apply f_write_run | apply f_flush_run
            | apply f_truncate_run | apply get_file_run ]) ];
  cbv beta iota.

Lemma splice_end bytes data : splice bytes (length bytes) data = bytes ++ data.
Proof.
  unfold splice. rewrite take_ge, Nat.sub_diag, drop_ge by lia. cbn [replicate]. by rewrite app_nil_r.
Qed.

Lemma splice_within bytes position data :
  (position + length data <= length bytes)%nat ->
  splice bytes position data = take position bytes ++ data ++ drop (position + length data) bytes.
Proof. intros H. unfold splice. replace (position - length bytes)%nat with 0%nat by lia. done. Qed.

Lemma length_splice bytes position data :
  (position + length data <= length bytes)%nat -> length (splice bytes position data) = length bytes.
Proof. intros H. rewrite splice_within by done. rewrite !length_app, length_take, length_drop. lia. Qed.
