(* ===== verification/StoreRuns.v ===== *)
(** * Runs of the store's steps

    Scanning and reading compute the longest prefix of records; header slots read
    back as written; opening and appending, on a world without faults. *)

From stdpp Require Import gmap.
From S2P Require Import Prelude Errors Digest Canonical Ids TimeModel Limits Persistence StoreFormat StoreFiles.
#[local] Open Scope Z_scope.
#[local] Opaque f_seek f_seek_end f_tell f_size f_open f_create f_read f_write f_flush f_truncate f_rename get_file.

(** ** Scanning *)

Lemma next_record_size limits bytes r rest :
  bytes_ok bytes -> next_record limits bytes = Some (r, rest) ->
  field 0 4 (take kStoreRecordHeaderBytes bytes) = Z.of_nat (length (sr_payload r)).
Proof.
  intros Hb. unfold next_record.
  set (header := take kStoreRecordHeaderBytes bytes). set (n := Z.to_nat (field 0 4 header)).
  assert (0 <= field 0 4 header) by (apply (field_u32 0 header); by apply Forall_take).
  destruct (_ && _) eqn:Ec; [| done]. destruct (parse_record_type _); [| done]. intros [= <- <-].
  apply andb_prop in Ec as [Ec _]. apply andb_prop in Ec as [_ E2]. apply Nat.eqb_eq in E2.
  cbn [sr_payload]. rewrite E2. unfold n. lia.
Qed.

(** Reading the payload of a record decides whether the bytes start with one. *)
Lemma read_valid_run limits w path bytes position :
  let header := take kStoreRecordHeaderBytes (drop position bytes) in
  length header = kStoreRecordHeaderBytes ->
  exists position',
    read_valid path limits header (holding w path bytes (position + kStoreRecordHeaderBytes)) =
      (bool_decide (is_Some (next_record limits (drop position bytes))), holding w path bytes position') /\
    forall r rest, next_record limits (drop position bytes) = Some (r, rest) ->
      position' = (position + kStoreRecordHeaderBytes + length (sr_payload r))%nat.
Proof.
  cbv zeta. intros Hh. unfold read_valid, next_record. rewrite drop_drop.
  set (header := take kStoreRecordHeaderBytes (drop position bytes)) in *.
  set (n := Z.to_nat (field 0 4 header)). rewrite Hh, Nat.eqb_refl. cbn [andb].
  destruct (header_valid limits header) eqn:Ev; cbn [negb andb];
    [| eexists; split; [done | intros ? ? [=]]].
  assert (exists t, parse_record_type (field 4 2 header) = Ok t) as [t Et].
  { unfold header_valid in Ev. apply andb_prop in Ev as [_ Ev].
    destruct (parse_record_type _) as [t|]; [by exists t | done]. }
  rewrite Et. destruct (Nat.ltb_spec 0 n) as [Hn|Hn].
  - io_step. eexists. split; [unfold io_ret; f_equal |].
    + destruct (_ =? n)%nat; cbn [negb andb orb]; [| done].
      destruct (_ =? _); [by rewrite bool_decide_eq_true_2 by eauto | done].
    + intros r rest. destruct (length _ =? n)%nat; [| done]. destruct (_ =? field 16 4 header); [| done].
      by intros [= <- <-].
  - assert (n = 0%nat) as -> by lia. rewrite take_0. cbn [length Nat.eqb andb].
    eexists. split; [unfold io_ret; f_equal |].
    + destruct (_ =? _); [by rewrite bool_decide_eq_true_2 by eauto | done].
    + intros r rest. destruct (_ =? field 16 4 header); [| done]. intros [= <- <-]. cbn. lia.
Qed.

(** What is reported about the bytes after the last valid record. *)
Definition tail_detail (tail : list Z) : string :=
  if (length tail <? kStoreRecordHeaderBytes)%nat then "store ends inside a record header"
  else "record failed its integrity check".

Definition tail_error (offset : Z) (tail : list Z) : Error :=
  if (length tail <? kStoreRecordHeaderBytes)%nat
  then error TruncatedInput "store ends inside a record header"
  else mk_error CorruptStore "store contains an invalid record" ("offset " +:+ to_string offset)%string.

(** What a scan finds: the records that parse, and the bytes after them. *)
Definition scan_result (limits : Limits) (truncate : bool) (valid offset : Z) (bytes : list Z)
    (recovery : RecoveryReport) : Result Z * RecoveryReport :=
  let (records, tail) := parse_all limits bytes in
  let total := valid + Z.of_nat (length records) in
  let end_ := offset + Z.of_nat (length bytes - length tail) in
  if max_store_records limits <? total then
    (Err (error CapacityExceeded "store holds more records than the configured bound"), recovery)
  else if (length tail =? 0)%nat then (Ok total, recovery)
  else if truncate then (Ok total, report_tail end_ (tail_detail tail) recovery)
  else (Err (tail_error end_ tail), report_invalid recovery).

Lemma scan_loop_run limits truncate recovery w path bytes fuel position valid offset :
  bytes_ok bytes -> (length (drop position bytes) < fuel)%nat -> valid <= max_store_records limits ->
  exists position',
    scan_loop fuel path limits truncate valid offset recovery (holding w path bytes position) =
      (scan_result limits truncate valid offset (drop position bytes) recovery,
       holding w path bytes position').
Proof.
  intros Hb. revert position valid offset.
  induction fuel as [|fuel IH]; intros position valid offset Hf Hv; [lia |].
  cbn [scan_loop]. io_step. unfold scan_result. rewrite parse_all_step.
  set (rest := drop position bytes) in *. rewrite !length_take.
  destruct (Nat.eqb_spec (kStoreRecordHeaderBytes `min` length rest) 0) as [E0|E0].
  { destruct rest as [|b rest]; [| simpl in E0; lia].
    assert (next_record limits [] = None) as -> by done. eexists. unfold io_ret. f_equal.
    change (length []) with 0%nat. rewrite Z.add_0_r. by rewrite (proj2 (Z.ltb_ge _ _)) by lia. }
  destruct (Nat.eqb_spec (kStoreRecordHeaderBytes `min` length rest) kStoreRecordHeaderBytes) as [E1|E1];
    cbn [negb].
  - assert (length (take kStoreRecordHeaderBytes rest) = kStoreRecordHeaderBytes) as Hh by (by rewrite length_take).
    destruct (read_valid_run limits w path bytes position Hh) as (position' & Hr & Hpos).
    fold rest in Hr, Hpos. rewrite E1. erewrite bind_run by apply Hr. cbv beta.
    destruct (next_record limits rest) as [[r tail]|] eqn:En.
    + rewrite bool_decide_eq_true_2 by eauto. cbn [negb fst snd]. specialize (Hpos r tail eq_refl).
      pose proof (next_record_size limits rest r tail ltac:(by apply Forall_drop) En) as Hsize.
      pose proof (next_record_length limits rest r tail En) as [Hl Ht].
      assert (tail = drop position' bytes) as Htail.
      { rewrite Ht. unfold rest. rewrite drop_drop. f_equal. lia. }
      rewrite Hsize. cbn [length]. destruct (Z.ltb_spec (max_store_records limits) (valid + 1)).
      * rewrite (proj2 (Z.ltb_lt _ _)) by lia. by eexists.
      * destruct (IH position' (valid + 1)
          (offset + Z.of_nat kStoreRecordHeaderBytes + Z.of_nat (length (sr_payload r)))) as [p'' ->];
          [rewrite <- Htail; unfold kStoreRecordHeaderBytes in *; lia | lia |].
        exists p''. f_equal. unfold scan_result. rewrite <- Htail.
        pose proof (parse_all_tail limits tail) as [Hlt _].
        destruct (parse_all limits tail) as [records rest']. cbn [fst snd] in *.
        replace (valid + 1 + Z.of_nat (length records)) with (valid + Z.of_nat (S (length records))) by lia.
        replace (offset + Z.of_nat kStoreRecordHeaderBytes + Z.of_nat (length (sr_payload r)) +
          Z.of_nat (length tail - length rest')) with (offset + Z.of_nat (length rest - length rest')) by lia.
        done.
    + rewrite bool_decide_eq_false_2 by (intros [? [=]]). cbn [negb fst snd length].
      rewrite Nat.sub_diag, !Z.add_0_r. rewrite (proj2 (Z.ltb_ge _ _)) by lia.
      rewrite length_take in Hh. rewrite (proj2 (Nat.eqb_neq _ _)) by (unfold kStoreRecordHeaderBytes in *; lia).
      unfold tail_detail, tail_error. rewrite (proj2 (Nat.ltb_ge _ _)) by lia.
      destruct truncate; by eexists.
  - assert (next_record limits rest = None) as ->.
    { unfold next_record. by rewrite length_take, (proj2 (Nat.eqb_neq _ _)). }
    cbn [fst snd length]. rewrite Nat.sub_diag, !Z.add_0_r. rewrite (proj2 (Z.ltb_ge _ _)) by lia.
    rewrite (proj2 (Nat.eqb_neq (length rest) 0)) by lia.
    unfold tail_detail, tail_error. rewrite (proj2 (Nat.ltb_lt _ _)) by lia.
    destruct truncate; by eexists.
Qed.

(** What a scan leaves of the file. *)
Definition scan_keeps (limits : Limits) (truncate : bool) (file : list Z) : list Z :=
  let (records, tail) := parse_all limits (drop kStoreHeaderBytes file) in
  if truncate && negb (max_store_records limits <? Z.of_nat (length records))
  then take (length file - length tail) file else file.

Lemma scan_run limits truncate recovery w path file position :
  bytes_ok file -> (kStoreHeaderBytes <= length file)%nat -> 0 <= max_store_records limits ->
  rr_corrupt_tail_truncated recovery = false ->
  exists position',
    scan path limits truncate recovery (holding w path file position) =
      (scan_result limits truncate 0 (Z.of_nat kStoreHeaderBytes) (drop kStoreHeaderBytes file) recovery,
       holding w path (scan_keeps limits truncate file) position').
Proof.
  intros Hb Hl Hm Hr. unfold scan. io_step. cbn [negb]. io_step.
  destruct (scan_loop_run limits truncate recovery w path file (S (length (file, kStoreHeaderBytes).1))
    kStoreHeaderBytes 0 (Z.of_nat kStoreHeaderBytes)) as [p' Hscan]; [done | | done |].
  { rewrite length_drop. cbn [fst]. lia. }
  erewrite bind_run by apply Hscan. cbv beta. clear Hscan. unfold scan_result, scan_keeps.
  pose proof (parse_all_tail limits (drop kStoreHeaderBytes file)) as [Ht _].
  destruct (parse_all limits (drop kStoreHeaderBytes file)) as [records tail]. cbn [fst snd] in *.
  rewrite length_drop in *. rewrite Z.add_0_l.
  destruct (_ <? _); [rewrite andb_false_r; by eexists |]. rewrite andb_true_r. cbn [negb].
  destruct (Nat.eqb_spec (length tail) 0) as [E|E].
  - cbn [fst snd]. rewrite Hr, E, Nat.sub_0_r, take_ge by lia. cbn [andb]. eexists. by destruct truncate.
  - destruct truncate; [| by eexists]. cbn [fst snd report_tail rr_corrupt_tail_truncated andb].
    io_step. cbn [negb]. io_step. cbn [negb rr_truncate_offset report_tail]. eexists. unfold io_ret.
    f_equal.
    replace (Z.to_nat _) with (length file - length tail)%nat by (unfold kStoreHeaderBytes in *; lia). done.
Qed.

(** ** Reading *)

Lemma read_record_run limits w path bytes position :
  bytes_ok bytes ->
  let header := take kStoreRecordHeaderBytes (drop position bytes) in
  length header = kStoreRecordHeaderBytes ->
  exists position' result,
    read_record path limits header (holding w path bytes (position + kStoreRecordHeaderBytes)) =
      (result, holding w path bytes position') /\
    match next_record limits (drop position bytes) with
    | Some (r, _) => result = Ok r /\
        position' = (position + kStoreRecordHeaderBytes + length (sr_payload r))%nat
    | None => exists e, result = Err e
    end.
Proof.
  intros Hb. cbv zeta. intros Hh. unfold read_record, next_record, header_valid. rewrite drop_drop.
  set (header := take kStoreRecordHeaderBytes (drop position bytes)) in *.
  assert (0 <= field 0 4 header) as H0 by (apply (field_u32 0 header); by apply Forall_take, Forall_drop).
  set (n := Z.to_nat (field 0 4 header)). rewrite Hh, Nat.eqb_refl. cbn [andb].
  rewrite (Z.eqb_sym (field 20 4 header)).
  destruct (_ =? field 20 4 header); cbn [negb andb]; [| do 2 eexists; split; [done | by eexists]].
  rewrite Z.ltb_antisym. destruct (_ <=? _); cbn [negb andb]; [| do 2 eexists; split; [done | by eexists]].
  destruct (parse_record_type _) as [t|e]; cbn [has_value andb]; [| do 2 eexists; split; [done | by eexists]].
  assert (exists p',
    (if 0 <? field 0 4 header then f_read path n else io_ret [])
      (holding w path bytes (position + kStoreRecordHeaderBytes)) =
    (take n (drop (position + kStoreRecordHeaderBytes) bytes), holding w path bytes p') /\
    p' = (position + kStoreRecordHeaderBytes + length (take n (drop (position + kStoreRecordHeaderBytes) bytes)))%nat)
    as (p' & Hread & Hp').
  { destruct (Z.ltb_spec 0 (field 0 4 header)); [rewrite f_read_run; by eexists |].
    assert (n = 0%nat) as -> by (unfold n; lia). rewrite take_0. eexists. split; [done |]. cbn. lia. }
  erewrite bind_run by apply Hread. cbv beta.
  set (payload := take n (drop (position + kStoreRecordHeaderBytes) bytes)) in *.
  exists p'. replace (Z.of_nat (length payload) =? field 0 4 header) with (length payload =? n)%nat.
  2:{ unfold n. destruct (Nat.eqb_spec (length payload) (Z.to_nat (field 0 4 header))),
        (Z.eqb_spec (Z.of_nat (length payload)) (field 0 4 header)); lia || done. }
  destruct (length payload =? n)%nat eqn:E; cbn [negb andb]; [| eexists; split; [done | by eexists]].
  destruct (crc32c payload =? field 16 4 header); cbn [negb]; [| eexists; split; [done | by eexists]].
  eexists. split; [done |]. by cbn [sr_payload].
Qed.

Lemma read_loop_run limits w path bytes fuel position records :
  bytes_ok bytes -> (length (drop position bytes) < fuel)%nat ->
  Z.of_nat (length records) <= max_store_records limits ->
  exists position' result,
    read_loop fuel path limits records (holding w path bytes position) =
      (result, holding w path bytes position') /\
    let (rs, tail) := parse_all limits (drop position bytes) in
    (tail = [] -> Z.of_nat (length (records ++ rs)) <= max_store_records limits ->
       result = Ok (records ++ rs)) /\
    (forall l, result = Ok l ->
       tail = [] /\ l = records ++ rs /\ Z.of_nat (length l) <= max_store_records limits).
Proof.
  intros Hb. revert position records.
  induction fuel as [|fuel IH]; intros position records Hf Hr; [lia |].
  cbn [read_loop]. io_step. rewrite parse_all_step. set (rest := drop position bytes) in *.
  rewrite !length_take.
  destruct (Nat.eqb_spec (kStoreRecordHeaderBytes `min` length rest) 0) as [E0|E0].
  { destruct rest as [|b rest]; [| simpl in E0; lia]. assert (next_record limits [] = None) as -> by done.
    do 2 eexists. split; [done |]. rewrite app_nil_r. split; [done |]. by intros l [= <-]. }
  destruct (Nat.eqb_spec (kStoreRecordHeaderBytes `min` length rest) kStoreRecordHeaderBytes) as [E1|E1];
    cbn [negb].
  2:{ assert (next_record limits rest = None) as ->.
      { unfold next_record. by rewrite length_take, (proj2 (Nat.eqb_neq _ _)). }
      do 2 eexists. split; [done |]. split; [intros ->; simpl in E0; lia | done]. }
  assert (length (take kStoreRecordHeaderBytes rest) = kStoreRecordHeaderBytes) as Hh by (by rewrite length_take).
  destruct (read_record_run limits w path bytes position Hb Hh) as (p' & result & Hread & Hres).
  fold rest in Hread, Hres. rewrite E1. unfold io_try. erewrite bind_run by apply Hread. cbv beta.
  destruct (next_record limits rest) as [[r tail]|] eqn:En.
  2:{ destruct Hres as [e ->]. do 2 eexists. split; [done |].
      split; [| done]. intros ->. simpl in E0. lia. }
  destruct Hres as [-> Hp']. cbn [fst snd].
  pose proof (next_record_length limits rest r tail En) as [Hl Ht].
  assert (tail = drop p' bytes) as Htail.
  { rewrite Ht, Hp'. unfold rest. rewrite drop_drop. f_equal. lia. }
  destruct (Z.ltb_spec (max_store_records limits) (Z.of_nat (length (records ++ [r])))) as [Hlt|Hge].
  { do 2 eexists. split; [done |]. rewrite length_app in Hlt |- *. split; [| done]. simpl in Hlt |- *. lia. }
  destruct (IH p' (records ++ [r])) as (p'' & result & -> & Hall);
    [rewrite <- Htail; unfold kStoreRecordHeaderBytes in *; lia | done |].
  exists p'', result. split; [done |]. rewrite <- Htail in Hall.
  destruct (parse_all limits tail) as [rs tail']. cbn [fst snd]. by rewrite <- app_assoc in Hall.
Qed.

(** ** Header slots *)

(** The bytes of a slot, and the slot they are. *)
Definition slot_range (file : list Z) (i : nat) : list Z :=
  take kStoreHeaderSlotBytes (drop (i * kStoreHeaderSlotBytes) file).

Definition slot_at (file : list Z) (i : nat) : option HeaderSlot := parse_slot (slot_range file i).

Definition other_slot (i : nat) : nat := match i with O => 1%nat | _ => 0%nat end.

Lemma length_slot_bytes g rc clean c o : length (slot_bytes g rc clean c o) = kStoreHeaderSlotBytes.
Proof. done. Qed.

Lemma slot_body_ok g rc clean c o : bytes_ok (slot_body g rc clean c o).
Proof.
  unfold slot_body, put_i64, put_u32, put_u64.
  repeat apply Forall_app_2; try apply le_bytes_ok. repeat constructor; lia.
Qed.

Lemma slot_bytes_ok g rc clean c o : bytes_ok (slot_bytes g rc clean c o).
Proof.
  unfold slot_bytes. apply Forall_app_2; [apply slot_body_ok |].
  apply Forall_app_2; apply le_bytes_ok.
Qed.

(** A slot reads back as it was written. *)
Lemma parse_slot_bytes g rc clean c o :
  u_ok 64 g -> u_ok 32 rc -> i64_ok (unix_nanos c) -> i64_ok (unix_nanos o) ->
  parse_slot (slot_bytes g rc clean c o) =
    Some (mk_slot kStoreFormatVersion (if clean then kFlagCleanShutdown else 0) (unix_nanos c)
            (unix_nanos o) rc g).
Proof.
  intros Hg Hrc Hc Ho. set (body := slot_body g rc clean c o).
  pose proof (crc32c_ok body (slot_body_ok g rc clean c o)) as Hb.
  unfold parse_slot. rewrite length_slot_bytes, Nat.eqb_refl.
  change (take (length kMagic) (slot_bytes g rc clean c o)) with kMagic.
  change (take 56 (slot_bytes g rc clean c o)) with body.
  change (field 12 4 (slot_bytes g rc clean c o)) with (Z.of_nat kStoreHeaderSlotBytes).
  change (field 16 4 (slot_bytes g rc clean c o)) with kEndianMarker.
  change (field 56 4 (slot_bytes g rc clean c o)) with (le_value (le_bytes 4 (crc32c body))).
  change (field 8 4 (slot_bytes g rc clean c o)) with kStoreFormatVersion.
  change (field 20 4 (slot_bytes g rc clean c o)) with (le_value (le_bytes 4 (if clean then kFlagCleanShutdown else 0))).
  change (field 24 8 (slot_bytes g rc clean c o)) with (le_value (le_bytes 8 (wrap_u 64 (unix_nanos c)))).
  change (field 32 8 (slot_bytes g rc clean c o)) with (le_value (le_bytes 8 (wrap_u 64 (unix_nanos o)))).
  change (field 40 4 (slot_bytes g rc clean c o)) with (le_value (le_bytes 4 rc)).
  change (field 48 8 (slot_bytes g rc clean c o)) with (le_value (le_bytes 8 g)).
  rewrite !le_value_le_bytes_small by (done || (apply (wrap_u_range 64); lia) || by destruct clean).
  rewrite !Z.eqb_refl, bool_decide_eq_true_2 by done. cbn [negb].
  by rewrite !wrap_i64_wrap_u.
Qed.

Lemma read_header_slot_run w path file position i :
  read_header_slot path i (holding w path file position) =
    (Ok (slot_at file i), holding w path file (i * kStoreHeaderSlotBytes + length (slot_range file i))).
Proof. unfold read_header_slot. io_step. cbn [negb]. by io_step. Qed.

(** The file with a slot written. *)
Definition with_slot (file : list Z) (i : nat) (slot : list Z) : list Z :=
  splice file (i * kStoreHeaderSlotBytes) slot.

Lemma write_slot_run w path file position i g rc clean c o :
  write_slot path i g rc clean c o (holding w path file position) =
    (tt, holding w path (with_slot file i (slot_bytes g rc clean c o))
           (i * kStoreHeaderSlotBytes + kStoreHeaderSlotBytes)).
Proof. unfold write_slot. io_step. by io_step. Qed.

Lemma write_header_slot_run w path file position i g rc clean c o :
  write_header_slot path i g rc clean c o (holding w path file position) =
    (ok, holding w path (with_slot file i (slot_bytes g rc clean c o))
           (i * kStoreHeaderSlotBytes + kStoreHeaderSlotBytes)).
Proof. unfold write_header_slot. erewrite bind_run by apply write_slot_run. by io_step. Qed.

Section WithSlot.
Context (file slot : list Z) (i : nat).
Hypotheses (Hfile : (kStoreHeaderBytes <= length file)%nat) (Hslot : length slot = kStoreHeaderSlotBytes)
  (Hi : (i <= 1)%nat).

Lemma with_slot_app :
  with_slot file i slot =
    take (i * kStoreHeaderSlotBytes) file ++ slot ++ drop (i * kStoreHeaderSlotBytes + kStoreHeaderSlotBytes) file.
Proof.
  unfold with_slot. rewrite splice_within; [by rewrite Hslot |].
  rewrite Hslot. unfold kStoreHeaderBytes, kStoreHeaderSlotBytes in *. lia.
Qed.

Lemma length_with_slot : length (with_slot file i slot) = length file.
Proof.
  unfold with_slot. apply length_splice. rewrite Hslot.
  unfold kStoreHeaderBytes, kStoreHeaderSlotBytes in *. lia.
Qed.

Lemma with_slot_records : drop kStoreHeaderBytes (with_slot file i slot) = drop kStoreHeaderBytes file.
Proof.
  rewrite with_slot_app, app_assoc, drop_app_ge, drop_drop; rewrite length_app, length_take, Hslot;
    unfold kStoreHeaderBytes, kStoreHeaderSlotBytes in *; [f_equal |]; lia.
Qed.

Lemma with_slot_same : slot_range (with_slot file i slot) i = slot.
Proof.
  unfold slot_range. rewrite with_slot_app, drop_app_length', <- Hslot; [by rewrite take_app_length |].
  rewrite length_take. unfold kStoreHeaderBytes, kStoreHeaderSlotBytes in *. lia.
Qed.

Lemma with_slot_other : slot_range (with_slot file i slot) (other_slot i) = slot_range file (other_slot i).
Proof.
  unfold slot_range. rewrite with_slot_app.
  destruct i as [|[|]]; [| | lia]; cbn [other_slot Nat.mul Nat.add]; unfold kStoreHeaderBytes, kStoreHeaderSlotBytes in *.
  - rewrite take_0. cbn [app]. rewrite drop_app_length' by done. done.
  - rewrite !drop_0. rewrite take_app_le by (rewrite length_take; lia). by rewrite take_take.
Qed.

Lemma with_slot_ok : bytes_ok file -> bytes_ok slot -> bytes_ok (with_slot file i slot).
Proof.
  intros Hf Hs. rewrite with_slot_app. apply Forall_app_2; [by apply Forall_take |].
  apply Forall_app_2; [done | by apply Forall_drop].
Qed.
End WithSlot.

(** ** Opening *)

Lemma bind_if {A B} (c : bool) (m m' : IO A) (k : A -> IO B) u :
  io_bind (if c then m else m') k u = if c then io_bind m k u else io_bind m' k u.
Proof. by destruct c. Qed.

(** The report of an opened store before its records are counted. *)
Definition opening_report (file : list Z) (chosen : HeaderSlot) (now : TimePoint) : RecoveryReport :=
  with_incarnation (report_opened (slot_at file 0) chosen now (wrap_u 32 (hs_restart_count chosen + 1))
    (wrap_u 64 (hs_generation chosen + 1))).

(** The file with the header of a new incarnation. *)
Definition restarted (file : list Z) (chosen : HeaderSlot) (i : nat) (now : TimePoint) : list Z :=
  with_slot file (other_slot i)
    (slot_bytes (wrap_u 64 (hs_generation chosen + 1)) (wrap_u 32 (hs_restart_count chosen + 1)) false
       (from_unix_nanos (hs_created chosen)) now).

(** The store a file opens as, by its records and what follows them. *)
Definition opened_store (path : string) (options : StoreOptions) (now : TimePoint) (file : list Z)
    (chosen : HeaderSlot) (i : nat) (records : list StoredRecord) (tail : list Z) : PersistentStore :=
  let size := Z.of_nat (length file - length tail) in
  let report := opening_report file chosen now in
  mk_store path options true
    (with_totals (Z.of_nat (length records)) size
       (if (length tail =? 0)%nat then report else report_tail size (tail_detail tail) report))
    (Z.of_nat (length records)) size (Z.of_nat (length records) + 1) (other_slot i).

Lemma open_header_run path options now w file position chosen i :
  so_read_only options = false -> choose_slot (slot_at file 0) (slot_at file 1) = Some (chosen, i) ->
  hs_format_version chosen = kStoreFormatVersion ->
  exists position',
    open_header path options now (holding w path file position) =
      (Ok (report_opened (slot_at file 0) chosen now (wrap_u 32 (hs_restart_count chosen + 1))
             (wrap_u 64 (hs_generation chosen + 1)), other_slot i),
       holding w path (restarted file chosen i now) position').
Proof.
  intros Hrw Hc Hver. unfold open_header, io_try.
  erewrite bind_run by apply read_header_slot_run. cbv beta iota.
  erewrite bind_run by apply read_header_slot_run. cbv beta iota.
  rewrite Hc, Hver, Z.eqb_refl, Hrw. cbn [negb].
  erewrite bind_run by apply write_header_slot_run. by eexists.
Qed.

Lemma store_open_run path options now w file position chosen i records tail :
  limits_validate (so_limits options) = ok -> is_set now = true -> so_read_only options = false ->
  bytes_ok file -> (kStoreHeaderBytes <= length file)%nat ->
  choose_slot (slot_at file 0) (slot_at file 1) = Some (chosen, i) ->
  hs_format_version chosen = kStoreFormatVersion ->
  parse_all (so_limits options) (drop kStoreHeaderBytes file) = (records, tail) ->
  Z.of_nat (length records) <= max_store_records (so_limits options) ->
  exists position',
    store_open path options now (holding w path file position) =
      (Ok (opened_store path options now file chosen i records tail),
       holding w path (take (length file - length tail) (restarted file chosen i now)) position').
Proof.
  intros Hlim Hnow Hrw Hb Hl Hc Hver Hp Hmax.
  assert (i <= 1)%nat as Hi.
  { unfold choose_slot in Hc. destruct (slot_at file 0), (slot_at file 1); try discriminate;
      [destruct (_ <=? _) in Hc | |]; injection Hc as <- <-; lia. }
  set (file' := restarted file chosen i now).
  assert (length file' = length file) as Hl' by (apply length_with_slot; [done | done | destruct i; simpl; lia]).
  assert (drop kStoreHeaderBytes file' = drop kStoreHeaderBytes file) as Hd
    by (apply with_slot_records; [done | done | destruct i; simpl; lia]).
  assert (bytes_ok file') as Hb'
    by (apply with_slot_ok; [done | done | destruct i; simpl; lia | done | apply slot_bytes_ok]).
  unfold store_open. rewrite Hlim, Hnow, Hrw. cbn [ok negb].
  io_step. rewrite andb_false_l. io_step. cbn [negb]. io_step.
  rewrite (proj2 (Nat.ltb_ge _ _)) by done. unfold io_try.
  destruct (open_header_run path options now w file 0 chosen i Hrw Hc Hver) as [p1 Ho].
  erewrite bind_run by apply Ho. cbv beta iota. cbn [fst snd].
  destruct (scan_run (so_limits options) true (opening_report file chosen now) w path file' p1)
    as [p2 Hs]; [done | by rewrite Hl' | lia | done |].
  erewrite bind_run by apply Hs. cbv beta. unfold scan_result, scan_keeps. rewrite Hd, Hp, Z.add_0_l.
  rewrite (proj2 (Z.ltb_ge _ _)) by done. cbn [andb negb]. rewrite Hl'.
  assert (length (take (length file - length tail) file') = (length file - length tail)%nat) as Hlt
    by (rewrite length_take, Hl'; lia).
  pose proof (parse_all_tail (so_limits options) (drop kStoreHeaderBytes file)) as [Htail _].
  rewrite Hp, length_drop in Htail. cbn [snd] in Htail.
  rewrite length_drop.
  replace (Z.of_nat kStoreHeaderBytes + Z.of_nat (length file - kStoreHeaderBytes - length tail))
    with (Z.of_nat (length file - length tail)) by lia.
  unfold opened_store.
  destruct (Nat.eqb_spec (length tail) 0) as [E|E]; cbn [fst snd];
    io_step; cbn [negb]; io_step; rewrite Hlt, (proj2 (Z.ltb_ge _ _)) by lia; by eexists.
Qed.

(** ** Appending *)

Lemma write_record_run w path file position header payload :
  length header = kStoreRecordHeaderBytes ->
  exists position',
    write_record path header payload (holding w path file position) =
      (ok, holding w path (file ++ header ++ payload) position').
Proof.
  intros Hh. unfold write_record. io_step. cbn [negb]. io_step. rewrite splice_end, Hh, Nat.eqb_refl. cbn [negb].
  destruct payload as [|b payload].
  - change (0 <? length (@nil Z))%nat with false. cbv iota. io_step.
    change (0 =? length (@nil Z))%nat with true. cbn [negb]. io_step. rewrite app_nil_r. by eexists.
  - rewrite (proj2 (Nat.ltb_lt _ _)) by (simpl; lia). io_step. rewrite Nat.eqb_refl. cbn [negb]. io_step.
    eexists. unfold io_ret. f_equal. f_equal.
    replace (length file + kStoreRecordHeaderBytes)%nat with (length (file ++ header))
      by (by rewrite length_app, Hh).
    by rewrite splice_end, app_assoc.
Qed.

(** The record an append adds. *)
Definition next_stored (s : PersistentStore) (type : RecordType) (payload : list Z) : StoredRecord :=
  mk_stored type (ps_next_sequence s) payload.

Lemma append_run s type payload w file position :
  append_check s payload = ok ->
  exists position',
    append s type payload (holding w (ps_path s) file position) =
      ((ok, with_counts s (ps_record_count s + 1)
              (ps_size_bytes s + Z.of_nat (length (record_bytes (next_stored s type payload))))
              (ps_next_sequence s + 1)),
       holding w (ps_path s) (file ++ record_bytes (next_stored s type payload)) position').
Proof.
  intros Hc. unfold append. rewrite Hc. cbn [ok].
  destruct (write_record_run w (ps_path s) file position
    (write_record_header (length payload) type (ps_next_sequence s) (crc32c payload)) payload) as [p' Hw];
    [done |].
  erewrite bind_run by apply Hw. cbv beta iota. exists p'. unfold io_ret. f_equal.
  rewrite length_record_bytes. cbn [sr_payload next_stored]. do 2 f_equal. lia.
Qed.

Lemma append_refused s type payload e w :
  append_check s payload = Err e -> append s type payload w = ((Err e, s), w).
Proof. intros Hc. unfold append. by rewrite Hc. Qed.
