(* ===== verification/StoreState.v ===== *)
(** * What a store holds

    The invariant of an open store, its preservation by every operation, and the
    log the store implements. *)

From stdpp Require Import gmap.
From S2P Require Import Prelude Errors Digest Canonical Ids TimeModel Limits Persistence StoreFormat StoreFiles StoreRuns.
#[local] Open Scope Z_scope.
#[local] Opaque f_seek f_seek_end f_tell f_size f_open f_create f_read f_write f_flush f_truncate f_rename get_file.

(** ** The store as a list of records *)

(** The records are numbered from one. *)
Definition numbered (records : list StoredRecord) : Prop :=
  forall i r, records !! i = Some r -> sr_sequence r = Z.of_nat i + 1.

(** The active slot is valid and newer than the other one. *)
Definition header_ok (file : list Z) (active : nat) (report : RecoveryReport) : Prop :=
  exists slot, (active <= 1)%nat /\ slot_at file active = Some slot /\
    hs_format_version slot = kStoreFormatVersion /\ hs_generation slot = rr_header_generation report /\
    hs_restart_count slot = rr_restart_count report /\ hs_created slot = unix_nanos (rr_created_at report) /\
    u_ok 32 (hs_restart_count slot) /\ i64_ok (hs_created slot) /\ 0 <= hs_generation slot /\
    is_set (rr_opened_at report) = true /\ i64_ok (unix_nanos (rr_opened_at report)) /\
    match slot_at file (other_slot active) with
    | Some old => hs_generation old < hs_generation slot
    | None => True
    end.

(** A file that holds a header and some records, with bytes after them. *)
Definition file_ok (limits : Limits) (file : list Z) (records : list StoredRecord) (tail : list Z) : Prop :=
  bytes_ok file /\ (kStoreHeaderBytes <= length file)%nat /\
  drop kStoreHeaderBytes file = records_wire records ++ tail /\
  Forall (record_ok limits) records /\ Z.of_nat (length records) <= max_store_records limits /\
  numbered records.

(** An open store holds these records. *)
Definition store_holds (w : World) (s : PersistentStore) (records : list StoredRecord) : Prop :=
  w_faults w = [] /\ ps_open s = true /\ so_read_only (ps_options s) = false /\
  limits_validate (so_limits (ps_options s)) = ok /\
  ps_record_count s = Z.of_nat (length records) /\ ps_next_sequence s = Z.of_nat (length records) + 1 /\
  exists file position,
    w_files w !! ps_path s = Some (file, position) /\
    file_ok (so_limits (ps_options s)) file records [] /\ ps_size_bytes s = Z.of_nat (length file) /\
    header_ok file (ps_active_slot s) (ps_recovery s).

Lemma header_ok_choose file active report :
  header_ok file active report ->
  exists slot, slot_at file active = Some slot /\
    choose_slot (slot_at file 0) (slot_at file 1) = Some (slot, active).
Proof.
  intros (slot & Hi & Hs & _ & _ & _ & _ & _ & _ & _ & _ & _ & Hold). exists slot. split; [done |].
  destruct active as [|[|]]; [| | lia]; cbn [other_slot] in Hold; unfold choose_slot; rewrite Hs.
  - destruct (slot_at file 1) as [old|]; [| done]. by rewrite (proj2 (Z.leb_gt _ _)) by lia.
  - destruct (slot_at file 0) as [old|]; [| done]. by rewrite (proj2 (Z.leb_le _ _)) by lia.
Qed.

Lemma records_wire_app rs rs' : records_wire (rs ++ rs') = records_wire rs ++ records_wire rs'.
Proof. unfold records_wire. by rewrite map_app, concat_app. Qed.

Lemma records_wire_one r : records_wire [r] = record_bytes r.
Proof. unfold records_wire. cbn [map concat]. by rewrite app_nil_r. Qed.

Lemma records_wire_cons r rs : records_wire (r :: rs) = record_bytes r ++ records_wire rs.
Proof. done. Qed.

Lemma record_bytes_ok limits r : record_ok limits r -> bytes_ok (record_bytes r).
Proof.
  intros (Hb & _). apply Forall_app_2; [| done]. apply Forall_app_2; [apply record_header_body_ok |].
  apply Forall_app_2; apply le_bytes_ok.
Qed.

Lemma records_wire_ok limits rs : Forall (record_ok limits) rs -> bytes_ok (records_wire rs).
Proof.
  induction 1 as [|r rs Hr _ IH]; [constructor |]. rewrite records_wire_cons.
  apply Forall_app_2; [by eapply record_bytes_ok | done].
Qed.

Lemma numbered_snoc records r :
  numbered records -> sr_sequence r = Z.of_nat (length records) + 1 -> numbered (records ++ [r]).
Proof.
  intros Hn Hr i x. rewrite lookup_app_Some. intros [H | [Hi H]]; [by apply Hn |].
  apply list_lookup_singleton_Some in H as [? <-]. rewrite Hr. lia.
Qed.

(** The slots do not depend on what follows the header. *)
Lemma slot_at_app file rest i :
  (kStoreHeaderBytes <= length file)%nat -> (i <= 1)%nat -> slot_at (file ++ rest) i = slot_at file i.
Proof.
  intros Hl Hi. unfold slot_at, slot_range. f_equal.
  unfold kStoreHeaderBytes, kStoreHeaderSlotBytes in *.
  rewrite drop_app_le by lia. rewrite take_app_le by (rewrite length_drop; lia). done.
Qed.

Lemma other_slot_le i : (other_slot i <= 1)%nat.
Proof. destruct i; simpl; lia. Qed.

Lemma header_ok_app file rest active report :
  (kStoreHeaderBytes <= length file)%nat -> header_ok file active report ->
  header_ok (file ++ rest) active report.
Proof.
  intros Hl (slot & Hi & H). exists slot. split; [done |].
  rewrite !slot_at_app by (done || apply other_slot_le). done.
Qed.

Lemma append_check_ok s payload :
  append_check s payload = ok ->
  Z.of_nat (length payload) <= max_store_record_bytes (so_limits (ps_options s)) /\
  ps_record_count s + 1 <= max_store_records (so_limits (ps_options s)) /\
  ps_size_bytes s + Z.of_nat kStoreRecordHeaderBytes + Z.of_nat (length payload) <=
    max_store_bytes (so_limits (ps_options s)).
Proof.
  unfold append_check. intros H.
  repeat match type of H with (if ?c then _ else _) = _ => destruct c eqn:?; [done |] end.
  bool_prop. lia.
Qed.

Lemma store_holds_append w s records type payload :
  store_holds w s records -> bytes_ok payload -> append_check s payload = ok ->
  exists s' w', append s type payload w = ((ok, s'), w') /\
    store_holds w' s' (records ++ [next_stored s type payload]).
Proof.
  intros (Hcalm & Hopen & Hrw & Hlim & Hcount & Hnext & file & position & Hfile & Hok & Hsize & Hhead) Hb Hc.
  destruct Hok as (Hfb & Hfl & Hd & Hrs & Hmax & Hnum). rewrite app_nil_r in Hd.
  destruct (append_check_ok _ _ Hc) as (Hp1 & Hp2 & _).
  pose proof (limits_validate_store_records _ Hlim) as Hceil.
  set (r := next_stored s type payload) in *.
  assert (record_ok (so_limits (ps_options s)) r) as Hr.
  { split_and!; [done | done |]. unfold u_ok. cbn [sr_sequence r next_stored]. lia. }
  rewrite (holding_world w _ _ _ Hcalm Hfile).
  destruct (append_run s type payload w file position Hc) as [p' ->].
  do 2 eexists. split; [done |]. unfold store_holds. cbn [ps_open ps_options ps_record_count ps_next_sequence
    ps_size_bytes ps_active_slot ps_recovery ps_path with_counts w_faults holding].
  rewrite length_app. cbn [length]. split_and!; [done | done | done | done | lia | lia |].
  exists (file ++ record_bytes r), p'. rewrite holding_lookup. split_and!; [done | | | by apply header_ok_app].
  - split_and!.
    + apply Forall_app_2; [done | by eapply record_bytes_ok].
    + rewrite length_app. lia.
    + rewrite drop_app_le by done. by rewrite Hd, records_wire_app, records_wire_one, app_nil_r.
    + apply Forall_app_2; [done | by constructor].
    + rewrite length_app. simpl. lia.
    + apply numbered_snoc; [done |]. cbn. lia.
  - rewrite length_app. fold r. lia.
Qed.

(** Reading a file whose bytes are all records. *)
Lemma read_all_run s w file position records :
  ps_open s = true -> bytes_ok file ->
  parse_all (so_limits (ps_options s)) (drop kStoreHeaderBytes file) = (records, []) ->
  Z.of_nat (length records) <= max_store_records (so_limits (ps_options s)) ->
  exists position',
    read_all s (holding w (ps_path s) file position) = (Ok records, holding w (ps_path s) file position').
Proof.
  intros Hopen Hb Hp Hmax. unfold read_all. rewrite Hopen. cbn [negb].
  io_step. cbn [negb]. io_step. cbn [fst].
  destruct (read_loop_run (so_limits (ps_options s)) w (ps_path s) file (S (length file)) kStoreHeaderBytes [])
    as (p' & result & Hread & Hall); [done | rewrite length_drop; lia | simpl; lia |].
  rewrite Hp in Hall. destruct Hall as [Hall _]. rewrite app_nil_l in Hall. rewrite (Hall eq_refl Hmax) in Hread.
  unfold io_try. erewrite bind_run by apply Hread. cbv beta iota. io_step. cbn [negb]. by eexists.
Qed.

(** Reading a store changes nothing and returns what it holds. *)
Lemma store_holds_read w s records :
  store_holds w s records ->
  exists w', read_all s w = (Ok records, w') /\ store_holds w' s records.
Proof.
  intros (Hcalm & Hopen & Hrw & Hlim & Hcount & Hnext & file & position & Hfile & Hok & Hsize & Hhead).
  pose proof Hok as (Hfb & Hfl & Hd & Hrs & Hmax & Hnum).
  pose proof (limits_validate_store_record_bytes _ Hlim) as Hrb.
  destruct (read_all_run s w file position records Hopen Hfb) as [p' Hread]; [| done |].
  { rewrite Hd, parse_all_wire by done. by rewrite app_nil_r. }
  rewrite (holding_world w _ _ _ Hcalm Hfile). eexists. split; [exact Hread |].
  unfold store_holds. split_and!; try done. exists file. eexists. rewrite holding_lookup. by split_and!.
Qed.

(** A slot of the next generation, written over the older slot, becomes the active one. *)
Lemma next_slot_header_ok file active report rc clean opened report' :
  header_ok file active report -> (kStoreHeaderBytes <= length file)%nat ->
  rr_header_generation report + 1 < 2 ^ 64 -> u_ok 32 rc -> i64_ok (unix_nanos opened) ->
  rr_header_generation report' = rr_header_generation report + 1 -> rr_restart_count report' = rc ->
  rr_created_at report' = rr_created_at report ->
  is_set (rr_opened_at report') = true -> i64_ok (unix_nanos (rr_opened_at report')) ->
  header_ok (with_slot file (other_slot active)
      (slot_bytes (rr_header_generation report + 1) rc clean (rr_created_at report) opened))
    (other_slot active) report'.
Proof.
  intros (slot & Hi & Hs & Hv & Hg & Hrc & Hc & Hrcok & Hcok & Hg0 & _) Hl Hgen Hrcok' Ho Eg Er Ec Es Ei.
  exists (mk_slot kStoreFormatVersion (if clean then kFlagCleanShutdown else 0) (unix_nanos (rr_created_at report))
    (unix_nanos opened) rc (rr_header_generation report + 1)).
  cbn [hs_format_version hs_generation hs_restart_count hs_created].
  set (bytes := slot_bytes _ _ _ _ _).
  assert (slot_range (with_slot file (other_slot active) bytes) active = slot_range file active) as Hold.
  { replace active with (other_slot (other_slot active)) at 2 3 by (destruct active as [|[|]]; [done | done | lia]).
    apply with_slot_other; [done | done | apply other_slot_le]. }
  assert (other_slot (other_slot active) = active) as Hoo by (destruct active as [|[|]]; [done | done | lia]).
  split_and!; try done; try apply other_slot_le; try lia.
  - unfold slot_at. rewrite with_slot_same by (done || apply other_slot_le).
    apply parse_slot_bytes; [unfold u_ok; lia | done | by rewrite <- Hc | done].
  - by rewrite Ec.
  - by rewrite <- Hc.
  - rewrite Hoo. unfold slot_at in *. rewrite Hold, Hs. lia.
Qed.

(** A first slot, written over zeros, is the active one. *)
Lemma first_slot_header_ok rest rc created opened report :
  0 <= rr_header_generation report < 2 ^ 64 -> rr_restart_count report = rc -> u_ok 32 rc ->
  rr_created_at report = created -> i64_ok (unix_nanos created) -> i64_ok (unix_nanos opened) ->
  is_set (rr_opened_at report) = true -> i64_ok (unix_nanos (rr_opened_at report)) ->
  header_ok (with_slot (replicate kStoreHeaderBytes 0 ++ rest) 0
    (slot_bytes (rr_header_generation report) rc false created opened)) 0 report.
Proof.
  intros Hg Er Hrc Ec Hc Ho Hset Hopened.
  set (base := replicate kStoreHeaderBytes 0 ++ rest). set (bytes := slot_bytes _ _ _ _ _).
  assert (kStoreHeaderBytes <= length base)%nat as Hlb by (unfold base; rewrite length_app, length_replicate; lia).
  assert (slot_at (with_slot base 0 bytes) 0 = Some (mk_slot kStoreFormatVersion 0 (unix_nanos created)
    (unix_nanos opened) rc (rr_header_generation report))) as H0.
  { unfold slot_at. rewrite with_slot_same by (done || lia). by apply parse_slot_bytes. }
  assert (slot_at (with_slot base 0 bytes) 1 = None) as H1.
  { unfold slot_at.
    assert (slot_range (with_slot base 0 bytes) 1 = slot_range base 1) as ->
      by (apply (with_slot_other base bytes 0); [done | done | lia]).
    unfold slot_range, base, kStoreHeaderSlotBytes.
    rewrite drop_app_le, take_app_le by (rewrite ?length_drop, length_replicate; unfold kStoreHeaderBytes; lia).
    by vm_compute. }
  clearbody base bytes.
  eexists. cbn [other_slot]. rewrite H0, H1. split_and!; try reflexivity; try done; try lia.
  - by rewrite Ec.
  - cbn [hs_generation]. lia.
Qed.

(** What recovery keeps of a file: the header and the records. *)
Lemma recovered_file_ok limits file records tail chosen active now :
  file_ok limits file records tail ->
  let kept := take (length file - length tail) (restarted file chosen active now) in
  file_ok limits kept records [] /\ length kept = (length file - length tail)%nat /\
  forall a u, header_ok (restarted file chosen active now) a u -> header_ok kept a u.
Proof.
  intros (Hfb & Hfl & Hd & Hrs & Hmax & Hnum). cbv zeta.
  set (file' := restarted file chosen active now). set (kept := take (length file - length tail) file').
  assert (length file' = length file) as Hl' by (apply length_with_slot; [done | done | apply other_slot_le]).
  assert (length file = (kStoreHeaderBytes + length (records_wire records) + length tail)%nat) as Hlen.
  { apply (f_equal length) in Hd. rewrite length_drop, length_app in Hd. lia. }
  assert (length kept = (length file - length tail)%nat) as Hlk by (unfold kept; rewrite length_take; lia).
  assert (drop kStoreHeaderBytes kept = records_wire records) as Hkept.
  { unfold kept. rewrite skipn_firstn_comm.
    assert (drop kStoreHeaderBytes file' = drop kStoreHeaderBytes file) as ->
      by (apply with_slot_records; [done | done | apply other_slot_le]).
    rewrite Hd. replace (length file - length tail - kStoreHeaderBytes)%nat with (length (records_wire records)) by lia.
    apply take_app_length. }
  split_and!; [| done |].
  - split_and!; try done; [| lia | by rewrite app_nil_r].
    apply Forall_take. apply with_slot_ok; [done | done | apply other_slot_le | done | apply slot_bytes_ok].
  - intros a u (slot & Hi & Hu). exists slot. split; [done |].
    rewrite <- (take_drop (length file - length tail) file') in Hu. fold kept in Hu.
    by rewrite !slot_at_app in Hu by (lia || apply other_slot_le).
Qed.

(** Reopening a file that holds records and perhaps a torn one. *)
Lemma reopen_holds w path options now file position records tail active report :
  w_faults w = [] -> w_files w !! path = Some (file, position) ->
  limits_validate (so_limits options) = ok -> so_read_only options = false ->
  is_set now = true -> i64_ok (unix_nanos now) ->
  file_ok (so_limits options) file records tail -> parse_all (so_limits options) tail = ([], tail) ->
  header_ok file active report -> rr_header_generation report + 1 < 2 ^ 64 ->
  exists s' w', store_open path options now w = (Ok s', w') /\ store_holds w' s' records /\
    ps_path s' = path /\ ps_options s' = options /\ ps_active_slot s' = other_slot active /\
    rr_header_generation (ps_recovery s') = rr_header_generation report + 1 /\
    rr_corrupt_tail_truncated (ps_recovery s') = negb (length tail =? 0)%nat.
Proof.
  intros Hcalm Hfile Hlim Hrw Hset Hnow Hok Htail Hhead Hgen.
  pose proof Hok as (Hfb & Hfl & Hd & Hrs & Hmax & Hnum).
  pose proof (limits_validate_store_record_bytes _ Hlim) as Hrb.
  pose proof (header_ok_choose _ _ _ Hhead) as (chosen & Hch & Hchoose).
  assert (hs_format_version chosen = kStoreFormatVersion /\ hs_generation chosen = rr_header_generation report /\
    0 <= hs_generation chosen /\ hs_created chosen = unix_nanos (rr_created_at report)) as (Hver & Hg & Hg0 & Hcr).
  { destruct Hhead as (slot & _ & Hs & ? & ? & _ & ? & _ & _ & ? & _). rewrite Hs in Hch. by injection Hch as <-. }
  assert (parse_all (so_limits options) (drop kStoreHeaderBytes file) = (records, tail)) as Hp.
  { rewrite Hd, parse_all_wire by done. rewrite Htail. cbn [fst snd]. by rewrite app_nil_r. }
  destruct (store_open_run path options now w file position chosen active records tail) as [p' Hopen]; try done.
  rewrite (holding_world w _ _ _ Hcalm Hfile), Hopen. do 2 eexists. split; [done |].
  assert (wrap_u 64 (hs_generation chosen + 1) = rr_header_generation report + 1) as Hw.
  { rewrite Hg. apply wrap_u_small; [lia |]. unfold u_ok. lia. }
  destruct (recovered_file_ok _ _ _ _ chosen active now Hok) as (Hkept & Hlk & Hcut).
  split_and!; try done; try (unfold opened_store; by destruct (length tail =? 0)%nat).
  unfold store_holds, opened_store. cbn [w_faults holding ps_open ps_options ps_record_count ps_next_sequence
    ps_path ps_active_slot ps_size_bytes ps_recovery]. split_and!; try done.
  do 2 eexists. rewrite holding_lookup. split_and!; [done | done | by rewrite Hlk |].
  apply Hcut. unfold restarted. rewrite Hw.
  replace (from_unix_nanos (hs_created chosen)) with (rr_created_at report)
    by (rewrite Hcr; by destruct (rr_created_at report)).
  apply next_slot_header_ok; try done; try (destruct (length tail =? 0)%nat; try done; fail).
  - apply wrap_u_range. lia.
  - destruct (length tail =? 0)%nat; cbn; rewrite Hcr; by destruct (rr_created_at report).
Qed.

(** ** Clean shutdown *)

Lemma store_holds_mark_clean w s records now :
  store_holds w s records -> i64_ok (unix_nanos now) ->
  rr_header_generation (ps_recovery s) + 1 < 2 ^ 64 ->
  exists s' w', mark_clean s now w = ((ok, s'), w') /\ store_holds w' s' records /\
    ps_path s' = ps_path s /\ ps_options s' = ps_options s /\
    rr_header_generation (ps_recovery s') = rr_header_generation (ps_recovery s) + 1.
Proof.
  intros (Hcalm & Hopen & Hrw & Hlim & Hcount & Hnext & file & position & Hfile & Hok & Hsize & Hhead) Hnow Hgen.
  pose proof Hok as (Hfb & Hfl & Hd & Hrs & Hmax & Hnum).
  assert (wrap_u 64 (rr_header_generation (ps_recovery s) + 1) = rr_header_generation (ps_recovery s) + 1) as Hw.
  { apply wrap_u_small; [lia |]. destruct Hhead as (slot & _ & _ & _ & ? & _ & _ & _ & _ & ? & _). unfold u_ok. lia. }
  rewrite (holding_world w _ _ _ Hcalm Hfile). unfold mark_clean. rewrite Hrw, Hopen. cbn [negb].
  erewrite bind_run by apply write_header_slot_run. cbv beta iota. cbn [ok].
  fold (other_slot (ps_active_slot s)). rewrite Hw.
  do 2 eexists. split; [done |]. cbn [ps_path ps_options ps_recovery with_generation rr_header_generation].
  split_and!; try done. unfold store_holds. cbn [w_faults holding ps_open ps_options ps_record_count ps_next_sequence
    ps_path ps_active_slot ps_size_bytes ps_recovery]. split_and!; try done.
  do 2 eexists. rewrite holding_lookup. split_and!; [done | | |].
  - split_and!; try done.
    + apply with_slot_ok; [done | done | apply other_slot_le | done | apply slot_bytes_ok].
    + rewrite length_with_slot by (done || apply other_slot_le). done.
    + by rewrite with_slot_records by (done || apply other_slot_le).
  - by rewrite length_with_slot by (done || apply other_slot_le).
  - destruct Hhead as (slot & Hi & Hs & Hv & Hg & Hrc & Hc & Hrcok & Hcok & Hg0 & Hset & Ho & Hold).
    apply next_slot_header_ok; try done.
    + by exists slot.
    + by rewrite <- Hrc.
Qed.

(** ** Creation *)

(** Opening a path without a file creates an empty store. *)
Lemma store_create w path options now :
  w_faults w = [] -> w_files w !! path = None -> limits_validate (so_limits options) = ok ->
  0 <= max_store_records (so_limits options) ->
  so_read_only options = false -> is_set now = true -> i64_ok (unix_nanos now) ->
  exists s w', store_open path options now w = (Ok s, w') /\ store_holds w' s [] /\
    ps_path s = path /\ ps_options s = options /\ rr_header_generation (ps_recovery s) = 1 /\
    rr_created (ps_recovery s) = true.
Proof.
  intros Hcalm Hfile Hlim Hmax Hrw Hset Hnow. unfold store_open. rewrite Hlim, Hset, Hrw. cbn [ok negb].
  erewrite bind_run by (by apply f_open_missing). cbv beta iota. cbn [andb negb].
  erewrite bind_run by (by apply f_create_run). cbv beta iota. cbn [negb]. io_step.
  change (length (@nil Z) <? kStoreHeaderBytes)%nat with true. cbv iota. unfold io_try.
  set (header := with_slot (replicate kStoreHeaderBytes 0) 0 (slot_bytes 1 0 false now now)).
  assert (exists p, create_header path options now (holding w path [] 0) =
    (Ok (report_created now, 0%nat), holding w path header p)) as [p Hc].
  { unfold create_header. rewrite Hrw. io_step. cbn [negb]. io_step. rewrite length_replicate, Nat.eqb_refl. cbn [negb].
    unfold io_try. erewrite bind_run by apply write_header_slot_run. cbv beta iota. cbn [ok]. eexists. done. }
  erewrite bind_run by apply Hc. cbv beta iota. cbn [fst snd].
  assert (length header = kStoreHeaderBytes) as Hlen
    by (apply (length_with_slot (replicate kStoreHeaderBytes 0)); [by rewrite length_replicate | done | lia]).
  assert (drop kStoreHeaderBytes header = []) as Hd by (apply drop_ge; lia).
  assert (bytes_ok header) as Hb.
  { apply with_slot_ok; [by rewrite length_replicate | done | lia | | apply slot_bytes_ok].
    apply Forall_replicate. unfold byte_ok. lia. }
  destruct (scan_run (so_limits options) true (with_incarnation (report_created now)) w path header p)
    as [p2 Hs]; [done | lia | done | done |].
  erewrite bind_run by apply Hs. cbv beta. unfold scan_result, scan_keeps. rewrite Hd.
  assert (parse_all (so_limits options) [] = ([], [])) as -> by done.
  change (0 + Z.of_nat (length (@nil StoredRecord))) with 0. change (Z.of_nat (length (@nil StoredRecord))) with 0.
  rewrite (proj2 (Z.ltb_ge _ _)) by lia. cbn [andb negb length Nat.eqb fst snd].
  rewrite Nat.sub_0_r, take_ge by lia. io_step. cbn [negb]. io_step.
  rewrite (proj2 (Z.ltb_ge _ _)) by lia. do 2 eexists. split; [done |]. split_and!; try done.
  unfold store_holds. cbn [w_faults holding ps_open ps_options ps_record_count ps_next_sequence
    ps_path ps_active_slot ps_size_bytes ps_recovery]. split_and!; try done.
  do 2 eexists. rewrite holding_lookup. split_and!; [done | | done |].
  - by split_and!.
  - match goal with |- header_ok _ _ ?r => set (report := r) end.
    pose proof (first_slot_header_ok [] 0 now now report) as Hfirst.
    rewrite app_nil_r in Hfirst. apply Hfirst; done.
Qed.

(** ** Compaction *)

(** The records as compaction numbers them. *)
Fixpoint renumber (written : Z) (records : list StoredRecord) : list StoredRecord :=
  match records with
  | [] => []
  | r :: records => mk_stored (sr_type r) (written + 1) (sr_payload r) :: renumber (written + 1) records
  end.

Lemma length_renumber n rs : length (renumber n rs) = length rs.
Proof. revert n. induction rs as [|r rs IH]; intros n; [done |]. cbn. by rewrite IH. Qed.

Lemma renumber_numbered rs : numbered (renumber 0 rs).
Proof.
  assert (forall n i r, renumber n rs !! i = Some r -> sr_sequence r = n + Z.of_nat i + 1) as H.
  { induction rs as [|x rs IH]; intros n i r; [done |]. destruct i as [|i]; cbn [renumber lookup list_lookup].
    - intros [= <-]. cbn. lia.
    - intros E. apply IH in E. lia. }
  intros i r E. apply H in E. lia.
Qed.

Lemma renumber_ok limits n rs :
  0 <= n -> n + Z.of_nat (length rs) < 2 ^ 64 -> Forall (record_ok limits) rs ->
  Forall (record_ok limits) (renumber n rs).
Proof.
  intros Hn Hmax Hrs. revert n Hn Hmax. induction Hrs as [|r rs (Hb & Hl & _) Hrs IH]; intros n Hn Hmax; constructor.
  - split_and!; [done | done |]. unfold u_ok. cbn in *. lia.
  - apply IH; cbn in *; lia.
Qed.

Lemma rewrite_records_run w path records file written :
  rewrite_records path records written (holding w path file (length file)) =
    (ok, holding w path (file ++ records_wire (renumber written records))
           (length (file ++ records_wire (renumber written records)))).
Proof.
  revert file written. induction records as [|r records IH]; intros file written.
  { cbn. by rewrite app_nil_r. }
  cbn [rewrite_records]. set (header := write_record_header _ _ _ _).
  assert (length header = kStoreRecordHeaderBytes) as Hh by done.
  io_step. rewrite splice_end, Hh, Nat.eqb_refl. cbn [negb].
  assert ((if (0 <? length (sr_payload r))%nat then f_write path (sr_payload r) else io_ret 0%nat)
      (holding w path (file ++ header) (length file + kStoreRecordHeaderBytes)) =
    (length (sr_payload r), holding w path (file ++ header ++ sr_payload r) (length (file ++ header ++ sr_payload r))))
    as Hp.
  { replace (length file + kStoreRecordHeaderBytes)%nat with (length (file ++ header)) by (by rewrite length_app, Hh).
    destruct (sr_payload r) as [|b payload].
    - change (0 <? length (@nil Z))%nat with false. cbv iota. by rewrite app_nil_r.
    - rewrite (proj2 (Nat.ltb_lt _ _)) by (simpl; lia). rewrite f_write_run, splice_end, <- app_assoc.
      by rewrite app_assoc, (length_app (file ++ header)). }
  erewrite bind_run by apply Hp. cbv beta. rewrite Nat.eqb_refl. cbn [negb]. rewrite IH.
  cbn [renumber]. rewrite records_wire_cons. unfold record_bytes. cbn [sr_type sr_sequence sr_payload].
  fold header. by rewrite <- !app_assoc.
Qed.

(** The temporary file: a fresh header and the records, renumbered. *)
Lemma write_compacted_run w temporary report records :
  w_faults w = [] ->
  exists position,
    write_compacted temporary report records w =
      (ok, holding w temporary
             (with_slot (replicate kStoreHeaderBytes 0 ++ records_wire (renumber 0 records)) 0
                (slot_bytes (wrap_u 64 (rr_header_generation report + 1)) (rr_restart_count report) false
                   (rr_created_at report) (rr_opened_at report))) position).
Proof.
  intros Hcalm. unfold write_compacted.
  erewrite bind_run by (by apply f_create_run). cbv beta iota. cbn [negb]. io_step.
  rewrite length_replicate, Nat.eqb_refl. cbn [negb]. unfold io_try.
  assert (splice [] 0 (replicate kStoreHeaderBytes 0) = replicate kStoreHeaderBytes 0) as -> by done.
  change (0 + length (replicate kStoreHeaderBytes 0))%nat with (length (replicate kStoreHeaderBytes 0)).
  erewrite bind_run by apply rewrite_records_run. cbv beta iota. cbn [ok].
  erewrite bind_run by apply write_slot_run. cbv beta. io_step. cbn [negb]. by eexists.
Qed.

Lemma compact_path_ne path : path <> (path +:+ ".compact")%string.
Proof.
  intros E. apply (f_equal String.length) in E. revert E.
  assert (forall a b, String.length (a +:+ b) = (String.length a + String.length b)%nat) as ->.
  { intros a b. induction a as [|c a IH]; [done |]. cbn. by rewrite <- IH. }
  cbn. lia.
Qed.

(** Compaction keeps the newest records, renumbered, in a store of the next incarnation. *)
Lemma store_holds_compact w s records keep :
  store_holds w s records -> rr_header_generation (ps_recovery s) + 2 < 2 ^ 64 ->
  exists s' w', compact s keep w = ((Ok (Nat.min keep (length records)), s'), w') /\
    store_holds w' s' (renumber 0 (drop (length records - Nat.min keep (length records)) records)) /\
    ps_path s' = ps_path s /\ ps_options s' = ps_options s /\
    rr_header_generation (ps_recovery s') = rr_header_generation (ps_recovery s) + 2.
Proof.
  intros Hs Hgen. destruct (store_holds_read w s records Hs) as (w1 & Hread & Hs1).
  destruct Hs1 as (Hcalm & Hopen & Hrw & Hlim & Hcount & Hnext & file & position & Hfile & Hok & Hsize & Hhead).
  destruct Hok as (Hfb & Hfl & Hd & Hrs & Hmax & Hnum).
  pose proof (limits_validate_store_records _ Hlim) as Hceil.
  destruct Hhead as (slot & Hi & Hslot & Hv & Hg & Hrc & Hc & Hrcok & Hcok & Hg0 & Hset & Ho & _).
  assert (wrap_u 64 (rr_header_generation (ps_recovery s) + 1) = rr_header_generation (ps_recovery s) + 1) as Hw
    by (apply wrap_u_small; [lia |]; unfold u_ok; lia).
  unfold compact. rewrite Hrw. erewrite bind_run by apply Hread. cbv beta iota.
  set (kept := drop (length records - Nat.min keep (length records)) records).
  set (tmp := (ps_path s +:+ ".compact")%string).
  assert (length kept <= length records)%nat as Hkl by (unfold kept; rewrite length_drop; lia).
  destruct (write_compacted_run w1 tmp (ps_recovery s) kept Hcalm) as [p1 Hwrite].
  erewrite bind_run by apply Hwrite. cbv beta iota. cbn [ok]. rewrite Hw.
  set (new := with_slot _ _ _).
  erewrite bind_run by (apply f_rename_run; [done | apply holding_lookup]). cbv beta. cbn [negb].
  match goal with |- context [io_bind _ _ ?u] => set (w2 := u) end.
  set (base := replicate kStoreHeaderBytes 0 ++ records_wire (renumber 0 kept)) in *.
  assert (kStoreHeaderBytes <= length base)%nat as Hlb by (unfold base; rewrite length_app, length_replicate; lia).
  set (report := with_generation (ps_recovery s)).
  destruct (reopen_holds w2 (ps_path s) (ps_options s) (rr_opened_at (ps_recovery s)) new p1 (renumber 0 kept) [] 0
    report) as (s' & w' & Hreopen & Hholds & Hpath & Hopts & _ & Hgen' & _); try done.
  - apply lookup_insert_eq.
  - split_and!.
    + apply with_slot_ok; [done | done | lia | | apply slot_bytes_ok]. apply Forall_app_2.
      * apply Forall_replicate. unfold byte_ok. lia.
      * apply records_wire_ok with (so_limits (ps_options s)), renumber_ok; [lia | lia | by apply Forall_drop].
    + unfold new. by rewrite length_with_slot by (done || lia).
    + unfold new. rewrite with_slot_records by (done || lia). unfold base.
      by rewrite drop_app_length', app_nil_r by (by rewrite length_replicate).
    + apply renumber_ok; [lia | lia | by apply Forall_drop].
    + rewrite length_renumber. lia.
    + apply renumber_numbered.
  - assert (rr_header_generation report = rr_header_generation (ps_recovery s) + 1) as Hr by exact Hw.
    unfold new. rewrite <- Hr. apply first_slot_header_ok; try done.
    + rewrite Hr. lia.
    + by rewrite <- Hrc.
    + by rewrite <- Hc.
  - cbn [report with_generation rr_header_generation]. lia.
  - cbn [ps_path ps_options ps_recovery store_close]. erewrite bind_run by apply Hreopen. cbv beta iota.
    exists s', w'. split_and!; try done. rewrite Hgen'. cbn [report with_generation rr_header_generation]. lia.
Qed.

(** ** Torn appends *)

(** Whatever the system does, an append adds a prefix of its record to the file,
    and reports success only when it added all of it. *)
Lemma write_record_any w path file position header payload :
  w_files w !! path = Some (file, position) -> length header = kStoreRecordHeaderBytes ->
  exists status w' k position',
    write_record path header payload w = (status, w') /\ (k <= length (header ++ payload))%nat /\
    w_files w' = <[path := (file ++ take k (header ++ payload), position')]> (w_files w) /\
    (status = ok -> k = length (header ++ payload)).
Proof.
  intros Hf Hh. unfold write_record.
  destruct (f_seek_end_any w path file position Hf) as (b & w1 & Hseek & H1).
  erewrite bind_run by apply Hseek. cbv beta. destruct b; cbn [negb].
  2:{ do 2 eexists. exists 0%nat, position. split; [done |]. split; [lia |].
      rewrite take_0, app_nil_r, H1. split; [by rewrite insert_id |]. done. }
  destruct (f_write_any w1 path file header) as (n & w2 & Hwrite & Hn & H2).
  { rewrite H1. apply lookup_insert_eq. }
  erewrite bind_run by apply Hwrite. cbv beta. rewrite H1, insert_insert_eq in H2.
  destruct (Nat.eqb_spec n kStoreRecordHeaderBytes) as [->|Hne]; cbn [negb].
  2:{ do 2 eexists. exists n. eexists. split; [done |]. rewrite length_app. split; [lia |].
      rewrite H2, take_app_le by lia. split; [done |]. done. }
  rewrite take_ge in H2 by lia.
  assert (exists m w3 position3, (if (0 <? length payload)%nat then f_write path payload else io_ret 0%nat) w2 = (m, w3) /\
    (m <= length payload)%nat /\
    w_files w3 = <[path := (file ++ take (length header + m) (header ++ payload), position3)]> (w_files w))
    as (m & w3 & p3 & Hpay & Hm & H3).
  { setoid_rewrite take_app_add. destruct (0 <? length payload)%nat.
    - destruct (f_write_any w2 path (file ++ header) payload) as (m & w3 & Hw & Hm & H3).
      { rewrite H2, length_app, Hh. apply lookup_insert_eq. }
      exists m, w3. eexists. split; [done |]. split; [done |]. by rewrite H3, H2, insert_insert_eq, <- app_assoc.
    - exists 0%nat, w2. eexists. split; [done |]. split; [lia |]. by rewrite H2, take_0, app_nil_r. }
  erewrite bind_run by apply Hpay. cbv beta.
  destruct (Nat.eqb_spec m (length payload)) as [->|Hne]; cbn [negb].
  2:{ do 2 eexists. exists (length header + m)%nat, p3. split; [done |]. rewrite length_app.
      split; [lia |]. split; [done |]. done. }
  destruct (f_flush_any w3) as (b & w4 & Hflush & H4). erewrite bind_run by apply Hflush. cbv beta.
  exists (if negb b then Err (error IoFailure (io_error "fflush" path)) else ok), w4,
    (length header + length payload)%nat, p3.
  split; [by destruct b |]. rewrite length_app. split; [lia |]. rewrite H4. split; [done |].
  done.
Qed.

(** ** Crashes *)

(** The same files under other faults. *)
Definition with_faults (faults : list (option nat)) (w : World) : World :=
  mk_world (w_files w) faults (w_error w).

(** A file whose last record may be cut short reopens with the records before it,
    or with it too when nothing is missing. *)
Lemma torn_reopens w path options file position records r k active report now :
  w_faults w = [] -> w_files w !! path = Some (file ++ take k (record_bytes r), position) ->
  limits_validate (so_limits options) = ok -> so_read_only options = false ->
  is_set now = true -> i64_ok (unix_nanos now) ->
  file_ok (so_limits options) file records [] -> header_ok file active report ->
  rr_header_generation report + 1 < 2 ^ 64 ->
  record_ok (so_limits options) r -> sr_sequence r = Z.of_nat (length records) + 1 ->
  Z.of_nat (length records) + 1 <= max_store_records (so_limits options) ->
  (k <= length (record_bytes r))%nat ->
  exists s' w', store_open path options now w = (Ok s', w') /\
    store_holds w' s' (if (k =? length (record_bytes r))%nat then records ++ [r] else records) /\
    ps_path s' = path /\ ps_options s' = options /\
    rr_header_generation (ps_recovery s') = rr_header_generation report + 1.
Proof.
  intros Hcalm Hfile Hlim Hrw Hset Hnow (Hfb & Hfl & Hd & Hrs & Hmax & Hnum) Hhead Hgen Hr Hseq Hroom Hk.
  rewrite app_nil_r in Hd. pose proof (limits_validate_store_record_bytes _ Hlim) as Hrb.
  set (file' := file ++ take k (record_bytes r)) in *.
  assert (bytes_ok file' /\ (kStoreHeaderBytes <= length file')%nat /\
    drop kStoreHeaderBytes file' = records_wire records ++ take k (record_bytes r)) as (Hb1 & Hb2 & Hb3).
  { unfold file'. split_and!; [| rewrite length_app; lia | by rewrite drop_app_le, Hd].
    apply Forall_app_2; [done |]. apply Forall_take. by eapply record_bytes_ok. }
  assert (header_ok file' active report) as Hhead' by (by apply header_ok_app).
  destruct (Nat.eqb_spec k (length (record_bytes r))) as [->|Hne].
  - rewrite (take_ge (record_bytes r)) in Hb3 by lia.
    destruct (reopen_holds w path options now file' position (records ++ [r]) [] active report)
      as (s' & w' & ? & ? & ? & ? & _ & ? & _); try done; [| by exists s', w'].
    split_and!; [done | done | | | |].
    + by rewrite Hb3, records_wire_app, records_wire_one, app_nil_r.
    + apply Forall_app_2; [done | by constructor].
    + rewrite length_app. simpl. lia.
    + by apply numbered_snoc.
  - destruct (reopen_holds w path options now file' position records (take k (record_bytes r)) active report)
      as (s' & w' & ? & ? & ? & ? & _ & ? & _); try done; [| by exists s', w'].
    apply parse_all_torn; [done | done | lia].
Qed.

(** After an append that the system may have cut short anywhere, a reopened
    store holds what it held, or that and the new record. *)
Lemma crash_holds w s records type payload faults now status s1 w1 :
  store_holds w s records -> bytes_ok payload -> is_set now = true -> i64_ok (unix_nanos now) ->
  rr_header_generation (ps_recovery s) + 1 < 2 ^ 64 ->
  append s type payload (with_faults faults w) = ((status, s1), w1) ->
  exists s2 w2 records2,
    store_open (ps_path s) (ps_options s) now (with_faults [] w1) = (Ok s2, w2) /\
    store_holds w2 s2 records2 /\ ps_path s2 = ps_path s /\ ps_options s2 = ps_options s /\
    rr_header_generation (ps_recovery s2) = rr_header_generation (ps_recovery s) + 1 /\
    (records2 = records \/ records2 = records ++ [next_stored s type payload]) /\
    (status = ok -> records2 = records ++ [next_stored s type payload]) /\
    (status <> ok -> s1 = s).
Proof.
  intros (Hcalm & Hopen & Hrw & Hlim & Hcount & Hnext & file & position & Hfile & Hok & Hsize & Hhead)
    Hb Hset Hnow Hgen Happ.
  pose proof (limits_validate_store_records _ Hlim) as Hceil.
  set (r := next_stored s type payload). unfold append in Happ.
  destruct (append_check s payload) as [[]|e] eqn:Hc.
  2:{ unfold io_ret in Happ. injection Happ as <- <- <-.
      destruct (reopen_holds (with_faults [] (with_faults faults w)) (ps_path s) (ps_options s) now file position
        records [] (ps_active_slot s) (ps_recovery s)) as (s2 & w2 & ? & ? & ? & ? & _ & ? & _); try done.
      exists s2, w2, records. split_and!; try done. by left. }
  destruct (append_check_ok _ _ Hc) as (Hp1 & Hp2 & _).
  destruct (write_record_any (with_faults faults w) (ps_path s) file position
    (write_record_header (length payload) type (ps_next_sequence s) (crc32c payload)) payload)
    as (st & w' & k & p' & Hw & Hk & Hfiles & Hfull); [done | done |].
  change (write_record_header _ _ _ _ ++ payload) with (record_bytes r) in Hfull, Hfiles, Hk.
  erewrite bind_run in Happ by apply Hw. cbv beta in Happ.
  assert (w1 = w' /\ (status = ok -> st = ok) /\ (status <> ok -> s1 = s)) as (-> & Hst & Hs1).
  { destruct st as [[]|e]; unfold io_ret in Happ; injection Happ as <- <- <-; by split_and!. }
  destruct (torn_reopens (with_faults [] w') (ps_path s) (ps_options s) file p' records r k
    (ps_active_slot s) (ps_recovery s) now) as (s2 & w2 & ? & ? & ? & ? & ?); try done.
  - cbn [w_files with_faults]. rewrite Hfiles. apply lookup_insert_eq.
  - split_and!; [done | done |]. unfold u_ok. cbn [sr_sequence r next_stored]. lia.
  - lia.
  - exists s2, w2. eexists. split; [done |]. split; [done |]. split_and!; try done.
    + destruct (_ =? _)%nat; [by right | by left].
    + intros Ho. by rewrite (Hfull (Hst Ho)), Nat.eqb_refl.
Qed.

(** ** The store as a log *)

(** What can happen to a store: appends, appends during which the system fails
    and the process dies, restarts, clean shutdowns and compactions. *)
Inductive StoreOp : Set :=
  | OpAppend (type : RecordType) (payload : list Z)
  | OpCrash (type : RecordType) (payload : list Z) (faults : list (option nat)) (now : TimePoint)
  | OpReopen (now : TimePoint)
  | OpClean (now : TimePoint)
  | OpCompact (keep : nat).

Definition reopened (s : PersistentStore) (status : Status) (r : Result PersistentStore) :
    Status * PersistentStore :=
  match r with Ok s' => (status, s') | Err e => (Err e, store_close s) end.

Definition run_op (op : StoreOp) (s : PersistentStore) : IO (Status * PersistentStore) :=
  match op with
  | OpAppend type payload => append s type payload
  | OpCrash type payload faults now => fun w =>
      let '(status, _, w) := append s type payload (with_faults faults w) in
      io_bind (store_open (ps_path s) (ps_options s) now) (fun r => io_ret (reopened s status r))
        (with_faults [] w)
  | OpReopen now => io r := store_open (ps_path s) (ps_options s) now in io_ret (reopened s ok r)
  | OpClean now => mark_clean s now
  | OpCompact keep => io r := compact s keep in io_ret (match r.1 with Ok _ => ok | Err e => Err e end, r.2)
  end.

Fixpoint run_ops (ops : list StoreOp) (s : PersistentStore) : IO (list Status * PersistentStore) :=
  match ops with
  | [] => io_ret ([], s)
  | op :: ops =>
      io r := run_op op s in
      io rs := run_ops ops r.2 in
      io_ret (r.1 :: rs.1, rs.2)
  end.

(** The abstract store: the contents of the records, oldest first. *)
Definition contents (records : list StoredRecord) : list (RecordType * list Z) :=
  map (fun r => (sr_type r, sr_payload r)) records.

(** What each operation may do to it, with the status it reports. *)
Inductive log_step : StoreOp -> Status -> list (RecordType * list Z) -> list (RecordType * list Z) -> Prop :=
  | log_append l t p : log_step (OpAppend t p) ok l (l ++ [(t, p)])
  | log_append_refused l t p e : log_step (OpAppend t p) (Err e) l l
  | log_crash_kept l t p faults now status : log_step (OpCrash t p faults now) status l (l ++ [(t, p)])
  | log_crash_lost l t p faults now e : log_step (OpCrash t p faults now) (Err e) l l
  | log_reopen l now : log_step (OpReopen now) ok l l
  | log_clean l now : log_step (OpClean now) ok l l
  | log_compact l keep : log_step (OpCompact keep) ok l (drop (length l - Nat.min keep (length l)) l).

Inductive log_run : list StoreOp -> list Status -> list (RecordType * list Z) -> list (RecordType * list Z) -> Prop :=
  | log_run_nil l : log_run [] [] l l
  | log_run_cons op ops status statuses l l1 l2 :
      log_step op status l l1 -> log_run ops statuses l1 l2 -> log_run (op :: ops) (status :: statuses) l l2.

Definition op_ok (op : StoreOp) : Prop :=
  match op with
  | OpAppend _ payload => bytes_ok payload
  | OpCrash _ payload _ now => bytes_ok payload /\ is_set now = true /\ i64_ok (unix_nanos now)
  | OpReopen now | OpClean now => is_set now = true /\ i64_ok (unix_nanos now)
  | OpCompact _ => True
  end.

Lemma contents_snoc records s t p : contents (records ++ [next_stored s t p]) = contents records ++ [(t, p)].
Proof. unfold contents. by rewrite map_app. Qed.

Lemma contents_renumber n records : contents (renumber n records) = contents records.
Proof. revert n. induction records as [|r records IH]; intros n; [done |]. cbn. f_equal. apply IH. Qed.

Lemma contents_drop n records : contents (drop n records) = drop n (contents records).
Proof. unfold contents. by rewrite skipn_map. Qed.

Lemma length_contents records : length (contents records) = length records.
Proof. apply length_map. Qed.

(** Every operation on a store is a step of the log. *)
Lemma run_op_simulates op s w records :
  store_holds w s records -> op_ok op -> rr_header_generation (ps_recovery s) + 2 < 2 ^ 64 ->
  exists status s' w' records',
    run_op op s w = ((status, s'), w') /\ store_holds w' s' records' /\
    log_step op status (contents records) (contents records') /\
    rr_header_generation (ps_recovery s') <= rr_header_generation (ps_recovery s) + 2.
Proof.
  intros Hs Hop Hgen. destruct op as [t p | t p faults now | now | now | keep]; cbn [run_op op_ok] in *.
  - destruct (append_check s p) as [[]|e] eqn:Hc.
    + destruct (store_holds_append w s records t p Hs Hop Hc) as (s' & w' & Happ & Hs').
      assert (ps_recovery s' = ps_recovery s) as Hrec.
      { destruct Hs as (Hcalm & _ & _ & _ & _ & _ & file & pos & Hfile & _).
        rewrite (holding_world w _ _ _ Hcalm Hfile) in Happ.
        destruct (append_run s t p w file pos Hc) as [p' Hr]. rewrite Hr in Happ. by injection Happ as <- _. }
      exists ok, s', w', (records ++ [next_stored s t p]). rewrite contents_snoc, Hrec.
      split_and!; [done | done | constructor | lia].
    + exists (Err e), s, w, records. rewrite (append_refused _ _ _ _ _ Hc). split_and!; [done | done | constructor | lia].
  - destruct Hop as (Hb & Hset & Hnow).
    destruct (append s t p (with_faults faults w)) as [[status s1] w1] eqn:Happ.
    destruct (crash_holds w s records t p faults now status s1 w1) as (s2 & w2 & records2 & Ho & Hs2 & _ & _ & Hg & Hor & Hst & _);
      [done | done | done | done | lia | done |].
    exists status, s2, w2, records2. unfold io_bind. rewrite Ho. split_and!; [done | done | | lia].
    destruct status as [[]|e]; [rewrite (Hst eq_refl), contents_snoc; constructor |].
    destruct Hor as [-> | ->]; [constructor | rewrite contents_snoc; constructor].
  - destruct Hop as (Hset & Hnow).
    destruct Hs as (Hcalm & Hopen & Hrw & Hlim & Hcount & Hnext & file & position & Hfile & Hok & Hsize & Hhead).
    destruct (reopen_holds w (ps_path s) (ps_options s) now file position records [] (ps_active_slot s) (ps_recovery s))
      as (s2 & w2 & Ho & Hs2 & _ & _ & _ & Hg & _); try done; [lia |].
    exists ok, s2, w2, records. unfold io_bind. rewrite Ho. split_and!; [done | done | constructor | lia].
  - destruct Hop as (Hset & Hnow).
    destruct (store_holds_mark_clean w s records now Hs Hnow) as (s2 & w2 & Ho & Hs2 & _ & _ & Hg); [lia |].
    exists ok, s2, w2, records. split_and!; [done | done | constructor | lia].
  - destruct (store_holds_compact w s records keep Hs Hgen) as (s2 & w2 & Ho & Hs2 & _ & _ & Hg).
    exists ok, s2, w2. eexists. unfold io_bind. rewrite Ho. split; [done |]. split; [exact Hs2 |]. split; [| lia].
    rewrite contents_renumber, contents_drop, <- (length_contents records). constructor.
Qed.

Lemma run_ops_simulates ops s w records :
  store_holds w s records -> Forall op_ok ops ->
  rr_header_generation (ps_recovery s) + 2 * Z.of_nat (length ops) < 2 ^ 64 ->
  exists statuses s' w' records',
    run_ops ops s w = ((statuses, s'), w') /\ store_holds w' s' records' /\
    log_run ops statuses (contents records) (contents records').
Proof.
  intros Hs Hops. revert s w records Hs. induction Hops as [|op ops Hop Hops IH]; intros s w records Hs Hgen.
  { exists [], s, w, records. split_and!; [done | done | constructor]. }
  cbn [length] in Hgen.
  destruct (run_op_simulates op s w records Hs Hop) as (status & s1 & w1 & records1 & Hr & Hs1 & Hstep & Hg); [lia |].
  destruct (IH s1 w1 records1 Hs1) as (statuses & s2 & w2 & records2 & Hrs & Hs2 & Hrun); [lia |].
  exists (status :: statuses), s2, w2, records2. cbn [run_ops].
  erewrite bind_run by apply Hr. cbv beta. cbn [fst snd]. erewrite bind_run by apply Hrs. cbv beta.
  split_and!; [done | done | by econstructor].
Qed.
