(* ===== verification/PersistenceProps.v ===== *)
(** * Properties of the store

    A store implements an append only log across restarts, crashes and
    compaction; recovery keeps the longest prefix of valid records. *)

From stdpp Require Import gmap.
From S2P Require Import Prelude Errors Digest Canonical Ids TimeModel Limits Persistence StoreFormat StoreFiles StoreRuns StoreState.
#[local] Open Scope Z_scope.
#[local] Opaque f_seek f_seek_end f_tell f_size f_open f_create f_read f_write f_flush f_truncate f_rename get_file.

(** ** Damaged files *)

Lemma choose_slot_range file chosen i :
  bytes_ok file -> choose_slot (slot_at file 0) (slot_at file 1) = Some (chosen, i) ->
  (i <= 1)%nat /\ slot_at file i = Some chosen /\ 0 <= hs_generation chosen /\ i64_ok (hs_created chosen).
Proof.
  intros Hb Hc. assert ((i <= 1)%nat /\ slot_at file i = Some chosen) as [Hi Hs].
  { unfold choose_slot in Hc. destruct (slot_at file 0) eqn:E0, (slot_at file 1) eqn:E1; try discriminate;
      [destruct (_ <=? _) in Hc | |]; injection Hc as <- <-; split; done || lia. }
  split_and!; [done | done | |]; unfold slot_at, parse_slot in Hs;
    repeat match type of Hs with (if ?c then _ else _) = _ => destruct c; [done |] end;
    injection Hs as <-.
  - apply le_value_range. apply Forall_take, Forall_drop, Forall_take, Forall_drop, Hb.
  - apply wrap_i64_range.
Qed.

(** The slots of a restarted file: the new one is chosen. *)
Lemma restarted_slots file chosen i now :
  bytes_ok file -> (kStoreHeaderBytes <= length file)%nat ->
  choose_slot (slot_at file 0) (slot_at file 1) = Some (chosen, i) ->
  hs_generation chosen + 1 < 2 ^ 64 -> i64_ok (unix_nanos now) ->
  exists next, hs_format_version next = kStoreFormatVersion /\ hs_generation next = hs_generation chosen + 1 /\
    choose_slot (slot_at (restarted file chosen i now) 0) (slot_at (restarted file chosen i now) 1) =
      Some (next, other_slot i).
Proof.
  intros Hb Hl Hc Hgen Hnow. destruct (choose_slot_range file chosen i Hb Hc) as (Hi & Hs & Hg0 & Hcr).
  assert (wrap_u 64 (hs_generation chosen + 1) = hs_generation chosen + 1) as Hw
    by (apply wrap_u_small; [lia |]; unfold u_ok; lia).
  unfold restarted. rewrite Hw. set (bytes := slot_bytes _ _ _ _ _).
  assert (other_slot (other_slot i) = i) as Hoo by (destruct i as [|[|]]; [done | done | lia]).
  assert (slot_at (with_slot file (other_slot i) bytes) i = Some chosen) as Hold.
  { rewrite <- Hs. unfold slot_at. f_equal. rewrite <- Hoo at 2 3.
    apply with_slot_other; [done | done | apply other_slot_le]. }
  assert (slot_at (with_slot file (other_slot i) bytes) (other_slot i) =
    Some (mk_slot kStoreFormatVersion 0 (hs_created chosen) (unix_nanos now)
      (wrap_u 32 (hs_restart_count chosen + 1)) (hs_generation chosen + 1))) as Hnew.
  { unfold slot_at. rewrite with_slot_same by (done || apply other_slot_le).
    apply (parse_slot_bytes _ _ false (from_unix_nanos (hs_created chosen)) now);
      [unfold u_ok; lia | apply wrap_u_range; lia | done | done]. }
  clearbody bytes.
  eexists. split; [| split]; [| | destruct i as [|[|]]; [| | lia]; cbn [other_slot] in *; rewrite Hold, Hnew;
    unfold choose_slot; cbn [hs_generation]]; [.. | |].
  3: { rewrite (proj2 (Z.leb_le _ _)) by lia. done. }
  3: { rewrite (proj2 (Z.leb_gt _ _)) by lia. done. }
  - done.
  - done.
Qed.

(** ** Properties *)

(** C21. The store implements an append only log across restarts: any sequence of
    appends, appends cut short by system failures at any byte, restarts, clean
    shutdowns and compactions runs like the log of its contents, an append that
    reported success is never lost, and reading the store back returns exactly
    the log, numbered from one. *)
Theorem store_refines_log ops s w records :
  store_holds w s records -> Forall op_ok ops ->
  rr_header_generation (ps_recovery s) + 2 * Z.of_nat (length ops) < 2 ^ 64 ->
  exists statuses s' w' records' w'',
    run_ops ops s w = ((statuses, s'), w') /\ log_run ops statuses (contents records) (contents records') /\
    read_all s' w' = (Ok records', w'') /\ numbered records'.
Proof.
  intros Hs Hops Hgen. destruct (run_ops_simulates ops s w records Hs Hops Hgen)
    as (statuses & s' & w' & records' & Hr & Hs' & Hlog).
  destruct (store_holds_read w' s' records' Hs') as (w'' & Hread & _).
  exists statuses, s', w', records', w''. split_and!; try done.
  by destruct Hs' as (_ & _ & _ & _ & _ & _ & file & position & _ & (_ & _ & _ & _ & _ & ?) & _).
Qed.

Definition demo_options : StoreOptions := mk_options default_limits false.

(** A disk without files. *)
Definition empty_world (faults : list (option nat)) : World := mk_world ∅ faults "no space left on device".

Lemma demo_store :
  exists s w, store_open "paths.store" demo_options (from_unix_nanos 5) (empty_world []) = (Ok s, w) /\
    store_holds w s [] /\ rr_header_generation (ps_recovery s) = 1.
Proof.
  destruct (store_create (empty_world []) "paths.store" demo_options (from_unix_nanos 5))
    as (s & w & Hopen & Hs & _ & _ & Hg & _);
    [reflexivity | apply lookup_empty | by vm_compute | by vm_compute | reflexivity | by vm_compute | by vm_compute |].
  exists s, w. split; [exact Hopen |]. by split.
Qed.

(** Two appends, the second torn after five bytes of its payload's header, and a restart. *)
Definition demo_ops : list StoreOp := [
  OpAppend MarkerRecord [1; 2; 3];
  OpCrash FindingRecord [4] [None; Some 5%nat] (from_unix_nanos 6);
  OpAppend EvidenceRecord [];
  OpReopen (from_unix_nanos 7)].

Lemma store_refines_log_witness :
  exists s w statuses s' w' records' w'',
    store_open "paths.store" demo_options (from_unix_nanos 5) (empty_world []) = (Ok s, w) /\
    run_ops demo_ops s w = ((statuses, s'), w') /\ log_run demo_ops statuses [] (contents records') /\
    read_all s' w' = (Ok records', w'') /\ numbered records'.
Proof.
  destruct demo_store as (s & w & Hopen & Hs & Hg). exists s, w.
  destruct (store_refines_log demo_ops s w [] Hs) as (statuses & s' & w' & records' & w'' & H).
  - repeat constructor; unfold op_ok, byte_ok, i64_ok, int64_min, int64_max; cbn [unix_nanos]; (done || lia).
  - rewrite Hg. simpl. lia.
  - exists statuses, s', w', records', w''. split; [exact Hopen | exact H].
Defined.

(** C22. A crash during an append loses at most that append: wherever the system
    stops writing, the store reopens with all the earlier records, with the new
    one exactly when all its bytes were written, in particular when success was
    reported, and the failed store object is unchanged. *)
Theorem append_crash_safe w s records type payload faults now :
  store_holds w s records -> bytes_ok payload -> is_set now = true -> i64_ok (unix_nanos now) ->
  rr_header_generation (ps_recovery s) + 1 < 2 ^ 64 ->
  let '((status, s1), w1) := append s type payload (with_faults faults w) in
  exists s2 w2 records2 w3,
    store_open (ps_path s) (ps_options s) now (with_faults [] w1) = (Ok s2, w2) /\
    read_all s2 w2 = (Ok records2, w3) /\
    (records2 = records \/ records2 = records ++ [next_stored s type payload]) /\
    (status = ok -> records2 = records ++ [next_stored s type payload]) /\
    (status <> ok -> s1 = s).
Proof.
  intros Hs Hb Hset Hnow Hgen. destruct (append _ _ _ _) as [[status s1] w1] eqn:Happ.
  destruct (crash_holds w s records type payload faults now status s1 w1)
    as (s2 & w2 & records2 & Ho & Hs2 & _ & _ & _ & Hor & Hok & Hfail); try done.
  destruct (store_holds_read w2 s2 records2 Hs2) as (w3 & Hread & _).
  by exists s2, w2, records2, w3.
Qed.

Lemma append_crash_safe_witness :
  exists s w, store_open "paths.store" demo_options (from_unix_nanos 5) (empty_world []) = (Ok s, w) /\
    let '((status, s1), w1) := append s MarkerRecord [1; 2; 3] (with_faults [None; None; Some 2%nat] w) in
    exists s2 w2 records2 w3,
      store_open (ps_path s) (ps_options s) (from_unix_nanos 6) (with_faults [] w1) = (Ok s2, w2) /\
      read_all s2 w2 = (Ok records2, w3) /\
      (records2 = [] \/ records2 = [] ++ [next_stored s MarkerRecord [1; 2; 3]]) /\
      (status = ok -> records2 = [] ++ [next_stored s MarkerRecord [1; 2; 3]]) /\
      (status <> ok -> s1 = s).
Proof.
  destruct demo_store as (s & w & Hopen & Hs & Hg). exists s, w. split; [exact Hopen |].
  apply (append_crash_safe w s [] MarkerRecord [1; 2; 3] [None; None; Some 2%nat] (from_unix_nanos 6)).
  - exact Hs.
  - repeat constructor; lia.
  - reflexivity.
  - unfold i64_ok, int64_min, int64_max. cbn [unix_nanos]. lia.
  - rewrite Hg. lia.
Defined.

(** What recovery leaves of any file. *)
Lemma recovered_any limits file chosen i now records tail :
  bytes_ok file -> (kStoreHeaderBytes <= length file)%nat -> (i <= 1)%nat ->
  parse_all limits (drop kStoreHeaderBytes file) = (records, tail) ->
  let kept := take (length file - length tail) (restarted file chosen i now) in
  bytes_ok kept /\ (kStoreHeaderBytes <= length kept)%nat /\
  (forall a, (a <= 1)%nat -> slot_at kept a = slot_at (restarted file chosen i now) a) /\
  drop kStoreHeaderBytes kept =
    take (length file - kStoreHeaderBytes - length tail) (drop kStoreHeaderBytes file) /\
  parse_all limits (drop kStoreHeaderBytes kept) = (records, []).
Proof.
  intros Hb Hl Hi Hp. cbv zeta.
  set (file' := restarted file chosen i now). set (kept := take (length file - length tail) file').
  pose proof (parse_all_tail limits (drop kStoreHeaderBytes file)) as [Ht _].
  rewrite Hp, length_drop in Ht. cbn [snd] in Ht.
  assert (length file' = length file) as Hl' by (apply length_with_slot; [done | done | apply other_slot_le]).
  assert (kStoreHeaderBytes <= length kept)%nat as Hlk by (unfold kept; rewrite length_take; lia).
  assert (drop kStoreHeaderBytes kept =
    take (length file - kStoreHeaderBytes - length tail) (drop kStoreHeaderBytes file)) as Hd.
  { unfold kept. rewrite skipn_firstn_comm.
    assert (drop kStoreHeaderBytes file' = drop kStoreHeaderBytes file) as ->
      by (apply with_slot_records; [done | done | apply other_slot_le]).
    f_equal. lia. }
  split_and!; [| done | | done |].
  - apply Forall_take, with_slot_ok; [done | done | apply other_slot_le | done | apply slot_bytes_ok].
  - intros a Ha. rewrite <- (take_drop (length file - length tail) file'). fold kept. by rewrite slot_at_app.
  - rewrite Hd. pose proof (parse_all_truncated limits (drop kStoreHeaderBytes file)) as Htr.
    rewrite Hp, length_drop in Htr. cbn [fst snd] in Htr. exact Htr.
Qed.

(** C23. Recovery is conservative whatever the bytes of the file: a file with a
    usable header opens with exactly the longest prefix of valid records, the
    rest is cut off and reported, the bytes that are kept are those of the
    original file, reading returns those records, and opening again finds them
    all and nothing to cut. *)
Theorem recovery_conservative w path options file position chosen i records tail now later :
  w_faults w = [] -> w_files w !! path = Some (file, position) ->
  limits_validate (so_limits options) = ok -> so_read_only options = false ->
  is_set now = true -> i64_ok (unix_nanos now) -> is_set later = true ->
  bytes_ok file -> (kStoreHeaderBytes <= length file)%nat ->
  choose_slot (slot_at file 0) (slot_at file 1) = Some (chosen, i) ->
  hs_format_version chosen = kStoreFormatVersion -> hs_generation chosen + 1 < 2 ^ 64 ->
  parse_all (so_limits options) (drop kStoreHeaderBytes file) = (records, tail) ->
  Z.of_nat (length records) <= max_store_records (so_limits options) ->
  exists s1 w1 file1 position1 w2 s2 w3,
    store_open path options now w = (Ok s1, w1) /\
    w_files w1 !! path = Some (file1, position1) /\
    drop kStoreHeaderBytes file1 =
      take (length file - kStoreHeaderBytes - length tail) (drop kStoreHeaderBytes file) /\
    rr_valid_records (ps_recovery s1) = Z.of_nat (length records) /\
    rr_corrupt_tail_truncated (ps_recovery s1) = negb (length tail =? 0)%nat /\
    read_all s1 w1 = (Ok records, w2) /\
    store_open path options later w2 = (Ok s2, w3) /\
    rr_valid_records (ps_recovery s2) = Z.of_nat (length records) /\
    rr_corrupt_tail_truncated (ps_recovery s2) = false.
Proof.
  intros Hcalm Hfile Hlim Hrw Hset Hnow Hlater Hb Hl Hc Hv Hgen Hp Hmax.
  destruct (choose_slot_range file chosen i Hb Hc) as (Hi & _ & _ & _).
  destruct (store_open_run path options now w file position chosen i records tail) as [p1 Ho]; try done.
  destruct (recovered_any (so_limits options) file chosen i now records tail Hb Hl Hi Hp)
    as (Hb1 & Hl1 & Hslots & Hd1 & Hp1).
  destruct (restarted_slots file chosen i now Hb Hl Hc Hgen Hnow) as (next & Hv' & _ & Hc').
  rewrite <- !Hslots in Hc' by lia.
  set (file1 := take (length file - length tail) (restarted file chosen i now)) in *.
  set (s1 := opened_store path options now file chosen i records tail) in *.
  destruct (read_all_run s1 w file1 p1 records) as [p2 Hread]; try done.
  destruct (store_open_run path options later w file1 p2 next (other_slot i) records []) as [p3 Ho2]; try done.
  exists s1, (holding w path file1 p1), file1, p1, (holding w path file1 p2).
  exists (opened_store path options later file1 next (other_slot i) records []). eexists.
  split; [rewrite (holding_world w _ _ _ Hcalm Hfile) at 1; exact Ho |].
  split; [apply holding_lookup |]. split; [done |]. split; [done |].
  split; [subst s1; unfold opened_store; by destruct (length tail =? 0)%nat |].
  split; [exact Hread |]. split; [exact Ho2 |]. by split.
Qed.

(** A file with one record and two bytes after it. *)
Definition demo_record : StoredRecord := mk_stored MarkerRecord 1 [1; 2; 3].
Definition damaged_file : list Z :=
  with_slot (replicate kStoreHeaderBytes 0 ++ record_bytes demo_record ++ [7; 7]) 0
    (slot_bytes 1 0 true (from_unix_nanos 5) (from_unix_nanos 5)).
Definition damaged_world : World := mk_world {["paths.store"%string := (damaged_file, 0%nat)]} [] "".

Lemma recovery_conservative_witness :
  exists s1 w1 file1 position1 w2 s2 w3,
    store_open "paths.store" demo_options (from_unix_nanos 6) damaged_world = (Ok s1, w1) /\
    w_files w1 !! "paths.store"%string = Some (file1, position1) /\
    drop kStoreHeaderBytes file1 =
      take (length damaged_file - kStoreHeaderBytes - 2) (drop kStoreHeaderBytes damaged_file) /\
    rr_valid_records (ps_recovery s1) = 1 /\
    rr_corrupt_tail_truncated (ps_recovery s1) = true /\
    read_all s1 w1 = (Ok [demo_record], w2) /\
    store_open "paths.store" demo_options (from_unix_nanos 7) w2 = (Ok s2, w3) /\
    rr_valid_records (ps_recovery s2) = 1 /\
    rr_corrupt_tail_truncated (ps_recovery s2) = false.
Proof.
  apply (recovery_conservative damaged_world "paths.store" demo_options damaged_file 0
    (mk_slot 1 1 5 5 0 1) 0 [demo_record] [7; 7] (from_unix_nanos 6) (from_unix_nanos 7)).
  - reflexivity.
  - apply lookup_singleton_eq.
  - by vm_compute.
  - reflexivity.
  - reflexivity.
  - split; by vm_compute.
  - reflexivity.
  - vm_compute. repeat constructor; discriminate.
  - vm_compute. lia.
  - by vm_compute.
  - reflexivity.
  - by vm_compute.
  - by vm_compute.
  - by vm_compute.
Defined.

(** Appending is decided by the three bounds alone: within them the record is
    stored, numbered next, and the store grows by its bytes without passing its
    bound; otherwise the append fails with [CapacityExceeded] and neither the
    store nor the file changes. *)
Theorem store_append_spec w s records type payload :
  store_holds w s records -> bytes_ok payload ->
  let limits := so_limits (ps_options s) in
  let '((status, s'), w') := append s type payload w in
  let fits :=
    Z.of_nat (length payload) <= max_store_record_bytes limits /\
    Z.of_nat (length records) + 1 <= max_store_records limits /\
    ps_size_bytes s + Z.of_nat kStoreRecordHeaderBytes + Z.of_nat (length payload) <= max_store_bytes limits in
  (status = ok <-> fits) /\
  (fits -> ps_size_bytes s' = ps_size_bytes s + Z.of_nat kStoreRecordHeaderBytes + Z.of_nat (length payload) /\
    exists w'', read_all s' w' = (Ok (records ++ [mk_stored type (Z.of_nat (length records) + 1) payload]), w'')) /\
  (~ fits -> err_code status = Some CapacityExceeded /\ s' = s /\ w' = w).
Proof.
  intros Hs Hb limits.
  assert (ps_open s = true /\ so_read_only (ps_options s) = false /\
    ps_record_count s = Z.of_nat (length records) /\ ps_next_sequence s = Z.of_nat (length records) + 1)
    as (Hopen & Hrw & Hcount & Hnext) by (destruct Hs as (_ & ? & ? & _ & ? & ? & _); by split_and!).
  destruct (append_check s payload) as [[]|e] eqn:Hc.
  - pose proof (append_check_ok s payload Hc) as Hfits. rewrite Hcount in Hfits.
    destruct (store_holds_append w s records type payload Hs Hb Hc) as (s' & w' & Happ & Hs').
    assert (ps_size_bytes s' = ps_size_bytes s + Z.of_nat kStoreRecordHeaderBytes + Z.of_nat (length payload)) as Hsz.
    { destruct Hs as (Hcalm & _ & _ & _ & _ & _ & file & pos & Hfile & _).
      rewrite (holding_world w _ _ _ Hcalm Hfile) in Happ.
      destruct (append_run s type payload w file pos Hc) as [p' Hr]. rewrite Hr in Happ.
      pose proof (f_equal (fun r => ps_size_bytes r.1.2) Happ) as Hsize.
      cbn [fst snd ps_size_bytes with_counts] in Hsize.
      rewrite <- Hsize, length_record_bytes. cbn [sr_payload next_stored]. lia. }
    rewrite Happ. cbv zeta. split; [by split |]. split; [| by intros []].
    intros _. split; [done |]. destruct (store_holds_read w' s' _ Hs') as (w'' & Hread & _).
    exists w''. rewrite Hread. unfold next_stored. by rewrite Hnext.
  - rewrite (append_refused s type payload e w Hc). cbv zeta.
    unfold append_check in Hc. rewrite Hopen, Hrw, Hcount in Hc. cbn [negb] in Hc. fold limits in Hc.
    assert (code e = CapacityExceeded /\
      ~ (Z.of_nat (length payload) <= max_store_record_bytes limits /\
         Z.of_nat (length records) + 1 <= max_store_records limits /\
         ps_size_bytes s + Z.of_nat kStoreRecordHeaderBytes + Z.of_nat (length payload) <= max_store_bytes limits))
      as [He Hnot].
    { repeat match type of Hc with (if ?c then _ else _) = _ => destruct c eqn:?;
        [injection Hc as <-; split; [done | bool_prop; lia] |] end. done. }
    split; [by split; [| intros Hf] |]. split; [done |]. intros _. split; [| done]. cbn. by rewrite He.
Qed.

Lemma store_append_spec_witness :
  exists s w, store_holds w s [] /\
    let '((status, s'), w') := append s MarkerRecord [1; 2; 3] w in
    (status = ok <-> 3 <= 16777216 /\ 0 + 1 <= 1000000 /\ ps_size_bytes s + 32 + 3 <= 536870912).
Proof.
  destruct demo_store as (s & w & Hopen & Hs & Hg). exists s, w. split; [exact Hs |].
  pose proof (store_append_spec w s [] MarkerRecord [1; 2; 3] Hs ltac:(repeat constructor; lia)) as H.
  assert (ps_options s = demo_options) as Ho.
  { vm_compute in Hopen. injection Hopen as <- _. reflexivity. }
  rewrite Ho in H. destruct (append s MarkerRecord [1; 2; 3] w) as [[status s'] w']. exact (proj1 H).
Defined.

(** A torn header write does not lose the store: whatever 64 bytes the write
    of the inactive slot leaves, unless they are a valid slot of a newer
    generation, the store opens from the other slot with all its records. *)
Theorem torn_header_recovers w s records file position junk now :
  store_holds w s records -> w_files w !! ps_path s = Some (file, position) ->
  bytes_ok junk -> length junk = kStoreHeaderSlotBytes ->
  match parse_slot junk with
  | Some old => hs_generation old < rr_header_generation (ps_recovery s)
  | None => True
  end ->
  is_set now = true -> i64_ok (unix_nanos now) -> rr_header_generation (ps_recovery s) + 1 < 2 ^ 64 ->
  exists s' w' w'',
    store_open (ps_path s) (ps_options s) now
      (holding w (ps_path s) (with_slot file (other_slot (ps_active_slot s)) junk) 0) = (Ok s', w') /\
    rr_header_generation (ps_recovery s') = rr_header_generation (ps_recovery s) + 1 /\
    read_all s' w' = (Ok records, w'').
Proof.
  intros (Hcalm & Hopen & Hrw & Hlim & Hcount & Hnext & file' & position' & Hfile & Hok & Hsize & Hhead)
    Hfile' Hjb Hjl Hjunk Hset Hnow Hgen.
  rewrite Hfile in Hfile'. injection Hfile' as -> ->.
  destruct Hok as (Hfb & Hfl & Hd & Hrs & Hmax & Hnum).
  set (active := ps_active_slot s) in *. set (f := with_slot file (other_slot active) junk).
  assert (header_ok f active (ps_recovery s)) as Hhead'.
  { destruct Hhead as (slot & Hi & Hs & Hv & Hg & H). exists slot.
    assert (other_slot (other_slot active) = active) as Hoo by (destruct active as [|[|]]; [done | done | lia]).
    assert (slot_at f active = Some slot) as ->.
    { rewrite <- Hs. unfold slot_at. f_equal. rewrite <- Hoo.
      apply with_slot_other; [done | done | apply other_slot_le]. }
    assert (slot_at f (other_slot active) = parse_slot junk) as ->.
    { unfold slot_at. f_equal. apply with_slot_same; [done | done | apply other_slot_le]. }
    rewrite <- Hg in Hjunk. destruct H as (? & ? & ? & ? & ? & ? & ? & _).
    by destruct (parse_slot junk); split_and!. }
  destruct (reopen_holds (holding w (ps_path s) f 0) (ps_path s) (ps_options s) now f 0 records [] active
    (ps_recovery s)) as (s' & w' & Ho & Hs' & _ & _ & _ & Hg' & _); try done.
  - apply holding_lookup.
  - split_and!; try done.
    + apply with_slot_ok; [done | done | apply other_slot_le | done | done].
    + unfold f. by rewrite length_with_slot by (done || apply other_slot_le).
    + unfold f. by rewrite with_slot_records by (done || apply other_slot_le).
  - destruct (store_holds_read w' s' records Hs') as (w'' & Hread & _). by exists s', w', w''.
Qed.

Lemma torn_header_recovers_witness :
  exists s w file position s' w' w'',
    w_files w !! ps_path s = Some (file, position) /\
    store_open (ps_path s) (ps_options s) (from_unix_nanos 6)
      (holding w (ps_path s) (with_slot file (other_slot (ps_active_slot s)) (replicate 64 255)) 0) = (Ok s', w') /\
    rr_header_generation (ps_recovery s') = 2 /\ read_all s' w' = (Ok [], w'').
Proof.
  destruct demo_store as (s & w & Hopen & Hs & Hg).
  destruct Hs as (Hcalm & Hs1 & Hs2 & Hs3 & Hs4 & Hs5 & file & position & Hfile & Hs6).
  destruct (torn_header_recovers w s [] file position (replicate 64 255) (from_unix_nanos 6))
    as (s' & w' & w'' & Ho & Hgen & Hread).
  - split_and!; try assumption. exists file, position. by split.
  - exact Hfile.
  - apply Forall_replicate. unfold byte_ok. lia.
  - reflexivity.
  - by vm_compute.
  - reflexivity.
  - unfold i64_ok, int64_min, int64_max. cbn [unix_nanos]. lia.
  - rewrite Hg. lia.
  - exists s, w, file, position, s', w', w''. rewrite Hg in Hgen. split; [exact Hfile |].
    split; [exact Ho |]. split; [exact Hgen | exact Hread].
Defined.

(** ** Read only stores *)

#[local] Instance silent_read_valid path limits header : Silent (read_valid path limits header).
Proof. unfold read_valid. apply _. Qed.

#[local] Instance silent_scan_loop fuel path limits truncate valid offset recovery :
  Silent (scan_loop fuel path limits truncate valid offset recovery).
Proof.
  revert valid offset. induction fuel as [|fuel IH]; intros valid offset; cbn [scan_loop]; apply _.
Qed.

#[local] Instance silent_scan path limits recovery : Silent (scan path limits false recovery).
Proof.
  unfold scan. apply silent_bind; [apply _ | intros sought]. apply silent_if; [apply _ |].
  apply silent_bind; [apply _ | intros file]. apply silent_bind; [apply _ | intros [[valid|e] report]]; cbn [fst snd].
  - rewrite andb_false_r. apply _.
  - apply _.
Qed.

#[local] Instance silent_read_header_slot path i : Silent (read_header_slot path i).
Proof. unfold read_header_slot. apply _. Qed.

Lemma silent_open_header path options now :
  so_read_only options = true -> Silent (open_header path options now).
Proof.
  intros Hro. unfold open_header. rewrite Hro. repeat (apply silent_try; [apply _ | intros ?]).
  destruct (choose_slot _ _) as [[chosen i]|]; apply _.
Qed.

Lemma silent_store_open path options now :
  so_read_only options = true -> Silent (store_open path options now).
Proof.
  intros Hro. pose proof (silent_open_header path options now Hro).
  unfold store_open, create_header. rewrite Hro. destruct (limits_validate _); [| apply _].
  cbn [negb]. apply silent_if; [apply _ |]. apply silent_bind; [apply _ | intros opened].
  rewrite andb_false_r. apply silent_bind; [apply _ | intros opened']. apply silent_if; [apply _ |].
  apply silent_bind; [apply _ | intros [size|]]; [| apply _].
  apply silent_try; [apply _ | intros header]. apply silent_bind; [apply _ | intros scanned].
  destruct scanned as [[valid|e] report]; cbn [fst snd]; apply _.
Qed.

#[local] Instance silent_read_record path limits header : Silent (read_record path limits header).
Proof. unfold read_record. destruct (parse_record_type _); apply _. Qed.

#[local] Instance silent_read_loop fuel path limits records : Silent (read_loop fuel path limits records).
Proof. revert records. induction fuel as [|fuel IH]; intros records; cbn [read_loop]; apply _. Qed.

#[local] Instance silent_read_all s : Silent (read_all s).
Proof. unfold read_all. apply _. Qed.

(** A store opened read only never changes a file, whatever the files hold
    and however the system fails: opening and reading leave every byte as it is,
    and appending and compacting are refused with [ReadOnlyStore] while a clean
    shutdown does nothing. *)
Theorem read_only_changes_nothing path options now w :
  so_read_only options = true ->
  file_bytes (store_open path options now w).2 = file_bytes w /\
  forall s, ps_options s = options ->
    (forall w, file_bytes (read_all s w).2 = file_bytes w) /\
    (forall type payload w, exists e, append s type payload w = ((Err e, s), w)) /\
    (forall keep w, compact s keep w =
       ((Err (error ReadOnlyStore "compaction of a read only store"), s), w)) /\
    (forall later w, mark_clean s later w = ((ok, s), w)).
Proof.
  intros Hro. split; [by apply silent_store_open |]. intros s Hs. rewrite <- Hs in Hro.
  split; [apply silent_read_all |]. split; [| split].
  - intros type payload w'. unfold append, append_check. rewrite Hro.
    destruct (ps_open s); cbn [negb]; by eexists.
  - intros keep w'. unfold compact. by rewrite Hro.
  - intros later w'. unfold mark_clean. by rewrite Hro.
Qed.

Lemma read_only_changes_nothing_witness :
  file_bytes (store_open "paths.store" (mk_options default_limits true) (from_unix_nanos 6) damaged_world).2 =
    file_bytes damaged_world.
Proof.
  exact (proj1 (read_only_changes_nothing "paths.store" (mk_options default_limits true) (from_unix_nanos 6)
    damaged_world eq_refl)).
Defined.

(** ** Behaviours to know about *)

(** A failed append leaves its torn record in the file; a later append that
    succeeds is written behind it and lost at the next restart. *)
Definition append_after_failure : IO (Result (Status * Status * list StoredRecord)) :=
  try s := store_open "paths.store" demo_options (from_unix_nanos 5) in
  io r1 := append s MarkerRecord [4] in
  io r2 := append r1.2 FindingRecord [5] in
  try s := store_open "paths.store" demo_options (from_unix_nanos 9) in
  try records := read_all s in
  io_ret (Ok (r1.1, r2.1, records)).

Example acknowledged_record_lost :
  (append_after_failure (empty_world (replicate 14 None ++ [Some 0%nat]))).1 =
    Ok (Err (error IoFailure "fwrite failed for paths.store"), ok, []).
Proof. by vm_compute. Qed.

(** A file of fewer than 128 bytes is overwritten, whatever it holds. *)
Example short_file_overwritten :
  let file := replicate 127 7 in
  let '(r, w) := store_open "paths.store" demo_options (from_unix_nanos 5)
                   (mk_world {["paths.store"%string := (file, 0%nat)]} [] "") in
  has_value r = true /\ drop 64 (default [] (file_bytes w !! "paths.store"%string)) = replicate 64 0.
Proof. by vm_compute. Qed.

(** A store marked clean that goes on and then crashes is reported as shut down cleanly. *)
Definition append_after_clean : IO (Result bool) :=
  try s := store_open "paths.store" demo_options (from_unix_nanos 5) in
  io r1 := mark_clean s (from_unix_nanos 6) in
  io r2 := append r1.2 FindingRecord [5] in
  try s := store_open "paths.store" demo_options (from_unix_nanos 9) in
  io_ret (Ok (rr_unclean_previous_shutdown (ps_recovery s))).

Example clean_mark_survives_append : (append_after_clean (empty_world [])).1 = Ok false.
Proof. by vm_compute. Qed.

(** A read error while a store is opened is taken for the end of the file: the
    records from there on are cut off. *)
Definition open_under (faults : list (option nat)) : IO (Result (list StoredRecord)) :=
  try s := store_open "paths.store" demo_options (from_unix_nanos 5) in
  io _ := append s MarkerRecord [4] in
  try _ := (fun w => store_open "paths.store" demo_options (from_unix_nanos 6) (with_faults faults w)) in
  try s := (fun w => store_open "paths.store" demo_options (from_unix_nanos 7) (with_faults [] w)) in
  read_all s.

Example read_error_cuts_records :
  (open_under [] (empty_world [])).1 = Ok [mk_stored MarkerRecord 1 [4]] /\
  (open_under (replicate 10 None ++ [Some 5%nat]) (empty_world [])).1 = Ok [].
Proof. split; by vm_compute. Qed.
