(* ===== verification/Worker.v ===== *)
(** * The worker pool

    Models [include/pathobs/worker.hpp] and [src/worker.cpp].  The mutex makes each
    locked region one step; a worker's loop is a state machine whose steps
    interleave with the calls of the clients.  The condition variable
    [work_available_] is modelled: a worker that finds its predicate false goes to
    sleep, in one step with the release of the mutex, and sleeps until it is woken,
    by a notification or spuriously; then it looks again.  A client notifies after
    its locked region, in a step of its own; until then the pool counts the
    notification as owed.  Nobody waits on [idle_].  A task is a number; what it does is not modelled, only that it runs between two steps of
    its worker.  A cancellation source is a number, fresh for each submission, and
    its flag is an entry of a set. *)

From stdpp Require Import gmap sorting.
From S2P Require Import Prelude Errors.

(** ** Data *)

Record Entry : Set := mk_entry { en_task : nat; en_source : nat }.

#[global] Instance Entry_eq_dec : EqDecision Entry.
Proof. solve_decision. Defined.

(** Where a worker is in [worker_loop]: asleep in the wait; about to look at the
    predicate; an entry in hand before the token is read; in the task; after it;
    after the completion was counted; returned. *)
Inductive Worker : Set :=
  | Waiting
  | Checking
  | Took (e : Entry)
  | Executing (e : Entry)
  | Executed (e : Entry)
  | Counted (e : Entry)
  | Exited.

#[global] Instance Worker_eq_dec : EqDecision Worker.
Proof. solve_decision. Defined.

Record WorkerPool : Set := mk_pool {
  wp_thread_count : nat;
  wp_max_queue : nat;
  wp_queue : list Entry;
  wp_outstanding : list nat;
  wp_workers : list Worker;
  wp_running : bool;
  wp_accepting : bool;
  wp_active : nat;
  wp_completed : Z;
  wp_dropped : Z;
  wp_cancelled : gset nat;
  wp_fresh : nat;
  wp_notify_one : nat;
  wp_notify_all : nat
}.

(** [WorkerPool::WorkerPool] *)
Definition pool_new (threads max_queue : nat) : WorkerPool :=
  mk_pool threads max_queue [] [] [] false false 0 0 0 ∅ 0 0 0.

Definition with_queue (p : WorkerPool) (queue : list Entry) : WorkerPool :=
  mk_pool (wp_thread_count p) (wp_max_queue p) queue (wp_outstanding p) (wp_workers p) (wp_running p)
    (wp_accepting p) (wp_active p) (wp_completed p) (wp_dropped p) (wp_cancelled p) (wp_fresh p)
    (wp_notify_one p) (wp_notify_all p).

Definition with_outstanding (p : WorkerPool) (outstanding : list nat) : WorkerPool :=
  mk_pool (wp_thread_count p) (wp_max_queue p) (wp_queue p) outstanding (wp_workers p) (wp_running p)
    (wp_accepting p) (wp_active p) (wp_completed p) (wp_dropped p) (wp_cancelled p) (wp_fresh p)
    (wp_notify_one p) (wp_notify_all p).

Definition with_worker (p : WorkerPool) (i : nat) (w : Worker) : WorkerPool :=
  mk_pool (wp_thread_count p) (wp_max_queue p) (wp_queue p) (wp_outstanding p) (<[i := w]> (wp_workers p))
    (wp_running p) (wp_accepting p) (wp_active p) (wp_completed p) (wp_dropped p) (wp_cancelled p) (wp_fresh p)
    (wp_notify_one p) (wp_notify_all p).

Definition with_active (p : WorkerPool) (active : nat) : WorkerPool :=
  mk_pool (wp_thread_count p) (wp_max_queue p) (wp_queue p) (wp_outstanding p) (wp_workers p) (wp_running p)
    (wp_accepting p) active (wp_completed p) (wp_dropped p) (wp_cancelled p) (wp_fresh p)
    (wp_notify_one p) (wp_notify_all p).

Definition with_completed (p : WorkerPool) (completed : Z) : WorkerPool :=
  mk_pool (wp_thread_count p) (wp_max_queue p) (wp_queue p) (wp_outstanding p) (wp_workers p) (wp_running p)
    (wp_accepting p) (wp_active p) completed (wp_dropped p) (wp_cancelled p) (wp_fresh p)
    (wp_notify_one p) (wp_notify_all p).

Definition with_dropped (p : WorkerPool) (dropped : Z) : WorkerPool :=
  mk_pool (wp_thread_count p) (wp_max_queue p) (wp_queue p) (wp_outstanding p) (wp_workers p) (wp_running p)
    (wp_accepting p) (wp_active p) (wp_completed p) dropped (wp_cancelled p) (wp_fresh p)
    (wp_notify_one p) (wp_notify_all p).

Definition with_cancelled (p : WorkerPool) (cancelled : gset nat) : WorkerPool :=
  mk_pool (wp_thread_count p) (wp_max_queue p) (wp_queue p) (wp_outstanding p) (wp_workers p) (wp_running p)
    (wp_accepting p) (wp_active p) (wp_completed p) (wp_dropped p) cancelled (wp_fresh p)
    (wp_notify_one p) (wp_notify_all p).

Definition with_running (p : WorkerPool) (running : bool) : WorkerPool :=
  mk_pool (wp_thread_count p) (wp_max_queue p) (wp_queue p) (wp_outstanding p) (wp_workers p) running
    running (wp_active p) (wp_completed p) (wp_dropped p) (wp_cancelled p) (wp_fresh p)
    (wp_notify_one p) (wp_notify_all p).

Definition with_workers (p : WorkerPool) (workers : list Worker) : WorkerPool :=
  mk_pool (wp_thread_count p) (wp_max_queue p) (wp_queue p) (wp_outstanding p) workers (wp_running p)
    (wp_accepting p) (wp_active p) (wp_completed p) (wp_dropped p) (wp_cancelled p) (wp_fresh p)
    (wp_notify_one p) (wp_notify_all p).

Definition with_fresh (p : WorkerPool) (fresh : nat) : WorkerPool :=
  mk_pool (wp_thread_count p) (wp_max_queue p) (wp_queue p) (wp_outstanding p) (wp_workers p) (wp_running p)
    (wp_accepting p) (wp_active p) (wp_completed p) (wp_dropped p) (wp_cancelled p) fresh
    (wp_notify_one p) (wp_notify_all p).

(** The notifications that clients owe after their locked regions. *)
Definition with_notify (p : WorkerPool) (one all : nat) : WorkerPool :=
  mk_pool (wp_thread_count p) (wp_max_queue p) (wp_queue p) (wp_outstanding p) (wp_workers p) (wp_running p)
    (wp_accepting p) (wp_active p) (wp_completed p) (wp_dropped p) (wp_cancelled p) (wp_fresh p) one all.

(** The entry a worker holds until the end of its round. *)
Definition held (w : Worker) : option Entry :=
  match w with
  | Took e | Executing e | Executed e | Counted e => Some e
  | Waiting | Checking | Exited => None
  end.

(** [!weak_ptr::expired]: the source is owned by the queue or by a worker. *)
Definition alive (p : WorkerPool) (source : nat) : bool :=
  bool_decide (source ∈ map en_source (wp_queue p) ++ map en_source (omap held (wp_workers p))).

(** ** Client calls *)

(** [start] destroys threads that were not joined when a shutdown is still
    waiting for them, which ends the program. *)
Inductive StartResult : Set := Started (status : Status) (p : WorkerPool) | Terminates.

(** [WorkerPool::start] *)
Definition start (p : WorkerPool) : StartResult :=
  if wp_running p then Started (Err (error InvalidState "worker pool is already running")) p else
  if (wp_thread_count p =? 0)%nat then
    Started (Err (error InvalidArgument "worker pool needs at least one thread")) p else
  match wp_workers p with
  | _ :: _ => Terminates
  | [] => Started ok (with_workers (with_running p true) (replicate (wp_thread_count p) Checking))
  end.

(** [WorkerPool::compact_outstanding_locked] *)
Definition compact_outstanding_locked (p : WorkerPool) : WorkerPool :=
  if (length (wp_outstanding p) <=? wp_max_queue p * 2 + 64)%nat then p
  else with_outstanding p (List.filter (alive p) (wp_outstanding p)).

(** [WorkerPool::submit], up to the notification; [None] is an empty
    [std::function]. *)
Definition submit (p : WorkerPool) (task : option nat) : Status * WorkerPool :=
  match task with
  | None => (Err (error InvalidArgument "worker pool received an empty task"), p)
  | Some task =>
      if negb (wp_running p) || negb (wp_accepting p) then
        (Err (error ShuttingDown "worker pool is not accepting work"), p) else
      if (wp_max_queue p <=? length (wp_queue p))%nat then
        (Err (error CapacityExceeded "worker pool queue is full"),
         with_dropped p (wrap_u 64 (wp_dropped p + 1))) else
      let source := wp_fresh p in
      let p := with_fresh p (S source) in
      let p := with_queue p (wp_queue p ++ [mk_entry task source]) in
      let p := with_outstanding p (wp_outstanding p ++ [source]) in
      let p := compact_outstanding_locked p in
      (ok, with_notify p (S (wp_notify_one p)) (wp_notify_all p))
  end.

(** [WorkerPool::cancel_pending] *)
Definition cancel_pending (p : WorkerPool) : nat * WorkerPool :=
  (length (wp_queue p),
   with_queue (with_cancelled p (wp_cancelled p ∪ list_to_set (map en_source (wp_queue p)))) []).

(** [WorkerPool::shutdown], up to the notification; [None] when it returns at once. *)
Definition shutdown_begin (p : WorkerPool) (cancel_running : bool) : option WorkerPool :=
  if negb (wp_running p) && bool_decide (wp_workers p = []) then None else
  let p := if cancel_running
           then with_cancelled p (wp_cancelled p ∪ list_to_set (List.filter (alive p) (wp_outstanding p)) ∪
                                  list_to_set (map en_source (wp_queue p)))
           else p in
  Some (with_notify (with_running p false) (wp_notify_one p) (S (wp_notify_all p))).

(** [work_available_.notify_one()] of [submit]: the system wakes one of the workers
    that sleep, if any does. *)
Definition notify_one (p : WorkerPool) (woken : option nat) : option WorkerPool :=
  if (wp_notify_one p =? 0)%nat then None else
  let p := with_notify p (wp_notify_one p - 1) (wp_notify_all p) in
  match woken with
  | Some i => if bool_decide (wp_workers p !! i = Some Waiting) then Some (with_worker p i Checking) else None
  | None => if bool_decide (Waiting ∈ wp_workers p) then None else Some p
  end.

(** [work_available_.notify_all()] of [shutdown]. *)
Definition wake (w : Worker) : Worker := match w with Waiting => Checking | _ => w end.

Definition notify_all (p : WorkerPool) : option WorkerPool :=
  if (wp_notify_all p =? 0)%nat then None else
  Some (with_notify (with_workers p (map wake (wp_workers p))) (wp_notify_one p) (wp_notify_all p - 1)).

(** [shutdown], once every thread was joined. *)
Definition shutdown_end (p : WorkerPool) : WorkerPool :=
  with_outstanding (with_queue (with_workers p []) []) [].

(** [pending] and [active] *)
Definition pending (p : WorkerPool) : nat := length (wp_queue p).
Definition active (p : WorkerPool) : nat := wp_active p.

(** ** Workers *)

(** [worker_loop]: the next step of a worker, [None] while it sleeps, is in its
    task, or has returned. *)
Definition worker_step (p : WorkerPool) (i : nat) : option WorkerPool :=
  match wp_workers p !! i with
  | Some Checking =>
      match wp_queue p with
      | entry :: queue => Some (with_active (with_worker (with_queue p queue) i (Took entry)) (S (wp_active p)))
      | [] => Some (with_worker p i (if negb (wp_running p) then Exited else Waiting))
      end
  | Some (Took e) =>
      Some (with_worker p i (if bool_decide (en_source e ∈ wp_cancelled p) then Executed e else Executing e))
  | Some (Executed e) => Some (with_completed (with_worker p i (Counted e)) (wrap_u 64 (wp_completed p + 1)))
  | Some (Counted _) => Some (with_active (with_worker p i Checking) (wp_active p - 1))
  | _ => None
  end.

(** A sleeping worker wakes without a notification. *)
Definition spurious_wake (p : WorkerPool) (i : nat) : option WorkerPool :=
  if bool_decide (wp_workers p !! i = Some Waiting) then Some (with_worker p i Checking) else None.

(** The task of a worker returns. *)
Definition task_returns (p : WorkerPool) (i : nat) : option WorkerPool :=
  match wp_workers p !! i with
  | Some (Executing e) => Some (with_worker p i (Executed e))
  | _ => None
  end.

(** ** The system *)

(** What happens to a submission, named by its source. *)
Inductive Event : Set :=
  | Submitted (source : nat)
  | Taken (source : nat)
  | Finished (source : nat)
  | Discarded (source : nat).

Definition submitted (tr : list Event) : list nat := omap (fun e => match e with Submitted s => Some s | _ => None end) tr.
Definition taken (tr : list Event) : list nat := omap (fun e => match e with Taken s => Some s | _ => None end) tr.
Definition finished (tr : list Event) : list nat := omap (fun e => match e with Finished s => Some s | _ => None end) tr.
Definition discarded (tr : list Event) : list nat := omap (fun e => match e with Discarded s => Some s | _ => None end) tr.

(** The event of a worker's next step. *)
Definition worker_events (p : WorkerPool) (i : nat) : list Event :=
  match wp_workers p !! i with
  | Some Checking => match wp_queue p with entry :: _ => [Taken (en_source entry)] | [] => [] end
  | Some (Executed e) => [Finished (en_source e)]
  | _ => []
  end.

Definition queue_sources (p : WorkerPool) : list nat := map en_source (wp_queue p).

(** One step of a client or of a worker.  [shutdown_end] follows once every
    thread has returned. *)
Inductive step : WorkerPool -> list Event -> WorkerPool -> Prop :=
  | step_start p status p' : start p = Started status p' -> step p [] p'
  | step_submit p task p' : submit p task = (ok, p') -> step p [Submitted (wp_fresh p)] p'
  | step_submit_refused p task e p' : submit p task = (Err e, p') -> step p [] p'
  | step_cancel p : step p (map Discarded (queue_sources p)) (cancel_pending p).2
  | step_shutdown_begin p cancel p' : shutdown_begin p cancel = Some p' -> step p [] p'
  | step_shutdown_end p :
      wp_running p = false -> Forall (eq Exited) (wp_workers p) ->
      step p (map Discarded (queue_sources p)) (shutdown_end p)
  | step_worker p i p' : worker_step p i = Some p' -> step p (worker_events p i) p'
  | step_task p i p' : task_returns p i = Some p' -> step p [] p'
  | step_notify_one p woken p' : notify_one p woken = Some p' -> step p [] p'
  | step_notify_all p p' : notify_all p = Some p' -> step p [] p'
  | step_spurious p i p' : spurious_wake p i = Some p' -> step p [] p'.

(** A run of a new pool, with what happened in it, oldest first. *)
Inductive run (threads max_queue : nat) : list Event -> WorkerPool -> Prop :=
  | run_new : run threads max_queue [] (pool_new threads max_queue)
  | run_step tr p events p' :
      run threads max_queue tr p -> step p events p' -> run threads max_queue (tr ++ events) p'.

(** ** Bounds *)

Definition held_entries (p : WorkerPool) : list Entry := omap held (wp_workers p).

Record pool_bounds (threads max_queue : nat) (p : WorkerPool) : Prop := {
  pb_threads : wp_thread_count p = threads;
  pb_max_queue : wp_max_queue p = max_queue;
  pb_queue : (length (wp_queue p) <= max_queue)%nat;
  pb_workers : (length (wp_workers p) <= threads)%nat;
  pb_active : wp_active p = length (held_entries p);
  pb_accepting : wp_accepting p = wp_running p;
  pb_exited : Exited ∈ wp_workers p -> wp_running p = false /\ wp_queue p = [];
  pb_outstanding_fresh : Forall (fun s => (s < wp_fresh p)%nat) (wp_outstanding p);
  pb_outstanding_unique : NoDup (wp_outstanding p);
  pb_outstanding : (length (wp_outstanding p) <= Nat.max (max_queue * 2 + 64) (max_queue + threads))%nat
}.

Lemma held_entries_le p : (length (held_entries p) <= length (wp_workers p))%nat.
Proof.
  unfold held_entries. induction (wp_workers p) as [|w ws IH]; [done |].
  cbn. destruct (held w); cbn; lia.
Qed.

(** Changing a worker changes what is held by what it held and holds. *)
Lemma length_omap_insert ws i w w' :
  ws !! i = Some w ->
  (length (omap held (<[i := w']> ws)) + length (option_list (held w)) =
   length (omap held ws) + length (option_list (held w')))%nat.
Proof.
  revert i. induction ws as [|x ws IH]; intros i; [done |]. destruct i as [|i].
  - intros [= ->]. change (<[0%nat := w']> (w :: ws)) with (w' :: ws).
    cbn [omap list_omap]. destruct (held w), (held w'); cbn; lia.
  - change ((x :: ws) !! S i) with (ws !! i). change (<[S i := w']> (x :: ws)) with (x :: <[i := w']> ws).
    intros H. specialize (IH _ H). cbn [omap list_omap]. destruct (held x); cbn [length]; lia.
Qed.

Lemma elem_of_insert_inv {A} (x y : A) (l : list A) (i : nat) : x ∈ <[i := y]> l -> x = y \/ x ∈ l.
Proof.
  intros H. apply list_elem_of_lookup in H as [k Hk]. apply list_lookup_insert_Some in Hk as [(_ & -> & _)|(_ & Hk)].
  - by left.
  - right. by eapply list_elem_of_lookup_2.
Qed.

Lemma filter_alive_length p :
  NoDup (wp_outstanding p) ->
  (length (List.filter (alive p) (wp_outstanding p)) <= length (wp_queue p) + length (held_entries p))%nat.
Proof.
  intros Hn. rewrite <- (length_map en_source (wp_queue p)), <- (length_map en_source (held_entries p)), <- length_app.
  apply submseteq_length, NoDup_submseteq.
  - rewrite NoDup_ListNoDup in *. by apply List.NoDup_filter.
  - intros s Hs. apply list_elem_of_In, List.filter_In in Hs as [_ Hs].
    unfold alive in Hs. by apply bool_decide_eq_true in Hs.
Qed.

Lemma pool_bounds_new threads max_queue : pool_bounds threads max_queue (pool_new threads max_queue).
Proof. split; cbn; try done; try lia; constructor. Qed.

Lemma omap_checking n : omap held (replicate n Checking) = [].
Proof. induction n as [|n IH]; [done |]. cbn [replicate omap list_omap held]. exact IH. Qed.

Lemma start_bounds threads max_queue p status p' :
  pool_bounds threads max_queue p -> start p = Started status p' -> pool_bounds threads max_queue p'.
Proof.
  intros Hp H. unfold start in H.
  destruct (wp_running p) eqn:Er; [by injection H as _ <- |].
  destruct (Nat.eqb_spec (wp_thread_count p) 0); [by injection H as _ <- |].
  destruct (wp_workers p) eqn:Ew; [| done]. injection H as _ <-. destruct Hp.
  split; cbn; try done.
  - rewrite length_replicate. lia.
  - unfold held_entries in *. cbn. rewrite omap_checking. rewrite Ew in *. done.
  - intros Hx%elem_of_replicate. by destruct Hx.
Qed.

Lemma compact_bounds threads max_queue p :
  wp_thread_count p = threads -> wp_max_queue p = max_queue -> (length (wp_queue p) <= max_queue)%nat ->
  (length (held_entries p) <= threads)%nat -> NoDup (wp_outstanding p) ->
  let p' := compact_outstanding_locked p in
  NoDup (wp_outstanding p') /\ (forall s, s ∈ wp_outstanding p' -> s ∈ wp_outstanding p) /\
  (length (wp_outstanding p') <= Nat.max (max_queue * 2 + 64) (max_queue + threads))%nat.
Proof.
  intros Ht Hm Hq Hh Hn. cbv zeta. unfold compact_outstanding_locked.
  destruct (Nat.leb_spec (length (wp_outstanding p)) (wp_max_queue p * 2 + 64)) as [Hl|Hl].
  - split_and!; [done | done | lia].
  - cbn. split_and!.
    + rewrite NoDup_ListNoDup in *. by apply List.NoDup_filter.
    + intros s Hs. rewrite !list_elem_of_In in *. by apply List.filter_In in Hs as [? _].
    + pose proof (filter_alive_length p Hn). lia.
Qed.

Lemma compact_fields p :
  let p' := compact_outstanding_locked p in
  wp_thread_count p' = wp_thread_count p /\ wp_max_queue p' = wp_max_queue p /\ wp_queue p' = wp_queue p /\
  wp_workers p' = wp_workers p /\ wp_running p' = wp_running p /\ wp_accepting p' = wp_accepting p /\
  wp_active p' = wp_active p /\ wp_fresh p' = wp_fresh p.
Proof. cbv zeta. unfold compact_outstanding_locked. by destruct (_ <=? _)%nat. Qed.

(** Notifications are not among the bounds. *)
Lemma with_notify_bounds threads max_queue p one all :
  pool_bounds threads max_queue p -> pool_bounds threads max_queue (with_notify p one all).
Proof. by intros []. Qed.

Lemma submit_bounds threads max_queue p task status p' :
  pool_bounds threads max_queue p -> submit p task = (status, p') -> pool_bounds threads max_queue p'.
Proof.
  intros Hp H. unfold submit in H. destruct task as [task|]; [| by injection H as _ <-].
  destruct (negb (wp_running p) || negb (wp_accepting p)) eqn:Er; [by injection H as _ <- |].
  apply orb_false_iff in Er as [Er _]. apply negb_false_iff in Er.
  destruct (Nat.leb_spec (wp_max_queue p) (length (wp_queue p))) as [|Hroom].
  { injection H as _ <-. by destruct Hp. }
  injection H as _ <-. apply with_notify_bounds. destruct Hp.
  set (q := with_outstanding _ _).
  pose proof (held_entries_le p) as Hheld.
  destruct (compact_bounds threads max_queue q) as (Hn & Hin & Hlen).
  { done. }
  { done. }
  { cbn. rewrite length_app. cbn. lia. }
  { change (held_entries q) with (held_entries p). lia. }
  { cbn. apply list.NoDup_app. split_and!; [done | | apply NoDup_singleton].
    intros s Hs ->%list_elem_of_singleton. rewrite Forall_elem in pb_outstanding_fresh0.
    specialize (pb_outstanding_fresh0 _ Hs). lia. }
  destruct (compact_fields q) as (E1 & E2 & E3 & E4 & E5 & E6 & E7 & E8).
  split; unfold held_entries; rewrite ?E1, ?E2, ?E3, ?E4, ?E5, ?E6, ?E7, ?E8; cbn; try done.
  - rewrite length_app. cbn. lia.
  - intros Hx. destruct (pb_exited0 Hx) as [Hf _]. by rewrite Hf in Er.
  - apply Forall_elem. intros s Hs. apply Hin in Hs. cbn in Hs.
    apply elem_of_app in Hs as [Hs | ->%list_elem_of_singleton]; [| lia].
    rewrite Forall_elem in pb_outstanding_fresh0. specialize (pb_outstanding_fresh0 _ Hs). lia.
Qed.

Lemma shutdown_begin_bounds threads max_queue p cancel p' :
  pool_bounds threads max_queue p -> shutdown_begin p cancel = Some p' -> pool_bounds threads max_queue p'.
Proof.
  intros [] H. unfold shutdown_begin in H. destruct (_ && _); [done |].
  destruct cancel; injection H as <-; split; cbn; try done; intros Hx; destruct (pb_exited0 Hx); by split.
Qed.

(** Moving one worker on. *)
Lemma with_worker_exited p i w :
  w <> Exited -> Exited ∈ <[i := w]> (wp_workers p) -> Exited ∈ wp_workers p.
Proof. intros Hw Hx. destruct (elem_of_insert_inv _ _ _ _ Hx) as [E|E]; [by subst | done]. Qed.

Lemma with_worker_bounds threads max_queue p i w w' :
  pool_bounds threads max_queue p -> wp_workers p !! i = Some w -> w' <> Exited ->
  length (option_list (held w)) = length (option_list (held w')) ->
  pool_bounds threads max_queue (with_worker p i w').
Proof.
  intros Hp Hi Hw Hh. pose proof (length_omap_insert (wp_workers p) i w w' Hi) as Hheld. destruct Hp.
  unfold held_entries in *. split; cbn; try done; [by rewrite length_insert | unfold held_entries; cbn; lia |].
  intros Hx%with_worker_exited; [by apply pb_exited0 | done].
Qed.

(** Waking changes nothing that neither sleepers nor those who look have. *)
Lemma omap_wake {B} (f : Worker -> option B) ws :
  f Waiting = None -> f Checking = None -> omap f (map wake ws) = omap f ws.
Proof. intros H1 H2. induction ws as [|w ws IH]; [done |]. destruct w; cbn; rewrite ?H1, ?H2, IH; done. Qed.

Lemma exited_wake ws : Exited ∈ map wake ws -> Exited ∈ ws.
Proof. intros (w & E & Hw)%list_elem_of_fmap. destruct w; first [discriminate E | exact Hw]. Qed.

Lemma notify_one_bounds threads max_queue p woken p' :
  pool_bounds threads max_queue p -> notify_one p woken = Some p' -> pool_bounds threads max_queue p'.
Proof.
  intros Hp H. unfold notify_one in H. destruct (_ =? 0)%nat; [done |]. destruct woken as [i |].
  - destruct (bool_decide_reflect (wp_workers (with_notify p (wp_notify_one p - 1) (wp_notify_all p)) !! i = Some Waiting));
      [| done]. injection H as <-.
    by apply (with_worker_bounds _ _ _ i Waiting Checking); [apply with_notify_bounds | ..].
  - destruct (bool_decide _); [done |]. injection H as <-. by apply with_notify_bounds.
Qed.

Lemma notify_all_bounds threads max_queue p p' :
  pool_bounds threads max_queue p -> notify_all p = Some p' -> pool_bounds threads max_queue p'.
Proof.
  intros [] H. unfold notify_all in H. destruct (_ =? 0)%nat; [done |]. injection H as <-.
  split; unfold held_entries in *; cbn; rewrite ?length_map, ?omap_wake; try done. intros Hx%exited_wake. by apply pb_exited0.
Qed.

Lemma spurious_wake_bounds threads max_queue p i p' :
  pool_bounds threads max_queue p -> spurious_wake p i = Some p' -> pool_bounds threads max_queue p'.
Proof.
  intros Hp H. unfold spurious_wake in H. destruct (bool_decide_reflect (wp_workers p !! i = Some Waiting)); [| done].
  injection H as <-. by apply (with_worker_bounds _ _ _ i Waiting Checking).
Qed.

Lemma worker_step_bounds threads max_queue p i p' :
  pool_bounds threads max_queue p -> worker_step p i = Some p' -> pool_bounds threads max_queue p'.
Proof.
  intros Hp H. unfold worker_step in H. destruct (wp_workers p !! i) as [w|] eqn:Hi; [| done].
  assert (forall w', (length (omap held (<[i := w']> (wp_workers p))) + length (option_list (held w)) =
    wp_active p + length (option_list (held w')))%nat) as Hheld.
  { intros w'. rewrite (pb_active _ _ _ Hp). by apply length_omap_insert. }
  destruct w as [| |e|e|e|e|]; try done.
  - destruct (wp_queue p) as [|entry queue] eqn:Eq; [destruct (wp_running p) eqn:Er |]; cbn [negb] in H.
    + injection H as <-. by apply (with_worker_bounds _ _ p i _ _ Hp Hi).
    + destruct Hp. injection H as <-. specialize (Hheld Exited). cbn in Hheld.
      split; cbn; rewrite ?length_insert, ?Eq, ?Er; try done; unfold held_entries; cbn; first [congruence | lia].
    + destruct Hp. injection H as <-. specialize (Hheld (Took entry)). cbn in Hheld. rewrite Eq in *.
      split; cbn; try done; [simpl in *; lia | by rewrite length_insert | unfold held_entries; cbn; lia |].
      intros Hx%with_worker_exited; [| done]. by destruct (pb_exited0 Hx).
  - injection H as <-. apply (with_worker_bounds _ _ p i _ _ Hp Hi); by destruct (bool_decide _).
  - injection H as <-. by destruct (with_worker_bounds _ _ p i _ (Counted e) Hp Hi ltac:(done) eq_refl).
  - injection H as <-. specialize (Hheld Checking). cbn in Hheld. destruct Hp.
    split; cbn; try done; [by rewrite length_insert | unfold held_entries; cbn; lia |].
    intros Hx%with_worker_exited; [by apply pb_exited0 | done].
Qed.

Lemma all_exited_held ws : Forall (eq Exited) ws -> omap held ws = [].
Proof. induction 1 as [|w ws <- _ IH]; [done |]. exact IH. Qed.

Lemma step_bounds threads max_queue p events p' :
  pool_bounds threads max_queue p -> step p events p' -> pool_bounds threads max_queue p'.
Proof.
  intros Hp H. destruct H as [p st p' H|p t p' H|p t e p' H|p|p c p' H|p Hr Hx|p i p' H|p i p' H|p w p' H|p p' H|p i p' H].
  - by eapply start_bounds.
  - by eapply submit_bounds.
  - by eapply submit_bounds.
  - destruct Hp. split; cbn; try done; [lia |]. intros Hx. by destruct (pb_exited0 Hx).
  - by eapply shutdown_begin_bounds.
  - destruct Hp. split; cbn; try done; try lia; [| constructor].
    rewrite pb_active0. unfold held_entries. by rewrite all_exited_held.
  - by eapply worker_step_bounds.
  - unfold task_returns in H. destruct (wp_workers p !! i) as [[]|] eqn:Hi; try done. injection H as <-.
    by apply (with_worker_bounds _ _ p i _ _ Hp Hi).
  - by eapply notify_one_bounds.
  - by eapply notify_all_bounds.
  - by eapply spurious_wake_bounds.
Qed.

Lemma run_bounds threads max_queue tr p : run threads max_queue tr p -> pool_bounds threads max_queue p.
Proof. induction 1; [apply pool_bounds_new | by eapply step_bounds]. Qed.

(** ** Fates *)

(** An entry that was taken and whose completion is not counted yet. *)
Definition uncounted (w : Worker) : option Entry :=
  match w with Took e | Executing e | Executed e => Some e | _ => None end.

Definition in_hand (p : WorkerPool) : list nat := map en_source (omap uncounted (wp_workers p)).

(** The sources are numbered by submission; each is queued, taken or discarded,
    and those taken are in hand or finished; taking follows submission. *)
Record pool_trace (tr : list Event) (p : WorkerPool) : Prop := {
  pt_submitted : submitted tr = seq 0 (wp_fresh p);
  pt_fate : submitted tr ≡ₚ queue_sources p ++ taken tr ++ discarded tr;
  pt_taken : taken tr ≡ₚ in_hand p ++ finished tr;
  pt_fifo : StronglySorted lt (taken tr ++ queue_sources p);
  pt_completed : wp_completed p = wrap_u 64 (Z.of_nat (length (finished tr)))
}.

Lemma strongly_sorted_snoc (l : list nat) x :
  StronglySorted lt l -> Forall (fun y => (y < x)%nat) l -> StronglySorted lt (l ++ [x]).
Proof.
  intros Hs Hf. induction Hs as [|y l Hs IH Hy]; cbn; [repeat constructor |].
  inversion Hf; subst. constructor; [by apply IH |]. apply Forall_app_2; [done | by constructor].
Qed.

Lemma strongly_sorted_prefix (l k : list nat) : StronglySorted lt (l ++ k) -> StronglySorted lt l.
Proof.
  induction l as [|x l IH]; intros H; [constructor |]. inversion H as [|? ? Hs Hf]; subst.
  constructor; [by apply IH |]. by apply Forall_app in Hf as [? _].
Qed.

(** Changing a worker changes what is in hand by what it had and has. *)
Lemma omap_uncounted_insert ws i w w' :
  ws !! i = Some w ->
  option_list (uncounted w) ++ omap uncounted (<[i := w']> ws) ≡ₚ
  option_list (uncounted w') ++ omap uncounted ws.
Proof.
  revert i. induction ws as [|x ws IH]; intros i; [done |]. destruct i as [|i].
  - intros [= ->]. change (<[0%nat := w']> (w :: ws)) with (w' :: ws).
    cbn [omap list_omap]. destruct (uncounted w), (uncounted w'); cbn; try done. by constructor.
  - change ((x :: ws) !! S i) with (ws !! i). change (<[S i := w']> (x :: ws)) with (x :: <[i := w']> ws).
    intros H. specialize (IH _ H). cbn [omap list_omap]. destruct (uncounted x) as [e|]; [| done].
    by rewrite <- !Permutation_middle, IH.
Qed.

Lemma in_hand_insert p i w w' :
  wp_workers p !! i = Some w ->
  map en_source (option_list (uncounted w)) ++ in_hand (with_worker p i w') ≡ₚ
  map en_source (option_list (uncounted w')) ++ in_hand p.
Proof.
  intros H. unfold in_hand. rewrite <- !map_app. cbn. by rewrite (omap_uncounted_insert _ _ _ w' H).
Qed.

Lemma discarded_events l :
  submitted (map Discarded l) = [] /\ taken (map Discarded l) = [] /\ finished (map Discarded l) = [] /\
  discarded (map Discarded l) = l.
Proof.
  split_and!; induction l as [|x l IH]; try done.
  unfold discarded. cbn [map omap list_omap]. f_equal. exact IH.
Qed.

(** A step that keeps the queue, the entries in hand and the counters keeps the trace. *)
Lemma pool_trace_same tr p p' :
  pool_trace tr p -> wp_queue p' = wp_queue p -> in_hand p' ≡ₚ in_hand p -> wp_fresh p' = wp_fresh p ->
  wp_completed p' = wp_completed p -> pool_trace (tr ++ []) p'.
Proof.
  intros [H1 H2 H3 H4 H5] Eq Eh Ef Ec. rewrite app_nil_r. unfold queue_sources in *.
  split; unfold queue_sources; rewrite ?Eq, ?Ef, ?Ec, ?Eh; done.
Qed.

Lemma queue_sources_fresh tr p s :
  pool_trace tr p -> s ∈ taken tr ++ queue_sources p -> (s < wp_fresh p)%nat.
Proof.
  intros Hp Hs. assert (s ∈ submitted tr) as Hin.
  { rewrite (pt_fate _ _ Hp). set_solver. }
  rewrite (pt_submitted _ _ Hp) in Hin. apply elem_of_seq in Hin. lia.
Qed.

Lemma with_notify_trace tr p one all : pool_trace tr p -> pool_trace tr (with_notify p one all).
Proof. by intros []. Qed.

Lemma submit_trace tr p task p' :
  pool_trace tr p -> submit p task = (ok, p') -> pool_trace (tr ++ [Submitted (wp_fresh p)]) p'.
Proof.
  intros Hp H. unfold submit in H. destruct task as [task|]; [| done]. destruct (_ || _); [done |].
  destruct (_ <=? _)%nat; [done |]. injection H as <-. apply with_notify_trace. set (q := with_outstanding _ _).
  pose proof (fun s => queue_sources_fresh tr p s Hp) as Hfresh. destruct Hp as [H1 H2 H3 H4 H5].
  destruct (compact_fields q) as (_ & _ & Eq & Ew & _ & _ & _ & Ef).
  assert (wp_completed (compact_outstanding_locked q) = wp_completed p) as Ec
    by (unfold compact_outstanding_locked; by destruct (_ <=? _)%nat).
  assert (queue_sources (compact_outstanding_locked q) = queue_sources p ++ [wp_fresh p]) as Eqs.
  { unfold queue_sources. rewrite Eq. cbn. by rewrite map_app. }
  unfold submitted, taken, finished, discarded in *.
  split; unfold submitted, taken, finished, discarded; rewrite ?omap_app, ?Eqs, ?Ef, ?Ec; cbn [omap list_omap]; rewrite ?app_nil_r.
  - rewrite H1. change (wp_fresh q) with (S (wp_fresh p)). by rewrite seq_S.
  - rewrite H2. rewrite <- !app_assoc. apply Permutation_app_head. cbn.
    by rewrite (app_assoc _ _ [wp_fresh p]), (Permutation_app_comm _ [wp_fresh p]).
  - unfold in_hand. rewrite Ew. exact H3.
  - rewrite app_assoc. apply strongly_sorted_snoc; [done |]. apply Forall_elem. exact Hfresh.
  - exact H5.
Qed.

Lemma discard_trace tr p p' :
  pool_trace tr p -> wp_queue p' = [] -> in_hand p' = in_hand p -> wp_fresh p' = wp_fresh p ->
  wp_completed p' = wp_completed p -> pool_trace (tr ++ map Discarded (queue_sources p)) p'.
Proof.
  intros [H1 H2 H3 H4 H5] Eq Eh Ef Ec.
  destruct (discarded_events (queue_sources p)) as (E1 & E2 & E3 & E4).
  unfold submitted, taken, finished, discarded in *. assert (queue_sources p' = []) as Eqs by (unfold queue_sources; by rewrite Eq).
  split; unfold submitted, taken, finished, discarded; rewrite ?omap_app, ?E1, ?E2, ?E3, ?E4, ?Eqs, ?Ef, ?Ec, ?Eh, ?app_nil_r; try done.
  - rewrite H2. cbn. rewrite (Permutation_app_comm (queue_sources p)). by rewrite <- app_assoc.
  - by apply strongly_sorted_prefix in H4.
Qed.

Lemma worker_step_trace tr p i p' :
  pool_trace tr p -> worker_step p i = Some p' -> pool_trace (tr ++ worker_events p i) p'.
Proof.
  intros Hp H. unfold worker_step in H. unfold worker_events.
  destruct (wp_workers p !! i) as [w|] eqn:Hi; [| done].
  pose proof (fun w' => in_hand_insert p i w w' Hi) as Hhand.
  destruct w as [| |e|e|e|e|]; try done.
  - destruct (wp_queue p) as [|entry queue] eqn:Eq.
    + injection H as <-. apply (pool_trace_same tr p); try done. specialize (Hhand (if negb (wp_running p) then Exited else Waiting)).
      by destruct (wp_running p).
    + injection H as <-. specialize (Hhand (Took entry)). cbn in Hhand. destruct Hp as [H1 H2 H3 H4 H5].
      unfold queue_sources in *. rewrite Eq in *. cbn [map] in *.
      unfold submitted, taken, finished, discarded in *.
      split; unfold submitted, taken, finished, discarded; rewrite ?omap_app; cbn [omap list_omap]; rewrite ?app_nil_r; try done.
      * rewrite H2. unfold queue_sources. cbn. rewrite <- app_assoc. cbn. by rewrite <- !Permutation_middle.
      * rewrite H3. change (in_hand (with_active _ _)) with (in_hand (with_worker p i (Took entry))).
        rewrite Hhand. cbn. by rewrite Permutation_app_comm.
      * unfold queue_sources. cbn. by rewrite <- app_assoc.
  - injection H as <-. apply (pool_trace_same tr p); try done.
    specialize (Hhand (if bool_decide (en_source e ∈ wp_cancelled p) then Executed e else Executing e)).
    destruct (bool_decide _); cbn in Hhand; by apply Permutation_cons_inv in Hhand.
  - injection H as <-. specialize (Hhand (Counted e)). cbn in Hhand. destruct Hp as [H1 H2 H3 H4 H5].
    unfold submitted, taken, finished, discarded in *.
    split; unfold submitted, taken, finished, discarded; rewrite ?omap_app; cbn [omap list_omap]; rewrite ?app_nil_r; try done.
    + rewrite H3, <- Hhand. cbn. rewrite (app_assoc _ _ [_]). by rewrite (Permutation_app_comm _ [en_source e]).
    + cbn. rewrite H5, length_app. cbn. rewrite Nat2Z.inj_add. unfold wrap_u.
      rewrite !Z.land_ones by lia. by rewrite Z.add_mod_idemp_l by lia.
  - injection H as <-. apply (pool_trace_same tr p); try done. exact (Hhand Checking).
Qed.

Lemma in_hand_wake p q : wp_workers q = map wake (wp_workers p) -> in_hand q = in_hand p.
Proof.
  intros E. unfold in_hand. by rewrite E, omap_wake.
Qed.

(** Waking workers moves no task. *)
Lemma woken_trace tr p p' :
  pool_trace tr p -> (exists woken, notify_one p woken = Some p') \/ notify_all p = Some p' \/ (exists i, spurious_wake p i = Some p') ->
  pool_trace (tr ++ []) p'.
Proof.
  intros Hp H. unfold notify_one, notify_all, spurious_wake in H.
  destruct H as [[[i |] H] | [H | [i H]]].
  - destruct (_ =? 0)%nat; [done |].
    destruct (bool_decide_reflect (wp_workers (with_notify p (wp_notify_one p - 1) (wp_notify_all p)) !! i = Some Waiting)) as [Hi |];
      [| done]. injection H as <-. apply (pool_trace_same tr p); try done.
    exact (in_hand_insert (with_notify p (wp_notify_one p - 1) (wp_notify_all p)) i Waiting Checking Hi).
  - destruct (_ =? 0)%nat; [done |]. destruct (bool_decide _); [done |]. injection H as <-. by apply (pool_trace_same tr p).
  - destruct (_ =? 0)%nat; [done |]. injection H as <-. apply (pool_trace_same tr p); try done. by rewrite (in_hand_wake p).
  - destruct (bool_decide_reflect (wp_workers p !! i = Some Waiting)) as [Hi |]; [| done]. injection H as <-.
    apply (pool_trace_same tr p); try done. exact (in_hand_insert p i Waiting Checking Hi).
Qed.

Lemma all_exited_in_hand p : Forall (eq Exited) (wp_workers p) -> in_hand p = [].
Proof.
  intros H. unfold in_hand. assert (omap uncounted (wp_workers p) = []) as ->; [| done].
  induction H as [|w ws <- _ IH]; [done |]. exact IH.
Qed.

Lemma step_trace tr p events p' :
  pool_trace tr p -> step p events p' -> pool_trace (tr ++ events) p'.
Proof.
  intros Hp H. destruct H as [p st p' H|p t p' H|p t e p' H|p|p c p' H|p Hr Hx|p i p' H|p i p' H|p w p' H|p p' H|p i p' H].
  - unfold start in H. destruct (wp_running p); [injection H as _ <-; by apply (pool_trace_same tr p) |].
    destruct (_ =? 0)%nat; [injection H as _ <-; by apply (pool_trace_same tr p) |].
    destruct (wp_workers p) eqn:Ew; [| done]. injection H as _ <-. apply (pool_trace_same tr p); try done.
    unfold in_hand. rewrite Ew. cbn.
    by induction (wp_thread_count p) as [|n IH].
  - by eapply submit_trace.
  - unfold submit in H. destruct t; [| injection H as _ <-; by apply (pool_trace_same tr p)].
    destruct (_ || _); [injection H as _ <-; by apply (pool_trace_same tr p) |].
    destruct (_ <=? _)%nat; [injection H as _ <-; by apply (pool_trace_same tr p) | done].
  - by apply discard_trace.
  - unfold shutdown_begin in H. destruct (_ && _); [done |].
    destruct c; injection H as <-; by apply (pool_trace_same tr p).
  - apply discard_trace; try done. cbn. symmetry. by apply all_exited_in_hand.
  - by apply worker_step_trace.
  - unfold task_returns in H. destruct (wp_workers p !! i) as [[]|] eqn:Hi; try done. injection H as <-.
    apply (pool_trace_same tr p); try done.
    pose proof (in_hand_insert p i _ (Executed e) Hi) as Hh. cbn in Hh. by apply Permutation_cons_inv in Hh.
  - eapply woken_trace; eauto.
  - eapply woken_trace; eauto.
  - eapply woken_trace; eauto.
Qed.

Lemma run_trace threads max_queue tr p : run threads max_queue tr p -> pool_trace tr p.
Proof. induction 1; [split; try done; constructor | by eapply step_trace]. Qed.

(** ** No wakeup is lost *)

(** A pool without workers is stopped and empty; whoever sleeps although the pool
    was stopped is owed a notification; and when work is queued, one is owed or
    somebody is awake. *)
Record pool_wakes (p : WorkerPool) : Prop := {
  wk_workers : wp_workers p = [] -> wp_running p = false /\ wp_queue p = [];
  wk_stopped : wp_running p = false -> Waiting ∈ wp_workers p -> (0 < wp_notify_all p)%nat;
  wk_queued : wp_queue p <> [] ->
    (0 < wp_notify_one p + wp_notify_all p)%nat \/ exists w, w ∈ wp_workers p /\ w <> Waiting
}.

Lemma insert_not_nil {A} (l : list A) i x y : l !! i = Some x -> <[i := y]> l <> [].
Proof. destruct l; [done |]. by destruct i. Qed.

Lemma elem_of_insert_self {A} (l : list A) i x y : l !! i = Some x -> y ∈ <[i := y]> l.
Proof. intros H. apply (list_elem_of_lookup_2 _ i). by apply list_lookup_insert_eq, lookup_lt_is_Some_1; exists x. Qed.

(** A worker that moves on stays awake, or goes to sleep over an empty queue of a
    running pool. *)
Lemma awake_wakes p q i w w' :
  pool_wakes p -> wp_workers p !! i = Some w -> wp_workers q = <[i := w']> (wp_workers p) -> w' <> Waiting ->
  wp_running q = wp_running p -> wp_notify_all q = wp_notify_all p -> pool_wakes q.
Proof.
  intros [H1 H2 H3] Hi Ew Hw Er Ea. split; rewrite ?Ew, ?Er, ?Ea.
  - intros E. by destruct (insert_not_nil (wp_workers p) i w w' Hi).
  - intros Hr Hx. apply H2; [done |]. destruct (elem_of_insert_inv _ _ _ _ Hx) as [E | E]; [by subst | done].
  - intros _. right. exists w'. split; [| done]. by eapply elem_of_insert_self.
Qed.

Lemma worker_step_wakes p i p' : pool_wakes p -> worker_step p i = Some p' -> pool_wakes p'.
Proof.
  intros Hp H. unfold worker_step in H. destruct (wp_workers p !! i) as [w|] eqn:Hi; [| done].
  destruct w as [| |e|e|e|e|]; try done.
  - destruct (wp_queue p) as [|entry queue] eqn:Eq; [destruct (wp_running p) eqn:Er |]; cbn [negb] in H; injection H as <-.
    + destruct Hp as [H1 H2 H3]. split; cbn; rewrite ?Er, ?Eq; try done.
      intros E. by destruct (insert_not_nil (wp_workers p) i _ Waiting Hi).
    + by apply (awake_wakes p _ i Checking Exited).
    + by apply (awake_wakes p _ i Checking (Took entry)).
  - destruct (bool_decide _); injection H as <-; [by apply (awake_wakes p _ i (Took e) (Executed e)) |].
    by apply (awake_wakes p _ i (Took e) (Executing e)).
  - injection H as <-. by apply (awake_wakes p _ i (Executed e) (Counted e)).
  - injection H as <-. by apply (awake_wakes p _ i (Counted e) Checking).
Qed.

Lemma task_returns_wakes p i p' : pool_wakes p -> task_returns p i = Some p' -> pool_wakes p'.
Proof.
  intros Hp H. unfold task_returns in H. destruct (wp_workers p !! i) as [[]|] eqn:Hi; try done. injection H as <-.
  by apply (awake_wakes p _ i (Executing e) (Executed e)).
Qed.

Lemma spurious_wake_wakes p i p' : pool_wakes p -> spurious_wake p i = Some p' -> pool_wakes p'.
Proof.
  intros Hp H. unfold spurious_wake in H. destruct (bool_decide_reflect (wp_workers p !! i = Some Waiting)); [| done].
  injection H as <-. by apply (awake_wakes p _ i Waiting Checking).
Qed.

Lemma notify_one_wakes p woken p' : pool_wakes p -> notify_one p woken = Some p' -> pool_wakes p'.
Proof.
  intros Hp H. unfold notify_one in H. destruct (Nat.eqb_spec (wp_notify_one p) 0) as [|Hn]; [done |].
  destruct woken as [i |]; cbn [with_notify wp_workers] in H.
  - destruct (bool_decide_reflect (wp_workers p !! i = Some Waiting)) as [Hi |]; [| done]. injection H as <-.
    by apply (awake_wakes p _ i Waiting Checking).
  - destruct (bool_decide_reflect (Waiting ∈ wp_workers p)) as [| Hno]; [done |]. injection H as <-.
    destruct Hp as [H1 H2 H3]. split; cbn; try done. intros Hq. right.
    destruct (wp_workers p) as [| w ws] eqn:Ew; [by destruct (H1 eq_refl) |].
    exists w. split; [left |]. intros ->. apply Hno. left.
Qed.

Lemma notify_all_wakes p p' : pool_wakes p -> notify_all p = Some p' -> pool_wakes p'.
Proof.
  intros [H1 H2 H3] H. unfold notify_all in H. destruct (_ =? 0)%nat; [done |]. injection H as <-.
  assert (forall ws, Waiting ∉ map wake ws) as Hno.
  { intros ws (w & E & _)%list_elem_of_fmap. by destruct w. }
  split; cbn.
  - intros E. apply H1. by destruct (wp_workers p).
  - intros _ Hx. by destruct (Hno _ Hx).
  - intros Hq. right. destruct (wp_workers p) as [| w ws]; [by destruct (H1 eq_refl) |].
    exists (wake w). split; [left |]. by destruct w.
Qed.

Lemma submit_wakes p task status p' : pool_wakes p -> submit p task = (status, p') -> pool_wakes p'.
Proof.
  intros Hp H. unfold submit in H. destruct task as [task|]; [| by injection H as _ <-].
  destruct (negb (wp_running p) || negb (wp_accepting p)) eqn:Er; [by injection H as _ <- |].
  apply orb_false_iff in Er as [Er%negb_false_iff _].
  destruct (_ <=? _)%nat; [injection H as _ <-; by destruct Hp |]. injection H as _ <-.
  set (q := with_outstanding _ _). destruct (compact_fields q) as (_ & _ & Eq & Ew & Ern & _).
  destruct Hp as [H1 H2 H3]. split; cbn [with_notify wp_workers wp_running wp_queue wp_notify_one wp_notify_all].
  - rewrite Ew. intros E. destruct (H1 E) as [E2 _]. congruence.
  - rewrite Ern. cbn. congruence.
  - intros _. left. lia.
Qed.

Lemma step_wakes p events p' : pool_wakes p -> step p events p' -> pool_wakes p'.
Proof.
  intros Hp H. destruct H as [p st p' H|p t p' H|p t e p' H|p|p c p' H|p Hr Hx|p i p' H|p i p' H|p w p' H|p p' H|p i p' H].
  - unfold start in H. destruct (wp_running p); [by injection H as _ <- |].
    destruct (Nat.eqb_spec (wp_thread_count p) 0) as [| Hn]; [by injection H as _ <- |].
    destruct (wp_workers p) eqn:Ew; [| done]. injection H as _ <-. split; cbn; try done.
    + by destruct (wp_thread_count p).
    + intros _. right. exists Checking. split; [| done]. destruct (wp_thread_count p); [done | left].
  - by eapply submit_wakes.
  - by eapply submit_wakes.
  - destruct Hp as [H1 H2 H3]. split; cbn; try done. intros E. by destruct (H1 E).
  - unfold shutdown_begin in H. destruct (_ && _); [done |]. destruct Hp as [H1 H2 H3].
    destruct c; injection H as <-; split; cbn; try lia; intros E; by destruct (H1 E).
  - by split; cbn; [done | intros _ Hw%elem_of_nil | done].
  - by eapply worker_step_wakes.
  - by eapply task_returns_wakes.
  - by eapply notify_one_wakes.
  - by eapply notify_all_wakes.
  - by eapply spurious_wake_wakes.
Qed.

Lemma run_wakes threads max_queue tr p : run threads max_queue tr p -> pool_wakes p.
Proof. induction 1; [split; cbn; [done | intros _ Hw%elem_of_nil; done | done] | by eapply step_wakes]. Qed.

(** ** Draining *)

(** Steps left for a worker, and for the pool without further calls of clients:
    every notification that is owed wakes at most one, or all of the workers. *)
Definition worker_work (w : Worker) : nat :=
  match w with
  | Exited => 0 | Waiting => 1 | Checking => 2 | Counted _ => 3 | Executed _ => 4 | Executing _ => 5 | Took _ => 6
  end.

Definition pool_work (p : WorkerPool) : nat :=
  (5 * length (wp_queue p) + sum_list_with worker_work (wp_workers p) + 2 * wp_notify_one p +
   S (length (wp_workers p)) * wp_notify_all p)%nat.

(** Steps of workers and tasks, and the notifications that are owed; the first
    number counts spurious wakeups, the second all steps. *)
Inductive worker_steps : nat -> nat -> WorkerPool -> list Event -> WorkerPool -> Prop :=
  | worker_steps_done p : worker_steps 0 0 p [] p
  | worker_steps_step s n p i p1 tr p2 :
      worker_step p i = Some p1 -> worker_steps s n p1 tr p2 -> worker_steps s (S n) p (worker_events p i ++ tr) p2
  | worker_steps_task s n p i p1 tr p2 :
      task_returns p i = Some p1 -> worker_steps s n p1 tr p2 -> worker_steps s (S n) p tr p2
  | worker_steps_notify_one s n p woken p1 tr p2 :
      notify_one p woken = Some p1 -> worker_steps s n p1 tr p2 -> worker_steps s (S n) p tr p2
  | worker_steps_notify_all s n p p1 tr p2 :
      notify_all p = Some p1 -> worker_steps s n p1 tr p2 -> worker_steps s (S n) p tr p2
  | worker_steps_spurious s n p i p1 tr p2 :
      spurious_wake p i = Some p1 -> worker_steps s n p1 tr p2 -> worker_steps (S s) (S n) p tr p2.

(** Nothing moves any more: every task has returned, and nobody is owed a
    notification. *)
Definition quiescent (p : WorkerPool) : Prop :=
  (forall i, worker_step p i = None /\ task_returns p i = None) /\ wp_notify_one p = 0%nat /\ wp_notify_all p = 0%nat.

Lemma sum_list_insert {A} (f : A -> nat) l i x y :
  l !! i = Some x -> (sum_list_with f (<[i := y]> l) + f x = sum_list_with f l + f y)%nat.
Proof.
  revert i. induction l as [|z l IH]; intros i; [done |]. destruct i as [|i].
  - intros [= ->]. change (<[0%nat := y]> (x :: l)) with (y :: l). cbn [sum_list_with]. lia.
  - change ((z :: l) !! S i) with (l !! i). change (<[S i := y]> (z :: l)) with (z :: <[i := y]> l).
    intros H. specialize (IH _ H). cbn [sum_list_with]. lia.
Qed.

(** How many workers sleep. *)
Definition asleep (w : Worker) : nat := match w with Waiting => 1 | _ => 0 end.
Definition sleepers (p : WorkerPool) : nat := sum_list_with asleep (wp_workers p).

Lemma sleepers_le ws : (sum_list_with asleep ws <= length ws)%nat.
Proof. induction ws as [|w ws IH]; cbn [sum_list_with length]; [done |]. destruct w; cbn [asleep]; lia. Qed.

(** What one step does to the work that is left: it becomes less, or one more by a
    spurious wakeup.  The pool stays started or stopped, and over a stopped pool
    nobody falls asleep. *)
Record progress (spurious : nat) (p p' : WorkerPool) : Prop := {
  pg_work : (S (pool_work p') <= pool_work p + 2 * spurious)%nat;
  pg_running : wp_running p' = wp_running p;
  pg_workers : length (wp_workers p') = length (wp_workers p);
  pg_sleepers : wp_running p = false -> (spurious + sleepers p' <= sleepers p)%nat
}.

(** The tactic that checks a step which changed one worker. *)
Ltac one_worker p i w' Hi :=
  pose proof (sum_list_insert worker_work (wp_workers p) i _ w' Hi);
  pose proof (sum_list_insert asleep (wp_workers p) i _ w' Hi);
  split; unfold pool_work, sleepers; cbn in *; rewrite ?length_insert; first [done | congruence | lia].

Lemma worker_step_progress p i p' : worker_step p i = Some p' -> progress 0 p p'.
Proof.
  intros H. unfold worker_step in H. destruct (wp_workers p !! i) as [w|] eqn:Hi; [| done].
  destruct w as [| |e|e|e|e|]; try done.
  - destruct (wp_queue p) as [|entry queue] eqn:Eq; [destruct (wp_running p) eqn:Er |]; cbn [negb] in H; injection H as <-.
    + one_worker p i Waiting Hi.
    + one_worker p i Exited Hi.
    + assert (length (wp_queue p) = S (length queue)) by by rewrite Eq. one_worker p i (Took entry) Hi.
  - destruct (bool_decide _); injection H as <-; [one_worker p i (Executed e) Hi | one_worker p i (Executing e) Hi].
  - injection H as <-. one_worker p i (Counted e) Hi.
  - injection H as <-. one_worker p i Checking Hi.
Qed.

Lemma task_returns_progress p i p' : task_returns p i = Some p' -> progress 0 p p'.
Proof.
  intros H. unfold task_returns in H. destruct (wp_workers p !! i) as [[| |e|e|e|e|]|] eqn:Hi; try done.
  injection H as <-. one_worker p i (Executed e) Hi.
Qed.

Lemma spurious_wake_progress p i p' : spurious_wake p i = Some p' -> progress 1 p p'.
Proof.
  intros H. unfold spurious_wake in H. destruct (bool_decide_reflect (wp_workers p !! i = Some Waiting)) as [Hi |]; [| done].
  injection H as <-. one_worker p i Checking Hi.
Qed.

Lemma notify_one_progress p woken p' : notify_one p woken = Some p' -> progress 0 p p'.
Proof.
  intros H. unfold notify_one in H. destruct (Nat.eqb_spec (wp_notify_one p) 0) as [|Hn]; [done |].
  destruct woken as [i |]; cbn [with_notify wp_workers] in H.
  - destruct (bool_decide_reflect (wp_workers p !! i = Some Waiting)) as [Hi |]; [| done]. injection H as <-.
    one_worker p i Checking Hi.
  - destruct (bool_decide _); [done |]. injection H as <-.
    split; unfold pool_work, sleepers; cbn; try done; lia.
Qed.

Lemma wake_work ws : (sum_list_with worker_work (map wake ws) <= sum_list_with worker_work ws + length ws)%nat.
Proof. induction ws as [|w ws IH]; [done |]. destruct w; cbn in *; lia. Qed.

Lemma wake_asleep ws : sum_list_with asleep (map wake ws) = 0%nat.
Proof. induction ws as [|w ws IH]; [done |]. destruct w; cbn in *; lia. Qed.

Lemma notify_all_progress p p' : notify_all p = Some p' -> progress 0 p p'.
Proof.
  intros H. unfold notify_all in H. destruct (Nat.eqb_spec (wp_notify_all p) 0) as [|Hn]; [done |]. injection H as <-.
  pose proof (wake_work (wp_workers p)) as Hw.
  pose proof (wake_asleep (wp_workers p)) as Hs.
  split; unfold pool_work, sleepers; cbn; rewrite ?length_map; try done; [| lia]. nia.
Qed.

(** A schedule without calls of clients: it is a run, and it uses up the work. *)
Lemma worker_steps_run threads max_queue tr p s n tr' p' :
  run threads max_queue tr p -> worker_steps s n p tr' p' ->
  run threads max_queue (tr ++ tr') p' /\ (n + pool_work p' <= pool_work p + 2 * s)%nat /\
  wp_running p' = wp_running p /\ (wp_running p = false -> (s + sleepers p' <= sleepers p)%nat) /\
  submitted tr' = [] /\ discarded tr' = [].
Proof.
  intros Hrun Hs. revert tr Hrun.
  assert (forall k s n (p p1 p2 : WorkerPool) ev tr', step p ev p1 -> progress k p p1 ->
    submitted ev = [] -> discarded ev = [] ->
    (forall tr, run threads max_queue tr p1 ->
       run threads max_queue (tr ++ tr') p2 /\ (n + pool_work p2 <= pool_work p1 + 2 * s)%nat /\
       wp_running p2 = wp_running p1 /\ (wp_running p1 = false -> (s + sleepers p2 <= sleepers p1)%nat) /\
       submitted tr' = [] /\ discarded tr' = []) ->
    forall tr, run threads max_queue tr p ->
       run threads max_queue (tr ++ ev ++ tr') p2 /\ (S n + pool_work p2 <= pool_work p + 2 * (k + s))%nat /\
       wp_running p2 = wp_running p /\ (wp_running p = false -> (k + s + sleepers p2 <= sleepers p)%nat) /\
       submitted (ev ++ tr') = [] /\ discarded (ev ++ tr') = []) as Hone.
  { clear. intros k s n p p1 p2 ev tr' Hstep [Hw Hr _ Hsl] Hsub Hdis IH tr Hrun.
    destruct (IH _ (run_step _ _ _ _ _ _ Hrun Hstep)) as (Hrun' & Hw' & Hr' & Hsl' & Hsub' & Hdis').
    unfold submitted, discarded in *. rewrite app_assoc, !omap_app, Hsub, Hdis, Hsub', Hdis'.
    split_and!; [done | lia | congruence | | done | done]. intros E. specialize (Hsl E). rewrite Hr in Hsl'. specialize (Hsl' E). lia. }
  induction Hs as [p|s n p i p1 tr' p2 H Hs IH|s n p i p1 tr' p2 H Hs IH|s n p woken p1 tr' p2 H Hs IH
    |s n p p1 tr' p2 H Hs IH|s n p i p1 tr' p2 H Hs IH].
  - intros tr Hrun. rewrite app_nil_r. split_and!; try done; lia.
  - apply (Hone 0%nat s n p p1 p2 (worker_events p i) tr'); [by apply step_worker | by eapply worker_step_progress | | | exact IH];
      unfold worker_events; destruct (wp_workers p !! i) as [[]|]; try done; by destruct (wp_queue p).
  - apply (Hone 0%nat s n p p1 p2 [] tr'); [by eapply step_task | by eapply task_returns_progress | done | done | exact IH].
  - apply (Hone 0%nat s n p p1 p2 [] tr'); [by eapply step_notify_one | by eapply notify_one_progress | done | done | exact IH].
  - apply (Hone 0%nat s n p p1 p2 [] tr'); [by eapply step_notify_all | by eapply notify_all_progress | done | done | exact IH].
  - apply (Hone 1%nat s n p p1 p2 [] tr'); [by eapply step_spurious | by eapply spurious_wake_progress | done | done | exact IH].
Qed.

Lemma omap_none {A B} (f : A -> option B) l : Forall (fun x => f x = None) l -> omap f l = [].
Proof. induction 1 as [|x l E _ IH]; [done |]. cbn. by rewrite E. Qed.

(** Where nothing moves, everybody sleeps over an empty queue, or has returned
    when the pool was stopped. *)
Lemma quiescent_workers threads max_queue p :
  pool_bounds threads max_queue p -> pool_wakes p -> quiescent p ->
  Forall (eq (if wp_running p then Waiting else Exited)) (wp_workers p) /\ wp_queue p = [].
Proof.
  intros Hb [H1 H2 H3] (Hstuck & Hone & Hall).
  assert (forall w, w ∈ wp_workers p -> w = Waiting \/ w = Exited) as Hw.
  { intros w [i Hi]%list_elem_of_lookup. destruct (Hstuck i) as [Hs Ht]. unfold worker_step in Hs. unfold task_returns in Ht.
    rewrite Hi in Hs, Ht. destruct w; try done; [by left | by destruct (wp_queue p) | by right]. }
  assert (wp_queue p = []) as Hq.
  { destruct (wp_queue p) eqn:Eq; [done |]. destruct H3 as [H | (w & Hin & Hne)]; [done | lia |].
    destruct (Hw w Hin) as [-> | ->]; [done |]. by destruct (pb_exited _ _ _ Hb Hin) as [_ E]; rewrite Eq in E. }
  split; [| exact Hq]. apply Forall_elem. intros w Hin. destruct (Hw w Hin) as [-> | ->].
  - destruct (wp_running p) eqn:Er; [done |]. specialize (H2 eq_refl Hin). lia.
  - by destruct (pb_exited _ _ _ Hb Hin) as [-> _].
Qed.

(** ** Properties *)

(** A schedule, for concrete runs. *)
Inductive Action : Set :=
  | AStart | ASubmit (task : nat) | ACancel | AShutdown (cancel : bool) | AWorker (i : nat) | ATask (i : nat)
  | ANotifyOne (woken : option nat) | ANotifyAll | ASpurious (i : nat).

Definition act (a : Action) (p : WorkerPool) : option (list Event * WorkerPool) :=
  match a with
  | AStart => match start p with Started _ p' => Some ([], p') | Terminates => None end
  | ASubmit task => match submit p (Some task) with
                    | (Ok _, p') => Some ([Submitted (wp_fresh p)], p')
                    | (Err _, p') => Some ([], p')
                    end
  | ACancel => Some (map Discarded (queue_sources p), (cancel_pending p).2)
  | AShutdown cancel => p' ← shutdown_begin p cancel; Some ([], p')
  | AWorker i => p' ← worker_step p i; Some (worker_events p i, p')
  | ATask i => p' ← task_returns p i; Some ([], p')
  | ANotifyOne woken => p' ← notify_one p woken; Some ([], p')
  | ANotifyAll => p' ← notify_all p; Some ([], p')
  | ASpurious i => p' ← spurious_wake p i; Some ([], p')
  end.

Fixpoint perform (acts : list Action) (p : WorkerPool) : option (list Event * WorkerPool) :=
  match acts with
  | [] => Some ([], p)
  | a :: acts =>
      match act a p with
      | None => None
      | Some (events, p) =>
          match perform acts p with None => None | Some (tr, p) => Some (events ++ tr, p) end
      end
  end.

Lemma act_step a p events p' : act a p = Some (events, p') -> step p events p'.
Proof.
  destruct a; cbn [act].
  - destruct (start p) eqn:E; [| done]. intros [= <- <-]. by eapply step_start.
  - destruct (submit p (Some task)) as [[[]|] p1] eqn:E; intros [= <- <-];
      [by eapply step_submit | by eapply step_submit_refused].
  - intros [= <- <-]. apply step_cancel.
  - destruct (shutdown_begin p cancel) eqn:E; [| done]. intros [= <- <-]. by eapply step_shutdown_begin.
  - destruct (worker_step p i) eqn:E; [| done]. intros [= <- <-]. by apply step_worker.
  - destruct (task_returns p i) eqn:E; [| done]. intros [= <- <-]. by eapply step_task.
  - destruct (notify_one p woken) eqn:E; [| done]. intros [= <- <-]. by eapply step_notify_one.
  - destruct (notify_all p) eqn:E; [| done]. intros [= <- <-]. by apply step_notify_all.
  - destruct (spurious_wake p i) eqn:E; [| done]. intros [= <- <-]. by eapply step_spurious.
Qed.

Lemma perform_run threads max_queue acts tr p events p' :
  run threads max_queue tr p -> perform acts p = Some (events, p') -> run threads max_queue (tr ++ events) p'.
Proof.
  revert tr p events. induction acts as [|a acts IH]; intros tr p events Hrun H.
  { injection H as <- <-. by rewrite app_nil_r. }
  cbn [perform] in H. destruct (act a p) as [[ev p1]|] eqn:Ea; [| done].
  destruct (perform acts p1) as [[tr1 p2]|] eqn:Ep; [| done]. injection H as <- <-. rewrite app_assoc.
  eapply IH; [| exact Ep]. eapply run_step; [exact Hrun | by eapply act_step].
Qed.

(** In every interleaving of clients and workers the pool stays within its
    bounds: the queue within its limit, no more tasks active than threads and
    exactly those that workers hold, and the list of outstanding sources bounded
    by the queue and the threads; no worker has returned while the pool runs or
    work is queued. *)
Theorem pool_bounded threads max_queue tr p :
  run threads max_queue tr p ->
  (length (wp_queue p) <= max_queue)%nat /\ (wp_active p <= threads)%nat /\
  wp_active p = length (held_entries p) /\
  (length (wp_outstanding p) <= Nat.max (max_queue * 2 + 64) (max_queue + threads))%nat /\
  (Exited ∈ wp_workers p -> wp_running p = false /\ wp_queue p = []).
Proof.
  intros Hrun. destruct (run_bounds _ _ _ _ Hrun). pose proof (held_entries_le p).
  split_and!; [done | lia | done | done | done].
Qed.

(** C26. Every accepted task has exactly one fate, in every interleaving: it is
    queued, in a worker's hands, finished or discarded by [cancel_pending]; the
    completion counter counts the finished ones, and workers take tasks in the
    order of their submission, each at most once. *)
Theorem pool_task_fates threads max_queue tr p :
  run threads max_queue tr p ->
  submitted tr ≡ₚ queue_sources p ++ in_hand p ++ finished tr ++ discarded tr /\
  NoDup (submitted tr) /\ StronglySorted lt (taken tr ++ queue_sources p) /\
  wp_completed p = wrap_u 64 (Z.of_nat (length (finished tr))).
Proof.
  intros Hrun. destruct (run_trace _ _ _ _ Hrun) as [H1 H2 H3 H4 H5].
  split_and!; [| rewrite H1; apply NoDup_seq | done | done].
  by rewrite H2, H3, <- app_assoc.
Qed.

(** C25. The pool drains, and no wakeup is lost.  Take any state that clients and
    workers can reach, and any schedule without further calls of clients: steps of
    the workers, returns of their tasks, the notifications that clients still owe
    and spurious wakeups.  It ends within a bound known in advance, to which every
    spurious wakeup adds two, and of these a stopped pool has at most one per
    worker.  When it has come to rest, with no task still running, then whether the
    pool was stopped or not the queue is empty, nobody is active, and every task
    that was accepted has finished or had been discarded by [cancel_pending]; and the
    workers sleep when the pool runs, and have returned
    when it was stopped, so that the joins of [shutdown] return. *)
Theorem pool_shutdown_drains threads max_queue tr p s n tr' p' :
  run threads max_queue tr p -> worker_steps s n p tr' p' ->
  (n <= pool_work p + 2 * s)%nat /\ (wp_running p = false -> (s <= length (wp_workers p))%nat) /\
  (quiescent p' ->
   Forall (eq (if wp_running p then Waiting else Exited)) (wp_workers p') /\ wp_queue p' = [] /\ wp_active p' = 0%nat /\
   submitted tr ≡ₚ finished (tr ++ tr') ++ discarded tr).
Proof.
  intros Hrun Hs. destruct (worker_steps_run _ _ _ _ _ _ _ _ Hrun Hs) as (Hrun' & Hw & Hr & Hsl & Hsub & Hdis).
  split; [lia |]. split. { intros E. specialize (Hsl E). pose proof (sleepers_le (wp_workers p)). unfold sleepers in *. lia. }
  intros Hq. pose proof (run_bounds _ _ _ _ Hrun') as Hb. pose proof (run_trace _ _ _ _ Hrun') as Ht.
  destruct (quiescent_workers _ _ _ Hb (run_wakes _ _ _ _ Hrun') Hq) as [Hall Hempty]. rewrite Hr in Hall.
  assert (in_hand p' = [] /\ omap held (wp_workers p') = []) as [Hin Hheld].
  { unfold in_hand. split; [rewrite omap_none; [done |] | apply omap_none];
      refine (List.Forall_impl _ _ Hall); intros w <-; by destruct (wp_running p). }
  split_and!; [done | done | by rewrite (pb_active _ _ _ Hb); unfold held_entries; rewrite Hheld |].
  pose proof (pt_fate _ _ Ht) as H2. pose proof (pt_taken _ _ Ht) as H3.
  unfold submitted, finished, discarded, queue_sources, taken in *.
  rewrite !omap_app in *. rewrite Hsub, Hdis, !app_nil_r, Hempty in H2. rewrite H2. cbn [map app].
  apply Permutation_app_tail. by rewrite H3, Hin.
Qed.

(** Four submissions to a queue of two and two workers: one runs, two are queued,
    one is refused, and a worker sleeps through it; the pool is then stopped, and
    the notifications are still owed. *)
Definition demo_actions : list Action :=
  [AStart; ASubmit 7; AWorker 0; AWorker 1; ASubmit 8; ASubmit 9; ASubmit 10; AWorker 0; AShutdown false].

Definition demo_pool : list Event * WorkerPool :=
  Eval vm_compute in default ([], pool_new 2 2) (perform demo_actions (pool_new 2 2)).

Lemma demo_run : run 2 2 demo_pool.1 demo_pool.2.
Proof. apply (perform_run 2 2 demo_actions [] (pool_new 2 2)); [constructor | by vm_compute]. Qed.

(** A schedule of the workers after it, until nothing moves. *)
Definition drain_actions : list Action :=
  [ANotifyOne (Some 1%nat); AWorker 1; AWorker 1; ATask 1; AWorker 1; AWorker 1; AWorker 1; ATask 0; AWorker 0; AWorker 0;
   AWorker 1; ATask 1; ANotifyOne None; AWorker 0; ANotifyAll; AWorker 1; AWorker 1; ANotifyOne None; AWorker 1].

Definition drained_pool : list Event * WorkerPool :=
  Eval vm_compute in default ([], pool_new 2 2) (perform drain_actions demo_pool.2).

Definition is_spurious (a : Action) : nat := match a with ASpurious _ => 1 | _ => 0 end.
Definition of_workers (a : Action) : bool :=
  match a with AStart | ASubmit _ | ACancel | AShutdown _ => false | _ => true end.

Lemma perform_worker_steps acts p tr p' :
  forallb of_workers acts = true -> perform acts p = Some (tr, p') ->
  worker_steps (sum_list_with is_spurious acts) (length acts) p tr p'.
Proof.
  revert p tr. induction acts as [|a acts IH]; intros p tr Hw H; [injection H as <- <-; constructor |].
  cbn [forallb] in Hw. apply andb_true_iff in Hw as [Ha Hw]. cbn [perform] in H.
  destruct (act a p) as [[ev p1]|] eqn:Ea; [| done].
  destruct (perform acts p1) as [[tr1 p2]|] eqn:Ep; [| done]. injection H as <- <-. specialize (IH _ _ Hw Ep).
  destruct a; try done; cbn [act] in Ea; simplify_option_eq.
  - by eapply worker_steps_step.
  - by eapply worker_steps_task.
  - by eapply worker_steps_notify_one.
  - by eapply worker_steps_notify_all.
  - by eapply worker_steps_spurious.
Qed.

Lemma pool_bounded_witness :
  (length (wp_queue demo_pool.2) <= 2)%nat /\ wp_active demo_pool.2 = 1%nat.
Proof.
  destruct (pool_bounded 2 2 demo_pool.1 demo_pool.2 demo_run) as (Hq & _ & Ha & _). split; [exact Hq |].
  rewrite Ha. by vm_compute.
Defined.

Lemma pool_task_fates_witness :
  submitted demo_pool.1 ≡ₚ queue_sources demo_pool.2 ++ in_hand demo_pool.2 ++ finished demo_pool.1 ++ discarded demo_pool.1.
Proof. exact (proj1 (pool_task_fates 2 2 demo_pool.1 demo_pool.2 demo_run)). Defined.

Lemma drained_quiescent : quiescent drained_pool.2.
Proof. split; [| by split]. intros [| [| i]]; by split. Qed.

Lemma pool_shutdown_drains_witness :
  (length drain_actions <= pool_work demo_pool.2)%nat /\
  wp_workers drained_pool.2 = [Exited; Exited] /\ wp_queue demo_pool.2 <> [] /\ wp_queue drained_pool.2 = [] /\
  [0; 1; 2]%nat ≡ₚ finished (demo_pool.1 ++ drained_pool.1) /\ finished demo_pool.1 = [].
Proof.
  assert (worker_steps 0 (length drain_actions) demo_pool.2 drained_pool.1 drained_pool.2) as Hs
    by (apply (perform_worker_steps drain_actions); vm_compute; reflexivity).
  destruct (pool_shutdown_drains 2 2 demo_pool.1 demo_pool.2 0 _ _ _ demo_run Hs) as (Hn & _ & Hdone).
  destruct (Hdone drained_quiescent) as (_ & Hq & _ & Hfin).
  split; [rewrite Nat.add_0_r in Hn; exact Hn |]. split; [reflexivity |]. split; [discriminate |]. split; [exact Hq |].
  split; [| reflexivity]. rewrite app_nil_r in Hfin. exact Hfin.
Defined.

(** A start while a shutdown waits for its threads destroys them unjoined. *)
Example start_during_shutdown_terminates : start demo_pool.2 = Terminates.
Proof. reflexivity. Qed.

(** A task cancelled before it ran counts as completed. *)
Example cancelled_task_counts_as_completed :
  (wp_completed ∘ snd) <$> perform [AStart; ASubmit 7; AWorker 0; AShutdown true; AWorker 0; AWorker 0] (pool_new 1 2) =
    Some 1%Z.
Proof. by vm_compute. Qed.
