(* ===== verification/Metrics.v ===== *)
(** The counters of the observatory: [include/pathobs/metrics.hpp],
    [src/metrics.cpp].

    Every counter is an atomic 64-bit integer that is only added to; a [Metrics]
    is the value of each of them, and [fetch_add] wraps around. *)
From stdpp Require Import base decidable list.
From S2P Require Import Prelude Divergence.
#[local] Open Scope Z_scope.

(** ** The counters *)

Inductive Counter : Set :=
| EvidenceOffered | EvidenceAccepted | EvidenceRejected | EvidenceUnregisteredSource | EvidenceReplayed
| EvidenceGapEvents | Comparisons | Matches | Divergences | IndeterminateCount | UnsupportedCount
| NoExpectedStateCount | FindingsRecorded | FindingsResolved | FindingsEvicted | QueueSubmitted
| QueueRejected | TasksCompleted | TasksCancelled | StoreAppends | StoreRecordsRecovered
| StoreCorruptTailTruncations | TransportFramesIn | TransportFramesOut | TransportBytesIn
| TransportBytesOut | TransportProtocolViolations.

#[global] Instance Counter_eq_dec : EqDecision Counter.
Proof. solve_decision. Defined.

Definition Metrics : Set := Counter -> Z.

(** The default member initialisers. *)
Definition metrics_new : Metrics := fun _ => 0.

(** [std::atomic<std::uint64_t>::fetch_add] *)
Definition fetch_add (c : Counter) (value : Z) (m : Metrics) : Metrics :=
  fun d => if bool_decide (d = c) then wrap_u 64 (m c + value) else m d.

(** ** Additions *)

Definition add_evidence_offered (value : Z) (m : Metrics) : Metrics := fetch_add EvidenceOffered value m.
Definition add_evidence_accepted (value : Z) (m : Metrics) : Metrics := fetch_add EvidenceAccepted value m.
Definition add_evidence_rejected (value : Z) (m : Metrics) : Metrics := fetch_add EvidenceRejected value m.
Definition add_evidence_unregistered_source (value : Z) (m : Metrics) : Metrics :=
  fetch_add EvidenceUnregisteredSource value m.
Definition add_evidence_replayed (value : Z) (m : Metrics) : Metrics := fetch_add EvidenceReplayed value m.
Definition add_evidence_gap_events (value : Z) (m : Metrics) : Metrics :=
  fetch_add EvidenceGapEvents value m.

(** The counter of an outcome. *)
Definition outcome_counter (outcome : MatchOutcome) : Counter :=
  match outcome with
  | Match => Matches
  | Divergent => Divergences
  | Indeterminate => IndeterminateCount
  | OutcomeUnsupported => UnsupportedCount
  | NoExpectedState => NoExpectedStateCount
  end.

Definition add_comparison (outcome : MatchOutcome) (m : Metrics) : Metrics :=
  fetch_add (outcome_counter outcome) 1 (fetch_add Comparisons 1 m).

Definition add_finding_recorded (m : Metrics) : Metrics := fetch_add FindingsRecorded 1 m.
Definition add_finding_resolved (value : Z) (m : Metrics) : Metrics := fetch_add FindingsResolved value m.
Definition add_finding_evicted (value : Z) (m : Metrics) : Metrics := fetch_add FindingsEvicted value m.
Definition add_queue_submitted (m : Metrics) : Metrics := fetch_add QueueSubmitted 1 m.
Definition add_queue_rejected (m : Metrics) : Metrics := fetch_add QueueRejected 1 m.
Definition add_task_completed (m : Metrics) : Metrics := fetch_add TasksCompleted 1 m.
Definition add_task_cancelled (m : Metrics) : Metrics := fetch_add TasksCancelled 1 m.
Definition add_store_append (m : Metrics) : Metrics := fetch_add StoreAppends 1 m.
Definition add_store_records_recovered (value : Z) (m : Metrics) : Metrics :=
  fetch_add StoreRecordsRecovered value m.
Definition add_store_corrupt_tail_truncation (m : Metrics) : Metrics :=
  fetch_add StoreCorruptTailTruncations 1 m.
Definition add_transport_frame_in (bytes : Z) (m : Metrics) : Metrics :=
  fetch_add TransportBytesIn bytes (fetch_add TransportFramesIn 1 m).
Definition add_transport_frame_out (bytes : Z) (m : Metrics) : Metrics :=
  fetch_add TransportBytesOut bytes (fetch_add TransportFramesOut 1 m).
Definition add_transport_protocol_violation (m : Metrics) : Metrics :=
  fetch_add TransportProtocolViolations 1 m.

(** ** Snapshots *)

Record MetricsSnapshot : Set := mk_snapshot {
  evidence_offered : Z; evidence_accepted : Z; evidence_rejected : Z; evidence_unregistered_source : Z;
  evidence_replayed : Z; evidence_gap_events : Z; comparisons : Z; matches : Z; divergences : Z;
  indeterminate : Z; unsupported : Z; no_expected_state : Z; findings_recorded : Z; findings_resolved : Z;
  findings_evicted : Z; queue_submitted : Z; queue_rejected : Z; tasks_completed : Z; tasks_cancelled : Z;
  store_appends : Z; store_records_recovered : Z; store_corrupt_tail_truncations : Z;
  transport_frames_in : Z; transport_frames_out : Z; transport_bytes_in : Z; transport_bytes_out : Z;
  transport_protocol_violations : Z
}.

Definition snapshot (m : Metrics) : MetricsSnapshot :=
  mk_snapshot (m EvidenceOffered) (m EvidenceAccepted) (m EvidenceRejected) (m EvidenceUnregisteredSource)
    (m EvidenceReplayed) (m EvidenceGapEvents) (m Comparisons) (m Matches) (m Divergences)
    (m IndeterminateCount) (m UnsupportedCount) (m NoExpectedStateCount) (m FindingsRecorded)
    (m FindingsResolved) (m FindingsEvicted) (m QueueSubmitted) (m QueueRejected) (m TasksCompleted)
    (m TasksCancelled) (m StoreAppends) (m StoreRecordsRecovered) (m StoreCorruptTailTruncations)
    (m TransportFramesIn) (m TransportFramesOut) (m TransportBytesIn) (m TransportBytesOut)
    (m TransportProtocolViolations).

Definition reset (m : Metrics) : Metrics := fun _ => 0.

(** ** Accounting *)

Lemma fetch_add_other c d v m : d <> c -> fetch_add c v m d = m d.
Proof. intros H. unfold fetch_add. by rewrite bool_decide_eq_false_2. Qed.

Lemma fetch_add_same c v m : fetch_add c v m c = wrap_u 64 (m c + v).
Proof. unfold fetch_add. by rewrite bool_decide_eq_true_2. Qed.

(** Every counter is a 64-bit integer. *)
Definition metrics_ok (m : Metrics) : Prop := forall c, u_ok 64 (m c).

Lemma metrics_new_ok : metrics_ok metrics_new.
Proof. intros c. unfold metrics_new, u_ok. lia. Qed.

Lemma fetch_add_ok c v m : metrics_ok m -> metrics_ok (fetch_add c v m).
Proof.
  intros Hm d. unfold fetch_add. case_bool_decide; [apply wrap_u_range; lia | apply Hm].
Qed.

(** The comparisons that were counted are the sum of the counts per outcome, up
    to the width of the counters. *)
Definition comparisons_add_up (m : Metrics) : Prop :=
  m Comparisons = wrap_u 64 (m Matches + m Divergences + m IndeterminateCount + m UnsupportedCount +
                             m NoExpectedStateCount).

(** A counter that wrapped counts the same modulo [2 ^ 64]. *)
Lemma wrap_u_shift a b k : a = b + k * 2 ^ 64 -> wrap_u 64 a = wrap_u 64 b.
Proof. intros ->. rewrite !wrap_u_mod by lia. apply Z.mod_add. lia. Qed.

Lemma wrap_u_eq a : wrap_u 64 a = a - 2 ^ 64 * (a / 2 ^ 64).
Proof. rewrite wrap_u_mod by lia. rewrite Z.mod_eq by lia. lia. Qed.

Lemma comparisons_add_up_comparison o m : comparisons_add_up m -> comparisons_add_up (add_comparison o m).
Proof.
  unfold comparisons_add_up, add_comparison. intros H.
  destruct o; cbn [outcome_counter];
    repeat first [rewrite fetch_add_same | rewrite fetch_add_other by discriminate]; rewrite H;
    match goal with |- context [wrap_u 64 (m ?c + 1)] => pose proof (wrap_u_eq (m c + 1)) as E end;
    rewrite E; match goal with |- wrap_u 64 (wrap_u 64 ?s + 1) = _ => rewrite (wrap_u_eq s) end;
    match type of E with _ = _ - 2 ^ 64 * ?q =>
      match goal with |- wrap_u 64 (_ - 2 ^ 64 * ?p + 1) = _ => apply (wrap_u_shift _ _ (q - p)); lia end end.
Qed.

(** Adding to any other counter does not disturb the sum. *)
Lemma comparisons_add_up_other c v m :
  ~ c ∈ [Comparisons; Matches; Divergences; IndeterminateCount; UnsupportedCount; NoExpectedStateCount] ->
  comparisons_add_up m -> comparisons_add_up (fetch_add c v m).
Proof.
  unfold comparisons_add_up. intros Hc H. rewrite !fetch_add_other; [done | intros <-; apply Hc; rewrite !elem_of_cons; tauto ..].
Qed.
