(* ===== verification/Random.v ===== *)
(** Deterministic pseudo random numbers: [include/pathobs/random.hpp],
    [src/random.cpp]: the [splitmix64] seeder and the xoshiro256 generator, with
    their 64-bit arithmetic written out.  [next_below] draws until a value is
    accepted, so it has fuel; nothing bounds the number of draws. *)
From stdpp Require Import base decidable list sorting.
From S2P Require Import Prelude.
#[local] Open Scope Z_scope.

(** [rotl] *)
Definition rotl (value amount : Z) : Z :=
  Z.lor (wrap_u 64 (Z.shiftl value amount)) (Z.shiftr value (64 - amount)).

(** ** [SplitMix64] *)

(** [SplitMix64::next]: the value and the state after it. *)
Definition splitmix_next (state : Z) : Z * Z :=
  let state := wrap_u 64 (state + 0x9e3779b97f4a7c15) in
  let z := state in
  let z := wrap_u 64 (Z.lxor z (Z.shiftr z 30) * 0xbf58476d1ce4e5b9) in
  let z := wrap_u 64 (Z.lxor z (Z.shiftr z 27) * 0x94d049bb133111eb) in
  (Z.lxor z (Z.shiftr z 31), state).

(** ** [Rng] *)

Record Rng : Set := mk_rng { rng_seed : Z; s0 : Z; s1 : Z; s2 : Z; s3 : Z }.

(** [Rng::Rng] *)
Definition rng_new (seed : Z) : Rng :=
  let (w0, seeder) := splitmix_next seed in
  let (w1, seeder) := splitmix_next seeder in
  let (w2, seeder) := splitmix_next seeder in
  let (w3, seeder) := splitmix_next seeder in
  if Z.lor (Z.lor (Z.lor w0 w1) w2) w3 =? 0
  then mk_rng seed 0x9e3779b97f4a7c15 w1 w2 w3
  else mk_rng seed w0 w1 w2 w3.

(** [Rng::next_u64] *)
Definition next_u64 (r : Rng) : Z * Rng :=
  let result := wrap_u 64 (rotl (wrap_u 64 (s1 r * 5)) 7 * 9) in
  let t := wrap_u 64 (Z.shiftl (s1 r) 17) in
  let x2 := Z.lxor (s2 r) (s0 r) in
  let x3 := Z.lxor (s3 r) (s1 r) in
  let x1 := Z.lxor (s1 r) x2 in
  let x0 := Z.lxor (s0 r) x3 in
  let x2 := Z.lxor x2 t in
  (result, mk_rng (rng_seed r) x0 x1 x2 (rotl x3 45)).

(** [(~bound + 1) % bound] *)
Definition rejection_threshold (bound : Z) : Z :=
  wrap_u 64 (wrap_u 64 (Z.lnot bound) + 1) mod bound.

(** [Rng::next_below]: the loop, [None] when the fuel runs out. *)
Fixpoint draw_below (fuel : nat) (bound : Z) (r : Rng) : option (Z * Rng) :=
  match fuel with
  | O => None
  | S fuel =>
      let (value, r) := next_u64 r in
      if rejection_threshold bound <=? value then Some (value mod bound, r) else draw_below fuel bound r
  end.

Definition next_below (fuel : nat) (bound : Z) (r : Rng) : option (Z * Rng) :=
  if bound =? 0 then Some (0, r) else draw_below fuel bound r.

(** [Rng::next_in_range] *)
Definition next_in_range (fuel : nat) (low high : Z) (r : Rng) : option (Z * Rng) :=
  if high <=? low then Some (low, r) else
  match next_below fuel (wrap_u 64 (wrap_u 64 (high - low) + 1)) r with
  | Some (value, r) => Some (wrap_u 64 (low + value), r)
  | None => None
  end.

(** [Rng::next_bool] *)
Definition next_bool (r : Rng) : bool * Rng :=
  let (value, r) := next_u64 r in (negb (Z.land value 1 =? 0), r).

(** [Rng::next_unit]: the double is this integer times [2 ^ -53], which the
    conversion and the product represent exactly. *)
Definition next_unit_scaled (r : Rng) : Z * Rng :=
  let (value, r) := next_u64 r in (Z.shiftr value 11, r).

(** [Rng::shuffle]: the loop from [i] down to one; [items[i]] and [items[j]] are
    exchanged. *)
Fixpoint shuffle_loop {A} (fuel : nat) (i : nat) (items : list A) (r : Rng) : option (list A * Rng) :=
  match i with
  | O => Some (items, r)
  | S i' =>
      match next_below fuel (Z.of_nat i + 1) r with
      | None => None
      | Some (j, r) =>
          let items :=
            match items !! i, items !! Z.to_nat j with
            | Some a, Some b => <[Z.to_nat j := a]> (<[i := b]> items)
            | _, _ => items
            end in
          shuffle_loop fuel i' items r
      end
  end.

Definition shuffle {A} (fuel : nat) (items : list A) (r : Rng) : option (list A * Rng) :=
  if (length items <? 2)%nat then Some (items, r) else shuffle_loop fuel (length items - 1) items r.

(** ** The generator state *)

Record rng_ok (r : Rng) : Prop := mk_rng_ok {
  rng_s0 : u_ok 64 (s0 r); rng_s1 : u_ok 64 (s1 r); rng_s2 : u_ok 64 (s2 r); rng_s3 : u_ok 64 (s3 r);
  rng_nonzero : ~ (s0 r = 0 /\ s1 r = 0 /\ s2 r = 0 /\ s3 r = 0)
}.

Lemma u_ok_shiftr x n : 0 <= n -> u_ok 64 x -> u_ok 64 (Z.shiftr x n).
Proof.
  intros Hn [Hx Hx']. unfold u_ok. rewrite Z.shiftr_div_pow2 by done.
  assert (0 < 2 ^ n) by (apply Z.pow_pos_nonneg; lia). split; [by apply Z.div_pos |].
  apply Z.div_lt_upper_bound; [done |]. nia.
Qed.

Lemma u_ok_lor x y : u_ok 64 x -> u_ok 64 y -> u_ok 64 (Z.lor x y).
Proof.
  rewrite !u_ok_testbit by lia. intros [Hx Hx'] [Hy Hy']. split; [by apply Z.lor_nonneg |].
  intros i Hi. by rewrite Z.lor_spec, Hx', Hy'.
Qed.

Lemma u_ok_rotl x n : 0 <= n <= 64 -> u_ok 64 x -> u_ok 64 (rotl x n).
Proof. intros Hn Hx. apply u_ok_lor; [apply wrap_u_range; lia | apply u_ok_shiftr; [lia | done]]. Qed.

(** A rotation loses no bit. *)
Lemma rotl_zero x n : 0 < n < 64 -> u_ok 64 x -> rotl x n = 0 -> x = 0.
Proof.
  intros Hn [Hx Hx'] Hr. apply Z.lor_eq_0_iff in Hr as [Hl Hr].
  rewrite Z.shiftr_div_pow2 in Hr by lia. rewrite wrap_u_mod, Z.shiftl_mul_pow2 in Hl by lia.
  assert (0 < 2 ^ n) as Hp by (apply Z.pow_pos_nonneg; lia).
  assert (0 < 2 ^ (64 - n)) as Hq by (apply Z.pow_pos_nonneg; lia).
  assert (x < 2 ^ (64 - n)) as Hlt by (apply Z.div_small_iff in Hr; lia).
  assert (2 ^ 64 = 2 ^ (64 - n) * 2 ^ n) as E by (rewrite <- Z.pow_add_r by lia; f_equal; lia).
  rewrite Z.mod_small in Hl by (rewrite E; nia). nia.
Qed.

Lemma shift17_fixpoint x : u_ok 64 x -> wrap_u 64 (Z.shiftl x 17) = x -> x = 0.
Proof.
  intros [Hx Hx'] H. rewrite wrap_u_mod, Z.shiftl_mul_pow2 in H by lia.
  assert ((2 ^ 64 | (2 ^ 17 - 1) * x)) as Hd.
  { exists (x * 2 ^ 17 / 2 ^ 64). rewrite <- H at 1. rewrite Z.mod_eq by lia. lia. }
  apply Z.gauss in Hd; [| reflexivity]. destruct Hd as [k Hk]. nia.
Qed.

Lemma next_u64_range r : u_ok 64 (next_u64 r).1.
Proof. apply wrap_u_range. lia. Qed.

(** Every step keeps the words in range and the state away from zero, the one
    state the generator would never leave. *)
Lemma next_u64_ok r : rng_ok r -> rng_ok (next_u64 r).2.
Proof.
  intros [H0 H1 H2 H3 Hz]. unfold next_u64. cbn [snd].
  split; cbn [s0 s1 s2 s3];
    try solve [repeat (first [apply u_ok_lxor; [lia | |] | apply u_ok_rotl; [lia |] | apply wrap_u_range; lia | done])].
  intros (E0 & E1 & E2 & E3). apply Hz.
  apply rotl_zero in E3; [| lia | by apply u_ok_lxor].
  rewrite E3, Z.lxor_0_r in E0. apply Z.lxor_eq in E2, E1.
  rewrite E0, Z.lxor_0_r in E1, E2. apply Z.lxor_eq in E3.
  rewrite E1 in E3. rewrite <- E1 in E2. symmetry in E2. apply shift17_fixpoint in E2; [| done]. split_and!; congruence.
Qed.

Lemma splitmix_next_ok state : u_ok 64 (splitmix_next state).1.
Proof.
  unfold splitmix_next. cbn [fst]. apply u_ok_lxor; [lia | apply wrap_u_range; lia |].
  apply u_ok_shiftr; [lia | apply wrap_u_range; lia].
Qed.

Lemma rng_new_ok seed : rng_ok (rng_new seed).
Proof.
  unfold rng_new.
  pose proof (splitmix_next_ok seed) as H0. destruct (splitmix_next seed) as [w0 t0].
  pose proof (splitmix_next_ok t0) as H1. destruct (splitmix_next t0) as [w1 t1].
  pose proof (splitmix_next_ok t1) as H2. destruct (splitmix_next t1) as [w2 t2].
  pose proof (splitmix_next_ok t2) as H3. destruct (splitmix_next t2) as [w3 t3].
  cbn [fst] in *. destruct (Z.eqb_spec (Z.lor (Z.lor (Z.lor w0 w1) w2) w3) 0) as [E | E];
    split; cbn [s0 s1 s2 s3]; try done; try (unfold u_ok; lia).
  intros (-> & -> & -> & ->). by apply E.
Qed.

(** ** Bounded values *)

Lemma rejection_threshold_eq bound :
  0 < bound < 2 ^ 64 -> rejection_threshold bound = 2 ^ 64 mod bound.
Proof.
  intros Hb. unfold rejection_threshold. rewrite (wrap_u_mod _ (Z.lnot bound)) by lia.
  assert (Z.lnot bound mod 2 ^ 64 = 2 ^ 64 - 1 - bound) as ->.
  { unfold Z.lnot. rewrite <- (Z.mod_add _ 1) by lia. rewrite Z.mod_small by lia. lia. }
  rewrite wrap_u_small by (unfold u_ok; lia).
  replace (2 ^ 64 - 1 - bound + 1) with (2 ^ 64 + -1 * bound) by lia. by rewrite Z.mod_add by lia.
Qed.

(** The accepted draws are a whole number of blocks of [bound] values: every
    residue is drawn from the same number of values, so there is no modulo bias. *)
Lemma next_below_unbiased bound residue :
  0 < bound < 2 ^ 64 -> 0 <= residue < bound ->
  forall value,
    (rejection_threshold bound <= value < 2 ^ 64 /\ value mod bound = residue) <->
    exists block, 0 <= block < 2 ^ 64 / bound /\
      value = rejection_threshold bound + block * bound +
              (residue - rejection_threshold bound) mod bound.
Proof.
  intros Hb Hr value. rewrite rejection_threshold_eq by done.
  pose proof (Z.mod_pos_bound (2 ^ 64) bound ltac:(lia)) as Ht.
  pose proof (Z.div_mod (2 ^ 64) bound ltac:(lia)) as E.
  set (t := 2 ^ 64 mod bound) in *. set (q := 2 ^ 64 / bound) in *.
  pose proof (Z.mod_pos_bound (residue - t) bound ltac:(lia)) as Hm. split.
  - intros [Hv Hres]. exists ((value - t) / bound).
    pose proof (Z.div_mod (value - t) bound ltac:(lia)) as Ev.
    assert ((value - t) mod bound = (residue - t) mod bound) as <-.
    { rewrite <- Hres. by rewrite Zminus_mod_idemp_l. }
    pose proof (Z.mod_pos_bound (value - t) bound ltac:(lia)). split; [| lia].
    split; [apply Z.div_pos; lia | apply Z.div_lt_upper_bound; nia].
  - intros (block & Hblock & ->). split; [nia |].
    replace (t + block * bound + (residue - t) mod bound)
      with ((residue - t) mod bound + t + block * bound) by lia.
    rewrite Z.mod_add by lia. rewrite Zplus_mod_idemp_l.
    replace (residue - t + t) with residue by lia. by apply Z.mod_small.
Qed.

Lemma draw_below_bound fuel bound r value r' :
  0 < bound -> draw_below fuel bound r = Some (value, r') -> 0 <= value < bound.
Proof.
  intros Hb. revert r. induction fuel as [| fuel IH]; intros r; [done |]. cbn [draw_below].
  destruct (next_u64 r) as [v r1]. case_match; [| apply IH]. intros [= <- <-]. apply Z.mod_pos_bound. lia.
Qed.

Lemma next_below_bound fuel bound r value r' :
  0 < bound -> next_below fuel bound r = Some (value, r') -> 0 <= value < bound.
Proof. intros Hb. unfold next_below. destruct (Z.eqb_spec bound 0); [lia |]. by apply draw_below_bound. Qed.

Lemma next_in_range_ok fuel low high r value r' :
  u_ok 64 low -> u_ok 64 high -> ~ (low = 0 /\ high = 2 ^ 64 - 1) -> low <= high ->
  next_in_range fuel low high r = Some (value, r') -> low <= value <= high.
Proof.
  unfold u_ok. intros Hl Hh Hfull Hle. unfold next_in_range. destruct (Z.leb_spec high low) as [H | H].
  { intros [= <- <-]. lia. }
  rewrite (wrap_u_small 64 (high - low)), (wrap_u_small 64 (high - low + 1)) by (unfold u_ok; lia).
  destruct (next_below fuel _ r) as [[v r1] |] eqn:E; [| done]. intros [= <- <-].
  apply next_below_bound in E; [| lia]. rewrite wrap_u_small by (unfold u_ok; lia). lia.
Qed.

(** The range of all 64-bit values is the exception: its size wraps to zero. *)
Lemma next_in_range_full fuel r : next_in_range fuel 0 (2 ^ 64 - 1) r = Some (0, r).
Proof. reflexivity. Qed.

(** ** Shuffling *)

(** The two positions of an exchange are inside the vector. *)
Lemma shuffle_positions {A} fuel (i : nat) (items : list A) r j r' :
  (i < length items)%nat -> next_below fuel (Z.of_nat i + 1) r = Some (j, r') ->
  is_Some (items !! i) /\ is_Some (items !! Z.to_nat j).
Proof.
  intros Hi Hj. apply next_below_bound in Hj; [| lia].
  split; apply lookup_lt_is_Some; lia.
Qed.

Lemma shuffle_loop_permutation {A} fuel i (items : list A) r items' r' :
  shuffle_loop fuel i items r = Some (items', r') -> items' ≡ₚ items.
Proof.
  revert items r. induction i as [| i IH]; intros items r; cbn [shuffle_loop].
  { by intros [= -> _]. }
  destruct (next_below fuel _ r) as [[j r1] |]; [| done]. intros ->%IH.
  destruct (items !! S i) eqn:Hi; [| done]. destruct (items !! Z.to_nat j) eqn:Hj; [| done].
  by apply Permutation_insert_swap.
Qed.

Lemma shuffle_permutation {A} fuel (items : list A) r items' r' :
  shuffle fuel items r = Some (items', r') -> items' ≡ₚ items.
Proof.
  unfold shuffle. destruct (_ <? _)%nat; [by intros [= -> _] | apply shuffle_loop_permutation].
Qed.

(** One draw per bound is enough when the bound divides [2 ^ 64]. *)
Lemma next_below_power fuel k r :
  0 <= k < 64 -> next_below (S fuel) (2 ^ k) r = Some ((next_u64 r).1 mod 2 ^ k, (next_u64 r).2).
Proof.
  intros Hk. assert (0 < 2 ^ k) by (apply Z.pow_pos_nonneg; lia).
  assert (2 ^ k < 2 ^ 64) by (apply Z.pow_lt_mono_r; lia).
  unfold next_below. destruct (Z.eqb_spec (2 ^ k) 0); [lia |]. cbn [draw_below].
  rewrite rejection_threshold_eq by lia.
  assert (2 ^ 64 mod 2 ^ k = 0) as ->.
  { replace (2 ^ 64) with (2 ^ (64 - k) * 2 ^ k) by (rewrite <- Z.pow_add_r by lia; f_equal; lia).
    by apply Z.mod_mul; lia. }
  pose proof (next_u64_range r) as Hv.
  destruct (next_u64 r) as [v r1]. cbn [fst snd] in *.
  destruct (Z.leb_spec 0 v); [done | unfold u_ok in Hv; lia].
Qed.

(** [next_unit] is in the unit interval: its numerator is below [2 ^ 53]. *)
Lemma next_unit_range r : 0 <= (next_unit_scaled r).1 < 2 ^ 53.
Proof.
  unfold next_unit_scaled. destruct (next_u64_range r) as [Hl Hh].
  destruct (next_u64 r) as [v r1]. cbn [fst] in *.
  rewrite Z.shiftr_div_pow2 by lia. split; [apply Z.div_pos; lia | apply Z.div_lt_upper_bound; lia].
Qed.

(** ** The contract of a bounded draw *)

(** Bounded draws have no modulo bias.  The words that are not rejected are a
    whole number of blocks of [bound] consecutive values, so each residue has the
    same number of them, one in each block; and whatever the state of the
    generator, a draw that ends is below the bound. *)
Theorem bounded_draws_unbiased bound :
  0 < bound < 2 ^ 64 ->
  rejection_threshold bound = 2 ^ 64 mod bound /\
  (forall residue, 0 <= residue < bound -> forall value,
     (rejection_threshold bound <= value < 2 ^ 64 /\ value mod bound = residue) <->
     exists block, 0 <= block < 2 ^ 64 / bound /\
       value = rejection_threshold bound + block * bound + (residue - rejection_threshold bound) mod bound) /\
  (forall fuel r value r', next_below fuel bound r = Some (value, r') -> 0 <= value < bound) /\
  (forall fuel r, rejection_threshold bound <= (next_u64 r).1 ->
     next_below (S fuel) bound r = Some ((next_u64 r).1 mod bound, (next_u64 r).2)).
Proof.
  intros Hb. split_and!.
  - by apply rejection_threshold_eq.
  - intros residue Hr value. by apply next_below_unbiased.
  - intros fuel r value r'. apply next_below_bound. lia.
  - intros fuel r Ht. unfold next_below. rewrite (proj2 (Z.eqb_neq bound 0)) by lia. cbn [draw_below].
    destruct (next_u64 r) as [v r1]. cbn [fst snd] in *. by rewrite (proj2 (Z.leb_le _ _)).
Qed.

Lemma bounded_draws_unbiased_witness :
  rejection_threshold 6 = 4 /\ next_below 1 6 (rng_new 42) = Some ((next_u64 (rng_new 42)).1 mod 6, (next_u64 (rng_new 42)).2).
Proof.
  destruct (bounded_draws_unbiased 6 ltac:(lia)) as (H & _ & _ & Hd).
  split; [by rewrite H | apply (Hd 0%nat); vm_compute; discriminate].
Defined.
