(* ===== verification/Utf8.v ===== *)
(** UTF-8 text: [append_utf8] and [is_valid_utf8] of [src/json.cpp].

    A [char] is an [ascii]; [byte] is its unsigned value. *)
From S2P Require Import Prelude.
#[local] Open Scope string_scope.
#[local] Open Scope Z_scope.

(** [static_cast<std::uint8_t>(c)] and [static_cast<char>(b)] *)
Abbreviation byte := byte_of_ascii.
Abbreviation chr := ascii_of_byte.

(** The characters [append_utf8] appends; [None] when it returns [false]. *)
Definition utf8_encode (code_point : Z) : option string :=
  if (0x10FFFF <? code_point) || ((0xD800 <=? code_point) && (code_point <=? 0xDFFF)) then None
  else if code_point <? 0x80 then Some (String (chr code_point) "")
  else if code_point <? 0x800 then
    Some (String (chr (Z.lor 0xC0 (Z.shiftr code_point 6)))
         (String (chr (Z.lor 0x80 (Z.land code_point 0x3F))) ""))
  else if code_point <? 0x10000 then
    Some (String (chr (Z.lor 0xE0 (Z.shiftr code_point 12)))
         (String (chr (Z.lor 0x80 (Z.land (Z.shiftr code_point 6) 0x3F)))
         (String (chr (Z.lor 0x80 (Z.land code_point 0x3F))) "")))
  else
    Some (String (chr (Z.lor 0xF0 (Z.shiftr code_point 18)))
         (String (chr (Z.lor 0x80 (Z.land (Z.shiftr code_point 12) 0x3F)))
         (String (chr (Z.lor 0x80 (Z.land (Z.shiftr code_point 6) 0x3F)))
         (String (chr (Z.lor 0x80 (Z.land code_point 0x3F))) "")))).

(** [append_utf8] *)
Definition append_utf8 (out : string) (code_point : Z) : bool * string :=
  match utf8_encode code_point with
  | None => (false, out)
  | Some s => (true, out +:+ s)
  end.

(** The lead byte of a sequence that is not ASCII: how many bytes follow and the
    bits it contributes. *)
Definition utf8_lead (b : Z) : option (nat * Z) :=
  if Z.land b 0xE0 =? 0xC0 then Some (1%nat, Z.land b 0x1F)
  else if Z.land b 0xF0 =? 0xE0 then Some (2%nat, Z.land b 0x0F)
  else if Z.land b 0xF8 =? 0xF0 then Some (3%nat, Z.land b 0x07)
  else None.

(** The loop over the continuation bytes, with the text after them. *)
Fixpoint utf8_continuation (extra : nat) (code_point : Z) (text : string) : option (Z * string) :=
  match extra with
  | O => Some (code_point, text)
  | S extra =>
      match text with
      | "" => None
      | String c text =>
          if Z.land (byte c) 0xC0 =? 0x80
          then utf8_continuation extra (Z.lor (Z.shiftl code_point 6) (Z.land (byte c) 0x3F)) text
          else None
      end
  end.

Definition utf8_minimum (extra : nat) : Z :=
  if (extra =? 1)%nat then 0x80 else if (extra =? 2)%nat then 0x800 else 0x10000.

(** One round of the loop of [is_valid_utf8]: the text after one code point. *)
Definition utf8_step (c : Ascii.ascii) (text : string) : option string :=
  if byte c <? 0x80 then Some text else
  match utf8_lead (byte c) with
  | None => None
  | Some (extra, bits) =>
      if (String.length text <? extra)%nat then None else
      match utf8_continuation extra bits text with
      | None => None
      | Some (code_point, text) =>
          if (code_point <? utf8_minimum extra) || (0x10FFFF <? code_point) ||
             ((0xD800 <=? code_point) && (code_point <=? 0xDFFF))
          then None else Some text
      end
  end.

Fixpoint utf8_loop (fuel : nat) (text : string) : bool :=
  match text, fuel with
  | "", _ => true
  | String c rest, S fuel =>
      match utf8_step c rest with
      | Some rest => utf8_loop fuel rest
      | None => false
      end
  | _, O => false
  end.

(** [is_valid_utf8]: a round reads at least one byte. *)
Definition is_valid_utf8 (text : string) : bool := utf8_loop (String.length text) text.

(** ** The text of a sequence of code points *)

Inductive Utf8 : string -> Prop :=
| utf8_nil : Utf8 ""
| utf8_cons code_point s rest : utf8_encode code_point = Some s -> 0 <= code_point -> Utf8 rest -> Utf8 (s +:+ rest).

(** *** Concatenation *)

Lemma str_app_cons c s t : String c s +:+ t = String c (s +:+ t).
Proof. done. Qed.

Lemma str_app_nil s : "" +:+ s = s.
Proof. done. Qed.

Lemma str_app_nil_r s : s +:+ "" = s.
Proof. induction s as [| c s IH]; [done |]. by rewrite str_app_cons, IH. Qed.

Lemma str_app_assoc s t u : (s +:+ t) +:+ u = s +:+ (t +:+ u).
Proof. induction s as [| c s IH]; [done |]. by rewrite !str_app_cons, IH. Qed.

Lemma str_length_app s t : String.length (s +:+ t) = (String.length s + String.length t)%nat.
Proof. induction s as [| c s IH]; [done |]. rewrite str_app_cons. cbn [String.length]. by rewrite IH. Qed.

Create Rewrite HintDb str_app.
#[export] Hint Rewrite str_app_cons str_app_nil str_app_nil_r str_app_assoc : str_app.

(** *** Bytes *)

Lemma byte_chr b : byte_ok b -> byte (chr b) = b.
Proof.
  unfold byte_ok. intros Hb. unfold byte_of_ascii, ascii_of_byte.
  rewrite Ascii.N_ascii_embedding by lia. lia.
Qed.

(** A property of all bytes is checked by computing it. *)
Lemma all_bytes (P : Z -> bool) :
  forallb P (map Z.of_nat (seq 0 256)) = true -> forall b, byte_ok b -> P b = true.
Proof.
  intros H b Hb. rewrite forallb_forall in H. apply H, in_map_iff.
  exists (Z.to_nat b). unfold byte_ok in Hb. rewrite in_seq. lia.
Qed.

(** A continuation byte holds six bits. *)
Lemma continuation_byte b :
  byte_ok b -> Z.land b 0xC0 = 0x80 -> b = Z.lor 0x80 (Z.land b 0x3F) /\ 0 <= Z.land b 0x3F < 64.
Proof.
  intros Hb H.
  pose proof (all_bytes (fun b => negb (Z.land b 0xC0 =? 0x80) ||
    ((b =? Z.lor 0x80 (Z.land b 0x3F)) && (0 <=? Z.land b 0x3F) && (Z.land b 0x3F <? 64)))
    ltac:(by vm_compute) b Hb) as E.
  cbv beta in E. rewrite H, Z.eqb_refl in E. cbn [negb orb] in E. bool_prop. lia.
Qed.

Lemma continuation_bits c :
  0 <= c < 64 -> byte_ok (Z.lor 0x80 c) /\ Z.land (Z.lor 0x80 c) 0xC0 = 0x80 /\ Z.land (Z.lor 0x80 c) 0x3F = c.
Proof.
  intros Hc.
  pose proof (all_bytes (fun c => negb (c <? 64) ||
    (bool_decide (byte_ok (Z.lor 0x80 c)) && (Z.land (Z.lor 0x80 c) 0xC0 =? 0x80) &&
     (Z.land (Z.lor 0x80 c) 0x3F =? c))) ltac:(by vm_compute) c ltac:(unfold byte_ok; lia)) as E.
  cbv beta in E. rewrite (proj2 (Z.ltb_lt c 64)) in E by lia. cbn [negb orb] in E. bool_prop. done.
Qed.

(** The marker bits of a lead byte and the bound of the bits it holds. *)
Definition lead_marker (extra : nat) : Z := match extra with 1%nat => 0xC0 | 2%nat => 0xE0 | _ => 0xF0 end.
Definition lead_bound (extra : nat) : Z := match extra with 1%nat => 32 | 2%nat => 16 | _ => 8 end.

Lemma lead_bits extra a :
  (1 <= extra <= 3)%nat -> 0 <= a < lead_bound extra ->
  byte_ok (Z.lor (lead_marker extra) a) /\ 0x80 <= Z.lor (lead_marker extra) a /\
  utf8_lead (Z.lor (lead_marker extra) a) = Some (extra, a).
Proof.
  intros He Ha.
  assert (byte_ok a) as Hb by (unfold byte_ok; destruct extra as [| [| [| [|]]]]; cbn [lead_bound] in Ha; lia).
  assert (extra = 1 \/ extra = 2 \/ extra = 3)%nat as Hx by lia.
  pose proof (all_bytes (fun a => negb (a <? lead_bound extra) ||
    (bool_decide (byte_ok (Z.lor (lead_marker extra) a)) && (0x80 <=? Z.lor (lead_marker extra) a) &&
     bool_decide (utf8_lead (Z.lor (lead_marker extra) a) = Some (extra, a))))
    ltac:(destruct Hx as [-> | [-> | ->]]; by vm_compute) a Hb) as E.
  cbv beta in E. rewrite (proj2 (Z.ltb_lt a _)) in E by lia. cbn [negb orb] in E. bool_prop. done.
Qed.

Lemma lead_inv b extra a :
  byte_ok b -> utf8_lead b = Some (extra, a) ->
  (1 <= extra <= 3)%nat /\ 0 <= a < lead_bound extra /\ b = Z.lor (lead_marker extra) a.
Proof.
  intros Hb H.
  pose proof (all_bytes (fun b => match utf8_lead b with
    | None => true
    | Some (extra, a) => (1 <=? extra)%nat && (extra <=? 3)%nat && (0 <=? a) && (a <? lead_bound extra) &&
                         (b =? Z.lor (lead_marker extra) a)
    end) ltac:(by vm_compute) b Hb) as E.
  cbv beta in E. rewrite H in E. rewrite !andb_true_iff, !Nat.leb_le, Z.leb_le, Z.ltb_lt, Z.eqb_eq in E. tauto.
Qed.

Lemma continuation_read extra code_point c text :
  0 <= c < 64 ->
  utf8_continuation (S extra) code_point (String (chr (Z.lor 0x80 c)) text) =
  utf8_continuation extra (code_point * 64 + c) text.
Proof.
  intros Hc. destruct (continuation_bits c Hc) as (Hb & Hm & Hv). cbn [utf8_continuation].
  rewrite byte_chr, Hm, Hv, Z.eqb_refl by done.
  by rewrite Z.lor_comm, lor_shiftl_add, Z.add_comm by lia.
Qed.

Lemma continuation_inv extra code_point text r :
  utf8_continuation (S extra) code_point text = Some r ->
  exists c rest, 0 <= c < 64 /\ text = String (chr (Z.lor 0x80 c)) rest /\
    utf8_continuation extra (code_point * 64 + c) rest = Some r.
Proof.
  cbn [utf8_continuation]. destruct text as [| a text]; [done |].
  destruct (Z.eqb_spec (Z.land (byte a) 0xC0) 0x80) as [Hm | _]; [| done].
  destruct (continuation_byte _ (byte_of_ascii_ok a) Hm) as [Ha Hc]. intros H.
  exists (Z.land (byte a) 0x3F), text. split_and!; [lia | lia | |].
  - rewrite <- Ha. by rewrite ascii_of_byte_of_ascii.
  - by rewrite Z.lor_comm, lor_shiftl_add, Z.add_comm in H by lia.
Qed.

(** *** One code point *)

(** Six bits of a code point. *)
Lemma six_bits code_point k :
  0 <= k -> Z.land (Z.shiftr code_point k) 0x3F = (code_point / 2 ^ k) mod 64.
Proof. intros Hk. rewrite Z.shiftr_div_pow2 by done. apply (Z.land_ones _ 6). lia. Qed.

Lemma low_six_bits code_point : Z.land code_point 0x3F = code_point mod 64.
Proof. apply (Z.land_ones _ 6). lia. Qed.

(** The code points that are encoded. *)
Definition scalar (code_point : Z) : bool :=
  (0 <=? code_point) && (code_point <=? 0x10FFFF) && negb ((0xD800 <=? code_point) && (code_point <=? 0xDFFF)).

(** The encoding of a code point of more than one byte, in the terms of the decoder. *)
Definition encode_bytes (code_point : Z) : string :=
  if code_point <? 0x800 then
    String (chr (Z.lor (lead_marker 1) (code_point / 64))) (String (chr (Z.lor 0x80 (code_point mod 64))) "")
  else if code_point <? 0x10000 then
    String (chr (Z.lor (lead_marker 2) (code_point / 4096)))
      (String (chr (Z.lor 0x80 (code_point / 64 mod 64))) (String (chr (Z.lor 0x80 (code_point mod 64))) ""))
  else
    String (chr (Z.lor (lead_marker 3) (code_point / 262144)))
      (String (chr (Z.lor 0x80 (code_point / 4096 mod 64)))
        (String (chr (Z.lor 0x80 (code_point / 64 mod 64))) (String (chr (Z.lor 0x80 (code_point mod 64))) ""))).

Lemma utf8_encode_eq code_point :
  0 <= code_point ->
  utf8_encode code_point =
    if scalar code_point
    then Some (if code_point <? 0x80 then String (chr code_point) "" else encode_bytes code_point)
    else None.
Proof.
  intros Hc. unfold utf8_encode, scalar, encode_bytes.
  rewrite (proj2 (Z.leb_le 0 code_point)), (Z.leb_antisym 0x10FFFF code_point) by done. cbn [andb].
  destruct (0x10FFFF <? code_point); [done |].
  destruct ((0xD800 <=? code_point) && (code_point <=? 0xDFFF)); [done |]. cbn [orb negb andb].
  destruct (code_point <? 0x80); [done |].
  rewrite !six_bits, low_six_bits, !Z.shiftr_div_pow2 by lia.
  by destruct (code_point <? 0x800), (code_point <? 0x10000).
Qed.

(** A sequence of several bytes decodes to the code point it encodes. *)
Lemma decode_bytes extra c1 rest :
  (1 <= extra <= 3)%nat -> 0 <= c1 < lead_bound extra -> (extra <= String.length rest)%nat ->
  utf8_step (chr (Z.lor (lead_marker extra) c1)) rest =
  match utf8_continuation extra c1 rest with
  | None => None
  | Some (code_point, text) =>
      if (code_point <? utf8_minimum extra) || (0x10FFFF <? code_point) ||
         ((0xD800 <=? code_point) && (code_point <=? 0xDFFF))
      then None else Some text
  end.
Proof.
  intros He Hc Hl. destruct (lead_bits extra c1 He Hc) as (Hb & Hge & Hlead).
  unfold utf8_step. rewrite byte_chr, (proj2 (Z.ltb_ge _ _)), Hlead by done.
  by rewrite (proj2 (Nat.ltb_ge _ _)).
Qed.

Lemma accepts_scalar code_point extra :
  scalar code_point = true -> utf8_minimum extra <= code_point ->
  (code_point <? utf8_minimum extra) || (0x10FFFF <? code_point) ||
  ((0xD800 <=? code_point) && (code_point <=? 0xDFFF)) = false.
Proof.
  unfold scalar. intros H Hm. bool_prop.
  rewrite (proj2 (Z.ltb_ge code_point _)), (proj2 (Z.ltb_ge 0x10FFFF _)) by lia. cbn [orb]. lia.
Qed.

Lemma utf8_step_encode code_point s rest :
  0 <= code_point -> utf8_encode code_point = Some s ->
  exists c tail, s = String c tail /\ utf8_step c (tail +:+ rest) = Some rest.
Proof.
  intros H0. rewrite utf8_encode_eq by done. destruct (scalar code_point) eqn:Hs; [| done]. intros [= <-].
  assert (code_point <= 0x10FFFF) as Hmax by (unfold scalar in Hs; bool_prop; lia).
  destruct (Z.ltb_spec code_point 0x80) as [H1 | H1].
  { exists (chr code_point), "". split; [done |]. unfold utf8_step.
    by rewrite byte_chr, (proj2 (Z.ltb_lt _ _)) by (unfold byte_ok; lia). }
  unfold encode_bytes.
  destruct (Z.ltb_spec code_point 0x800) as [H2 | H2]; [| destruct (Z.ltb_spec code_point 0x10000) as [H3 | H3]];
    do 2 eexists; (split; [reflexivity |]); rewrite ?str_app_cons, ?str_app_nil;
    (rewrite decode_bytes; [| lia | cbn [lead_bound]; div_lia | cbn [String.length]; lia]);
    rewrite !continuation_read by (apply Z.mod_pos_bound; lia); cbn [utf8_continuation].
  - replace (code_point / 64 * 64 + code_point mod 64) with code_point by div_lia.
    by rewrite accepts_scalar by (done || cbn; lia).
  - replace ((code_point / 4096 * 64 + code_point / 64 mod 64) * 64 + code_point mod 64) with code_point by div_lia.
    by rewrite accepts_scalar by (done || cbn; lia).
  - replace (((code_point / 262144 * 64 + code_point / 4096 mod 64) * 64 + code_point / 64 mod 64) * 64 +
             code_point mod 64) with code_point by div_lia.
    by rewrite accepts_scalar by (done || cbn; lia).
Qed.

Lemma rejects_false code_point extra :
  (code_point <? utf8_minimum extra) || (0x10FFFF <? code_point) ||
  ((0xD800 <=? code_point) && (code_point <=? 0xDFFF)) = false -> 0 <= code_point ->
  scalar code_point = true /\ utf8_minimum extra <= code_point.
Proof.
  intros H H0. unfold scalar. rewrite !orb_false_iff in H. destruct H as [[H1 H2] ->].
  rewrite Z.ltb_ge in H1, H2. rewrite !(proj2 (Z.leb_le _ _)) by lia. done.
Qed.

Lemma div_digit a b : 0 <= b < 64 -> (a * 64 + b) / 64 = a.
Proof. intros Hb. rewrite Z.div_add_l by lia. rewrite Z.div_small by lia. lia. Qed.

Lemma mod_digit a b : 0 <= b < 64 -> (a * 64 + b) mod 64 = b.
Proof. intros Hb. rewrite Z.add_comm, Z.mod_add by lia. by apply Z.mod_small. Qed.

Lemma utf8_step_decode c text rest :
  utf8_step c text = Some rest ->
  exists code_point tail, 0 <= code_point /\ utf8_encode code_point = Some (String c tail) /\ text = tail +:+ rest.
Proof.
  intros H. pose proof (byte_of_ascii_ok c) as Hc. unfold utf8_step in H.
  destruct (Z.ltb_spec (byte c) 0x80) as [H1 | H1].
  { injection H as ->. exists (byte c), "". unfold byte_ok in Hc. split_and!; [lia | | done].
    rewrite utf8_encode_eq by lia. unfold scalar.
    rewrite (proj2 (Z.leb_le 0 _)), (proj2 (Z.leb_le _ 0x10FFFF)), (proj2 (Z.leb_gt 0xD800 _)) by lia.
    cbn [andb negb]. by rewrite (proj2 (Z.ltb_lt _ _)), ascii_of_byte_of_ascii by lia. }
  destruct (utf8_lead (byte c)) as [[extra bits] |] eqn:El; [| done].
  apply (lead_inv _ _ _ Hc) in El as (He & Hb & Ec).
  assert (c = chr (Z.lor (lead_marker extra) bits)) as -> by (by rewrite <- Ec, ascii_of_byte_of_ascii).
  destruct (_ <? extra)%nat; [done |].
  destruct (utf8_continuation extra bits text) as [[code_point r] |] eqn:Ek; [| done].
  destruct (_ || _) eqn:Er in H; [done |]. injection H as ->. exists code_point.
  assert (extra = 1 \/ extra = 2 \/ extra = 3)%nat as [-> | [-> | ->]] by lia; cbn [lead_bound] in Hb;
    repeat (apply continuation_inv in Ek as (? & ? & ? & -> & Ek)); injection Ek as Ek ->;
    apply rejects_false in Er as [Hs Hm]; try lia; cbn in Hm;
    eexists; (split; [lia |]); rewrite utf8_encode_eq, Hs, (proj2 (Z.ltb_ge _ 0x80)) by lia;
    unfold encode_bytes.
  - rewrite (proj2 (Z.ltb_lt _ _)) by lia.
    rewrite <- Ek, (div_digit bits x), (mod_digit bits x) by done. done.
  - rewrite (proj2 (Z.ltb_ge _ 0x800)), (proj2 (Z.ltb_lt _ 0x10000)) by lia.
    rewrite <- Ek. change 4096 with (64 * 64). rewrite <- Z.div_div by lia.
    rewrite !div_digit, !mod_digit by done. done.
  - rewrite (proj2 (Z.ltb_ge _ 0x800)), (proj2 (Z.ltb_ge _ 0x10000)) by lia.
    rewrite <- Ek. change 262144 with (64 * 64 * 64). change 4096 with (64 * 64). rewrite <- !Z.div_div by lia.
    rewrite !div_digit, !mod_digit by done. done.
Qed.

(** ** Validity is well-formedness *)

Lemma utf8_step_length c text rest : utf8_step c text = Some rest -> (String.length rest <= String.length text)%nat.
Proof. intros (cp & tail & _ & _ & ->)%utf8_step_decode. rewrite str_length_app. lia. Qed.

Lemma utf8_loop_sound fuel text : utf8_loop fuel text = true -> Utf8 text.
Proof.
  revert text. induction fuel as [| fuel IH]; intros [| c text]; cbn [utf8_loop]; try done; [constructor.. |].
  destruct (utf8_step c text) as [rest |] eqn:E; [| done]. intros H%IH.
  apply utf8_step_decode in E as (cp & tail & H0 & Henc & ->).
  rewrite <- str_app_cons. by apply (utf8_cons cp).
Qed.

Lemma utf8_loop_complete text : Utf8 text -> forall fuel, (String.length text <= fuel)%nat -> utf8_loop fuel text = true.
Proof.
  induction 1 as [| cp s rest Henc H0 H IH]; intros fuel Hf; [by destruct fuel |].
  destruct (utf8_step_encode cp s rest H0 Henc) as (c & tail & -> & Hstep).
  rewrite str_app_cons in *. cbn [String.length] in Hf. destruct fuel as [| fuel]; [lia |].
  cbn [utf8_loop]. rewrite Hstep. apply IH. rewrite str_length_app in Hf. lia.
Qed.

(** [is_valid_utf8] accepts exactly the concatenations of the encodings of scalar
    values: no overlong form, no surrogate, nothing above U+10FFFF. *)
Lemma is_valid_utf8_spec text : is_valid_utf8 text = true <-> Utf8 text.
Proof. split; [apply utf8_loop_sound | intros H; by apply utf8_loop_complete]. Qed.

(** [append_utf8] keeps a text well formed, and refuses exactly what is not a
    scalar value. *)
Lemma utf8_app s t : Utf8 s -> Utf8 t -> Utf8 (s +:+ t).
Proof.
  induction 1 as [| cp x rest Henc H0 _ IH]; intros Ht; [done |].
  rewrite str_app_assoc. apply (utf8_cons cp); auto.
Qed.

Lemma append_utf8_spec out code_point :
  0 <= code_point -> Utf8 out ->
  ((append_utf8 out code_point).1 = true <-> scalar code_point = true) /\ Utf8 (append_utf8 out code_point).2.
Proof.
  intros H0 Hout. unfold append_utf8. rewrite utf8_encode_eq by done.
  destruct (scalar code_point) eqn:Hs; cbn [fst snd]; [| done]. split; [done |]. apply utf8_app; [done |].
  match goal with |- Utf8 ?s => rewrite <- (str_app_nil_r s) end.
  apply (utf8_cons code_point); [| done | constructor].
  by rewrite utf8_encode_eq, Hs.
Qed.

(** ** The contract *)

(** The test accepts exactly the well formed texts: the concatenations of the
    encodings of scalar values, with no overlong form, no surrogate and nothing
    above U+10FFFF.  Appending a code point succeeds exactly for a scalar value,
    and what it leaves is well formed, so the test accepts it. *)
Theorem utf8_exact text code_point :
  0 <= code_point -> is_valid_utf8 text = true ->
  (forall other, is_valid_utf8 other = true <-> Utf8 other) /\
  ((append_utf8 text code_point).1 = true <-> scalar code_point = true) /\
  is_valid_utf8 (append_utf8 text code_point).2 = true.
Proof.
  intros Hc Ht. apply is_valid_utf8_spec in Ht. split; [exact is_valid_utf8_spec |].
  destruct (append_utf8_spec text code_point Hc Ht) as [H1 H2]. split; [done | by apply is_valid_utf8_spec].
Qed.

(** A surrogate is refused, and the last code point of the planes is not. *)
Lemma utf8_exact_witness :
  (append_utf8 "x" 55296).1 = false /\ is_valid_utf8 (append_utf8 "x" 1114111).2 = true.
Proof.
  destruct (utf8_exact "x" 55296 ltac:(lia) ltac:(reflexivity)) as (_ & H1 & _).
  destruct (utf8_exact "x" 1114111 ltac:(lia) ltac:(reflexivity)) as (_ & _ & H2).
  split; [| exact H2]. apply not_true_iff_false. rewrite H1. by vm_compute.
Defined.
