(* ===== verification/Json.v ===== *)
(** JSON values, the writer and the reader: [include/pathobs/json.hpp],
    [src/json.cpp].

    A [JsonValue] is the variant its [kind_] selects, with the members that the
    kind uses; the others are empty in every value the class builds, and nothing
    reads them.  [make_number] and [as_double] on floating point values are not
    modelled: the library only reads and writes integers. *)
From Stdlib Require Import Ascii.
From S2P Require Import Prelude Errors Limits Utf8.
#[local] Open Scope string_scope.
#[local] Open Scope Z_scope.

(** ** Values *)

#[local] Unset Elimination Schemes.
Inductive JsonValue : Set :=
| JNull
| JBoolean (boolean : bool)
| JNumber (text : string)
| JString (text : string)
| JArray (items : list JsonValue)
| JObject (fields : list (string * JsonValue)).
#[local] Set Elimination Schemes.

(** Induction over the values of the items and the fields. *)
Definition JsonValue_ind (P : JsonValue -> Prop) (Hnull : P JNull) (Hboolean : forall b, P (JBoolean b))
    (Hnumber : forall s, P (JNumber s)) (Hstring : forall s, P (JString s))
    (Harray : forall items, Forall P items -> P (JArray items))
    (Hobject : forall fields, Forall (fun f => P f.2) fields -> P (JObject fields)) : forall v, P v :=
  fix go (v : JsonValue) : P v :=
    match v with
    | JNull => Hnull
    | JBoolean b => Hboolean b
    | JNumber s => Hnumber s
    | JString s => Hstring s
    | JArray items =>
        Harray items ((fix all (l : list JsonValue) : Forall P l :=
          match l with [] => Forall_nil_2 P | v :: l => Forall_cons_2 P v l (go v) (all l) end) items)
    | JObject fields =>
        Hobject fields ((fix all (l : list (string * JsonValue)) : Forall (fun f => P f.2) l :=
          match l with
          | [] => Forall_nil_2 (fun f => P f.2)
          | f :: l => Forall_cons_2 (fun f => P f.2) f l (go f.2) (all l)
          end) fields)
    end.

Definition kNewline : Ascii.ascii := "010"%char.
Definition kEscape : Ascii.ascii := "092"%char.
Definition kQuote : Ascii.ascii := "034"%char.

(** [make_number(std::uint64_t)] and [make_number(std::int64_t)] *)
Definition make_number (value : Z) : JsonValue :=
  JNumber (if value <? 0 then "-" +:+ to_string (- value) else to_string value).

(** [as_boolean] and [as_string]; the latter reads the text of numbers too. *)
Definition as_boolean (v : JsonValue) : bool := match v with JBoolean b => b | _ => false end.
Definition as_string (v : JsonValue) : string := match v with JNumber s | JString s => s | _ => "" end.

Fixpoint contains_any (chars : list Ascii.ascii) (text : string) : bool :=
  match text with
  | "" => false
  | String c rest => existsb (Ascii.eqb c) chars || contains_any chars rest
  end.

(** [std::from_chars] that has to read the whole text. *)
Definition chars_to_u64 (text : string) : option Z :=
  if bool_decide (text = "") then None else
  match dec_value 0 text with
  | Some v => if v <? 2 ^ 64 then Some v else None
  | None => None
  end.

Definition chars_to_i64 (text : string) : option Z :=
  let '(negative, digits) :=
    match text with
    | String c rest => if Ascii.eqb c "-"%char then (true, rest) else (false, text)
    | "" => (false, text)
    end in
  if bool_decide (digits = "") then None else
  match dec_value 0 digits with
  | Some v =>
      let v := if negative then - v else v in
      if (- 2 ^ 63 <=? v) && (v <? 2 ^ 63) then Some v else None
  | None => None
  end.

Definition as_u64 (v : JsonValue) : Result Z :=
  match v with
  | JNumber text =>
      fail? contains_any ["."%char; "e"%char; "E"%char; "-"%char; "+"%char] text with
        mk_error InvalidFormat "number is not a non negative integer" text in
      match chars_to_u64 text with
      | Some v => Ok v
      | None => Err (mk_error OutOfRange "integer does not fit in 64 unsigned bits" text)
      end
  | _ => Err (error InvalidFormat "value is not a number")
  end.

Definition as_i64 (v : JsonValue) : Result Z :=
  match v with
  | JNumber text =>
      fail? contains_any ["."%char; "e"%char; "E"%char] text with
        mk_error InvalidFormat "number is not an integer" text in
      match chars_to_i64 text with
      | Some v => Ok v
      | None => Err (mk_error OutOfRange "integer does not fit in 64 signed bits" text)
      end
  | _ => Err (error InvalidFormat "value is not a number")
  end.

Definition as_bool_checked (v : JsonValue) : Result bool :=
  match v with JBoolean b => Ok b | _ => Err (error InvalidFormat "value is not a boolean") end.

(** [items], [fields], [size], [find] *)
Definition items (v : JsonValue) : list JsonValue := match v with JArray l => l | _ => [] end.
Definition fields (v : JsonValue) : list (string * JsonValue) := match v with JObject l => l | _ => [] end.
Definition json_size (v : JsonValue) : nat :=
  match v with JArray l => length l | JObject l => length l | _ => 0%nat end.

Fixpoint find_field (key : string) (l : list (string * JsonValue)) : option JsonValue :=
  match l with
  | [] => None
  | (k, v) :: l => if bool_decide (k = key) then Some v else find_field key l
  end.

Definition json_find (v : JsonValue) (key : string) : option JsonValue :=
  match v with JObject l => find_field key l | _ => None end.

(** [push_back]: a value of another kind becomes an array. *)
Definition json_push_back (v value : JsonValue) : JsonValue := JArray (items v ++ [value]).

(** [set]: the field is replaced in place, or appended. *)
Fixpoint set_field (key : string) (value : JsonValue) (l : list (string * JsonValue)) :
    list (string * JsonValue) :=
  match l with
  | [] => [(key, value)]
  | (k, v) :: l => if bool_decide (k = key) then (k, value) :: l else (k, v) :: set_field key value l
  end.

Definition json_set (v : JsonValue) (key : string) (value : JsonValue) : JsonValue :=
  JObject (set_field key value (fields v)).

(** ** The writer *)

Definition hex_digit (value : Z) : Ascii.ascii := if value <? 10 then chr (48 + value) else chr (97 + (value - 10)).

Definition short_escape (b : Z) : option Ascii.ascii :=
  match b with
  | 8 => Some "b"%char | 12 => Some "f"%char | 10 => Some "n"%char | 13 => Some "r"%char | 9 => Some "t"%char
  | _ => None
  end.

(** What [escape_into] writes for one character. *)
Definition escape_char (raw : Ascii.ascii) : string :=
  if Ascii.eqb raw kQuote || Ascii.eqb raw kEscape then String kEscape (String raw "")
  else if byte raw <? 0x20 then
    String kEscape
      (match short_escape (byte raw) with
       | Some short_form => String short_form ""
       | None =>
           String "u"%char (String "0"%char (String "0"%char
             (String (hex_digit (Z.land (Z.shiftr (byte raw) 4) 0x0F))
                (String (hex_digit (Z.land (byte raw) 0x0F)) ""))))
       end)
  else String raw "".

Fixpoint escape_chars (text : string) : string :=
  match text with
  | "" => ""
  | String raw rest => escape_char raw +:+ escape_chars rest
  end.

(** [escape_into] *)
Definition escape_text (text : string) : string :=
  String kQuote (escape_chars text +:+ String kQuote "").

Fixpoint spaces (n : nat) : string := match n with O => "" | S n => String " "%char (spaces n) end.

(** A new line and its indentation, when pretty printing. *)
Definition line (pretty : bool) (indent : nat) : string :=
  if pretty then String kNewline (spaces indent) else "".

(** The loop over the items or the fields: all but the first follow a comma. *)
Section List.
Context {A : Type} (dump_one : A -> string).

Fixpoint dump_list (first : bool) (l : list A) : string :=
  match l with
  | [] => ""
  | x :: l => (if first then "" else ",") +:+ dump_one x +:+ dump_list false l
  end.
End List.

(** [dump_into], as the text it appends. *)
Fixpoint dump_text (pretty : bool) (indent : nat) (v : JsonValue) : string :=
  match v with
  | JNull => "null"
  | JBoolean b => if b then "true" else "false"
  | JNumber text => if bool_decide (text = "") then "0" else text
  | JString text => escape_text text
  | JArray [] => "[]"
  | JArray items =>
      "[" +:+ dump_list (fun v => line pretty (indent + 2) +:+ dump_text pretty (indent + 2) v) true items +:+
      line pretty indent +:+ "]"
  | JObject [] => "{}"
  | JObject fields =>
      "{" +:+
      dump_list (fun f =>
        line pretty (indent + 2) +:+ escape_text f.1 +:+ ":" +:+ (if pretty then " " else "") +:+
        dump_text pretty (indent + 2) f.2) true fields +:+
      line pretty indent +:+ "}"
  end.

(** [dump] *)
Definition dump (v : JsonValue) (pretty : bool) : string := dump_text pretty 0 v.

(** ** The reader

    The position of the parser is the text that is left.  The first failure is
    the error of the document, since every caller returns at once; [OutOfFuel]
    is no outcome of the code. *)

Inductive Parsed (A : Type) : Type :=
| Got (a : A)
| Failed (e : Error)
| OutOfFuel.
Arguments Got {A} a.
Arguments Failed {A} e.
Arguments OutOfFuel {A}.

Definition parsed_bind {A B} (m : Parsed A) (k : A -> Parsed B) : Parsed B :=
  match m with Got a => k a | Failed e => Failed e | OutOfFuel => OutOfFuel end.

Definition parsed_of {A} (r : Result A) : Parsed A := match r with Ok a => Got a | Err e => Failed e end.

#[local] Notation "'got' x ':=' m 'in' k" := (parsed_bind m (fun x => k))
  (at level 10, x pattern at level 0, m at level 100, k at level 200).

Definition invalid {A} (message : string) : Result A := Err (error InvalidFormat message).
Definition malformed {A} (message : string) : Parsed A := Failed (error InvalidFormat message).

(** [peek] *)
Definition peek (text : string) : ascii := match text with "" => "000"%char | String c _ => c end.

Definition tail (text : string) : string := match text with "" => "" | String _ rest => rest end.

(** [consume] *)
Definition consume (expected : ascii) (text : string) : bool * string :=
  if Ascii.eqb (peek text) expected then (true, tail text) else (false, text).

Definition is_space (c : ascii) : bool := existsb (Ascii.eqb c) [" "%char; "009"%char; "010"%char; "013"%char].

Fixpoint skip_whitespace (text : string) : string :=
  match text with
  | String c rest => if is_space c then skip_whitespace rest else text
  | "" => ""
  end.

Definition consume_literal (literal text : string) : Result string :=
  fail? (String.length text <? String.length literal)%nat with
    error InvalidFormat "document ended inside a literal" in
  fail? negb (bool_decide (String.substring 0 (String.length literal) text = literal)) with
    error InvalidFormat "malformed literal" in
  Ok (String.substring (String.length literal) (String.length text - String.length literal) text).

(** *** Numbers *)

Definition is_digit (c : ascii) : bool := (48 <=? byte c) && (byte c <=? 57).

(** [while (is_digit(peek())) ++position_] *)
Fixpoint skip_digits (text : string) : string :=
  match text with
  | String c rest => if is_digit c then skip_digits rest else text
  | "" => ""
  end.

Definition scan_sign (text : string) : Result string :=
  match consume "-"%char text with
  | (true, text) => fail? negb (is_digit (peek text)) with
                      error InvalidFormat "number has a sign with no digits" in Ok text
  | (false, text) => Ok text
  end.

Definition scan_integer (text : string) : Result string :=
  match consume "0"%char text with
  | (true, text) => fail? is_digit (peek text) with
                      error InvalidFormat "number has a leading zero" in Ok text
  | (false, text) => fail? negb (is_digit (peek text)) with
                       error InvalidFormat "number has no integer part" in Ok (skip_digits text)
  end.

Definition scan_fraction (text : string) : Result string :=
  match consume "."%char text with
  | (true, text) => fail? negb (is_digit (peek text)) with
                      error InvalidFormat "number has a fraction with no digits" in Ok (skip_digits text)
  | (false, text) => Ok text
  end.

Definition is_one_of (chars : list ascii) (c : ascii) : bool := existsb (Ascii.eqb c) chars.

Definition scan_exponent (text : string) : Result string :=
  if is_one_of ["e"%char; "E"%char] (peek text) then
    let text := tail text in
    let text := if is_one_of ["+"%char; "-"%char] (peek text) then tail text else text in
    fail? negb (is_digit (peek text)) with
      error InvalidFormat "number has an exponent with no digits" in Ok (skip_digits text)
  else Ok text.

(** [parse_number]: the lexeme and the text after it. *)
Definition parse_number (start : string) : Result (string * string) :=
  let? text := scan_sign start in
  let? text := scan_integer text in
  let? text := scan_fraction text in
  let? text := scan_exponent text in
  Ok (String.substring 0 (String.length start - String.length text) start, text).

(** *** Strings *)

Definition hex_value (c : ascii) : Z :=
  if (48 <=? byte c) && (byte c <=? 57) then byte c - 48
  else if (97 <=? byte c) && (byte c <=? 102) then byte c - 97 + 10
  else if (65 <=? byte c) && (byte c <=? 70) then byte c - 65 + 10
  else -1.

(** The loop of [read_hex4]. *)
Fixpoint hex_digits (n : nat) (value : Z) (text : string) : Result (Z * string) :=
  match n with
  | O => Ok (value, text)
  | S n =>
      let digit := hex_value (peek text) in
      fail? digit <? 0 with error InvalidFormat "unicode escape is not hexadecimal" in
      hex_digits n (Z.lor (Z.shiftl value 4) digit) (tail text)
  end.

Definition read_hex4 (text : string) : Result (Z * string) :=
  fail? (String.length text <? 4)%nat with error InvalidFormat "unicode escape is truncated" in
  hex_digits 4 0 text.

(** The [case 'u'] of [parse_string]: the code point and the text after it. *)
Definition read_code_point (text : string) : Result (Z * string) :=
  let? (code_point, text) := read_hex4 text in
  if (0xD800 <=? code_point) && (code_point <=? 0xDBFF) then
    fail? negb (Ascii.eqb (peek text) kEscape) || negb (Ascii.eqb (peek (tail text)) "u"%char) with
      error InvalidFormat "high surrogate is not followed by a low surrogate" in
    let? (low, text) := read_hex4 (tail (tail text)) in
    fail? (low <? 0xDC00) || (0xDFFF <? low) with error InvalidFormat "surrogate pair is malformed" in
    Ok (0x10000 + Z.shiftl (code_point - 0xD800) 10 + (low - 0xDC00), text)
  else
    fail? (0xDC00 <=? code_point) && (code_point <=? 0xDFFF) with
      error InvalidFormat "unpaired low surrogate" in
    Ok (code_point, text).

(** The characters of the one letter escapes. *)
Definition simple_escape (kind : ascii) : option ascii :=
  if Ascii.eqb kind "b"%char then Some "008"%char
  else if Ascii.eqb kind "f"%char then Some "012"%char
  else if Ascii.eqb kind "n"%char then Some "010"%char
  else if Ascii.eqb kind "r"%char then Some "013"%char
  else if Ascii.eqb kind "t"%char then Some "009"%char
  else if Ascii.eqb kind kQuote then Some kQuote
  else if Ascii.eqb kind kEscape then Some kEscape
  else if Ascii.eqb kind "/"%char then Some "/"%char
  else None.

(** [parse_string], from the character after an escape: the string with the
    escaped character appended. *)
Definition parse_escape (out text : string) : Result (string * string) :=
  match text with
  | "" => invalid "string ends inside an escape sequence"
  | String kind text =>
      if Ascii.eqb kind "u"%char then
        let? (code_point, text) := read_code_point text in
        let (appended, out) := append_utf8 out code_point in
        fail? negb appended with error InvalidFormat "escape sequence is not a legal scalar value" in
        Ok (out, text)
      else
        match simple_escape kind with
        | Some c => Ok (out +:+ String c "", text)
        | None => invalid "unknown escape sequence in string"
        end
  end.

Section Reader.
Variable limits : Limits.

(** The test of the string bound after a character was appended. *)
Definition check_string (out : string) : Status :=
  fail? max_string_bytes limits <? Z.of_nat (String.length out) with
    error CapacityExceeded "string exceeds the configured bound" in ok.

(** [parse_string]: the loop. *)
Fixpoint string_loop (fuel : nat) (out text : string) : Parsed (string * string) :=
  match fuel with
  | O => OutOfFuel
  | S fuel =>
      match text with
      | "" => malformed "string is not terminated"
      | String raw rest =>
          if Ascii.eqb raw kQuote then Got (out, rest) else
          if byte raw <? 0x20 then malformed "string contains an unescaped control character" else
          if negb (Ascii.eqb raw kEscape) then
            let out := out +:+ String raw "" in
            got _ := parsed_of (check_string out) in
            string_loop fuel out rest
          else
            got (out, rest) := parsed_of (parse_escape out rest) in
            got _ := parsed_of (check_string out) in
            string_loop fuel out rest
      end
  end.

(** [parse_string] *)
Definition parse_string (text : string) : Parsed (string * string) :=
  let text := tail text in
  got (out, text) := string_loop (S (String.length text)) "" text in
  if negb (is_valid_utf8 out) then malformed "string is not valid UTF-8" else Got (out, text).

(** *** Values *)

(** The text that is left and [nodes_]. *)
Record Parser : Set := mk_parser { p_text : string; p_nodes : nat }.

Definition at_text (p : Parser) (text : string) : Parser := mk_parser text (p_nodes p).
Definition skip (p : Parser) : Parser := at_text p (skip_whitespace (p_text p)).

(** A literal of [parse_value]. *)
Definition parse_literal (literal : string) (v : JsonValue) (p : Parser) : Parsed (JsonValue * Parser) :=
  got text := parsed_of (consume_literal literal (p_text p)) in Got (v, at_text p text).

(** [parse_value], and the loops of [parse_object] and [parse_array] after the
    opening bracket, with the value built so far. *)
Fixpoint parse_value (fuel depth : nat) (p : Parser) {struct fuel} : Parsed (JsonValue * Parser) :=
  match fuel with
  | O => OutOfFuel
  | S fuel =>
      if max_json_depth limits <? Z.of_nat depth then
        malformed "document nesting exceeds the configured depth bound" else
      let p := mk_parser (p_text p) (S (p_nodes p)) in
      if max_json_nodes limits <? Z.of_nat (p_nodes p) then
        Failed (error CapacityExceeded "document exceeds the configured node bound") else
      let c := peek (p_text p) in
      if Ascii.eqb c "{"%char then
        let p := skip (at_text p (tail (p_text p))) in
        match consume "}"%char (p_text p) with
        | (true, text) => Got (JObject [], at_text p text)
        | (false, _) => parse_fields fuel depth (JObject []) p
        end
      else if Ascii.eqb c "["%char then
        let p := skip (at_text p (tail (p_text p))) in
        match consume "]"%char (p_text p) with
        | (true, text) => Got (JArray [], at_text p text)
        | (false, _) => parse_items fuel depth (JArray []) p
        end
      else if Ascii.eqb c kQuote then
        got (text, rest) := parse_string (p_text p) in Got (JString text, at_text p rest)
      else if Ascii.eqb c "t"%char then parse_literal "true" (JBoolean true) p
      else if Ascii.eqb c "f"%char then parse_literal "false" (JBoolean false) p
      else if Ascii.eqb c "n"%char then parse_literal "null" JNull p
      else if Ascii.eqb c "-"%char || is_digit c then
        got (lexeme, rest) := parsed_of (parse_number (p_text p)) in Got (JNumber lexeme, at_text p rest)
      else malformed "unexpected character in document"
  end
with parse_fields (fuel depth : nat) (object : JsonValue) (p : Parser) {struct fuel} :
    Parsed (JsonValue * Parser) :=
  match fuel with
  | O => OutOfFuel
  | S fuel =>
      let p := skip p in
      if negb (Ascii.eqb (peek (p_text p)) kQuote) then malformed "object key is not a string" else
      got (key, text) := parse_string (p_text p) in
      match consume ":"%char (skip_whitespace text) with
      | (false, _) => malformed "object key is not followed by a colon"
      | (true, text) =>
          got (value, p) := parse_value fuel (S depth) (skip (at_text p text)) in
          if bool_decide (json_find object key <> None) then malformed "object contains a duplicate key" else
          let object := json_set object key value in
          let p := skip p in
          match consume ","%char (p_text p) with
          | (true, text) => parse_fields fuel depth object (at_text p text)
          | (false, _) =>
              match consume "}"%char (p_text p) with
              | (true, text) => Got (object, at_text p text)
              | (false, _) => malformed "object is not terminated"
              end
          end
      end
  end
with parse_items (fuel depth : nat) (array : JsonValue) (p : Parser) {struct fuel} :
    Parsed (JsonValue * Parser) :=
  match fuel with
  | O => OutOfFuel
  | S fuel =>
      got (value, p) := parse_value fuel (S depth) (skip p) in
      let array := json_push_back array value in
      let p := skip p in
      match consume ","%char (p_text p) with
      | (true, text) => parse_items fuel depth array (at_text p text)
      | (false, _) =>
          match consume "]"%char (p_text p) with
          | (true, text) => Got (array, at_text p text)
          | (false, _) => malformed "array is not terminated"
          end
      end
  end.

(** Fuel for a value of the text: two calls per character. *)
Definition value_fuel (text : string) : nat := S (2 * String.length text).

(** [Parser::run], [JsonValue::parse] *)
Definition parse (text : string) : Parsed JsonValue :=
  if max_document_bytes limits <? Z.of_nat (String.length text) then
    Failed (error CapacityExceeded "document exceeds the configured byte bound") else
  let p := skip (mk_parser text 0) in
  got (value, p) := parse_value (value_fuel text) 0 p in
  if negb (String.length (skip_whitespace (p_text p)) =? 0)%nat
  then malformed "document has trailing content" else Got value.
End Reader.
