(* ===== verification/JsonGrammar.v ===== *)
(** The grammar of JSON and its lexical part: white space, numbers, strings.

    [JsonText v t] says that the text [t] denotes the value [v].  The lemmas of
    this file say that the readers of white space, numbers and strings in Json.v
    accept exactly the texts of the grammar. *)
From Stdlib Require Import Ascii.
From S2P Require Import Prelude Errors Limits Utf8 Json.
#[local] Open Scope string_scope.
#[local] Open Scope Z_scope.

(** ** The grammar *)

Fixpoint all_chars (P : ascii -> bool) (s : string) : bool :=
  match s with "" => true | String c s => P c && all_chars P s end.

Definition Space (s : string) : Prop := all_chars is_space s = true.

(** *** Numbers *)

Definition Digits (s : string) : Prop := s <> "" /\ all_chars is_digit s = true.

Inductive SignText : string -> Prop :=
| sign_none : SignText ""
| sign_minus : SignText "-".

Inductive IntegerText : string -> Prop :=
| integer_zero : IntegerText "0"
| integer_digits s : Digits s -> peek s <> "0"%char -> IntegerText s.

Inductive FractionText : string -> Prop :=
| fraction_none : FractionText ""
| fraction_digits s : Digits s -> FractionText (String "."%char s).

Inductive ExponentText : string -> Prop :=
| exponent_none : ExponentText ""
| exponent_plain e s : is_one_of ["e"%char; "E"%char] e = true -> Digits s -> ExponentText (String e s)
| exponent_signed e sign s :
    is_one_of ["e"%char; "E"%char] e = true -> is_one_of ["+"%char; "-"%char] sign = true -> Digits s ->
    ExponentText (String e (String sign s)).

Inductive NumberText : string -> Prop :=
| number_text sign integer fraction exponent :
    SignText sign -> IntegerText integer -> FractionText fraction -> ExponentText exponent ->
    NumberText (sign +:+ integer +:+ fraction +:+ exponent).

(** *** Strings *)

Inductive Hex4 : string -> Z -> Prop :=
| hex4 a b c d :
    0 <= hex_value a -> 0 <= hex_value b -> 0 <= hex_value c -> 0 <= hex_value d ->
    Hex4 (String a (String b (String c (String d ""))))
      (((hex_value a * 16 + hex_value b) * 16 + hex_value c) * 16 + hex_value d).

(** The code points of a [u] escape. *)
Inductive CodePointText : string -> Z -> Prop :=
| code_point_plain h v : Hex4 h v -> ~ 0xD800 <= v <= 0xDFFF -> CodePointText h v
| code_point_pair h high l low :
    Hex4 h high -> 0xD800 <= high <= 0xDBFF -> Hex4 l low -> 0xDC00 <= low <= 0xDFFF ->
    CodePointText (h +:+ String kEscape (String "u"%char l)) (0x10000 + (high - 0xD800) * 1024 + (low - 0xDC00)).

(** What may follow an escape character, and the characters it denotes. *)
Inductive EscapeText : string -> string -> Prop :=
| escape_simple k c : simple_escape k = Some c -> EscapeText (String k "") (String c "")
| escape_unicode h code_point s :
    CodePointText h code_point -> utf8_encode code_point = Some s -> EscapeText (String "u"%char h) s.

(** The text between the quotes and the string it denotes. *)
Inductive CharsText : string -> string -> Prop :=
| chars_end : CharsText "" ""
| chars_plain c t v :
    0x20 <= byte c -> c <> kQuote -> c <> kEscape -> CharsText t v -> CharsText (String c t) (String c v)
| chars_escape e s t v :
    EscapeText e s -> CharsText t v -> CharsText (String kEscape (e +:+ t)) (s +:+ v).

Definition quoted (t : string) : string := String kQuote (t +:+ String kQuote "").

(** *** Values *)

Inductive JsonText : JsonValue -> string -> Prop :=
| text_null : JsonText JNull "null"
| text_true : JsonText (JBoolean true) "true"
| text_false : JsonText (JBoolean false) "false"
| text_number s : NumberText s -> JsonText (JNumber s) s
| text_string t s : CharsText t s -> JsonText (JString s) (quoted t)
| text_empty_array ws : Space ws -> JsonText (JArray []) ("[" +:+ ws +:+ "]")
| text_array items t : ItemsText items t -> JsonText (JArray items) ("[" +:+ t +:+ "]")
| text_empty_object ws : Space ws -> JsonText (JObject []) ("{" +:+ ws +:+ "}")
| text_object fields t : FieldsText fields t -> JsonText (JObject fields) ("{" +:+ t +:+ "}")
with ItemsText : list JsonValue -> string -> Prop :=
| items_last before v t after :
    Space before -> JsonText v t -> Space after -> ItemsText [v] (before +:+ t +:+ after)
| items_more before v t after items rest :
    Space before -> JsonText v t -> Space after -> ItemsText items rest ->
    ItemsText (v :: items) (before +:+ t +:+ after +:+ "," +:+ rest)
with FieldsText : list (string * JsonValue) -> string -> Prop :=
| fields_last b1 k key b2 b3 v t b4 :
    Space b1 -> CharsText k key -> Space b2 -> Space b3 -> JsonText v t -> Space b4 ->
    FieldsText [(key, v)] (b1 +:+ quoted k +:+ b2 +:+ ":" +:+ b3 +:+ t +:+ b4)
| fields_more b1 k key b2 b3 v t b4 fields rest :
    Space b1 -> CharsText k key -> Space b2 -> Space b3 -> JsonText v t -> Space b4 ->
    FieldsText fields rest ->
    FieldsText ((key, v) :: fields) (b1 +:+ quoted k +:+ b2 +:+ ":" +:+ b3 +:+ t +:+ b4 +:+ "," +:+ rest).

Scheme JsonText_mut := Induction for JsonText Sort Prop
with ItemsText_mut := Induction for ItemsText Sort Prop
with FieldsText_mut := Induction for FieldsText Sort Prop.

(** A document: a value between white space. *)
Definition Document (v : JsonValue) (text : string) : Prop :=
  exists before t after, Space before /\ JsonText v t /\ Space after /\ text = before +:+ t +:+ after.

(** ** What the reader bounds *)

Fixpoint json_nodes (v : JsonValue) : nat :=
  match v with
  | JArray items => S (list_sum (map json_nodes items))
  | JObject fields => S (list_sum (map (fun f => json_nodes f.2) fields))
  | _ => 1%nat
  end.

(** The depth of the deepest value under [v]. *)
Fixpoint json_height (v : JsonValue) : nat :=
  match v with
  | JArray items => list_max (map (fun v => S (json_height v)) items)
  | JObject fields => list_max (map (fun f => S (json_height f.2)) fields)
  | _ => 0%nat
  end.

Section Bounds.
Variable limits : Limits.

Definition text_fits (s : string) : Prop :=
  Utf8 s /\ Z.of_nat (String.length s) <= max_string_bytes limits.

(** Number lexemes are JSON numbers, strings are UTF-8 within the bound, and no
    object has two fields with one key. *)
Inductive JsonWf : JsonValue -> Prop :=
| wf_null : JsonWf JNull
| wf_boolean b : JsonWf (JBoolean b)
| wf_number s : NumberText s -> JsonWf (JNumber s)
| wf_string s : text_fits s -> JsonWf (JString s)
| wf_array items : Forall JsonWf items -> JsonWf (JArray items)
| wf_object fields :
    NoDup (map fst fields) -> Forall (fun f => text_fits f.1) fields -> Forall (fun f => JsonWf f.2) fields ->
    JsonWf (JObject fields).
End Bounds.

(** ** White space and digits *)

Lemma all_chars_app P s t : all_chars P (s +:+ t) = all_chars P s && all_chars P t.
Proof. induction s as [| c s IH]; [done |]. rewrite str_app_cons. cbn [all_chars]. by rewrite IH, andb_assoc. Qed.

Lemma skip_whitespace_app ws s : Space ws -> skip_whitespace (ws +:+ s) = skip_whitespace s.
Proof.
  unfold Space. induction ws as [| c ws IH]; [done |]. cbn [all_chars]. rewrite andb_true_iff. intros [Hc Hw].
  rewrite str_app_cons. cbn [skip_whitespace]. rewrite Hc. auto.
Qed.

Lemma skip_whitespace_id s : is_space (peek s) = false -> skip_whitespace s = s.
Proof. destruct s as [| c s]; [done |]. cbn. by intros ->. Qed.

Lemma skip_whitespace_split s :
  exists ws, Space ws /\ s = ws +:+ skip_whitespace s /\ is_space (peek (skip_whitespace s)) = false.
Proof.
  induction s as [| c s (ws & Hw & Hs & Hp)]; [by exists "" |]. cbn [skip_whitespace].
  destruct (is_space c) eqn:Hc; [| by exists ""]. exists (String c ws). split_and!; [| | done].
  - unfold Space. cbn [all_chars]. by rewrite Hc.
  - by rewrite str_app_cons, <- Hs.
Qed.

Lemma skip_whitespace_idem s : skip_whitespace (skip_whitespace s) = skip_whitespace s.
Proof. destruct (skip_whitespace_split s) as (_ & _ & _ & H). by apply skip_whitespace_id. Qed.

Lemma skip_whitespace_length s : (String.length (skip_whitespace s) <= String.length s)%nat.
Proof. destruct (skip_whitespace_split s) as (ws & _ & E & _). rewrite E at 2. rewrite str_length_app. lia. Qed.

Lemma space_all s : Space s -> skip_whitespace s = "".
Proof. intros H. rewrite <- (str_app_nil_r s). by rewrite skip_whitespace_app. Qed.

Lemma skip_whitespace_empty s : skip_whitespace s = "" -> Space s.
Proof. destruct (skip_whitespace_split s) as (ws & H & E & _). intros E'. rewrite E, E', str_app_nil_r. done. Qed.

Lemma skip_digits_app d s :
  all_chars is_digit d = true -> is_digit (peek s) = false -> skip_digits (d +:+ s) = s.
Proof.
  induction d as [| c d IH]; cbn [all_chars].
  - intros _. rewrite str_app_nil. destruct s as [| c s]; [done |]. cbn. by intros ->.
  - rewrite andb_true_iff. intros [Hc Hd] Hs. rewrite str_app_cons. cbn [skip_digits]. rewrite Hc. auto.
Qed.

Lemma skip_digits_split s :
  exists d, all_chars is_digit d = true /\ s = d +:+ skip_digits s.
Proof.
  induction s as [| c s (d & Hd & Hs)]; [by exists "" |]. cbn [skip_digits].
  destruct (is_digit c) eqn:Hc; [| by exists ""]. exists (String c d). split.
  - cbn [all_chars]. by rewrite Hc.
  - by rewrite str_app_cons, <- Hs.
Qed.

Lemma digits_split s : is_digit (peek s) = true -> exists d, Digits d /\ s = d +:+ skip_digits s.
Proof.
  intros Hp. destruct (skip_digits_split s) as (d & Hd & Hs). exists d. split; [split; [| done] | done].
  intros ->. destruct s as [| c s]; [done |]. cbn [peek] in Hp. cbn [skip_digits] in Hs. rewrite Hp in Hs.
  rewrite str_app_nil in Hs. pose proof (f_equal String.length Hs) as E.
  destruct (skip_digits_split s) as (d & _ & E2). apply (f_equal String.length) in E2.
  rewrite str_length_app in E2. cbn [String.length] in E. lia.
Qed.

Lemma peek_app s t : s <> "" -> peek (s +:+ t) = peek s.
Proof. by destruct s. Qed.

Lemma digits_peek d : Digits d -> is_digit (peek d) = true.
Proof. intros [Hd Ha]. destruct d; [done |]. cbn in *. by apply andb_true_iff in Ha as [-> _]. Qed.

Lemma consume_eq c s b t :
  consume c s = (b, t) -> c <> "000"%char ->
  if b then s = String c t else s = t /\ Ascii.eqb (peek s) c = false.
Proof.
  unfold consume. destruct (Ascii.eqb (peek s) c) eqn:E; intros [= <- <-] Hc; [| done].
  apply Ascii.eqb_eq in E. destruct s as [| d s]; cbn in *; congruence.
Qed.

Lemma consume_yes c s : consume c (String c s) = (true, s).
Proof. unfold consume. cbn [peek tail]. by rewrite Ascii.eqb_refl. Qed.

Lemma consume_no c s : Ascii.eqb (peek s) c = false -> consume c s = (false, s).
Proof. unfold consume. by intros ->. Qed.

(** A digit is none of the other characters of a number. *)
Lemma is_digit_neq c d : is_digit c = true -> is_digit d = false -> Ascii.eqb c d = false.
Proof. intros Hc Hd. apply Ascii.eqb_neq. congruence. Qed.

Lemma scan_sign_ok sign s :
  SignText sign -> is_digit (peek s) = true -> scan_sign (sign +:+ s) = Ok s.
Proof.
  unfold scan_sign. intros [|] Hs; rewrite ?str_app_nil, ?str_app_cons, ?str_app_nil.
  - by rewrite consume_no by (by apply is_digit_neq).
  - by rewrite consume_yes, Hs.
Qed.

Lemma scan_sign_inv t s : scan_sign t = Ok s -> exists x, SignText x /\ t = x +:+ s.
Proof.
  unfold scan_sign. destruct (consume "-"%char t) as [b r] eqn:E. apply consume_eq in E; [| done].
  destruct b; [subst t | destruct E as [-> _]].
  - destruct (negb _); [done |]. intros [= ->]. exists "-". split; [constructor | done].
  - intros [= ->]. exists "". split; [constructor | done].
Qed.

Lemma scan_integer_ok x s :
  IntegerText x -> is_digit (peek s) = false -> scan_integer (x +:+ s) = Ok s.
Proof.
  unfold scan_integer. intros [| d Hd Hz] Hs.
  - by rewrite str_app_cons, str_app_nil, consume_yes, Hs.
  - pose proof Hd as [Hne Ha]. rewrite consume_no by (rewrite peek_app by done; by apply Ascii.eqb_neq).
    by rewrite peek_app, digits_peek, skip_digits_app by done.
Qed.

Lemma scan_integer_inv t s : scan_integer t = Ok s -> exists x, IntegerText x /\ t = x +:+ s.
Proof.
  unfold scan_integer. destruct (consume "0"%char t) as [b r] eqn:E. apply consume_eq in E; [| done].
  destruct b; [subst t | destruct E as [-> E]].
  - destruct (is_digit _); [done |]. intros [= ->]. exists "0". split; [constructor | done].
  - destruct (is_digit (peek r)) eqn:Hp; [| done]. intros [= <-].
    destruct (digits_split r Hp) as (d & Hd & Hr). exists d. split; [| done].
    apply integer_digits; [done |]. apply Ascii.eqb_neq in E. intros Hz. apply E. rewrite Hr.
    rewrite peek_app by apply Hd. done.
Qed.

Lemma scan_fraction_ok x s :
  FractionText x -> is_digit (peek s) = false -> Ascii.eqb (peek s) "."%char = false ->
  scan_fraction (x +:+ s) = Ok s.
Proof.
  unfold scan_fraction. intros [| d Hd] Hs Hdot.
  - by rewrite str_app_nil, consume_no.
  - rewrite str_app_cons, consume_yes. rewrite peek_app, digits_peek by (done || apply Hd).
    cbn [negb]. by rewrite skip_digits_app by (done || apply Hd).
Qed.

Lemma scan_fraction_inv t s : scan_fraction t = Ok s -> exists x, FractionText x /\ t = x +:+ s.
Proof.
  unfold scan_fraction. destruct (consume "."%char t) as [b r] eqn:E. apply consume_eq in E; [| done].
  destruct b; [subst t | destruct E as [-> E]].
  - destruct (is_digit (peek r)) eqn:Hp; [| done]. intros [= <-].
    destruct (digits_split r Hp) as (d & Hd & Hr). exists (String "."%char d).
    split; [by constructor |]. by rewrite str_app_cons, <- Hr.
  - intros [= ->]. exists "". split; [constructor | done].
Qed.

Lemma is_one_of_digit chars c :
  forallb (fun d => negb (is_digit d)) chars = true -> is_digit c = true -> is_one_of chars c = false.
Proof.
  intros Hc Hd. unfold is_one_of. apply not_true_is_false. intros (x & Hx & E)%existsb_elem.
  apply Ascii.eqb_eq in E as ->. apply (forallb_elem (fun d => negb (is_digit d))) in Hx; [| done].
  rewrite Hd in Hx. done.
Qed.

Lemma scan_exponent_ok x s :
  ExponentText x -> is_digit (peek s) = false -> is_one_of ["e"%char; "E"%char] (peek s) = false ->
  scan_exponent (x +:+ s) = Ok s.
Proof.
  unfold scan_exponent. intros [| e d He Hd | e sign d He Hsign Hd] Hs Hexp.
  - by rewrite str_app_nil, Hexp.
  - rewrite str_app_cons. cbn [peek tail]. rewrite He. pose proof (digits_peek d Hd) as Hp.
    rewrite peek_app by apply Hd. rewrite (is_one_of_digit _ (peek d)) by done.
    rewrite peek_app by apply Hd. rewrite Hp. cbn [negb]. by rewrite skip_digits_app by (done || apply Hd).
  - rewrite !str_app_cons. cbn [peek tail]. rewrite He, Hsign. rewrite peek_app by apply Hd.
    rewrite digits_peek by done. cbn [negb]. by rewrite skip_digits_app by (done || apply Hd).
Qed.

Lemma peek_tail P s : is_one_of P (peek s) = true -> is_one_of P "000"%char = false -> s = String (peek s) (tail s).
Proof. destruct s; cbn; congruence. Qed.

Lemma scan_exponent_inv t s : scan_exponent t = Ok s -> exists x, ExponentText x /\ t = x +:+ s.
Proof.
  unfold scan_exponent. destruct (is_one_of ["e"%char; "E"%char] (peek t)) eqn:He.
  2:{ intros [= ->]. exists "". split; [constructor | done]. }
  apply peek_tail in He as Ht; [| done]. destruct (is_one_of ["+"%char; "-"%char] (peek (tail t))) eqn:Hsign.
  - apply peek_tail in Hsign as Ht2; [| done]. destruct (is_digit (peek (tail (tail t)))) eqn:Hp; [| done].
    intros [= <-]. destruct (digits_split _ Hp) as (d & Hd & Hr).
    exists (String (peek t) (String (peek (tail t)) d)). split; [by apply exponent_signed |].
    rewrite !str_app_cons, <- Hr, <- Ht2. done.
  - destruct (is_digit (peek (tail t))) eqn:Hp; [| done]. intros [= <-].
    destruct (digits_split _ Hp) as (d & Hd & Hr).
    exists (String (peek t) d). split; [by apply exponent_plain |]. rewrite str_app_cons, <- Hr. done.
Qed.

(** A character that does not continue a number. *)
Definition number_stop (c : ascii) : bool := negb (is_digit c) && negb (is_one_of ["."%char; "e"%char; "E"%char] c).

Lemma number_stop_inv c :
  number_stop c = true ->
  is_digit c = false /\ Ascii.eqb c "."%char = false /\ is_one_of ["e"%char; "E"%char] c = false.
Proof.
  unfold number_stop. rewrite andb_true_iff, !negb_true_iff. unfold is_one_of. cbn [existsb].
  rewrite !orb_false_iff. tauto.
Qed.

Lemma exponent_peek x s :
  ExponentText x -> number_stop (peek s) = true ->
  is_digit (peek (x +:+ s)) = false /\ Ascii.eqb (peek (x +:+ s)) "."%char = false.
Proof.
  intros Hx Hs. assert (forall e, is_one_of ["e"%char; "E"%char] e = true ->
    is_digit e = false /\ Ascii.eqb e "."%char = false) as He.
  { intros e. unfold is_one_of. cbn [existsb]. rewrite !orb_true_iff, !Ascii.eqb_eq. by intros [-> | [-> | ?]]. }
  destruct Hx; rewrite ?str_app_nil, ?str_app_cons; cbn [peek]; [| by apply He..].
  apply number_stop_inv in Hs. tauto.
Qed.

Lemma fraction_peek x y s :
  FractionText x -> ExponentText y -> number_stop (peek s) = true -> is_digit (peek (x +:+ y +:+ s)) = false.
Proof. intros [| d Hd] Hy Hs; [rewrite str_app_nil; by apply exponent_peek | done]. Qed.

Lemma integer_peek x s : IntegerText x -> is_digit (peek (x +:+ s)) = true.
Proof. intros [| d Hd _]; [done |]. rewrite peek_app by apply Hd. by apply digits_peek. Qed.

Lemma substring_prefix s t :
  String.substring 0 (String.length (s +:+ t) - String.length t) (s +:+ t) = s.
Proof.
  rewrite str_length_app, Nat.add_sub. induction s as [| c s IH]; [by destruct t |].
  rewrite str_app_cons. cbn [String.length String.substring]. by rewrite IH.
Qed.

Lemma parse_number_ok lexeme s :
  NumberText lexeme -> number_stop (peek s) = true -> parse_number (lexeme +:+ s) = Ok (lexeme, s).
Proof.
  intros [sign x y z Hsign Hx Hy Hz] Hs. unfold parse_number.
  apply number_stop_inv in Hs as Hs'. destruct Hs' as (Hd & _ & He).
  replace ((sign +:+ x +:+ y +:+ z) +:+ s) with (sign +:+ x +:+ y +:+ z +:+ s) by (by rewrite !str_app_assoc).
  rewrite scan_sign_ok by (done || by apply integer_peek). cbn [result_bind].
  rewrite scan_integer_ok by (done || by apply fraction_peek). cbn [result_bind].
  rewrite scan_fraction_ok by (done || by apply exponent_peek). cbn [result_bind].
  rewrite scan_exponent_ok by done. cbn [result_bind].
  replace (sign +:+ x +:+ y +:+ z +:+ s) with ((sign +:+ x +:+ y +:+ z) +:+ s) by (by rewrite !str_app_assoc).
  by rewrite substring_prefix.
Qed.

(** Read the [Ok] branch of a [result_bind] in a hypothesis. *)
Ltac bind_ok H x E :=
  match type of H with
  | result_bind ?m _ = Ok _ => destruct m as [x | ?] eqn:E; [cbn [result_bind] in H | done]
  end.

Lemma parse_number_inv t lexeme s :
  parse_number t = Ok (lexeme, s) -> NumberText lexeme /\ t = lexeme +:+ s.
Proof.
  unfold parse_number. intros H.
  bind_ok H s1 E1. bind_ok H s2 E2. bind_ok H s3 E3. bind_ok H s4 E4. injection H as Hlex ->.
  apply scan_sign_inv in E1 as (sign & Hsign & Et). apply scan_integer_inv in E2 as (x & Hx & Ex).
  apply scan_fraction_inv in E3 as (y & Hy & Ey). apply scan_exponent_inv in E4 as (z & Hz & Ez).
  assert (t = (sign +:+ x +:+ y +:+ z) +:+ s) as Ht by (rewrite !str_app_assoc; congruence).
  rewrite Ht, substring_prefix in Hlex. subst lexeme. split; [by constructor | done].
Qed.

(** ** Strings *)

Lemma hex_value_range c : -1 <= hex_value c < 16.
Proof. unfold hex_value. repeat case_match; bool_prop; lia. Qed.

Lemma hex_step v c : 0 <= hex_value c -> Z.lor (Z.shiftl v 4) (hex_value c) = v * 16 + hex_value c.
Proof.
  intros Hc. pose proof (hex_value_range c). rewrite Z.lor_comm, lor_shiftl_add by lia. lia.
Qed.

Lemma read_hex4_ok h v s : Hex4 h v -> read_hex4 (h +:+ s) = Ok (v, s).
Proof.
  intros [a b c d Ha Hb Hc Hd]. rewrite !str_app_cons, str_app_nil. unfold read_hex4.
  cbn [String.length Nat.ltb Nat.leb hex_digits peek tail].
  rewrite !(proj2 (Z.ltb_ge _ _)) by done. by rewrite !hex_step.
Qed.

Lemma read_hex4_inv t v s : read_hex4 t = Ok (v, s) -> exists h, Hex4 h v /\ t = h +:+ s.
Proof.
  unfold read_hex4. destruct t as [| a [| b [| c [| d t]]]]; try done.
  cbn [String.length Nat.ltb Nat.leb hex_digits peek tail]. intros H.
  destruct (Z.ltb_spec (hex_value a) 0) as [| Ha]; [done |].
  destruct (Z.ltb_spec (hex_value b) 0) as [| Hb]; [done |].
  destruct (Z.ltb_spec (hex_value c) 0) as [| Hc]; [done |].
  destruct (Z.ltb_spec (hex_value d) 0) as [| Hd]; [done |].
  injection H as <- <-. exists (String a (String b (String c (String d "")))). split; [| done].
  rewrite !hex_step by done. by constructor.
Qed.

Lemma hex4_range h v : Hex4 h v -> 0 <= v < 65536.
Proof.
  intros [a b c d]. pose proof (hex_value_range a). pose proof (hex_value_range b).
  pose proof (hex_value_range c). pose proof (hex_value_range d). lia.
Qed.

Lemma read_code_point_ok t v s : CodePointText t v -> read_code_point (t +:+ s) = Ok (v, s).
Proof.
  unfold read_code_point. intros [h x Hh Hx | h high l low Hh Hhigh Hl Hlow].
  - rewrite (read_hex4_ok _ _ _ Hh). cbn [result_bind].
    destruct (_ && _) eqn:E1; [bool_prop; lia |]. destruct (_ && _) eqn:E2 in |- *; [bool_prop; lia | done].
  - rewrite str_app_assoc, (read_hex4_ok _ _ _ Hh). cbn [result_bind].
    rewrite (proj2 (Z.leb_le 0xD800 high)), (proj2 (Z.leb_le high 0xDBFF)) by lia.
    rewrite !str_app_cons. cbn [andb peek tail]. rewrite !Ascii.eqb_refl. cbn [negb orb].
    rewrite (read_hex4_ok _ _ _ Hl). cbn [result_bind].
    rewrite (proj2 (Z.ltb_ge low _)), (proj2 (Z.ltb_ge _ low)) by lia. cbn [orb].
    by rewrite Z.shiftl_mul_pow2 by lia.
Qed.

Lemma read_code_point_inv t v s : read_code_point t = Ok (v, s) -> exists h, CodePointText h v /\ t = h +:+ s.
Proof.
  unfold read_code_point. intros H. destruct (read_hex4 t) as [[high s1] | ] eqn:E1; [| done].
  cbn [result_bind] in H. apply read_hex4_inv in E1 as (h & Hh & ->).
  destruct (_ && _) eqn:Eh in H.
  - bool_prop. destruct (_ || _) eqn:Ep in H; [done |]. apply orb_false_iff in Ep as [Ep1 Ep2].
    rewrite !negb_false_iff, !Ascii.eqb_eq in Ep1, Ep2.
    destruct s1 as [| c1 [| c2 s1]]; try done. cbn [peek tail] in *. subst c1 c2.
    destruct (read_hex4 s1) as [[low s2] | ] eqn:E2; [| done]. cbn [result_bind] in H.
    apply read_hex4_inv in E2 as (l & Hl & ->). destruct (_ || _) eqn:El in H; [done |]. bool_prop.
    injection H as <- <-. exists (h +:+ String kEscape (String "u"%char l)).
    rewrite Z.shiftl_mul_pow2 by lia. split; [by apply code_point_pair |].
    by rewrite str_app_assoc, !str_app_cons.
  - destruct (_ && _) eqn:Es in H; [done |]. injection H as -> ->. exists h. split; [| done].
    apply code_point_plain; [done |]. apply andb_false_iff in Eh, Es. rewrite !Z.leb_gt in Eh, Es. lia.
Qed.

Lemma simple_escape_not_u k c : simple_escape k = Some c -> Ascii.eqb k "u"%char = false.
Proof. intros H. apply Ascii.eqb_neq. intros ->. discriminate. Qed.

Lemma parse_escape_ok e s out rest : EscapeText e s -> parse_escape out (e +:+ rest) = Ok (out +:+ s, rest).
Proof.
  unfold parse_escape. intros [k c Hk | h v x Hh Hx]; rewrite !str_app_cons.
  - by rewrite (simple_escape_not_u _ _ Hk), Hk.
  - rewrite Ascii.eqb_refl, (read_code_point_ok _ _ _ Hh). cbn [result_bind]. unfold append_utf8. by rewrite Hx.
Qed.

Lemma parse_escape_inv out t out' rest :
  parse_escape out t = Ok (out', rest) -> exists e s, EscapeText e s /\ t = e +:+ rest /\ out' = out +:+ s.
Proof.
  unfold parse_escape. destruct t as [| k t]; [done |]. destruct (Ascii.eqb_spec k "u"%char) as [-> | Hu].
  - destruct (read_code_point t) as [[v s1] |] eqn:E; [| done]. cbn [result_bind].
    apply read_code_point_inv in E as (h & Hh & ->). unfold append_utf8.
    destruct (utf8_encode v) as [x |] eqn:Hx; [| done]. intros [= <- <-].
    exists (String "u"%char h), x. split_and!; [by eapply escape_unicode | done | done].
  - destruct (simple_escape k) as [c |] eqn:Hk; [| done]. intros [= <- <-].
    exists (String k ""), (String c ""). split_and!; [by constructor | done | done].
Qed.

Lemma escape_nonempty e s : EscapeText e s -> (1 <= String.length e)%nat /\ s <> "".
Proof.
  intros [k c _ | h v x _ Hx]; split; cbn; try lia; try done. intros ->. unfold utf8_encode in Hx.
  repeat case_match; discriminate.
Qed.

Section Strings.
Variable limits : Limits.

Lemma check_string_ok out : Z.of_nat (String.length out) <= max_string_bytes limits -> check_string limits out = ok.
Proof. intros H. unfold check_string. by rewrite (proj2 (Z.ltb_ge _ _)). Qed.

Lemma check_string_inv out : check_string limits out = ok -> Z.of_nat (String.length out) <= max_string_bytes limits.
Proof. unfold check_string. destruct (Z.ltb_spec (max_string_bytes limits) (Z.of_nat (String.length out))); [done | lia]. Qed.

Lemma string_loop_ok t v :
  CharsText t v -> forall fuel out rest, (String.length t < fuel)%nat ->
    Z.of_nat (String.length out + String.length v) <= max_string_bytes limits ->
    string_loop limits fuel out (t +:+ String kQuote rest) = Got (out +:+ v, rest).
Proof.
  induction 1 as [| c t v Hc Hq He _ IH | e s t v He _ IH]; intros fuel out rest Hf Hl;
    (destruct fuel as [| fuel]; [cbn in Hf; lia |]); cbn [string_loop].
  - by rewrite str_app_nil, str_app_nil_r.
  - rewrite str_app_cons. cbn [String.length] in *. cbn [string_loop].
    rewrite (proj2 (Ascii.eqb_neq _ _) Hq), (proj2 (Z.ltb_ge _ _) Hc), (proj2 (Ascii.eqb_neq _ _) He).
    cbn [negb]. rewrite check_string_ok by (rewrite str_length_app; cbn [String.length]; lia).
    cbn [parsed_of parsed_bind ok]. rewrite IH by (rewrite ?str_length_app; cbn [String.length]; lia).
    by rewrite str_app_assoc.
  - rewrite str_app_cons, str_app_assoc. cbn [String.length] in *. rewrite !str_length_app in *.
    change (Ascii.eqb kEscape kQuote) with false. change (byte kEscape <? 0x20) with false.
    rewrite Ascii.eqb_refl. cbn [negb]. rewrite (parse_escape_ok _ _ _ _ He). cbn [parsed_of parsed_bind].
    rewrite check_string_ok by (rewrite str_length_app; lia). cbn [parsed_of parsed_bind ok].
    rewrite IH by (rewrite ?str_length_app; lia). by rewrite str_app_assoc.
Qed.

Lemma string_loop_inv fuel out text out' rest :
  string_loop limits fuel out text = Got (out', rest) ->
  exists t v, CharsText t v /\ text = t +:+ String kQuote rest /\ out' = out +:+ v /\
    (v <> "" -> Z.of_nat (String.length out') <= max_string_bytes limits).
Proof.
  revert out text. induction fuel as [| fuel IH]; intros out text; [done |]. cbn [string_loop].
  destruct text as [| raw text]; [done |].
  destruct (Ascii.eqb_spec raw kQuote) as [-> | Hq].
  { intros [= <- <-]. exists "", "". split_and!; [constructor | done | by rewrite str_app_nil_r | done]. }
  destruct (Z.ltb_spec (byte raw) 0x20) as [| Hc]; [done |].
  destruct (Ascii.eqb_spec raw kEscape) as [-> | He]; cbn [negb].
  - destruct (parse_escape out text) as [[out1 s1] |] eqn:E; [| done]. cbn [parsed_of parsed_bind].
    apply parse_escape_inv in E as (e & s & He & -> & ->).
    destruct (check_string limits (out +:+ s)) as [[] |] eqn:Hk; [| done]. cbn [parsed_of parsed_bind].
    intros (t & v & Ht & -> & -> & Hb)%IH. exists (String kEscape (e +:+ t)), (s +:+ v).
    split_and!; [by constructor | by rewrite str_app_cons, str_app_assoc | by rewrite str_app_assoc |].
    intros _. destruct (decide (v = "")) as [-> | Hv]; [| by apply Hb].
    rewrite str_app_nil_r. by apply check_string_inv.
  - destruct (check_string limits (out +:+ String raw "")) as [[] |] eqn:Hk; [| done]. cbn [parsed_of parsed_bind].
    intros (t & v & Ht & -> & -> & Hb)%IH. exists (String raw t), (String raw v).
    split_and!; [by constructor | done | by rewrite str_app_assoc |].
    intros _. destruct (decide (v = "")) as [-> | Hv]; [| by apply Hb].
    rewrite str_app_nil_r. by apply check_string_inv.
Qed.

Lemma string_loop_total fuel out text :
  (String.length text < fuel)%nat -> string_loop limits fuel out text <> OutOfFuel.
Proof.
  revert out text. induction fuel as [| fuel IH]; intros out text Hf; [lia |]. cbn [string_loop].
  destruct text as [| raw text]; [done |]. cbn [String.length] in Hf.
  destruct (Ascii.eqb raw kQuote); [done |]. destruct (_ <? _); [done |]. destruct (Ascii.eqb raw kEscape); cbn [negb].
  - destruct (parse_escape out text) as [[out1 s1] |] eqn:E; [| done]. cbn [parsed_of parsed_bind].
    apply parse_escape_inv in E as (e & s & _ & -> & ->). rewrite str_length_app in Hf.
    destruct (check_string limits _); [cbn [parsed_of parsed_bind] | done]. apply IH. lia.
  - destruct (check_string limits _); [cbn [parsed_of parsed_bind] | done]. apply IH. lia.
Qed.

(** [parse_string] reads exactly the quoted texts of the strings that fit. *)
Lemma parse_string_ok t v rest :
  CharsText t v -> text_fits limits v -> parse_string limits (quoted t +:+ rest) = Got (v, rest).
Proof.
  intros Ht [Hu Hl]. unfold parse_string, quoted. rewrite str_app_cons, str_app_assoc, str_app_cons, str_app_nil.
  cbn [tail]. rewrite (string_loop_ok _ _ Ht); [| rewrite str_length_app; lia | done].
  cbn [parsed_bind]. rewrite str_app_nil. by rewrite (proj2 (is_valid_utf8_spec v) Hu).
Qed.

Hypothesis string_bound : 0 <= max_string_bytes limits.

Lemma parse_string_inv text v rest :
  peek text = kQuote -> parse_string limits text = Got (v, rest) ->
  exists t, CharsText t v /\ text_fits limits v /\ text = quoted t +:+ rest.
Proof.
  intros Hq. destruct text as [| c text]; [done |]. cbn [peek] in Hq. subst c. unfold parse_string. cbn [tail].
  destruct (string_loop _ _ _ _) as [[out s] | |] eqn:E; [| done..]. cbn [parsed_bind].
  apply string_loop_inv in E as (t & x & Ht & -> & -> & Hb). rewrite str_app_nil in *.
  destruct (is_valid_utf8 x) eqn:Hu; [| done]. intros [= <- <-]. exists t. split_and!; [done | split | ].
  - by apply is_valid_utf8_spec.
  - destruct (decide (x = "")) as [-> |]; [done | by apply Hb].
  - unfold quoted. by rewrite str_app_cons, str_app_assoc, str_app_cons.
Qed.
End Strings.

Lemma parse_string_total limits text : parse_string limits text <> OutOfFuel.
Proof.
  unfold parse_string. destruct (string_loop limits _ "" (tail text)) as [[out s] | |] eqn:E; [| done |].
  - cbn [parsed_bind]. by destruct (is_valid_utf8 out).
  - exfalso. by apply string_loop_total in E; [| lia].
Qed.
