(* ===== verification/JsonProps.v ===== *)
(** The reader and the writer of Json.v: [parse] returns on every document,
    accepts exactly the documents of the grammar that are within the bounds, and
    reads back what [dump] writes. *)
From Stdlib Require Import Ascii.
From S2P Require Import Prelude Errors Limits Utf8 Json JsonGrammar.
#[local] Open Scope string_scope.
#[local] Open Scope list_scope.
#[local] Open Scope Z_scope.

(** Show the text and the counter of a parser. *)
Ltac parser_text := unfold skip, at_text in *; cbn [p_text p_nodes] in *.

(** ** The reader returns *)

(** A result that is one, and that has read something of [text]. *)
Definition reads {A} (text : string) (rest : A -> string) (r : Parsed A) : Prop :=
  match r with Got a => (String.length (rest a) < String.length text)%nat | Failed _ => True | OutOfFuel => False end.

Definition reads_value (p : Parser) (r : Parsed (JsonValue * Parser)) : Prop :=
  reads (p_text p) (fun a => p_text a.2) r.

Section Reader.
Variable limits : Limits.

Lemma parse_string_reads text : peek text = kQuote -> reads text snd (parse_string limits text).
Proof.
  intros Hq. pose proof (parse_string_total limits text) as Ht.
  destruct (parse_string limits text) as [[v rest] | |] eqn:E; [| done..]. cbn [reads snd].
  destruct text as [| c text]; [done |]. unfold parse_string in E. cbn [tail] in E.
  destruct (string_loop limits _ "" text) as [[out s] | |] eqn:El; [| done..]. cbn [parsed_bind] in E.
  apply string_loop_inv in El as (t & x & _ & -> & _). destruct (is_valid_utf8 out); [| done].
  injection E as <- <-. cbn [String.length]. rewrite str_length_app. cbn [String.length]. lia.
Qed.

Lemma number_nonempty s : NumberText s -> is_digit (peek s) = true \/ peek s = "-"%char.
Proof.
  intros [sign x y z Hs Hx Hy Hz]. destruct Hs; [left | by right].
  rewrite str_app_nil. by apply integer_peek.
Qed.

Lemma parse_number_reads text : reads text snd (parsed_of (parse_number text)).
Proof.
  destruct (parse_number text) as [[v rest] |] eqn:E; [| done]. apply parse_number_inv in E as [Hv ->].
  cbn [parsed_of reads snd]. rewrite str_length_app. destruct v as [| c v]; [| cbn [String.length]; lia].
  apply number_nonempty in Hv as [H | H]; done.
Qed.

Lemma consume_reads c s b t : consume c s = (b, t) -> (String.length t <= String.length s)%nat.
Proof. unfold consume. destruct (Ascii.eqb _ _); intros [= <- <-]; [| done]. destruct s; cbn; lia. Qed.

Lemma substring_all s : String.substring 0 (String.length s) s = s.
Proof. induction s as [| c s IH]; [done |]. cbn [String.length String.substring]. by rewrite IH. Qed.

Lemma substring_split n s : (n <= String.length s)%nat ->
  s = String.substring 0 n s +:+ String.substring n (String.length s - n) s.
Proof.
  revert n. induction s as [| c s IH]; intros [| n] Hn; cbn [String.length] in *; try lia; try done.
  - rewrite Nat.sub_0_r. exact (eq_sym (substring_all (String c s))).
  - rewrite Nat.sub_succ. cbn [String.substring]. rewrite str_app_cons. by rewrite <- IH by lia.
Qed.

Lemma consume_literal_inv literal text rest : consume_literal literal text = Ok rest -> text = literal +:+ rest.
Proof.
  unfold consume_literal. destruct (Nat.ltb_spec (String.length text) (String.length literal)) as [| Hlen]; [done |].
  destruct (bool_decide _) eqn:E; [| done]. intros [= <-]. bool_prop.
  rewrite (substring_split _ _ Hlen) at 1. by rewrite E.
Qed.

Lemma consume_literal_ok literal rest : consume_literal literal (literal +:+ rest) = Ok rest.
Proof.
  unfold consume_literal. rewrite str_length_app, (proj2 (Nat.ltb_ge _ _)) by lia.
  replace (String.length literal + String.length rest - String.length literal)%nat with (String.length rest) by lia.
  assert (forall p, String.substring 0 (String.length p) (p +:+ rest) = p /\
    String.substring (String.length p) (String.length rest) (p +:+ rest) = rest) as H.
  { intros p. induction p as [| c p [IH1 IH2]].
    - rewrite str_app_nil. split; [by destruct rest | apply substring_all].
    - rewrite str_app_cons. cbn [String.length String.substring]. by rewrite IH1. }
  destruct (H literal) as [-> ->]. by rewrite bool_decide_eq_true_2.
Qed.

Lemma literal_reads literal v p : literal <> "" -> reads_value p (parse_literal literal v p).
Proof.
  intros Hl. unfold parse_literal, reads_value.
  destruct (consume_literal literal (p_text p)) as [rest |] eqn:E; [| done].
  apply consume_literal_inv in E as ->. cbn [parsed_of parsed_bind reads snd at_text p_text].
  rewrite str_length_app. destruct literal; [done |]. cbn [String.length]. lia.
Qed.

Lemma reads_bind {A B} text (rest : A -> string) (rest' : B -> string) (m : Parsed A) (k : A -> Parsed B) :
  reads text rest m -> (forall a, (String.length (rest a) < String.length text)%nat -> reads text rest' (k a)) ->
  reads text rest' (parsed_bind m k).
Proof. destruct m as [a | e |]; cbn [reads parsed_bind]; auto. Qed.

Lemma reads_weaken {A} text text' (rest : A -> string) (r : Parsed A) :
  (String.length text <= String.length text')%nat -> reads text rest r -> reads text' rest r.
Proof. destruct r; cbn [reads]; try done. lia. Qed.

(** Two levels of fuel per character are enough for every call. *)
Lemma parse_reads fuel :
  (forall depth p, (2 * String.length (p_text p) + 1 <= fuel)%nat ->
     reads_value p (parse_value limits fuel depth p)) /\
  (forall depth v p, (2 * String.length (p_text p) + 2 <= fuel)%nat ->
     reads_value p (parse_fields limits fuel depth v p)) /\
  (forall depth v p, (2 * String.length (p_text p) + 2 <= fuel)%nat ->
     reads_value p (parse_items limits fuel depth v p)).
Proof.
  induction fuel as [| fuel (IHv & IHf & IHi)]; [split_and!; intros; lia |]. split_and!.
  - intros depth p Hf. cbn [parse_value]. destruct (_ <? _); [done |]. cbn [p_text p_nodes].
    destruct (_ <? _); [done |]. unfold reads_value. cbv zeta.
    assert (forall c, Ascii.eqb (peek (p_text p)) c = true -> c <> "000"%char ->
      (String.length (skip_whitespace (tail (p_text p))) < String.length (p_text p))%nat) as Htail.
    { intros c E Hc. apply Ascii.eqb_eq in E. destruct (p_text p) as [| d s]; [cbn in E; congruence |].
      cbn [tail String.length]. pose proof (skip_whitespace_length s). lia. }
    destruct (Ascii.eqb (peek (p_text p)) "{"%char) eqn:E.
    { specialize (Htail _ E ltac:(done)). parser_text.
      destruct (consume _ _) as [[|] s] eqn:Ec; apply consume_reads in Ec.
      - parser_text. cbn [reads snd p_text]. lia.
      - eapply reads_weaken, (IHf depth (JObject []) (mk_parser _ _)); parser_text; lia. }
    clear E. destruct (Ascii.eqb (peek (p_text p)) "["%char) eqn:E.
    { specialize (Htail _ E ltac:(done)). parser_text.
      destruct (consume _ _) as [[|] s] eqn:Ec; apply consume_reads in Ec.
      - parser_text. cbn [reads snd p_text]. lia.
      - eapply reads_weaken, (IHi depth (JArray []) (mk_parser _ _)); parser_text; lia. }
    clear E Htail. destruct (Ascii.eqb_spec (peek (p_text p)) kQuote) as [E |].
    { eapply reads_bind; [by apply parse_string_reads | by intros [v s]]. }
    repeat (destruct (Ascii.eqb (peek (p_text p)) _); [by apply (literal_reads _ _ (mk_parser _ _)) |]).
    destruct (_ || _); [| done]. eapply reads_bind; [apply parse_number_reads | by intros [v s]].
  - intros depth v p Hf. cbn [parse_fields]. cbv zeta.
    pose proof (skip_whitespace_length (p_text p)) as Hskip. parser_text.
    destruct (Ascii.eqb_spec (peek (skip_whitespace (p_text p))) kQuote) as [E |]; [| done]. cbn [negb].
    unfold reads_value. eapply reads_weaken, reads_bind; [exact Hskip | by apply parse_string_reads |].
    intros [key s] Hs. cbn [snd] in Hs. pose proof (skip_whitespace_length s) as Hskip'.
    destruct (consume _ _) as [[|] s'] eqn:Ec; [| done]. apply consume_reads in Ec.
    pose proof (skip_whitespace_length s') as Hskip''. parser_text.
    eapply reads_bind.
    { eapply reads_weaken, (IHv (S depth) (mk_parser (skip_whitespace s') _)); parser_text; lia. }
    intros [value p'] Hp. cbn [snd] in Hp. destruct (bool_decide _); [done |].
    pose proof (skip_whitespace_length (p_text p')).
    destruct (consume _ _) as [[|] s''] eqn:Ec'; apply consume_reads in Ec'.
    { eapply reads_weaken, (IHf depth _ (mk_parser s'' _)); parser_text; lia. }
    destruct (consume _ _) as [[|] s3] eqn:Ec3; [| done]. apply consume_reads in Ec3.
    parser_text. cbn [reads snd p_text]. lia.
  - intros depth v p Hf. cbn [parse_items]. cbv zeta.
    pose proof (skip_whitespace_length (p_text p)) as Hskip. parser_text.
    unfold reads_value. eapply reads_bind.
    { eapply reads_weaken, (IHv (S depth) (mk_parser (skip_whitespace (p_text p)) _)); parser_text; lia. }
    intros [value p'] Hp. cbn [snd] in Hp.
    pose proof (skip_whitespace_length (p_text p')).
    destruct (consume _ _) as [[|] s''] eqn:Ec'; apply consume_reads in Ec'.
    { eapply reads_weaken, (IHi depth _ (mk_parser s'' _)); parser_text; lia. }
    destruct (consume _ _) as [[|] s3] eqn:Ec3; [| done]. apply consume_reads in Ec3.
    parser_text. cbn [reads snd p_text]. lia.
Qed.
End Reader.

Lemma parse_returns limits text : parse limits text <> OutOfFuel.
Proof.
  unfold parse. destruct (_ <? _); [done |]. cbv zeta. parser_text.
  destruct (parse_reads limits (value_fuel text)) as [Hv _].
  specialize (Hv 0%nat (mk_parser (skip_whitespace text) 0)). unfold reads_value, value_fuel in *. cbn [p_text] in Hv.
  pose proof (skip_whitespace_length text).
  destruct (parse_value _ _ _ _) as [[v p] | |]; [| done | exfalso; apply Hv; lia].
  cbn [parsed_bind]. by destruct (negb _).
Qed.

(** ** What the reader accepts *)

Lemma find_field_none key l : find_field key l = None <-> ~ key ∈ map fst l.
Proof.
  induction l as [| [k v] l IH]; cbn [find_field map fst].
  - split; [intros _; apply not_elem_of_nil | done].
  - rewrite not_elem_of_cons. case_bool_decide; [split; [done | intros [? _]; congruence] |].
    rewrite IH. split; [intros; split; [congruence | done] | tauto].
Qed.

Lemma set_field_new key v l : ~ key ∈ map fst l -> set_field key v l = l ++ [(key, v)].
Proof.
  induction l as [| [k w] l IH]; [done |]. cbn [map fst set_field]. rewrite not_elem_of_cons. intros [Hk Hl].
  rewrite bool_decide_eq_false_2 by congruence. by rewrite IH.
Qed.

Lemma list_sum_cons x l : list_sum (x :: l) = (x + list_sum l)%nat.
Proof. done. Qed.

Lemma space_app s t : Space s -> Space t -> Space (s +:+ t).
Proof. unfold Space. rewrite all_chars_app. by intros -> ->. Qed.

Lemma items_space ws l t : Space ws -> ItemsText l t -> ItemsText l (ws +:+ t).
Proof.
  intros Hws Ht. destruct Ht; rewrite <- str_app_assoc; constructor; auto using space_app.
Qed.

Lemma fields_space ws l t : Space ws -> FieldsText l t -> FieldsText l (ws +:+ t).
Proof.
  intros Hws Ht. destruct Ht; rewrite <- str_app_assoc; constructor; auto using space_app.
Qed.

Section Sound.
Variable limits : Limits.
Hypothesis string_bound : 0 <= max_string_bytes limits.

(** What reading a value establishes. *)
Definition reads_json (depth : nat) (p : Parser) (v : JsonValue) (p' : Parser) : Prop :=
  JsonWf limits v /\ Z.of_nat (depth + json_height v) <= max_json_depth limits /\
  p_nodes p' = (p_nodes p + json_nodes v)%nat /\ Z.of_nat (p_nodes p') <= max_json_nodes limits /\
  exists t, JsonText v t /\ p_text p = t +:+ p_text p'.

(** What reading the rest of an array or of an object establishes. *)
Definition reads_items (depth : nat) (p : Parser) (l : list JsonValue) (p' : Parser) : Prop :=
  Forall (JsonWf limits) l /\ Forall (fun v => Z.of_nat (S depth + json_height v) <= max_json_depth limits) l /\
  p_nodes p' = (p_nodes p + list_sum (map json_nodes l))%nat /\ Z.of_nat (p_nodes p') <= max_json_nodes limits /\
  exists t, ItemsText l t /\ p_text p = t +:+ "]" +:+ p_text p'.

Definition reads_fields (depth : nat) (before : list (string * JsonValue)) (p : Parser)
    (l : list (string * JsonValue)) (p' : Parser) : Prop :=
  NoDup (map fst (before ++ l)) /\ Forall (fun f => text_fits limits f.1) l /\
  Forall (fun f => JsonWf limits f.2) l /\
  Forall (fun f => Z.of_nat (S depth + json_height f.2) <= max_json_depth limits) l /\
  p_nodes p' = (p_nodes p + list_sum (map (fun f => json_nodes f.2) l))%nat /\
  Z.of_nat (p_nodes p') <= max_json_nodes limits /\
  exists t, FieldsText l t /\ p_text p = t +:+ "}" +:+ p_text p'.

Lemma height_list {A} (f : A -> nat) depth l :
  Forall (fun v => Z.of_nat (S depth + f v) <= max_json_depth limits) l ->
  Z.of_nat depth <= max_json_depth limits ->
  Z.of_nat (depth + list_max (map (fun v => S (f v)) l)) <= max_json_depth limits.
Proof.
  intros H Hd. induction H as [| v l Hv _ IH]; cbn [map list_max fold_right] in *; [lia |].
  unfold list_max in *. cbn [map fold_right]. lia.
Qed.

Lemma literal_inv literal v p r :
  parse_literal literal v p = Got r -> r.1 = v /\ p_nodes r.2 = p_nodes p /\ p_text p = literal +:+ p_text r.2.
Proof.
  unfold parse_literal. destruct (consume_literal literal (p_text p)) as [rest |] eqn:E; [| done].
  intros [= <-]. by apply consume_literal_inv in E.
Qed.

Lemma bracket_cons c s : Ascii.eqb (peek s) c = true -> c <> "000"%char -> s = String c (tail s).
Proof. intros E Hc. apply Ascii.eqb_eq in E. destruct s; cbn in *; congruence. Qed.

Definition value_sound (fuel : nat) : Prop :=
  forall depth p v p', parse_value limits fuel depth p = Got (v, p') -> reads_json depth p v p'.

Definition fields_sound (fuel : nat) : Prop :=
  forall depth before p v p', NoDup (map fst before) ->
    parse_fields limits fuel depth (JObject before) p = Got (v, p') ->
    exists l, v = JObject (before ++ l) /\ reads_fields depth before p l p'.

Definition items_sound (fuel : nat) : Prop :=
  forall depth before p v p', parse_items limits fuel depth (JArray before) p = Got (v, p') ->
    exists l, v = JArray (before ++ l) /\ reads_items depth p l p'.

Section Step.
Variable fuel : nat.
Hypothesis IHv : value_sound fuel.
Hypothesis IHf : fields_sound fuel.
Hypothesis IHi : items_sound fuel.

(** An object after its opening brace. *)
Lemma object_sound depth p v p' :
  Z.of_nat depth <= max_json_depth limits -> Z.of_nat (S (p_nodes p)) <= max_json_nodes limits ->
  Ascii.eqb (peek (p_text p)) "{"%char = true ->
  match consume "}"%char (skip_whitespace (tail (p_text p))) with
  | (true, text) => Got (JObject [], mk_parser text (S (p_nodes p)))
  | (false, _) =>
      parse_fields limits fuel depth (JObject [])
        (mk_parser (skip_whitespace (tail (p_text p))) (S (p_nodes p)))
  end = Got (v, p') -> reads_json depth p v p'.
Proof.
  intros Hd Hn E.
  apply bracket_cons in E as Et; [| done]. clear E. intros H. revert H.
  destruct (skip_whitespace_split (tail (p_text p))) as (ws & Hws & Ews & _).
  destruct (consume _ _) as [[|] s] eqn:Ec; apply consume_eq in Ec; try done.
  - intros [= <- <-]. split_and!; cbn [json_height json_nodes p_nodes p_text map list_max list_sum fold_right]; try lia.
    + constructor; constructor.
    + exists ("{" +:+ ws +:+ "}"). split; [by constructor |]. rewrite Et, Ews, Ec. by autorewrite with str_app.
  - intros (l & -> & Hno & Hk & Hw & Hh & Hsum & Hmax & t & Ht & Etext)%IHf; [| constructor].
    cbn [p_text p_nodes app] in *. split_and!; cbn [json_height json_nodes]; try lia.
    + by constructor.
    + by apply (height_list (fun f => json_height f.2)).
    + exists ("{" +:+ (ws +:+ t) +:+ "}"). rewrite Et, Ews, Etext.
      split; [by apply text_object, fields_space | by autorewrite with str_app].
Qed.

(** An array after its opening bracket. *)
Lemma array_sound depth p v p' :
  Z.of_nat depth <= max_json_depth limits -> Z.of_nat (S (p_nodes p)) <= max_json_nodes limits ->
  Ascii.eqb (peek (p_text p)) "["%char = true ->
  match consume "]"%char (skip_whitespace (tail (p_text p))) with
  | (true, text) => Got (JArray [], mk_parser text (S (p_nodes p)))
  | (false, _) =>
      parse_items limits fuel depth (JArray [])
        (mk_parser (skip_whitespace (tail (p_text p))) (S (p_nodes p)))
  end = Got (v, p') -> reads_json depth p v p'.
Proof.
  intros Hd Hn E.
  apply bracket_cons in E as Et; [| done]. clear E. intros H. revert H.
  destruct (skip_whitespace_split (tail (p_text p))) as (ws & Hws & Ews & _).
  destruct (consume _ _) as [[|] s] eqn:Ec; apply consume_eq in Ec; try done.
  - intros [= <- <-]. split_and!; cbn [json_height json_nodes p_nodes p_text map list_max list_sum fold_right]; try lia.
    + by constructor.
    + exists ("[" +:+ ws +:+ "]"). split; [by constructor |]. rewrite Et, Ews, Ec. by autorewrite with str_app.
  - intros (l & -> & Hw & Hh & Hsum & Hmax & t & Ht & Etext)%IHi.
    cbn [p_text p_nodes app] in *. split_and!; cbn [json_height json_nodes]; try lia.
    + by constructor.
    + by apply (height_list json_height).
    + exists ("[" +:+ (ws +:+ t) +:+ "]"). rewrite Et, Ews, Etext.
      split; [by apply text_array, items_space | by autorewrite with str_app].
Qed.

Lemma value_step : value_sound (S fuel).
Proof.
  intros depth p v p'. cbn [parse_value].
  destruct (Z.ltb_spec (max_json_depth limits) (Z.of_nat depth)) as [| Hd]; [done |]. cbv zeta.
  cbn [p_text p_nodes].
  destruct (Z.ltb_spec (max_json_nodes limits) (Z.of_nat (S (p_nodes p)))) as [| Hn]; [done |].
  parser_text.
  destruct (Ascii.eqb (peek (p_text p)) "{"%char) eqn:E; [by apply object_sound |].
  clear E. destruct (Ascii.eqb (peek (p_text p)) "["%char) eqn:E; [by apply array_sound |].
  clear E. destruct (Ascii.eqb_spec (peek (p_text p)) kQuote) as [E |].
  { destruct (parse_string limits (p_text p)) as [[s rest] | |] eqn:Es; [| done..]. intros [= <- <-].
    apply parse_string_inv in Es as (t & Ht & Hs & Et); [| done | done].
    split_and!; cbn [json_height json_nodes p_nodes p_text]; try lia; [by constructor |].
    exists (quoted t). by split; [constructor |]. }
  assert (forall literal w, JsonText w literal -> JsonWf limits w -> json_height w = 0%nat -> json_nodes w = 1%nat ->
    parse_literal literal w (mk_parser (p_text p) (S (p_nodes p))) = Got (v, p') -> reads_json depth p v p') as Hlit.
  { intros literal w Hw Hwf Hh Hnodes H. apply literal_inv in H as (E1 & E2 & E3). cbn [fst snd p_nodes p_text] in *.
    subst w. split_and!; try lia; [done |]. by exists literal. }
  repeat (destruct (Ascii.eqb (peek (p_text p)) _); [apply Hlit; [constructor | constructor | done | done] |]).
  destruct (_ || _); [| done].
  destruct (parse_number (p_text p)) as [[s rest] |] eqn:Es; [| done]. intros [= <- <-].
  apply parse_number_inv in Es as [Hs Et].
  split_and!; cbn [json_height json_nodes p_nodes p_text]; try lia; [by constructor |].
  exists s. by split; [constructor |].
Qed.

Lemma fields_step : fields_sound (S fuel).
Proof.
  intros depth before p v p' Hno. cbn [parse_fields]. cbv zeta. parser_text.
  destruct (skip_whitespace_split (p_text p)) as (b1 & Hb1 & Eb1 & _).
  destruct (Ascii.eqb_spec (peek (skip_whitespace (p_text p))) kQuote) as [E |]; [| done]. cbn [negb].
  destruct (parse_string _ _) as [[key s] | |] eqn:Es; [| done..]. cbn [parsed_bind].
  apply parse_string_inv in Es as (k & Hk & Hfit & Ek); [| done | done].
  destruct (skip_whitespace_split s) as (b2 & Hb2 & Eb2 & _).
  destruct (consume _ _) as [[|] s'] eqn:Ec; [| done]. apply consume_eq in Ec; [| done].
  destruct (skip_whitespace_split s') as (b3 & Hb3 & Eb3 & _).
  destruct (parse_value _ _ _ _) as [[w p1] | |] eqn:Ev; [| done..]. cbn [parsed_bind].
  apply IHv in Ev as (Hwf & Hh & Hnodes & Hmax & t & Ht & Et). cbn [p_text p_nodes] in *.
  case_bool_decide as Hdup; [done |]. cbn [json_find] in Hdup.
  apply find_field_none in Hdup. unfold json_set. cbn [fields]. rewrite set_field_new by done.
  assert (NoDup (map fst (before ++ [(key, w)]))) as Hno'.
  { rewrite map_app. apply list.NoDup_app. split_and!; [done | | apply NoDup_singleton].
    intros x Hx ->%list_elem_of_singleton. done. }
  destruct (skip_whitespace_split (p_text p1)) as (b4 & Hb4 & Eb4 & _).
  destruct (consume ","%char _) as [[|] s4] eqn:Ec4; apply consume_eq in Ec4; try done.
  + intros (l & -> & Hno2 & Hk2 & Hw2 & Hh2 & Hsum & Hmax2 & rest & Hrest & Erest)%IHf; [| done].
    cbn [p_text p_nodes] in *. exists ((key, w) :: l). rewrite <- app_assoc in *. split; [done |].
    split_and!; try (constructor; done); try done.
    * cbn [map snd]. rewrite list_sum_cons. lia.
    * exists (b1 +:+ quoted k +:+ b2 +:+ ":" +:+ b3 +:+ t +:+ b4 +:+ "," +:+ rest). split; [by constructor |].
      rewrite Eb1, Ek, Eb2, Ec, Eb3, Et, Eb4, Ec4, Erest. by autorewrite with str_app.
  + destruct (consume "}"%char _) as [[|] s5] eqn:Ec5; [| done]. apply consume_eq in Ec5; [| done].
    intros [= <- <-]. exists [(key, w)]. split; [done |]. cbn [p_text p_nodes].
    split_and!; try (by apply list.Forall_singleton); try done.
    * cbn [map snd]. rewrite list_sum_cons. cbn [list_sum fold_right p_nodes]. lia.
    * exists (b1 +:+ quoted k +:+ b2 +:+ ":" +:+ b3 +:+ t +:+ b4). split; [by constructor |].
      rewrite Eb1, Ek, Eb2, Ec, Eb3, Et, Eb4, Ec5. by autorewrite with str_app.
Qed.

Lemma items_step : items_sound (S fuel).
Proof.
  intros depth before p v p'. cbn [parse_items]. cbv zeta. parser_text.
  destruct (skip_whitespace_split (p_text p)) as (b1 & Hb1 & Eb1 & _).
  destruct (parse_value _ _ _ _) as [[w p1] | |] eqn:Ev; [| done..]. cbn [parsed_bind].
  apply IHv in Ev as (Hwf & Hh & Hnodes & Hmax & t & Ht & Et). cbn [p_text p_nodes] in *.
  unfold json_push_back. cbn [items].
  destruct (skip_whitespace_split (p_text p1)) as (b4 & Hb4 & Eb4 & _).
  destruct (consume ","%char _) as [[|] s4] eqn:Ec4; apply consume_eq in Ec4; try done.
  + intros (l & -> & Hw2 & Hh2 & Hsum & Hmax2 & rest & Hrest & Erest)%IHi.
    cbn [p_text p_nodes] in *. exists (w :: l). rewrite <- app_assoc in *. split; [done |].
    split_and!; try (constructor; done); try done.
    * cbn [map]. rewrite list_sum_cons. lia.
    * exists (b1 +:+ t +:+ b4 +:+ "," +:+ rest). split; [by constructor |].
      rewrite Eb1, Et, Eb4, Ec4, Erest. by autorewrite with str_app.
  + destruct (consume "]"%char _) as [[|] s5] eqn:Ec5; [| done]. apply consume_eq in Ec5; [| done].
    intros [= <- <-]. exists [w]. split; [done |]. cbn [p_text p_nodes].
    split_and!; try (by apply list.Forall_singleton); try done.
    * cbn [map]. rewrite list_sum_cons. cbn [list_sum fold_right p_nodes]. lia.
    * exists (b1 +:+ t +:+ b4). split; [by constructor |].
      rewrite Eb1, Et, Eb4, Ec5. by autorewrite with str_app.
Qed.
End Step.

Lemma parse_sound fuel : value_sound fuel /\ fields_sound fuel /\ items_sound fuel.
Proof.
  induction fuel as [| fuel (IHv & IHf & IHi)]; [done |].
  split_and!; [by apply value_step | by apply fields_step | by apply items_step].
Qed.
End Sound.

(** ** The reader accepts every document within its bounds *)

(** The first character of a value. *)
Definition value_start (c : ascii) : bool :=
  is_one_of ["{"%char; "["%char; kQuote; "t"%char; "f"%char; "n"%char; "-"%char] c || is_digit c.

Lemma json_text_start v t : JsonText v t -> value_start (peek t) = true.
Proof.
  destruct 1; try reflexivity. destruct (number_nonempty _ H) as [Hd | ->]; [| reflexivity].
  unfold value_start. by rewrite Hd, orb_true_r.
Qed.

Lemma json_text_nonempty v t : JsonText v t -> t <> "".
Proof. intros H ->. by apply json_text_start in H. Qed.

Lemma value_start_inv c :
  value_start c = true -> is_space c = false /\ Ascii.eqb c "]"%char = false /\ Ascii.eqb c "}"%char = false.
Proof.
  unfold value_start. rewrite orb_true_iff. intros [H | H].
  - unfold is_one_of in H. cbn [existsb] in H. rewrite !orb_true_iff, !Ascii.eqb_eq in H.
    repeat (destruct H as [-> | H]; [done |]). done.
  - split_and!; [by apply (is_one_of_digit [" "%char; "009"%char; "010"%char; "013"%char]) | by apply is_digit_neq | by apply is_digit_neq].
Qed.

Lemma skip_to_value ws v t s : Space ws -> JsonText v t -> skip_whitespace (ws +:+ t +:+ s) = t +:+ s.
Proof.
  intros Hws Ht. rewrite skip_whitespace_app by done. apply skip_whitespace_id.
  rewrite peek_app by (by eapply json_text_nonempty). apply value_start_inv. by eapply json_text_start.
Qed.

Lemma skip_to_char ws c s : Space ws -> is_space c = false -> skip_whitespace (ws +:+ String c s) = String c s.
Proof. intros Hws Hc. rewrite skip_whitespace_app by done. by apply skip_whitespace_id. Qed.

(** White space, a bracket, a comma or the end of the text ends a number. *)
Lemma space_stops ws c s :
  Space ws -> number_stop c = true -> number_stop (peek (ws +:+ String c s)) = true.
Proof.
  intros Hws Hc. destruct ws as [| d ws]; [done |]. cbn. unfold Space in Hws. cbn [all_chars] in Hws.
  apply andb_true_iff in Hws as [Hd _]. unfold is_space in Hd. cbn [existsb] in Hd.
  rewrite !orb_true_iff, !Ascii.eqb_eq in Hd. repeat (destruct Hd as [-> | Hd]; [done |]). done.
Qed.

Lemma space_end_stops ws : Space ws -> number_stop (peek ws) = true.
Proof.
  intros Hws. destruct ws as [| d ws]; [done |].
  rewrite <- (peek_app (String d ws) "]") by done. by apply (space_stops (String d ws)).
Qed.

Lemma NoDup_fresh {A} (before : list (string * A)) key v l :
  NoDup (map fst (before ++ (key, v) :: l)) -> ~ key ∈ map fst before.
Proof.
  rewrite map_app. intros (_ & H & _)%list.NoDup_app Hk. apply (H _ Hk). apply list_elem_of_here.
Qed.

Section Complete.
Variable limits : Limits.

Lemma parse_items_skip fuel depth v s n :
  parse_items limits fuel depth v (mk_parser (skip_whitespace s) n) = parse_items limits fuel depth v (mk_parser s n).
Proof. destruct fuel; [done |]. cbn [parse_items]. unfold skip, at_text. cbn [p_text p_nodes]. by rewrite skip_whitespace_idem. Qed.

Lemma parse_fields_skip fuel depth v s n :
  parse_fields limits fuel depth v (mk_parser (skip_whitespace s) n) = parse_fields limits fuel depth v (mk_parser s n).
Proof. destruct fuel; [done |]. cbn [parse_fields]. unfold skip, at_text. cbn [p_text p_nodes]. by rewrite skip_whitespace_idem. Qed.

Definition value_complete (v : JsonValue) (t : string) : Prop :=
  JsonWf limits v -> forall fuel depth nodes rest,
    (2 * String.length t + 1 <= fuel)%nat -> Z.of_nat (depth + json_height v) <= max_json_depth limits ->
    Z.of_nat (nodes + json_nodes v) <= max_json_nodes limits -> number_stop (peek rest) = true ->
    parse_value limits fuel depth (mk_parser (t +:+ rest) nodes) = Got (v, mk_parser rest (nodes + json_nodes v)).

Definition items_complete (l : list JsonValue) (t : string) : Prop :=
  Forall (JsonWf limits) l -> forall fuel depth nodes before rest,
    (2 * String.length t + 2 <= fuel)%nat ->
    Forall (fun v => Z.of_nat (S depth + json_height v) <= max_json_depth limits) l ->
    Z.of_nat (nodes + list_sum (map json_nodes l)) <= max_json_nodes limits ->
    parse_items limits fuel depth (JArray before) (mk_parser (t +:+ "]" +:+ rest) nodes) =
    Got (JArray (before ++ l), mk_parser rest (nodes + list_sum (map json_nodes l))).

Definition fields_complete (l : list (string * JsonValue)) (t : string) : Prop :=
  Forall (fun f => text_fits limits f.1) l -> Forall (fun f => JsonWf limits f.2) l ->
  forall fuel depth nodes before rest, NoDup (map fst (before ++ l)) ->
    (2 * String.length t + 2 <= fuel)%nat ->
    Forall (fun f => Z.of_nat (S depth + json_height f.2) <= max_json_depth limits) l ->
    Z.of_nat (nodes + list_sum (map (fun f => json_nodes f.2) l)) <= max_json_nodes limits ->
    parse_fields limits fuel depth (JObject before) (mk_parser (t +:+ "}" +:+ rest) nodes) =
    Got (JObject (before ++ l), mk_parser rest (nodes + list_sum (map (fun f => json_nodes f.2) l))).

(** The guards of [parse_value] when the bounds hold. *)
Lemma parse_value_guards (fuel depth nodes height n : nat) :
  (1 <= fuel)%nat -> Z.of_nat (depth + height) <= max_json_depth limits ->
  Z.of_nat (nodes + S n) <= max_json_nodes limits ->
  exists fuel', fuel = S fuel' /\ (max_json_depth limits <? Z.of_nat depth) = false /\
    (max_json_nodes limits <? Z.of_nat (S nodes)) = false.
Proof.
  intros Hf Hd Hn. destruct fuel as [| fuel']; [lia |]. exists fuel'. split; [done |].
  split; apply Z.ltb_ge; lia.
Qed.

Lemma height_list_inv {A} (f : A -> nat) depth l :
  Z.of_nat (depth + list_max (map (fun v => S (f v)) l)) <= max_json_depth limits ->
  Forall (fun v => Z.of_nat (S depth + f v) <= max_json_depth limits) l.
Proof.
  intros H. apply Forall_elem. intros v Hv.
  assert (S (f v) <= list_max (map (fun v => S (f v)) l))%nat; [| lia].
  pose proof (proj1 (list_max_le (map (fun v => S (f v)) l) _) (Nat.le_refl _)) as Hall.
  rewrite Stdlib.Lists.List.Forall_forall in Hall. apply Hall, in_map_iff. exists v. split; [done |].
  by apply list_elem_of_In.
Qed.

Lemma literal_complete v literal rest nodes :
  parse_literal literal v (mk_parser (literal +:+ rest) nodes) = Got (v, mk_parser rest nodes).
Proof. unfold parse_literal. cbn [p_text]. by rewrite consume_literal_ok. Qed.

Lemma number_complete s : NumberText s -> value_complete (JNumber s) s.
Proof.
  intros Hs Hwf fuel depth nodes rest Hf Hd Hn Hstop. cbn [json_height json_nodes] in *.
  destruct (parse_value_guards fuel depth nodes 0 0) as (fuel' & -> & E1 & E2); [lia.. |].
  cbn [parse_value]. rewrite E1. cbv zeta. cbn [p_text p_nodes]. rewrite E2.
  pose proof (number_nonempty _ Hs) as Hp. assert (s <> "") as Hne by (intros ->; destruct Hp; done).
  rewrite peek_app by done.
  assert (forall c, is_digit c = false -> c <> "-"%char -> Ascii.eqb (peek s) c = false) as Hc.
  { intros c Hdc Hm. apply Ascii.eqb_neq. intros E. destruct Hp; congruence. }
  rewrite !Hc by done.
  replace (Ascii.eqb (peek s) "-"%char || is_digit (peek s)) with true
    by (destruct Hp as [-> | ->]; [by rewrite orb_true_r | done]).
  rewrite parse_number_ok by done. cbn [parsed_of parsed_bind]. unfold at_text. cbn [p_nodes].
  by rewrite Nat.add_1_r.
Qed.

Lemma string_complete t s : CharsText t s -> value_complete (JString s) (quoted t).
Proof.
  intros Ht Hwf fuel depth nodes rest Hf Hd Hn _. inversion_clear Hwf as [| | | ? Hfit | |].
  cbn [json_height json_nodes] in *.
  destruct (parse_value_guards fuel depth nodes 0 0) as (fuel' & -> & E1 & E2); [lia.. |].
  cbn [parse_value]. rewrite E1. cbv zeta. cbn [p_text p_nodes]. rewrite E2.
  change (peek (quoted t +:+ rest)) with kQuote.
  change (Ascii.eqb kQuote "{"%char) with false. change (Ascii.eqb kQuote "["%char) with false.
  rewrite Ascii.eqb_refl. cbn [p_text]. rewrite (parse_string_ok _ _ _ _ Ht Hfit). cbn [parsed_bind].
  unfold at_text. cbn [p_nodes]. by rewrite Nat.add_1_r.
Qed.

Lemma items_start l t s : ItemsText l t -> Ascii.eqb (peek (skip_whitespace (t +:+ s))) "]"%char = false.
Proof.
  intros H. assert (exists ws v t1 t2, Space ws /\ JsonText v t1 /\ t = ws +:+ t1 +:+ t2) as (ws & v & t1 & t2 & Hws & Hv & ->)
    by (destruct H; eauto 10). rewrite !str_app_assoc, (skip_to_value ws v) by done.
  rewrite peek_app by (by eapply json_text_nonempty). apply value_start_inv. by eapply json_text_start.
Qed.

Lemma fields_start l t s : FieldsText l t -> peek (skip_whitespace (t +:+ s)) = kQuote.
Proof.
  intros H. assert (exists ws k t2, Space ws /\ t = ws +:+ quoted k +:+ t2) as (ws & k & t2 & Hws & ->)
    by (destruct H; eauto 10). rewrite !str_app_assoc. unfold quoted. rewrite str_app_cons.
  by rewrite skip_to_char.
Qed.

(** The start of a compound value: the guards and the opening bracket. *)
Ltac open_bracket :=
  cbn [parse_value];
  match goal with H : (max_json_depth limits <? _) = false |- _ => rewrite H end; cbv zeta; cbn [p_text p_nodes];
  match goal with H : (max_json_nodes limits <? _) = false |- _ => rewrite H end;
  unfold skip, at_text; cbn [p_text p_nodes]; autorewrite with str_app; cbn [peek tail].

Lemma array_complete l t : ItemsText l t -> items_complete l t -> value_complete (JArray l) ("[" +:+ t +:+ "]").
Proof.
  intros Hl IH Hwf fuel depth nodes rest Hf Hd Hn _. inversion_clear Hwf as [| | | | ? Hall |].
  cbn [json_nodes] in *. pose proof Hd as Hd'. cbn [json_height] in Hd'.
  destruct (parse_value_guards fuel depth nodes _ _ ltac:(lia) Hd Hn) as (fuel' & -> & E1 & E2).
  open_bracket. change (Ascii.eqb "["%char "{"%char) with false. rewrite Ascii.eqb_refl.
  rewrite !str_length_app in Hf. cbn [String.length] in Hf.
  rewrite consume_no by (by apply (items_start l)). rewrite parse_items_skip.
  change (String "]"%char rest) with ("]" +:+ rest).
  rewrite IH; [| done | lia | by apply height_list_inv in Hd' | lia]. cbn [app].
  by rewrite Nat.add_succ_comm.
Qed.

Lemma object_complete l t : FieldsText l t -> fields_complete l t -> value_complete (JObject l) ("{" +:+ t +:+ "}").
Proof.
  intros Hl IH Hwf fuel depth nodes rest Hf Hd Hn _. inversion_clear Hwf as [| | | | | ? Hno Hk Hall].
  cbn [json_nodes] in *. pose proof Hd as Hd'. cbn [json_height] in Hd'.
  destruct (parse_value_guards fuel depth nodes _ _ ltac:(lia) Hd Hn) as (fuel' & -> & E1 & E2).
  open_bracket. rewrite Ascii.eqb_refl.
  rewrite !str_length_app in Hf. cbn [String.length] in Hf.
  rewrite consume_no by (rewrite (fields_start l) by done; done). rewrite parse_fields_skip.
  change (String "}"%char rest) with ("}" +:+ rest).
  rewrite IH; [| done | done | done | lia | by apply (height_list_inv (fun f => json_height f.2)) in Hd' | lia].
  cbn [app]. by rewrite Nat.add_succ_comm.
Qed.

Lemma empty_array_complete ws : Space ws -> value_complete (JArray []) ("[" +:+ ws +:+ "]").
Proof.
  intros Hws Hwf fuel depth nodes rest Hf Hd Hn _. cbn [json_nodes map] in *.
  destruct (parse_value_guards fuel depth nodes _ _ ltac:(lia) Hd Hn) as (fuel' & -> & E1 & E2).
  open_bracket. change (Ascii.eqb "["%char "{"%char) with false. rewrite Ascii.eqb_refl.
  rewrite skip_to_char, consume_yes by done. by rewrite Nat.add_1_r.
Qed.

Lemma empty_object_complete ws : Space ws -> value_complete (JObject []) ("{" +:+ ws +:+ "}").
Proof.
  intros Hws Hwf fuel depth nodes rest Hf Hd Hn _. cbn [json_nodes map] in *.
  destruct (parse_value_guards fuel depth nodes _ _ ltac:(lia) Hd Hn) as (fuel' & -> & E1 & E2).
  open_bracket. rewrite Ascii.eqb_refl.
  rewrite skip_to_char, consume_yes by done. by rewrite Nat.add_1_r.
Qed.

Lemma constant_complete v literal :
  (v, literal) ∈ [(JNull, "null"); (JBoolean true, "true"); (JBoolean false, "false")] -> value_complete v literal.
Proof.
  intros Hv Hwf fuel depth nodes rest Hf Hd Hn _.
  assert (json_height v = 0%nat /\ json_nodes v = 1%nat) as [Eh En].
  { rewrite !elem_of_cons in Hv. by destruct Hv as [[= -> ->] | [[= -> ->] | [[= -> ->] | ?%elem_of_nil]]]. }
  rewrite Eh, En in *.
  destruct (parse_value_guards fuel depth nodes 0 0) as (fuel' & -> & E1 & E2); [lia.. |].
  cbn [parse_value]. rewrite E1. cbv zeta. cbn [p_text p_nodes]. rewrite E2, Nat.add_1_r.
  rewrite !elem_of_cons in Hv. destruct Hv as [[= -> ->] | [[= -> ->] | [[= -> ->] | ?%elem_of_nil]]]; [..| done];
    apply literal_complete.
Qed.

(** The part that the two cases of a list share: one value and the white space
    around it. *)
Lemma items_step_ok fuel depth nodes arr before v t after c rest :
  Space before -> JsonText v t -> Space after -> value_complete v t -> JsonWf limits v ->
  number_stop c = true -> is_space c = false ->
  (2 * String.length t + 1 <= fuel)%nat -> Z.of_nat (S depth + json_height v) <= max_json_depth limits ->
  Z.of_nat (nodes + json_nodes v) <= max_json_nodes limits ->
  parse_items limits (S fuel) depth (JArray arr) (mk_parser (before +:+ t +:+ after +:+ String c rest) nodes) =
  match consume ","%char (String c rest) with
  | (true, text) => parse_items limits fuel depth (JArray (arr ++ [v])) (mk_parser text (nodes + json_nodes v))
  | (false, _) =>
      match consume "]"%char (String c rest) with
      | (true, text) => Got (JArray (arr ++ [v]), mk_parser text (nodes + json_nodes v))
      | (false, _) => malformed "array is not terminated"
      end
  end.
Proof.
  intros Hb Ht Ha IH Hwf Hstop Hspace Hf Hd Hn. cbn [parse_items]. unfold skip, at_text. cbn [p_text p_nodes].
  rewrite (skip_to_value before v t) by done.
  rewrite IH by (done || by apply space_stops). cbn [parsed_bind p_text p_nodes].
  by rewrite skip_to_char.
Qed.

Lemma fields_step_ok fuel depth nodes arr b1 k key b2 b3 v t b4 c rest :
  Space b1 -> CharsText k key -> Space b2 -> Space b3 -> JsonText v t -> Space b4 ->
  value_complete v t -> text_fits limits key -> JsonWf limits v -> ~ key ∈ map fst arr ->
  number_stop c = true -> is_space c = false ->
  (2 * String.length t + 1 <= fuel)%nat -> Z.of_nat (S depth + json_height v) <= max_json_depth limits ->
  Z.of_nat (nodes + json_nodes v) <= max_json_nodes limits ->
  parse_fields limits (S fuel) depth (JObject arr)
    (mk_parser (b1 +:+ quoted k +:+ b2 +:+ ":" +:+ b3 +:+ t +:+ b4 +:+ String c rest) nodes) =
  match consume ","%char (String c rest) with
  | (true, text) => parse_fields limits fuel depth (JObject (arr ++ [(key, v)])) (mk_parser text (nodes + json_nodes v))
  | (false, _) =>
      match consume "}"%char (String c rest) with
      | (true, text) => Got (JObject (arr ++ [(key, v)]), mk_parser text (nodes + json_nodes v))
      | (false, _) => malformed "object is not terminated"
      end
  end.
Proof.
  intros Hb1 Hk Hb2 Hb3 Ht Hb4 IH Hfit Hwf Hkey Hstop Hspace Hf Hd Hn.
  cbn [parse_fields]. unfold skip, at_text. cbn [p_text p_nodes].
  assert (forall s, skip_whitespace (b1 +:+ quoted k +:+ s) = quoted k +:+ s) as ->.
  { intros s. unfold quoted. rewrite str_app_cons. by apply skip_to_char. }
  change (peek (quoted k +:+ _)) with kQuote. rewrite Ascii.eqb_refl. cbn [negb].
  rewrite (parse_string_ok _ _ _ _ Hk Hfit). cbn [parsed_bind].
  rewrite str_app_cons, str_app_nil, skip_to_char, consume_yes by done.
  rewrite (skip_to_value b3 v t) by done.
  rewrite IH by (done || by apply space_stops). cbn [parsed_bind p_text p_nodes].
  rewrite bool_decide_eq_false_2 by (cbn [json_find]; rewrite (proj2 (find_field_none key arr)); tauto).
  rewrite skip_to_char by done. unfold json_set. cbn [fields]. by rewrite set_field_new.
Qed.
Lemma items_complete_last before v t after :
  Space before -> JsonText v t -> value_complete v t -> Space after ->
  items_complete [v] (before +:+ t +:+ after).
Proof.
  intros Hb Ht IH Ha Hwf fuel depth nodes arr rest Hf Hd Hn.
  apply Forall_cons_1 in Hwf as [Hwf _]. apply Forall_cons_1 in Hd as [Hd _].
  rewrite !str_length_app in Hf. cbn [map list_sum fold_right] in *. rewrite Nat.add_0_r in *.
  destruct fuel as [| fuel]; [lia |]. autorewrite with str_app.
  rewrite (items_step_ok fuel depth nodes arr before v t after) by (done || lia). reflexivity.
Qed.

Lemma items_complete_more before v t after l rest :
  Space before -> JsonText v t -> value_complete v t -> Space after -> items_complete l rest ->
  items_complete (v :: l) (before +:+ t +:+ after +:+ "," +:+ rest).
Proof.
  intros Hb Ht IH Ha IHl Hwf fuel depth nodes arr rest' Hf Hd Hn.
  apply Forall_cons_1 in Hwf as [Hwf Hwfs]. apply Forall_cons_1 in Hd as [Hd Hds].
  cbn [map] in *. rewrite list_sum_cons in *. rewrite !str_length_app in Hf. cbn [String.length] in Hf.
  destruct fuel as [| fuel]; [lia |]. autorewrite with str_app.
  rewrite (items_step_ok fuel depth nodes arr before v t after) by (done || lia).
  rewrite consume_yes. change (String "]"%char rest') with ("]" +:+ rest').
  rewrite IHl by (done || lia). by rewrite <- app_assoc, Nat.add_assoc.
Qed.

Lemma fields_complete_last b1 k key b2 b3 v t b4 :
  Space b1 -> CharsText k key -> Space b2 -> Space b3 -> JsonText v t -> value_complete v t -> Space b4 ->
  fields_complete [(key, v)] (b1 +:+ quoted k +:+ b2 +:+ ":" +:+ b3 +:+ t +:+ b4).
Proof.
  intros Hb1 Hk Hb2 Hb3 Ht IH Hb4 Hfit Hwf fuel depth nodes arr rest Hno Hf Hd Hn.
  apply Forall_cons_1 in Hwf as [Hwf _]. apply Forall_cons_1 in Hd as [Hd _]. apply Forall_cons_1 in Hfit as [Hfit _].
  rewrite !str_length_app in Hf. cbn [map list_sum fold_right fst snd] in *. rewrite Nat.add_0_r in *.
  destruct fuel as [| fuel]; [lia |]. rewrite !str_app_assoc. change ("}" +:+ rest) with (String "}"%char rest).
  rewrite (fields_step_ok fuel depth nodes arr b1 k key b2 b3 v t b4) by (done || lia || by eapply NoDup_fresh).
  reflexivity.
Qed.

Lemma fields_complete_more b1 k key b2 b3 v t b4 l rest :
  Space b1 -> CharsText k key -> Space b2 -> Space b3 -> JsonText v t -> value_complete v t -> Space b4 ->
  fields_complete l rest ->
  fields_complete ((key, v) :: l) (b1 +:+ quoted k +:+ b2 +:+ ":" +:+ b3 +:+ t +:+ b4 +:+ "," +:+ rest).
Proof.
  intros Hb1 Hk Hb2 Hb3 Ht IH Hb4 IHl Hfit Hwf fuel depth nodes arr rest' Hno Hf Hd Hn.
  apply Forall_cons_1 in Hwf as [Hwf Hwfs]. apply Forall_cons_1 in Hd as [Hd Hds].
  apply Forall_cons_1 in Hfit as [Hfit Hfits].
  cbn [map fst snd] in *. rewrite list_sum_cons in *. rewrite !str_length_app in Hf. cbn [String.length] in Hf.
  destruct fuel as [| fuel]; [lia |]. rewrite !str_app_assoc.
  change ("," +:+ rest +:+ "}" +:+ rest') with (String ","%char (rest +:+ "}" +:+ rest')).
  rewrite (fields_step_ok fuel depth nodes arr b1 k key b2 b3 v t b4) by (done || lia || by eapply NoDup_fresh).
  rewrite consume_yes. rewrite IHl by (done || lia || by rewrite <- app_assoc).
  by rewrite <- app_assoc, Nat.add_assoc.
Qed.

Lemma json_complete v t : JsonText v t -> value_complete v t.
Proof.
  apply (JsonText_mut (fun v t _ => value_complete v t) (fun l t _ => items_complete l t)
           (fun l t _ => fields_complete l t));
    intros.
  - apply constant_complete. rewrite !elem_of_cons. tauto.
  - apply constant_complete. rewrite !elem_of_cons. tauto.
  - apply constant_complete. rewrite !elem_of_cons. tauto.
  - by apply number_complete.
  - by apply string_complete.
  - by apply empty_array_complete.
  - by apply array_complete.
  - by apply empty_object_complete.
  - by apply object_complete.
  - by apply items_complete_last.
  - by apply items_complete_more.
  - by apply fields_complete_last.
  - by apply fields_complete_more.
Qed.

Lemma document_complete v text :
  Document v text -> Z.of_nat (String.length text) <= max_document_bytes limits -> JsonWf limits v ->
  Z.of_nat (json_height v) <= max_json_depth limits -> Z.of_nat (json_nodes v) <= max_json_nodes limits ->
  parse limits text = Got v.
Proof.
  intros (before & t & after & Hb & Ht & Ha & ->) Hlen Hwf Hd Hn. unfold parse.
  rewrite (proj2 (Z.ltb_ge _ _)) by done. cbv zeta. unfold skip, at_text. cbn [p_text p_nodes].
  rewrite (skip_to_value before v t) by done. unfold value_fuel. rewrite !str_length_app.
  rewrite (json_complete v t Ht Hwf) by (done || lia || by apply space_end_stops).
  cbn [parsed_bind p_text]. by rewrite space_all.
Qed.
End Complete.

(** ** Exactness *)

(** The reader is the grammar: it returns a value exactly for the documents that
    denote it, of well formed strings and distinct keys, within the four bounds. *)
Lemma parse_refines_grammar limits text v :
  0 <= max_string_bytes limits ->
  parse limits text = Got v <->
  Document v text /\ Z.of_nat (String.length text) <= max_document_bytes limits /\ JsonWf limits v /\
  Z.of_nat (json_height v) <= max_json_depth limits /\ Z.of_nat (json_nodes v) <= max_json_nodes limits.
Proof.
  intros Hs. split; [| intros (? & ? & ? & ? & ?); by apply document_complete].
  unfold parse. destruct (Z.ltb_spec (max_document_bytes limits) (Z.of_nat (String.length text))); [done |].
  cbv zeta. unfold skip, at_text. cbn [p_text p_nodes].
  destruct (parse_value _ _ _ _) as [[w p] | |] eqn:E; [| done..]. cbn [parsed_bind].
  apply (proj1 (parse_sound limits Hs _)) in E as (Hwf & Hd & Hn & Hmax & t & Ht & Et). cbn [p_text p_nodes] in *.
  destruct (skip_whitespace (p_text p)) eqn:Ee; [| done]. intros [= ->].
  destruct (skip_whitespace_split text) as (ws & Hws & Ews & _).
  split_and!; [| lia | done | lia | lia]. exists ws, t, (p_text p).
  split_and!; [done | done | by apply skip_whitespace_empty | congruence].
Qed.

(** ** The writer *)

(** The control characters, escaped. *)
Lemma escape_control c :
  byte c < 0x20 -> exists e, escape_char c = String kEscape e /\ EscapeText e (String c "").
Proof.
  intros Hc. pose proof (byte_of_ascii_ok c) as [H0 _].
  assert (In (byte c) (map Z.of_nat (seq 0 32))) as Hin.
  { apply in_map_iff. exists (Z.to_nat (byte c)). rewrite in_seq. lia. }
  rewrite <- (ascii_of_byte_of_ascii c). clear H0 Hc. cbn [seq map] in Hin.
  repeat (destruct Hin as [<- | Hin];
    [eexists; split; [vm_compute; reflexivity |];
     first [apply escape_simple; reflexivity
           | eapply escape_unicode;
             [apply code_point_plain; [apply hex4; vm_compute; discriminate | vm_compute; intuition discriminate]
             | vm_compute; reflexivity]] |]).
  done.
Qed.

Lemma escape_chars_denotes s : CharsText (escape_chars s) s.
Proof.
  induction s as [| c s IH]; [constructor |]. cbn [escape_chars].
  destruct (Z.lt_ge_cases (byte c) 0x20) as [Hc | Hc].
  { destruct (escape_control c Hc) as (e & -> & He). rewrite str_app_cons. by apply (chars_escape e (String c "")). }
  unfold escape_char. destruct (Ascii.eqb_spec c kQuote) as [-> | Hq]; [by apply (chars_escape (String kQuote "") (String kQuote "")), IH; constructor |].
  destruct (Ascii.eqb_spec c kEscape) as [-> | He]; [by apply (chars_escape (String kEscape "") (String kEscape "")), IH; constructor |].
  cbn [orb]. rewrite (proj2 (Z.ltb_ge _ _)) by done. rewrite str_app_cons, str_app_nil. by constructor.
Qed.

Lemma space_line pretty indent : Space (line pretty indent).
Proof.
  unfold Space, line. destruct pretty; [| done]. cbn [all_chars].
  assert (all_chars is_space (spaces indent) = true) as -> by (induction indent; done). done.
Qed.

Lemma dump_list_cons {A} (one : A -> string) first x l :
  dump_list one first (x :: l) = (if first then "" else ",") +:+ one x +:+ dump_list one false l.
Proof. done. Qed.

Lemma dump_items_denotes before (one : JsonValue -> string) after l :
  Space before -> Space after -> l <> [] -> Forall (fun v => JsonText v (one v)) l ->
  ItemsText l (dump_list (fun v => before +:+ one v) true l +:+ after).
Proof.
  intros Hb Ha Hne Hl. destruct Hl as [| v l Hv Hl]; [done |]. clear Hne. rewrite dump_list_cons, str_app_nil.
  revert v Hv. induction Hl as [| w l Hw _ IH]; intros v Hv.
  - cbn [dump_list]. rewrite str_app_nil_r, str_app_assoc. by apply items_last.
  - rewrite dump_list_cons, !str_app_assoc.
    apply (items_more before v (one v) ""); [done | done | done |]. rewrite <- !str_app_assoc. by apply IH.
Qed.

Lemma dump_fields_denotes before gap (one : JsonValue -> string) after (l : list (string * JsonValue)) :
  Space before -> Space gap -> Space after -> l <> [] -> Forall (fun f => JsonText f.2 (one f.2)) l ->
  FieldsText l (dump_list (fun f => before +:+ escape_text f.1 +:+ ":" +:+ gap +:+ one f.2) true l +:+ after).
Proof.
  intros Hb Hg Ha Hne Hl. destruct Hl as [| [k v] l Hv Hl]; [done |]. clear Hne. rewrite dump_list_cons, str_app_nil.
  cbn [fst snd] in *. revert k v Hv. induction Hl as [| [k' w] l Hw _ IH]; intros k v Hv.
  - cbn [dump_list]. rewrite str_app_nil_r, !str_app_assoc.
    apply (fields_last before (escape_chars k) k ""); auto using escape_chars_denotes. done.
  - rewrite dump_list_cons, !str_app_assoc. cbn [fst snd] in *.
    apply (fields_more before (escape_chars k) k "" gap v (one v) ""); auto using escape_chars_denotes; [done.. |].
    rewrite <- !str_app_assoc. rewrite !str_app_assoc. specialize (IH k' w Hw).
    rewrite !str_app_assoc in IH. exact IH.
Qed.

(** [dump] writes a text that denotes the value, pretty printed or not. *)
Lemma dump_denotes limits pretty v : JsonWf limits v -> forall indent, JsonText v (dump_text pretty indent v).
Proof.
  induction v as [| b | s | s | items IH | fields IH] using JsonValue_ind; intros Hwf indent.
  - constructor.
  - destruct b; constructor.
  - inversion_clear Hwf as [| | ? Hs | | |]. cbn [dump_text]. rewrite bool_decide_eq_false_2; [by constructor |].
    intros ->. by apply number_nonempty in Hs as [H | H].
  - cbn [dump_text]. apply (text_string (escape_chars s)), escape_chars_denotes.
  - inversion_clear Hwf as [| | | | ? Hall |]. destruct items as [| v items]; [by apply (text_empty_array "") |].
    cbn [dump_text]. set (l := v :: items) in *. rewrite <- (str_app_assoc (dump_list _ _ _)). apply text_array.
    apply dump_items_denotes; [apply space_line | apply space_line | done |].
    apply Forall_elem. intros w Hw. rewrite Forall_elem in IH, Hall. apply (IH w Hw), (Hall w Hw).
  - inversion_clear Hwf as [| | | | | ? _ _ Hall]. destruct fields as [| f fields]; [by apply (text_empty_object "") |].
    cbn [dump_text]. set (l := f :: fields) in *. rewrite <- (str_app_assoc (dump_list _ _ _)). apply text_object.
    apply dump_fields_denotes; [apply space_line | by destruct pretty | apply space_line | done |].
    apply Forall_elem. intros w Hw. rewrite Forall_elem in IH, Hall. apply (IH w Hw), (Hall w Hw).
Qed.

(** What is written reads back: the same value, pretty printed or not. *)
Lemma dump_parse_roundtrip limits pretty v :
  JsonWf limits v -> Z.of_nat (String.length (dump v pretty)) <= max_document_bytes limits ->
  Z.of_nat (json_height v) <= max_json_depth limits -> Z.of_nat (json_nodes v) <= max_json_nodes limits ->
  parse limits (dump v pretty) = Got v.
Proof.
  intros Hwf Hlen Hd Hn. apply document_complete; [| done..]. exists "", (dump v pretty), "".
  split_and!; [done | by apply (dump_denotes limits) | done | by rewrite str_app_nil_r].
Qed.

(** Normalising a document by reading and writing it keeps its value. *)
Lemma parse_dump_stable limits pretty text v :
  0 <= max_string_bytes limits -> parse limits text = Got v ->
  Z.of_nat (String.length (dump v pretty)) <= max_document_bytes limits -> parse limits (dump v pretty) = Got v.
Proof.
  intros Hs (_ & _ & Hwf & Hd & Hn)%parse_refines_grammar Hlen; [| done]. by apply dump_parse_roundtrip.
Qed.

(** ** Integers *)

Lemma digit_char_digit d : 0 <= d < 10 -> is_digit (digit_char d) = true.
Proof.
  intros Hd. unfold is_digit, digit_char. rewrite byte_chr by (unfold byte_ok; lia).
  by rewrite !(proj2 (Z.leb_le _ _)) by lia.
Qed.

Lemma digit_char_zero d : 0 < d < 10 -> digit_char d <> "0"%char.
Proof.
  intros Hd E. apply (f_equal byte) in E. unfold digit_char in E. rewrite byte_chr in E by (unfold byte_ok; lia).
  change (byte "0"%char) with 48 in E. lia.
Qed.

Lemma dec_go_digits fuel n acc :
  0 < n < 2 ^ Z.of_nat fuel -> exists s, dec_go fuel n acc = s +:+ acc /\ Digits s /\ peek s <> "0"%char.
Proof.
  revert n acc. induction fuel as [| fuel IH]; intros n acc Hn; [cbn in Hn; lia |]. cbn [dec_go].
  pose proof (Z.mod_pos_bound n 10 ltac:(lia)) as Hm.
  destruct (Z.ltb_spec n 10) as [Hs | Hs].
  - rewrite Z.mod_small by lia. exists (String (digit_char n) ""). split_and!; [done | split; [done |] |].
    + cbn [all_chars]. by rewrite digit_char_digit by lia.
    + apply digit_char_zero; lia.
  - rewrite Nat2Z.inj_succ, Z.pow_succ_r in Hn by lia.
    destruct (IH (n / 10) (String (digit_char (n mod 10)) acc)) as (s & -> & [Hne Hd] & Hp); [div_lia |].
    exists (s +:+ String (digit_char (n mod 10)) ""). split_and!; [by rewrite str_app_assoc | split |].
    + by destruct s.
    + rewrite all_chars_app, Hd. cbn [all_chars]. by rewrite digit_char_digit.
    + by rewrite peek_app by done.
Qed.

Lemma to_string_integer n : 0 <= n -> IntegerText (to_string n).
Proof.
  intros Hn. destruct (decide (n = 0)) as [-> | Hne]; [apply integer_zero |].
  destruct (dec_go_digits (S (Z.to_nat (Z.log2 n))) n "") as (s & E & Hs & Hp).
  { rewrite Nat2Z.inj_succ, Z2Nat.id by apply Z.log2_nonneg. pose proof (Z.log2_spec n ltac:(lia)). lia. }
  unfold to_string. rewrite E, str_app_nil_r. by apply integer_digits.
Qed.

Lemma make_number_wf limits v : JsonWf limits (make_number v).
Proof.
  unfold make_number. constructor. destruct (Z.ltb_spec v 0).
  - rewrite <- (str_app_nil_r (to_string (- v))).
    apply (number_text "-" (to_string (- v)) "" ""); [constructor | apply to_string_integer; lia | constructor..].
  - rewrite <- (str_app_nil_r (to_string v)). rewrite <- (str_app_nil (to_string v +:+ "")).
    apply (number_text "" (to_string v) "" ""); [constructor | apply to_string_integer; lia | constructor..].
Qed.

Lemma digits_contain_none chars s :
  forallb (fun d => negb (is_digit d)) chars = true -> all_chars is_digit s = true -> contains_any chars s = false.
Proof.
  intros Hc. induction s as [| c s IH]; [done |]. cbn [all_chars contains_any]. rewrite andb_true_iff. intros [Hd Hs].
  rewrite IH by done. rewrite orb_false_r. apply (is_one_of_digit chars c Hc Hd).
Qed.

Lemma integer_all_digits s : IntegerText s -> all_chars is_digit s = true.
Proof. by intros [| d [_ H] _]. Qed.

(** Integers survive the trip through their lexemes at their full width. *)
Lemma number_roundtrip v :
  (u_ok 64 v -> as_u64 (make_number v) = Ok v) /\ (i64_ok v -> as_i64 (make_number v) = Ok v).
Proof.
  unfold make_number, as_u64, as_i64, u_ok, i64_ok, int64_min, int64_max. split; intros Hv.
  - rewrite (proj2 (Z.ltb_ge v 0)) by lia.
    rewrite digits_contain_none by (done || apply integer_all_digits, to_string_integer; lia).
    unfold chars_to_u64. rewrite bool_decide_eq_false_2 by apply to_string_nonempty.
    rewrite dec_value_to_string by lia. by rewrite (proj2 (Z.ltb_lt _ _)) by lia.
  - assert (forall n, 0 <= n -> contains_any ["."%char; "e"%char; "E"%char] (to_string n) = false) as Hno.
    { intros n Hn. apply digits_contain_none; [done | by apply integer_all_digits, to_string_integer]. }
    destruct (Z.ltb_spec v 0) as [Hneg | Hpos].
    + rewrite str_app_cons, str_app_nil. cbn [contains_any existsb]. change (Ascii.eqb "-"%char _) with false.
      cbn [orb]. rewrite Hno by lia. unfold chars_to_i64. rewrite Ascii.eqb_refl.
      rewrite bool_decide_eq_false_2 by apply to_string_nonempty. rewrite dec_value_to_string by lia.
      rewrite Z.opp_involutive, (proj2 (Z.leb_le (- 2 ^ 63) v)), (proj2 (Z.ltb_lt v (2 ^ 63))) by lia. done.
    + rewrite Hno by lia. unfold chars_to_i64.
      assert (forall c r, to_string v = String c r -> Ascii.eqb c "-"%char = false) as Hc.
      { intros c r E. pose proof (integer_all_digits _ (to_string_integer v Hpos)) as Hd. rewrite E in Hd.
        cbn [all_chars] in Hd. apply andb_true_iff in Hd as [Hd _]. by apply is_digit_neq. }
      pose proof (to_string_nonempty v) as Hne. pose proof (dec_value_to_string v Hpos) as Hval.
      destruct (to_string v) as [| c r]; [done |]. rewrite (Hc c r) by done.
      rewrite bool_decide_eq_false_2, Hval by done.
      rewrite (proj2 (Z.leb_le (- 2 ^ 63) v)), (proj2 (Z.ltb_lt v (2 ^ 63))) by lia. done.
Qed.

(** ** The contract of the reader and the writer *)

(** C33. The reader is the grammar.  Reading any text ends, and it returns a value
    exactly when the text is a document of that value: white space around a JSON
    text whose strings are well formed UTF-8 and whose objects have distinct keys,
    within the bounds on bytes, string length, depth and nodes.  Nothing else is
    accepted and nothing of the grammar is refused. *)
Theorem json_reader_exact limits text :
  0 <= max_string_bytes limits ->
  parse limits text <> OutOfFuel /\
  forall v, parse limits text = Got v <->
    Document v text /\ Z.of_nat (String.length text) <= max_document_bytes limits /\ JsonWf limits v /\
    Z.of_nat (json_height v) <= max_json_depth limits /\ Z.of_nat (json_nodes v) <= max_json_nodes limits.
Proof. intros Hs. split; [apply parse_returns | intros v; by apply parse_refines_grammar]. Qed.

(** C34. What is written reads back: every well formed value within the bounds is
    the value of its own text, pretty printed or not; and a document that was
    read can be written and read again without changing its value. *)
Theorem json_roundtrip limits pretty v :
  0 <= max_string_bytes limits ->
  Z.of_nat (String.length (dump v pretty)) <= max_document_bytes limits ->
  (JsonWf limits v -> Z.of_nat (json_height v) <= max_json_depth limits ->
     Z.of_nat (json_nodes v) <= max_json_nodes limits -> parse limits (dump v pretty) = Got v) /\
  (forall text, parse limits text = Got v -> parse limits (dump v pretty) = Got v).
Proof.
  intros Hs Hl. split; [intros; by apply dump_parse_roundtrip | intros text Ht; by apply (parse_dump_stable _ _ text)].
Qed.

(** An object with a nested array, a string with an escape, and numbers. *)
Definition sample_json : JsonValue :=
  JObject [("items", JArray [make_number (-7); JNull; JBoolean true; JString (String "010"%char "x")]);
           ("empty", JObject [])].

Lemma json_reader_exact_witness :
  JsonWf default_limits sample_json /\ Document sample_json (dump sample_json true).
Proof.
  destruct (json_reader_exact default_limits (dump sample_json true) ltac:(by vm_compute)) as [_ H].
  destruct (proj1 (H sample_json) ltac:(vm_compute; reflexivity)) as (H1 & _ & H2 & _). exact (conj H2 H1).
Defined.

Lemma json_roundtrip_witness : parse default_limits (dump sample_json false) = Got sample_json.
Proof.
  apply (proj2 (json_roundtrip default_limits false sample_json ltac:(by vm_compute) ltac:(by vm_compute))
    (dump sample_json true)).
  vm_compute. reflexivity.
Defined.
