(* ===== verification/RuntimeState.v ===== *)
(** The state of the runtime: [include/pathobs/runtime.hpp].

    A [Runtime] holds the members of [ObservatoryRuntime], one field each, and
    what they reach outside the process: the files of the store ([rt_world]) and
    the readings of the clock, one for each call of [now].  [mutex_] makes every
    member function one step on this state. *)
From stdpp Require Import gmap.
From S2P Require Import Prelude Errors StdAlgo Digest Canonical Ids TimeModel Limits Source Topology Observed Expected Freshness Divergence Compare Finding History Codec Persistence Metrics Worker.
#[local] Open Scope Z_scope.

Inductive RuntimeState : Set := Created | Running | Stopping | Stopped | RuntimeFailed.

#[global] Instance RuntimeState_eq_dec : EqDecision RuntimeState.
Proof. solve_decision. Defined.

Definition runtime_state_to_string (state : RuntimeState) : string :=
  match state with
  | Created => "created"
  | Running => "running"
  | Stopping => "stopping"
  | Stopped => "stopped"
  | RuntimeFailed => "failed"
  end.

Record RuntimeConfig : Set := mk_config {
  cfg_limits : Limits;
  cfg_comparison : ComparisonPolicy;
  cfg_store_path : string;
  cfg_persist : bool;
  cfg_load_evidence_on_start : bool;
  cfg_worker_threads : Z;
  cfg_mark_store_clean_on_stop : bool
}.

(** The bucket of an evidence record. *)
Record SubjectKey : Set := mk_subject { sk_generation : RouteGenerationId; sk_group : MaybeId PathGroupIdTag }.

#[global] Instance SubjectKey_eq_dec : EqDecision SubjectKey.
Proof. solve_decision. Defined.

(** [operator<] *)
Definition subject_lt (a b : SubjectKey) : bool :=
  if negb (bool_decide (sk_generation a = sk_generation b)) then id_lt (sk_generation a) (sk_generation b)
  else if negb (Bool.eqb (present (sk_group a)) (present (sk_group b))) then negb (present (sk_group a))
  else id_lt (maybe_value (sk_group a)) (maybe_value (sk_group b)).

#[global] Instance SubjectKey_order : KeyOrder SubjectKey.
Proof.
  refine {| klt := subject_lt |}; unfold subject_lt.
  - intros [[g] [[v]]]. cbn. rewrite bool_decide_eq_true_2, Bool.eqb_reflx by done. apply Z.ltb_irrefl.
  - intros [[g1] [[v1]]] [[g2] [[v2]]] [[g3] [[v3]]]. unfold id_lt, present, valid. cbn [sk_generation sk_group maybe_value value].
    repeat case_bool_decide; cbn [negb]; try congruence;
      repeat match goal with H : from_value _ = from_value _ |- _ => injection H as -> end;
      repeat match goal with H : from_value ?a <> from_value ?b |- _ =>
        assert (a <> b) by (intros ->; done); clear H end;
      rewrite ?Z.ltb_lt; try lia;
      destruct (Z.eqb_spec v1 0), (Z.eqb_spec v2 0), (Z.eqb_spec v3 0); cbn; rewrite ?Z.ltb_lt; try done; lia.
  - intros [[g1] [[v1]]] [[g2] [[v2]]]. unfold id_lt, present, valid. cbn [sk_generation sk_group maybe_value value].
    repeat case_bool_decide; cbn [negb]; try congruence;
      repeat match goal with H : from_value _ = from_value _ |- _ => injection H as -> end;
      repeat match goal with H : from_value ?a <> from_value ?b |- _ =>
        assert (a <> b) by (intros ->; done); clear H end;
      destruct (Z.eqb_spec v1 0), (Z.eqb_spec v2 0); cbn; rewrite ?Z.ltb_ge; try done; intros; subst;
      try (exfalso; lia); by f_equal; f_equal; f_equal; lia.
Defined.

Record IngestResult : Set := mk_ingest {
  ir_accepted : bool;
  ir_reason : DivergenceClass;
  ir_id : EvidenceId;
  ir_sequence_gap : bool;
  ir_replay : bool;
  ir_persisted : bool;
  ir_detail : string
}.

(** *** The runtime *)

Record Runtime : Set := mk_runtime {
  rt_config : RuntimeConfig;
  rt_clock : nat -> TimePoint;
  rt_ticks : nat;
  rt_sources : SourceRegistry;
  rt_ledger : SourceSequenceLedger;
  rt_topology : option TopologyGeneration;
  rt_topology_index : option TopologyIndex;
  rt_routes : option RouteGeneration;
  rt_evidence : omap SubjectKey (list ObservedPathEvidence);
  rt_source_has_gap : omap SourceId bool;
  rt_history : HistoryStore;
  rt_findings : FindingRegistry;
  rt_metrics : Metrics;
  rt_store : option PersistentStore;
  rt_pool : option WorkerPool;
  rt_batches : list (list ObservedPathEvidence);
  rt_state : RuntimeState;
  rt_epoch : EpochId;
  rt_incarnation : IncarnationId;
  rt_route_revision : RevisionId;
  rt_topology_revision : RevisionId;
  rt_world : World
}.

Definition set_ticks (v : nat) (r : Runtime) : Runtime :=
  mk_runtime (rt_config r) (rt_clock r) v (rt_sources r) (rt_ledger r) (rt_topology r) (rt_topology_index r)
    (rt_routes r) (rt_evidence r) (rt_source_has_gap r) (rt_history r) (rt_findings r) (rt_metrics r)
    (rt_store r) (rt_pool r) (rt_batches r) (rt_state r) (rt_epoch r) (rt_incarnation r)
    (rt_route_revision r) (rt_topology_revision r) (rt_world r).
Definition set_sources (v : SourceRegistry) (r : Runtime) : Runtime :=
  mk_runtime (rt_config r) (rt_clock r) (rt_ticks r) v (rt_ledger r) (rt_topology r) (rt_topology_index r)
    (rt_routes r) (rt_evidence r) (rt_source_has_gap r) (rt_history r) (rt_findings r) (rt_metrics r)
    (rt_store r) (rt_pool r) (rt_batches r) (rt_state r) (rt_epoch r) (rt_incarnation r)
    (rt_route_revision r) (rt_topology_revision r) (rt_world r).
Definition set_ledger (v : SourceSequenceLedger) (r : Runtime) : Runtime :=
  mk_runtime (rt_config r) (rt_clock r) (rt_ticks r) (rt_sources r) v (rt_topology r) (rt_topology_index r)
    (rt_routes r) (rt_evidence r) (rt_source_has_gap r) (rt_history r) (rt_findings r) (rt_metrics r)
    (rt_store r) (rt_pool r) (rt_batches r) (rt_state r) (rt_epoch r) (rt_incarnation r)
    (rt_route_revision r) (rt_topology_revision r) (rt_world r).
Definition set_topology (v : option TopologyGeneration) (r : Runtime) : Runtime :=
  mk_runtime (rt_config r) (rt_clock r) (rt_ticks r) (rt_sources r) (rt_ledger r) v (rt_topology_index r)
    (rt_routes r) (rt_evidence r) (rt_source_has_gap r) (rt_history r) (rt_findings r) (rt_metrics r)
    (rt_store r) (rt_pool r) (rt_batches r) (rt_state r) (rt_epoch r) (rt_incarnation r)
    (rt_route_revision r) (rt_topology_revision r) (rt_world r).
Definition set_topology_index (v : option TopologyIndex) (r : Runtime) : Runtime :=
  mk_runtime (rt_config r) (rt_clock r) (rt_ticks r) (rt_sources r) (rt_ledger r) (rt_topology r) v
    (rt_routes r) (rt_evidence r) (rt_source_has_gap r) (rt_history r) (rt_findings r) (rt_metrics r)
    (rt_store r) (rt_pool r) (rt_batches r) (rt_state r) (rt_epoch r) (rt_incarnation r)
    (rt_route_revision r) (rt_topology_revision r) (rt_world r).
Definition set_routes (v : option RouteGeneration) (r : Runtime) : Runtime :=
  mk_runtime (rt_config r) (rt_clock r) (rt_ticks r) (rt_sources r) (rt_ledger r) (rt_topology r) (rt_topology_index r)
    v (rt_evidence r) (rt_source_has_gap r) (rt_history r) (rt_findings r) (rt_metrics r)
    (rt_store r) (rt_pool r) (rt_batches r) (rt_state r) (rt_epoch r) (rt_incarnation r)
    (rt_route_revision r) (rt_topology_revision r) (rt_world r).
Definition set_evidence (v : omap SubjectKey (list ObservedPathEvidence)) (r : Runtime) : Runtime :=
  mk_runtime (rt_config r) (rt_clock r) (rt_ticks r) (rt_sources r) (rt_ledger r) (rt_topology r) (rt_topology_index r)
    (rt_routes r) v (rt_source_has_gap r) (rt_history r) (rt_findings r) (rt_metrics r)
    (rt_store r) (rt_pool r) (rt_batches r) (rt_state r) (rt_epoch r) (rt_incarnation r)
    (rt_route_revision r) (rt_topology_revision r) (rt_world r).
Definition set_source_has_gap (v : omap SourceId bool) (r : Runtime) : Runtime :=
  mk_runtime (rt_config r) (rt_clock r) (rt_ticks r) (rt_sources r) (rt_ledger r) (rt_topology r) (rt_topology_index r)
    (rt_routes r) (rt_evidence r) v (rt_history r) (rt_findings r) (rt_metrics r)
    (rt_store r) (rt_pool r) (rt_batches r) (rt_state r) (rt_epoch r) (rt_incarnation r)
    (rt_route_revision r) (rt_topology_revision r) (rt_world r).
Definition set_history (v : HistoryStore) (r : Runtime) : Runtime :=
  mk_runtime (rt_config r) (rt_clock r) (rt_ticks r) (rt_sources r) (rt_ledger r) (rt_topology r) (rt_topology_index r)
    (rt_routes r) (rt_evidence r) (rt_source_has_gap r) v (rt_findings r) (rt_metrics r)
    (rt_store r) (rt_pool r) (rt_batches r) (rt_state r) (rt_epoch r) (rt_incarnation r)
    (rt_route_revision r) (rt_topology_revision r) (rt_world r).
Definition set_findings (v : FindingRegistry) (r : Runtime) : Runtime :=
  mk_runtime (rt_config r) (rt_clock r) (rt_ticks r) (rt_sources r) (rt_ledger r) (rt_topology r) (rt_topology_index r)
    (rt_routes r) (rt_evidence r) (rt_source_has_gap r) (rt_history r) v (rt_metrics r)
    (rt_store r) (rt_pool r) (rt_batches r) (rt_state r) (rt_epoch r) (rt_incarnation r)
    (rt_route_revision r) (rt_topology_revision r) (rt_world r).
Definition set_metrics (v : Metrics) (r : Runtime) : Runtime :=
  mk_runtime (rt_config r) (rt_clock r) (rt_ticks r) (rt_sources r) (rt_ledger r) (rt_topology r) (rt_topology_index r)
    (rt_routes r) (rt_evidence r) (rt_source_has_gap r) (rt_history r) (rt_findings r) v
    (rt_store r) (rt_pool r) (rt_batches r) (rt_state r) (rt_epoch r) (rt_incarnation r)
    (rt_route_revision r) (rt_topology_revision r) (rt_world r).
Definition set_store (v : option PersistentStore) (r : Runtime) : Runtime :=
  mk_runtime (rt_config r) (rt_clock r) (rt_ticks r) (rt_sources r) (rt_ledger r) (rt_topology r) (rt_topology_index r)
    (rt_routes r) (rt_evidence r) (rt_source_has_gap r) (rt_history r) (rt_findings r) (rt_metrics r)
    v (rt_pool r) (rt_batches r) (rt_state r) (rt_epoch r) (rt_incarnation r)
    (rt_route_revision r) (rt_topology_revision r) (rt_world r).
Definition set_pool (v : option WorkerPool) (r : Runtime) : Runtime :=
  mk_runtime (rt_config r) (rt_clock r) (rt_ticks r) (rt_sources r) (rt_ledger r) (rt_topology r) (rt_topology_index r)
    (rt_routes r) (rt_evidence r) (rt_source_has_gap r) (rt_history r) (rt_findings r) (rt_metrics r)
    (rt_store r) v (rt_batches r) (rt_state r) (rt_epoch r) (rt_incarnation r)
    (rt_route_revision r) (rt_topology_revision r) (rt_world r).
Definition set_batches (v : list (list ObservedPathEvidence)) (r : Runtime) : Runtime :=
  mk_runtime (rt_config r) (rt_clock r) (rt_ticks r) (rt_sources r) (rt_ledger r) (rt_topology r) (rt_topology_index r)
    (rt_routes r) (rt_evidence r) (rt_source_has_gap r) (rt_history r) (rt_findings r) (rt_metrics r)
    (rt_store r) (rt_pool r) v (rt_state r) (rt_epoch r) (rt_incarnation r)
    (rt_route_revision r) (rt_topology_revision r) (rt_world r).
Definition set_state (v : RuntimeState) (r : Runtime) : Runtime :=
  mk_runtime (rt_config r) (rt_clock r) (rt_ticks r) (rt_sources r) (rt_ledger r) (rt_topology r) (rt_topology_index r)
    (rt_routes r) (rt_evidence r) (rt_source_has_gap r) (rt_history r) (rt_findings r) (rt_metrics r)
    (rt_store r) (rt_pool r) (rt_batches r) v (rt_epoch r) (rt_incarnation r)
    (rt_route_revision r) (rt_topology_revision r) (rt_world r).
Definition set_epoch (v : EpochId) (r : Runtime) : Runtime :=
  mk_runtime (rt_config r) (rt_clock r) (rt_ticks r) (rt_sources r) (rt_ledger r) (rt_topology r) (rt_topology_index r)
    (rt_routes r) (rt_evidence r) (rt_source_has_gap r) (rt_history r) (rt_findings r) (rt_metrics r)
    (rt_store r) (rt_pool r) (rt_batches r) (rt_state r) v (rt_incarnation r)
    (rt_route_revision r) (rt_topology_revision r) (rt_world r).
Definition set_incarnation (v : IncarnationId) (r : Runtime) : Runtime :=
  mk_runtime (rt_config r) (rt_clock r) (rt_ticks r) (rt_sources r) (rt_ledger r) (rt_topology r) (rt_topology_index r)
    (rt_routes r) (rt_evidence r) (rt_source_has_gap r) (rt_history r) (rt_findings r) (rt_metrics r)
    (rt_store r) (rt_pool r) (rt_batches r) (rt_state r) (rt_epoch r) v
    (rt_route_revision r) (rt_topology_revision r) (rt_world r).
Definition set_route_revision (v : RevisionId) (r : Runtime) : Runtime :=
  mk_runtime (rt_config r) (rt_clock r) (rt_ticks r) (rt_sources r) (rt_ledger r) (rt_topology r) (rt_topology_index r)
    (rt_routes r) (rt_evidence r) (rt_source_has_gap r) (rt_history r) (rt_findings r) (rt_metrics r)
    (rt_store r) (rt_pool r) (rt_batches r) (rt_state r) (rt_epoch r) (rt_incarnation r)
    v (rt_topology_revision r) (rt_world r).
Definition set_topology_revision (v : RevisionId) (r : Runtime) : Runtime :=
  mk_runtime (rt_config r) (rt_clock r) (rt_ticks r) (rt_sources r) (rt_ledger r) (rt_topology r) (rt_topology_index r)
    (rt_routes r) (rt_evidence r) (rt_source_has_gap r) (rt_history r) (rt_findings r) (rt_metrics r)
    (rt_store r) (rt_pool r) (rt_batches r) (rt_state r) (rt_epoch r) (rt_incarnation r)
    (rt_route_revision r) v (rt_world r).
Definition set_world (v : World) (r : Runtime) : Runtime :=
  mk_runtime (rt_config r) (rt_clock r) (rt_ticks r) (rt_sources r) (rt_ledger r) (rt_topology r) (rt_topology_index r)
    (rt_routes r) (rt_evidence r) (rt_source_has_gap r) (rt_history r) (rt_findings r) (rt_metrics r)
    (rt_store r) (rt_pool r) (rt_batches r) (rt_state r) (rt_epoch r) (rt_incarnation r)
    (rt_route_revision r) (rt_topology_revision r) v.

(** ** Steps *)

Definition Run (A : Type) : Type := Runtime -> A * Runtime.

Definition run_ret {A} (a : A) : Run A := fun r => (a, r).
Definition run_bind {A B} (m : Run A) (k : A -> Run B) : Run B := fun r => let (a, r) := m r in k a r.

(** [PATHOBS_TRY] *)
Definition run_try {A B} (m : Run (Result A)) (k : A -> Run (Result B)) : Run (Result B) :=
  run_bind m (fun x => match x with Ok a => k a | Err e => run_ret (Err e) end).

Notation "'let!' x ':=' m 'in' k" := (run_bind m (fun x => k))
  (at level 10, x name, m at level 100, k at level 200) : pathobs_scope.
Notation "'try!' x ':=' m 'in' k" := (run_try m (fun x => k))
  (at level 10, x name, m at level 100, k at level 200) : pathobs_scope.
#[local] Open Scope pathobs_scope.

Definition ask {A} (f : Runtime -> A) : Run A := fun r => (f r, r).
Definition change (f : Runtime -> Runtime) : Run unit := fun r => (tt, f r).

(** An operation on the files. *)
Definition run_io {A} (m : IO A) : Run A := fun r => let (a, w) := m (rt_world r) in (a, set_world w r).

(** [now] *)
Definition now : Run TimePoint := fun r => (rt_clock r (rt_ticks r), set_ticks (S (rt_ticks r)) r).

(** A counter. *)
Definition count (add : Metrics -> Metrics) : Run unit := change (fun r => set_metrics (add (rt_metrics r)) r).

Definition limits_of (r : Runtime) : Limits := cfg_limits (rt_config r).

(** [if (store_.has_value()) { store_->append(type, payload) ... }], as every
    writer of the store does it. *)
Definition store_append (type : RecordType) (payload : list Z) : Run Status :=
  let! store := ask rt_store in
  match store with
  | None => run_ret ok
  | Some s =>
      let! result := run_io (Persistence.append s type payload) in
      let! _ := change (set_store (Some result.2)) in
      match result.1 with
      | Err e => run_ret (Err e)
      | Ok _ => let! _ := count add_store_append in run_ret ok
      end
  end.

(** ** Construction *)

(** [ObservatoryRuntime::ObservatoryRuntime], in a world of files. *)
Definition runtime_new (config : RuntimeConfig) (clock : nat -> TimePoint) (world : World) : Runtime :=
  mk_runtime config clock 0 [] [] None None None [] [] (history_new (cfg_limits config))
    (finding_registry_new (cfg_limits config)) metrics_new None None [] Created id_none id_none id_none id_none
    world.

(** [ObservatoryRuntime::create] *)
Definition create (config : RuntimeConfig) (clock : option (nat -> TimePoint)) (world : World) : Result Runtime :=
  check? limits_validate (cfg_limits config) in
  check? comparison_policy_validate (cfg_comparison config) in
  match clock with
  | None => Err (error InvalidArgument "the runtime requires a clock")
  | Some clock =>
      fail? cfg_persist config && bool_decide (cfg_store_path config = ""%string) with
        error InvalidArgument "persistence was requested without a store path" in
      Ok (runtime_new config clock world)
  end.
