(* ===== verification/Runtime.v ===== *)
(** The runtime: [src/runtime.cpp].

    Each member function of [ObservatoryRuntime] is a step of the [Run] monad, in
    the order of the calls of the code, its early returns included.  The tasks of
    the worker pool are numbered by the batches that were submitted. *)
From stdpp Require Import gmap.
From S2P Require Import Prelude Errors StdAlgo Digest Canonical Ids TimeModel Limits Source Topology Observed Expected Freshness Divergence Compare Finding History Codec Persistence Metrics Worker RuntimeState.
#[local] Open Scope pathobs_scope.
#[local] Open Scope Z_scope.

Definition kMaxPendingBatches : nat := 256.

(** ** Reading the store back *)

(** The enumerator of a code; a byte that is none keeps no value of the type. *)
Definition of_code {A} (code : A -> Z) (values : list A) (z : Z) : option A :=
  find (fun a => code a =? z) values.

Definition divergence_classes : list DivergenceClass :=
  [DivNone; EpochFenced; EpochAhead; IncarnationFenced; SourceSequenceReplay; RevisionFenced; RevisionAhead;
   RouteGenerationMismatch; TopologyGenerationMismatch; AuthorityInsufficient; EvidenceUnsupported;
   EvidenceExpired; EvidenceStale; EvidenceConflicting; EvidenceIncomplete; EvidenceAmbiguous; EvidenceUnknown;
   ObservationGap; LinkUnresolved; PathUnknownToPlan; HopMissing; HopUnexpected; HopOrderViolation;
   DeviceMismatch; PortMismatch; LinkMismatch].
Definition freshness_values : list Freshness := [FreshUnknown; Fresh; Stale; Expired; Future].
Definition consistency_values : list ObservationConsistency :=
  [ConsistencyUnknown; Consistent; Ambiguous; Conflicting; ConsistencyUnsupported].

Definition default_expected_hop : ExpectedHop := mk_expected_hop id_none 0 id_none id_none id_none id_none false.
Definition default_observed_hop : ObservedHop :=
  mk_observed_hop 0 id_none id_none id_none id_none ProvenanceAbsent unset.

(** The decoded [EvidenceJudgement], [HopDifference], [ComparisonResult] and
    [Finding]: the members that are not on the wire keep their initial values. *)
Definition judgement_of_wire (w : JudgementWire) : option EvidenceJudgement :=
  rejection ← of_code divergence_code divergence_classes (jw_rejection w);
  freshness ← of_code freshness_code freshness_values (jw_freshness w);
  surface ← of_code proof_surface_code proof_surfaces (jw_surface w);
  authority ← of_code authority_code authority_classes (jw_authority w);
  completeness ← of_code completeness_code completenesses (jw_completeness w);
  classes ← mapM (of_code divergence_code divergence_classes) (jw_classes w);
  Some (mk_judgement (jw_id w) (jw_accepted w) rejection freshness surface authority completeness classes "").

Definition difference_of_wire (w : DifferenceWire) : option HopDifference :=
  detail ← of_code divergence_code divergence_classes (dw_detail w);
  Some (mk_difference (dw_index w) detail default_expected_hop default_observed_hop (dw_has_expected w)
          (dw_has_observed w)).

Definition result_of_wire (w : ComparisonWire) : option ComparisonResult :=
  primary ← of_code divergence_code divergence_classes (cw_primary w);
  classes ← mapM (of_code divergence_code divergence_classes) (cw_classes w);
  freshness ← of_code freshness_code freshness_values (cw_freshness w);
  completeness ← of_code completeness_code completenesses (cw_completeness w);
  consistency ← of_code consistency_code consistency_values (cw_consistency w);
  surface ← of_code proof_surface_code proof_surfaces (cw_surface w);
  judgements ← mapM judgement_of_wire (cw_judgements w);
  differences ← mapM difference_of_wire (cw_differences w);
  Some (mk_result (cw_id w) (cw_generation w) (cw_topology w) (cw_group w) (cw_path w) (cw_matched_path w)
          (cw_outcome w) primary classes freshness completeness consistency surface (cw_multipath w)
          (cw_multipath_ambiguous w) 0 (Z.to_nat (cw_considered w)) (Z.to_nat (cw_rejected w)) 0 judgements
          differences [] (cw_evaluated_at w)).

Definition finding_of_wire (w : FindingWire) : option Finding :=
  let f := fw_finding w in
  class ← of_code divergence_code divergence_classes (fw_class w);
  Some (mk_finding (fd_id f) class (fd_group f) (fd_path f) (fd_generation f) (fd_topology f) (fd_evidence f)
          (fd_hops f) (fd_status f) (fd_occurrences f) (fd_first_seen f) (fd_last_seen f)
          (fd_last_comparison f) (fd_detail f)).

(** [ObservatoryRuntime::open_store] *)
Definition open_store : Run Status :=
  let! config := ask rt_config in
  let! at_ := now in
  try! store := run_io (store_open (cfg_store_path config) (mk_options (cfg_limits config) false) at_) in
  let! _ := change (set_store (Some store)) in
  let! _ := count (add_store_records_recovered (rr_valid_records (ps_recovery store))) in
  let! _ := (if rr_corrupt_tail_truncated (ps_recovery store)
             then count add_store_corrupt_tail_truncation else run_ret tt) in
  run_ret ok.

(** [ObservatoryRuntime::resolve_subject] *)
Definition resolve_subject (routes : option RouteGeneration) (e : ObservedPathEvidence) : Result SubjectKey :=
  let generation :=
    if present (ev_route_generation e) then Ok (maybe_value (ev_route_generation e))
    else match routes with
         | Some g => Ok (route_id g)
         | None => Err (error UnknownGeneration "evidence names no route generation and no generation is current")
         end in
  let? generation := generation in
  if present (ev_group e) then Ok (mk_subject generation (ev_group e)) else
  match routes with
  | None => Ok (mk_subject generation absent)
  | Some g =>
      if negb (bool_decide (route_id g = generation)) then Ok (mk_subject generation absent) else
      match (if present (ev_path e) then find_path g (maybe_value (ev_path e)) else None) with
      | Some path => Ok (mk_subject generation (maybe (path_group path)))
      | None =>
          if present (ev_origin e) && present (ev_destination e) then
            match find_group_by_endpoints g (maybe_value (ev_origin e)) (maybe_value (ev_destination e)) with
            | (Some group, false) => Ok (mk_subject generation (maybe (group_id group)))
            | _ => Ok (mk_subject generation absent)
            end
          else Ok (mk_subject generation absent)
      end
  end.

(** [evidence_[key]]: the bucket, made when it is missing. *)
Definition bucket_of (key : SubjectKey) (m : omap SubjectKey (list ObservedPathEvidence)) :
    list ObservedPathEvidence :=
  match om_find key m with Some bucket => bucket | None => [] end.

Definition has_evidence (id : EvidenceId) (bucket : list ObservedPathEvidence) : bool :=
  existsb (fun e => bool_decide (ev_id e = id)) bucket.

Definition decode_failure (record : StoredRecord) (e : Error) : Error :=
  mk_error (code e) "stored record could not be decoded"
    (record_type_to_string (sr_type record) +:+ " #" +:+ to_string (sr_sequence record) +:+ ": " +:+ message e)%string.

(** [restore_from_store]: the case of an evidence record. *)
Definition restore_evidence (e : ObservedPathEvidence) (r : Runtime) : Runtime :=
  match resolve_subject (rt_routes r) e with
  | Err _ => r
  | Ok key =>
      let bucket := bucket_of key (rt_evidence r) in
      let r := set_evidence (om_insert key bucket (rt_evidence r)) r in
      if max_evidence_per_comparison (limits_of r) <=? Z.of_nat (length bucket) then r
      else if has_evidence (ev_id e) bucket then r
      else set_evidence (om_insert key (bucket ++ [e]) (rt_evidence r)) r
  end.

(** [restore_from_store]: one record.  [None] is a record whose codes name no
    enumerator: the code would keep a value outside the enumeration. *)
Definition restore_record (record : StoredRecord) (r : Runtime) : option (Status * Runtime) :=
  let limits := limits_of r in
  match sr_type record with
  | EvidenceRecord =>
      match decode_exact (decode_evidence limits) (sr_payload record) with
      | Err e => Some (Err (decode_failure record e), r)
      | Ok evidence => Some (ok, restore_evidence evidence r)
      end
  | ComparisonRecord =>
      match decode_exact (decode_comparison limits) (sr_payload record) with
      | Err e => Some (Err (decode_failure record e), r)
      | Ok wire =>
          comparison ← result_of_wire wire;
          let (appended, history) := history_append (rt_history r) comparison in
          Some (appended, set_history history r)
      end
  | FindingRecord =>
      match decode_exact (decode_finding limits) (sr_payload record) with
      | Err e => Some (Err (decode_failure record e), r)
      | Ok wire =>
          f ← finding_of_wire wire;
          let (restored, findings) := finding_restore (rt_findings r) f in
          Some (restored, set_findings findings r)
      end
  | SourceRecord =>
      match decode_exact (decode_source_descriptor limits) (sr_payload record) with
      | Err e => Some (Err (decode_failure record e), r)
      | Ok descriptor =>
          let (registered, sources) := Source.register_source (rt_sources r) descriptor in
          Some (registered, set_sources sources r)
      end
  | TopologyRecord | RouteRecord | MarkerRecord => Some (ok, r)
  end.

Fixpoint restore_records (records : list StoredRecord) (r : Runtime) : option (Status * Runtime) :=
  match records with
  | [] => Some (ok, r)
  | record :: records =>
      match restore_record record r with
      | None => None
      | Some (Err e, r) => Some (Err e, r)
      | Some (Ok _, r) => restore_records records r
      end
  end.

(** [ObservatoryRuntime::restore_from_store] *)
Definition restore_from_store (r : Runtime) : option (Status * Runtime) :=
  match rt_store r with
  | None => Some (Err (error InvalidState "no store is open"), r)
  | Some store =>
      match run_io (read_all store) r with
      | (Err e, r) => Some (Err e, r)
      | (Ok records, r) => restore_records records r
      end
  end.

(** ** Lifecycle *)

(** [std::make_unique<WorkerPool>(...)] and its [start]: a new pool has no
    threads, so starting it does not end the process ([new_pool_starts]). *)
Definition start_pool (threads max_queue : nat) : Status * WorkerPool :=
  match Worker.start (pool_new threads max_queue) with
  | Started status pool => (status, pool)
  | Terminates => (Err (error Internal "terminated"), pool_new threads max_queue)
  end.

(** The tail of [start]: nothing published is assumed to be current. *)
Definition forget_expected (r : Runtime) : Runtime :=
  set_state Running (set_routes None (set_topology_index None (set_topology None
    (set_topology_revision id_none (set_route_revision id_none
      (set_incarnation id_none (set_epoch id_none r))))))).

(** A step of [start] that fails leaves the runtime in [Failed]. *)
Definition start_failed (e : Error) (r : Runtime) : option (Status * Runtime) :=
  Some (Err e, set_state RuntimeFailed r).

(** [ObservatoryRuntime::start] *)
Definition start (r : Runtime) : option (Status * Runtime) :=
  let config := rt_config r in
  let limits := cfg_limits config in
  if bool_decide (rt_state r = Running) then
    Some (Err (error InvalidState "runtime is already running"), r) else
  if bool_decide (rt_state r = Stopping) then Some (Err (error InvalidState "runtime is stopping"), r) else
  let threads := if cfg_worker_threads config =? 0 then worker_threads limits else cfg_worker_threads config in
  if (threads =? 0) || (max_worker_threads limits <? threads) then
    Some (Err (error OutOfRange "worker thread count is outside the configured bounds"), r) else
  let (started, pool) := start_pool (Z.to_nat threads) (Z.to_nat (max_queue_depth limits)) in
  let r := set_pool (Some pool) r in
  match started with
  | Err e => start_failed e r
  | Ok _ =>
      if cfg_persist config then
        match open_store r with
        | (Err e, r) => start_failed e r
        | (Ok _, r) =>
            if cfg_load_evidence_on_start config then
              match restore_from_store r with
              | None => None
              | Some (Err e, r) => start_failed e r
              | Some (Ok _, r) => Some (ok, forget_expected r)
              end
            else Some (ok, forget_expected r)
        end
      else Some (ok, forget_expected r)
  end.

(** [ObservatoryRuntime::stop], its first critical section: [None] when there is
    more to do. *)
Definition stop_begin : Run (option Status) := fun r =>
  if bool_decide (rt_state r = Stopped) then (Some ok, r) else (None, set_state Stopping r).

(** [stop]: the pool, once its workers are joined. *)
Definition stop_pool (r : Runtime) : Runtime :=
  match rt_pool r with
  | None => r
  | Some pool =>
      match shutdown_begin pool false with
      | None => r
      | Some pool => set_pool (Some (shutdown_end (default pool (notify_all pool)))) r
      end
  end.

(** [stop]: the last critical section. *)
Definition stop_end : Run Status :=
  let! store := ask rt_store in
  let! config := ask rt_config in
  let! marked :=
    match store with
    | Some s =>
        if cfg_mark_store_clean_on_stop config then
          let! at_ := now in
          let! result := run_io (mark_clean s at_) in
          let! _ := change (set_store (Some result.2)) in
          run_ret result.1
        else run_ret ok
    | None => run_ret ok
    end in
  match marked with
  | Err e => let! _ := change (set_state RuntimeFailed) in run_ret (Err e)
  | Ok _ => let! _ := change (set_state Stopped) in run_ret ok
  end.

(** [stop], when no task is left in the pool. *)
Definition stop : Run Status :=
  let! begun := stop_begin in
  match begun with
  | Some status => run_ret status
  | None => let! _ := change stop_pool in stop_end
  end.

(** ** The authority side *)

(** [ObservatoryRuntime::register_source] *)
Definition register_source (descriptor : SourceDescriptor) : Run Status :=
  let! appended := store_append SourceRecord (encode_source descriptor) in
  match appended with
  | Err e => run_ret (Err e)
  | Ok _ =>
      let! sources := ask rt_sources in
      let (status, sources) := Source.register_source sources descriptor in
      let! _ := change (set_sources sources) in
      run_ret status
  end.

Definition source (id : SourceId) (r : Runtime) : Result SourceDescriptor := registry_find (rt_sources r) id.
Definition sources (r : Runtime) : list SourceDescriptor := registry_all (rt_sources r).

(** [publish_topology]: the guards, [Ok true] for an idempotent republication. *)
Definition topology_admitted (r : Runtime) (g : TopologyGeneration) : Result bool :=
  fail? negb (registry_contains (rt_sources r) (topo_source g)) with
    mk_error UnknownIdentity "topology generation names a source that is not registered" (id_str (topo_source g)) in
  fail? valid (rt_epoch r) && id_lt (topo_epoch g) (rt_epoch r) with
    mk_error FencedEvidence "topology generation belongs to a superseded epoch" (id_str (topo_epoch g)) in
  match rt_topology r with
  | None => Ok false
  | Some t =>
      fail? bool_decide (topo_epoch t = topo_epoch g) && bool_decide (topo_incarnation t = topo_incarnation g) &&
            id_lt (topo_revision g) (topo_revision t) with
        mk_error FencedEvidence "topology generation is an older revision" (id_str (topo_revision g)) in
      Ok (bool_decide (topo_id t = topo_id g) && bool_decide (topo_revision t = topo_revision g))
  end.

(** [publish_topology]: the assignments. *)
Definition adopt_topology (g : TopologyGeneration) (index : TopologyIndex) (r : Runtime) : Runtime :=
  set_topology (Some g) (set_topology_index (Some index) (set_topology_revision (topo_revision g)
    (set_incarnation (topo_incarnation g) (set_epoch (topo_epoch g) r)))).

(** [ObservatoryRuntime::publish_topology] *)
Definition publish_topology (generation : TopologyGeneration) : Run Status :=
  let! limits := ask limits_of in
  let (finalized, generation) := topology_finalize limits generation in
  match finalized with
  | Err e => run_ret (Err e)
  | Ok _ =>
      let! admitted := ask (fun r => topology_admitted r generation) in
      match admitted with
      | Err e => run_ret (Err e)
      | Ok true => run_ret ok
      | Ok false =>
          match index_build limits generation with
          | Err e => run_ret (Err e)
          | Ok index =>
              let! _ := change (adopt_topology generation index) in
              store_append TopologyRecord (encode_topology generation)
          end
      end
  end.

(** [publish_routes]: the guards. *)
Definition routes_admitted (r : Runtime) (g : RouteGeneration) : Result bool :=
  fail? negb (registry_contains (rt_sources r) (route_source g)) with
    mk_error UnknownIdentity "route generation names a source that is not registered" (id_str (route_source g)) in
  match rt_topology r with
  | None =>
      Err (error InvalidState ("route generation references topology generation " +:+ id_str (route_topology g) +:+
                               " which has not been published")%string)
  | Some t =>
      fail? negb (bool_decide (route_topology g = topo_id t)) with
        mk_error UnknownGeneration "route generation references a topology generation that is not current"
          (id_str (route_topology g)) in
      fail? valid (rt_epoch r) && id_lt (route_epoch g) (rt_epoch r) with
        mk_error FencedEvidence "route generation belongs to a superseded epoch" (id_str (route_epoch g)) in
      match rt_routes r with
      | None => Ok false
      | Some h =>
          fail? bool_decide (route_epoch h = route_epoch g) && bool_decide (route_incarnation h = route_incarnation g) &&
                id_lt (route_revision g) (route_revision h) with
            mk_error FencedEvidence "route generation is an older revision" (id_str (route_revision g)) in
          Ok (bool_decide (route_id h = route_id g) && bool_decide (route_revision h = route_revision g))
      end
  end.

Definition adopt_routes (g : RouteGeneration) (r : Runtime) : Runtime :=
  set_routes (Some g) (set_route_revision (route_revision g)
    (set_incarnation (route_incarnation g) (set_epoch (route_epoch g) r))).

(** [ObservatoryRuntime::publish_routes] *)
Definition publish_routes (generation : RouteGeneration) : Run Status :=
  let! limits := ask limits_of in
  match route_finalize limits generation with
  | Err e => run_ret (Err e)
  | Ok generation =>
      let! admitted := ask (fun r => routes_admitted r generation) in
      match admitted with
      | Err e => run_ret (Err e)
      | Ok true => run_ret ok
      | Ok false =>
          let! _ := change (adopt_routes generation) in
          store_append RouteRecord (encode_routes generation)
      end
  end.

Definition has_topology (r : Runtime) : bool := bool_decide (is_Some (rt_topology r)).
Definition has_routes (r : Runtime) : bool := bool_decide (is_Some (rt_routes r)).

(** [ObservatoryRuntime::authority_state] *)
Definition authority_state (r : Runtime) : AuthorityState :=
  mk_authority (rt_epoch r) (rt_incarnation r)
    (match rt_routes r with Some g => route_source g | None => id_none end) (rt_route_revision r)
    (match rt_topology r with Some t => topo_source t | None => id_none end) (rt_topology_revision r).

Definition topology (r : Runtime) : Result TopologyGeneration :=
  match rt_topology r with
  | Some t => Ok t
  | None => Err (error UnknownGeneration "no topology generation is current")
  end.

Definition routes (r : Runtime) : Result RouteGeneration :=
  match rt_routes r with
  | Some g => Ok g
  | None => Err (error UnknownGeneration "no route generation is current")
  end.

(** ** The observation side *)

Definition rejected (reason : DivergenceClass) (detail : string) : IngestResult :=
  mk_ingest false reason digest_id_zero false false false detail.

(** [ingest_evidence]: the checks before the sequence is observed.  An
    [IngestResult] is the refusal and the counters it adds to. *)
Definition ingest_refusal (r : Runtime) (e : ObservedPathEvidence) : option (IngestResult * (Metrics -> Metrics)) :=
  match evidence_validate (limits_of r) e with
  | Err shape => Some (rejected EvidenceUnknown (message shape), fun m => m)
  | Ok _ =>
      match registry_find (rt_sources r) (ev_source e) with
      | Err _ =>
          Some (rejected AuthorityInsufficient "evidence was produced by an unregistered source",
                add_evidence_unregistered_source 1)
      | Ok descriptor =>
          if authority_code (source_authority descriptor) <? authority_code (ev_authority e) then
            Some (rejected AuthorityInsufficient
                    "evidence claims more authority than its source is registered with", fun m => m)
          else if negb (bool_decide (source_surface descriptor = ev_surface e)) then
            Some (rejected EvidenceUnknown "evidence proof surface does not match the registered source", fun m => m)
          else None
      end
  end.

(** The counters of a rejection. *)
Definition count_rejected (m : Metrics) : Metrics := add_evidence_rejected 1 (add_evidence_offered 1 m).

(** [ingest_evidence]: the gap flag of the source, from the verdict of the ledger. *)
Definition note_sequence (source : SourceId) (verdict : Verdict) : Run unit :=
  match verdict with
  | Gap =>
      let! _ := count (add_evidence_gap_events 1) in
      change (fun r => set_source_has_gap (om_insert source true (rt_source_has_gap r)) r)
  | NewIncarnation => change (fun r => set_source_has_gap (om_insert source false (rt_source_has_gap r)) r)
  | InOrder | Replay => run_ret tt
  end.

(** [ingest_evidence]: the sealed record and its bucket. *)
Definition ingest_bucket (key : SubjectKey) (e : ObservedPathEvidence) (gap : bool) : Run IngestResult :=
  let! evidence := ask rt_evidence in
  let! limits := ask limits_of in
  let bucket := bucket_of key evidence in
  let! _ := change (set_evidence (om_insert key bucket evidence)) in
  if max_evidence_per_comparison limits <=? Z.of_nat (length bucket) then
    let! _ := count count_rejected in
    run_ret (mk_ingest false EvidenceIncomplete (ev_id e) gap false false
               "evidence bucket has reached the configured bound")
  else if has_evidence (ev_id e) bucket then
    let! _ := count (add_evidence_offered 1) in
    run_ret (mk_ingest true DivNone (ev_id e) gap false false "duplicate evidence identity: already recorded")
  else
    let! persisted := store_append EvidenceRecord (encode_evidence e) in
    match persisted with
    | Err error => run_ret (mk_ingest false EvidenceUnknown (ev_id e) gap false false (message error))
    | Ok _ =>
        let! _ := change (fun r => set_evidence (om_insert key (bucket ++ [e]) (rt_evidence r)) r) in
        let! _ := count (fun m => add_evidence_accepted 1 (add_evidence_offered 1 m)) in
        run_ret (mk_ingest true DivNone (ev_id e) gap false true "")
    end.

(** [ObservatoryRuntime::ingest_evidence] *)
Definition ingest_evidence (e : ObservedPathEvidence) : Run (Result IngestResult) :=
  let! refusal := ask (fun r => ingest_refusal r e) in
  match refusal with
  | Some (result, add) =>
      let! _ := count (fun m => add (count_rejected m)) in
      run_ret (Ok result)
  | None =>
      let! ledger := ask rt_ledger in
      let (outcome, ledger) := ledger_observe ledger (ev_source e) (ev_incarnation e) (ev_sequence e) in
      let! _ := change (set_ledger ledger) in
      if bool_decide (verdict outcome = Replay) then
        let! _ := count (fun m => add_evidence_replayed 1 (count_rejected m)) in
        run_ret (Ok (mk_ingest false SourceSequenceReplay digest_id_zero false true false
                       "source sequence has already been accepted for this incarnation"))
      else
        let! _ := note_sequence (ev_source e) (verdict outcome) in
        let gap := bool_decide (verdict outcome = Gap) in
        let e := seal e in
        let! key := ask (fun r => resolve_subject (rt_routes r) e) in
        match key with
        | Err error =>
            let! _ := count count_rejected in
            run_ret (Ok (mk_ingest false EvidenceUnknown (ev_id e) gap false false (message error)))
        | Ok key => let! result := ingest_bucket key e gap in run_ret (Ok result)
        end
  end.

(** [ingest_batch]: the loop, with the number accepted so far. *)
Fixpoint ingest_all (batch : list ObservedPathEvidence) (accepted : nat) : Run (Result nat) :=
  match batch with
  | [] => run_ret (Ok accepted)
  | e :: batch =>
      try! result := ingest_evidence e in
      ingest_all batch (if ir_accepted result then S accepted else accepted)
  end.

(** [ObservatoryRuntime::ingest_batch] *)
Definition ingest_batch (batch : list ObservedPathEvidence) : Run (Result nat) :=
  let! limits := ask limits_of in
  if max_evidence_per_ingest_batch limits <? Z.of_nat (length batch)
  then run_ret (Err (error CapacityExceeded "batch exceeds the configured ingest bound"))
  else ingest_all batch 0.

Definition pending_batches (r : Runtime) : nat := match rt_pool r with None => 0%nat | Some p => pending p end.

(** ** Comparison *)

(** [ObservatoryRuntime::make_context] *)
Definition make_context : Run ComparisonContext :=
  let! at_ := now in
  ask (fun r => mk_context (rt_routes r) (rt_topology r) (rt_topology_index r) (Some (rt_sources r))
                  (mk_authority (rt_epoch r) (rt_incarnation r) id_none (rt_route_revision r) id_none
                     (rt_topology_revision r)) at_).

(** [compare_bucket]: the request. *)
Definition bucket_request (r : Runtime) (key : SubjectKey) : ComparisonRequest :=
  let bucket := bucket_of key (rt_evidence r) in
  mk_request (sk_generation key) (sk_group key) absent bucket
    (existsb (fun e => match om_find (ev_source e) (rt_source_has_gap r) with Some gap => gap | None => false end)
       bucket).

(** [flush] and [compare_bucket]: the findings that are written to the store. *)
Fixpoint persist_findings (findings : list Finding) : Run Status :=
  match findings with
  | [] => run_ret ok
  | f :: findings => try! _ := store_append FindingRecord (encode_finding f) in persist_findings findings
  end.

(** [compare_bucket]: the finding of the result. *)
Definition record_finding (result : ComparisonResult) : Run Status :=
  let! at_ := now in
  let! findings := ask rt_findings in
  let (finding, findings) := record findings result at_ in
  let! _ := change (set_findings findings) in
  match finding with
  | Err e => run_ret (Err e)
  | Ok id =>
      if digest_id_valid id then let! _ := count add_finding_recorded in run_ret ok
      else
        let! at_ := now in
        let! findings := ask rt_findings in
        let (resolved, findings) := resolve_from_match findings result at_ in
        let! _ := change (set_findings findings) in
        match resolved with
        | Err e => run_ret (Err e)
        | Ok n => let! _ := count (add_finding_resolved (Z.of_nat n)) in run_ret ok
        end
  end.

(** [compare_bucket]: what is kept of a result. *)
Definition record_result (result : ComparisonResult) : Run Status :=
  let! history := ask rt_history in
  let (appended, history) := history_append history result in
  let! _ := change (set_history history) in
  try! _ := run_ret appended in
  try! _ := record_finding result in
  let! store := ask rt_store in
  match store with
  | None => run_ret ok
  | Some _ =>
      try! _ := store_append ComparisonRecord (encode_comparison result) in
      let! findings := ask rt_findings in
      persist_findings (List.filter (fun f => bool_decide (fd_last_comparison f = cr_id result)) (finding_all findings))
  end.

(** [ObservatoryRuntime::compare_bucket] *)
Definition compare_bucket (key : SubjectKey) (keep : bool) : Run (Result ComparisonResult) :=
  let! request := ask (fun r => bucket_request r key) in
  let! config := ask rt_config in
  let! context := make_context in
  match compare (cfg_limits config) (cfg_comparison config) request context with
  | Err e => run_ret (Err e)
  | Ok result =>
      let! _ := count (add_comparison (cr_outcome result)) in
      if negb keep then run_ret (Ok result) else
      try! _ := record_result result in
      run_ret (Ok result)
  end.

(** The scan for the first bucket of a group. *)
Definition bucket_of_group (r : Runtime) (group : PathGroupId) : option SubjectKey :=
  find (fun key => present (sk_group key) && bool_decide (maybe_value (sk_group key) = group))
    (map fst (rt_evidence r)).

(** [ObservatoryRuntime::compare_group] *)
Definition compare_group (group : PathGroupId) : Run (Result ComparisonResult) :=
  let! key := ask (fun r => bucket_of_group r group) in
  match key with
  | Some key => compare_bucket key true
  | None => run_ret (Err (mk_error UnknownIdentity "no evidence is held for this path group" (id_str group)))
  end.

(** [ObservatoryRuntime::compare_path] *)
Definition compare_path (path : PathId) : Run (Result ComparisonResult) :=
  let! routes := ask rt_routes in
  match routes with
  | None => run_ret (Err (error UnknownGeneration "no route generation is current"))
  | Some g =>
      match find_path g path with
      | None => run_ret (Err (mk_error UnknownIdentity "no expected path with this identity" (id_str path)))
      | Some expected =>
          let! key := ask (fun r => bucket_of_group r (path_group expected)) in
          match key with
          | Some key => compare_bucket key true
          | None => run_ret (Err (mk_error UnknownIdentity "no evidence is held for this path" (id_str path)))
          end
      end
  end.

(** [compare_all]: the loop over the buckets. *)
Fixpoint compare_keys (keys : list SubjectKey) : Run (Result (list ComparisonResult)) :=
  match keys with
  | [] => run_ret (Ok [])
  | key :: keys =>
      try! result := compare_bucket key true in
      try! results := compare_keys keys in
      run_ret (Ok (result :: results))
  end.

(** [ObservatoryRuntime::compare_all] *)
Definition compare_all : Run (Result (list ComparisonResult)) :=
  let! keys := ask (fun r => map fst (rt_evidence r)) in compare_keys keys.

(** ** Batches *)

(** [ObservatoryRuntime::submit_batch] *)
Definition submit_batch (batch : list ObservedPathEvidence) : Run Status := fun r =>
  if negb (bool_decide (rt_state r = Running)) then (Err (error InvalidState "runtime is not running"), r) else
  match rt_pool r with
  | None => (Err (error InvalidState "runtime has no worker pool"), r)
  | Some pool =>
      if (kMaxPendingBatches <=? pending pool)%nat then
        (Err (error CapacityExceeded "too many batches are already queued"), r) else
      let (status, pool) := submit pool (Some (length (rt_batches r))) in
      (status, set_batches (rt_batches r ++ [batch]) (set_pool (Some pool) r))
  end.

(** The task of a batch: what the token says at its two tests. *)
Definition run_batch (cancelled_before cancelled_between : bool) (batch : list ObservedPathEvidence) : Run unit :=
  if cancelled_before then count add_task_cancelled else
  let! _ := ingest_batch batch in
  if cancelled_between then count add_task_cancelled else
  let! _ := compare_all in
  count add_task_completed.

(** [drain]: the test of the loop. *)
Definition drained (r : Runtime) : bool :=
  match rt_pool r with None => true | Some p => (pending p + active p =? 0)%nat end.

(** ** Queries *)

(** [ObservatoryRuntime::history] *)
Definition history (request : HistoryQuery) : Run HistoryQueryResult :=
  let! store := ask rt_history in
  if is_set (hq_now request) then run_ret (history_query store request) else
  let! at_ := now in
  run_ret (history_query store
    (mk_history_query (hq_group request) (hq_path request) (hq_generation request) (hq_since request)
       (hq_outcome_filter request) (hq_filter_by_outcome request) (hq_limit request) at_ true)).

Definition findings (r : Runtime) : list Finding := finding_all (rt_findings r).
Definition finding (id : FindingId) (r : Runtime) : Result Finding := finding_find (rt_findings r) id.

(** [ObservatoryRuntime::acknowledge_finding] *)
Definition acknowledge_finding (id : FindingId) : Run Status :=
  let! at_ := now in
  let! findings := ask rt_findings in
  let (status, findings) := acknowledge findings id at_ in
  let! _ := change (set_findings findings) in
  run_ret status.

(** [ObservatoryRuntime::prune_history] *)
Definition prune_history : Run (Result nat) :=
  let! at_ := now in
  let! history := ask rt_history in
  let (pruned, history) := history_prune history at_ in
  let! _ := change (set_history history) in
  run_ret pruned.

(** [ObservatoryRuntime::flush] *)
Definition flush : Run Status :=
  let! store := ask rt_store in
  match store with
  | None => run_ret ok
  | Some _ => let! findings := ask rt_findings in persist_findings (finding_all findings)
  end.

Definition persistent (r : Runtime) : bool := bool_decide (is_Some (rt_store r)).

(** [RecoveryReport{}] *)
Definition recovery_none : RecoveryReport :=
  mk_recovery false false false false 0 "" 0 0 0 0 0 id_none unset unset.

(** [ObservatoryRuntime::recovery] *)
Definition recovery (r : Runtime) : RecoveryReport :=
  match rt_store r with Some s => ps_recovery s | None => recovery_none end.

Record RuntimeStats : Set := mk_stats {
  st_state : RuntimeState;
  st_metrics : MetricsSnapshot;
  st_evidence_buckets : nat;
  st_evidence_records : nat;
  st_findings : nat;
  st_findings_open : nat;
  st_history : nat;
  st_queue_pending : nat;
  st_epoch : EpochId;
  st_incarnation : IncarnationId;
  st_route_generation : RouteGenerationId;
  st_topology_generation : TopologyGenerationId;
  st_route_revision : RevisionId;
  st_recovery : RecoveryReport;
  st_has_route_generation : bool;
  st_has_topology_generation : bool
}.

(** [ObservatoryRuntime::stats] *)
Definition stats (r : Runtime) : RuntimeStats :=
  mk_stats (rt_state r) (snapshot (rt_metrics r)) (length (rt_evidence r))
    (list_sum (map (fun entry => length entry.2) (rt_evidence r))) (finding_size (rt_findings r))
    (open_count (rt_findings r)) (history_size (rt_history r)) (pending_batches r) (rt_epoch r)
    (rt_incarnation r)
    (match rt_routes r with Some g => route_id g | None => id_none end)
    (match rt_routes r, rt_topology r with
     | Some g, _ => route_topology g
     | None, Some t => topo_id t
     | None, None => id_none
     end)
    (rt_route_revision r) (recovery r) (has_routes r) (has_topology r).
