(* ===== verification/RuntimeProps.v ===== *)
(** What the runtime promises: which steps touch which part of its state, the
    invariant of every reachable state, and the policy of a restart. *)
From stdpp Require Import gmap.
From S2P Require Import Prelude Errors StdAlgo Digest Canonical Ids TimeModel Limits Source Topology Observed Expected Freshness Divergence Compare Finding History Codec Persistence Metrics Worker RuntimeState Runtime.
#[local] Open Scope pathobs_scope.
#[local] Open Scope Z_scope.

(** ** Frames *)

(** A step that leaves a view of the state as it was. *)
Class Keeps {T A} (view : Runtime -> T) (m : Run A) : Prop := keeps : forall r, view (m r).2 = view r.

Section Keeps.
Context {T : Type} (view : Runtime -> T).

#[export] Instance keeps_ret {A} (a : A) : Keeps view (run_ret a).
Proof. by intros r. Qed.

#[export] Instance keeps_ask {A} (f : Runtime -> A) : Keeps view (ask f).
Proof. by intros r. Qed.

#[export] Instance keeps_bind {A B} (m : Run A) (k : A -> Run B) :
  Keeps view m -> (forall a, Keeps view (k a)) -> Keeps view (run_bind m k).
Proof. intros Hm Hk r. unfold run_bind. specialize (Hm r). destruct (m r) as [a r']. by rewrite (Hk a r'). Qed.

#[export] Instance keeps_try {A B} (m : Run (Result A)) (k : A -> Run (Result B)) :
  Keeps view m -> (forall a, Keeps view (k a)) -> Keeps view (run_try m k).
Proof. intros Hm Hk. apply keeps_bind; [done |]. intros [a | e]; [apply Hk | apply keeps_ret]. Qed.

Lemma keeps_change f : (forall r, view (f r) = view r) -> Keeps view (change f).
Proof. intros H r. apply H. Qed.

Lemma keeps_io {A} (m : IO A) : (forall w r, view (set_world w r) = view r) -> Keeps view (run_io m).
Proof. intros H r. unfold run_io. destruct (m (rt_world r)) as [a w]. apply H. Qed.

Lemma keeps_now : (forall n r, view (set_ticks n r) = view r) -> Keeps view now.
Proof. intros H r. apply H. Qed.
End Keeps.

(** Decide a frame from the structure of the step. *)
Ltac keeps_step :=
  match goal with
  | |- Keeps _ (run_bind _ _) => apply keeps_bind; [| intros ?]
  | |- Keeps _ (run_try _ _) => apply keeps_try; [| intros ?]
  | |- Keeps _ (run_ret _) => apply keeps_ret
  | |- Keeps _ (ask _) => apply keeps_ask
  | |- Keeps _ now => apply keeps_now; reflexivity
  | |- Keeps _ (run_io _) => apply keeps_io; reflexivity
  | |- Keeps _ (change _) => apply keeps_change; reflexivity
  | |- Keeps _ (count _) => unfold count
  | |- Keeps _ (match ?x with _ => _ end) => destruct x
  | H : _ |- Keeps _ _ => apply H
  end.
Ltac keeps_tac := repeat (cbv beta; keeps_step).

(** What the authorities published. *)
Definition expected_view (r : Runtime) :=
  (rt_config r, rt_topology r, rt_topology_index r, rt_routes r, rt_epoch r, rt_incarnation r,
   rt_route_revision r, rt_topology_revision r).

(** What was observed, and by whom. *)
Definition observed_view (r : Runtime) := (rt_config r, rt_sources r, rt_ledger r, rt_evidence r, rt_source_has_gap r).

(** What was concluded. *)
Definition concluded_view (r : Runtime) := (rt_config r, rt_history r, rt_findings r).

Definition lifecycle_view (r : Runtime) := (rt_config r, rt_state r, rt_pool r, rt_batches r).

Lemma store_append_keeps {T} (view : Runtime -> T) type payload :
  (forall w r, view (set_world w r) = view r) -> (forall s r, view (set_store s r) = view r) ->
  (forall m r, view (set_metrics m r) = view r) -> Keeps view (store_append type payload).
Proof.
  intros Hw Hs Hm. unfold store_append. apply keeps_bind; [apply keeps_ask |]. intros [s |]; [| apply keeps_ret].
  apply keeps_bind; [by apply keeps_io |]. intros result. apply keeps_bind; [apply keeps_change; auto |]. intros _.
  destruct (result.1); [| apply keeps_ret]. apply keeps_bind; [apply keeps_change; auto | intros; apply keeps_ret].
Qed.

Lemma persist_findings_keeps {T} (view : Runtime -> T) l :
  (forall w r, view (set_world w r) = view r) -> (forall s r, view (set_store s r) = view r) ->
  (forall m r, view (set_metrics m r) = view r) -> Keeps view (persist_findings l).
Proof.
  intros Hw Hs Hm. induction l as [| f l IH]; cbn [persist_findings]; [apply keeps_ret |].
  apply keeps_try; [by apply store_append_keeps | done].
Qed.

Ltac keeps_store :=
  match goal with
  | |- Keeps _ (store_append _ _) => apply store_append_keeps; reflexivity
  | |- Keeps _ (persist_findings _) => apply persist_findings_keeps; reflexivity
  end.
Ltac keeps_all := repeat (cbv beta; first [keeps_store | keeps_step]).

(** Comparing reads the expected and the observed state, and changes neither. *)
Lemma compare_bucket_expected key keep : Keeps expected_view (compare_bucket key keep).
Proof. unfold compare_bucket, make_context, record_result, record_finding. keeps_all. Qed.

Lemma compare_bucket_observed key keep : Keeps observed_view (compare_bucket key keep).
Proof. unfold compare_bucket, make_context, record_result, record_finding. keeps_all. Qed.

Lemma compare_bucket_lifecycle key keep : Keeps lifecycle_view (compare_bucket key keep).
Proof. unfold compare_bucket, make_context, record_result, record_finding. keeps_all. Qed.

Lemma compare_keys_keeps {T} (view : Runtime -> T) keys :
  (forall key, Keeps view (compare_bucket key true)) -> Keeps view (compare_keys keys).
Proof.
  intros H. induction keys as [| key keys IH]; cbn [compare_keys]; [apply keeps_ret |].
  apply keeps_try; [apply H |]. intros result. apply keeps_try; [done | intros; apply keeps_ret].
Qed.

(** The three ways of comparing are [compare_bucket] on some keys. *)
Lemma comparisons_keep {T} (view : Runtime -> T) :
  (forall key, Keeps view (compare_bucket key true)) ->
  (forall group, Keeps view (compare_group group)) /\ (forall path, Keeps view (compare_path path)) /\
  Keeps view compare_all.
Proof.
  intros H. split_and!.
  - intros group. unfold compare_group. repeat (cbv beta; first [apply H | keeps_step]).
  - intros path. unfold compare_path. repeat (cbv beta; first [apply H | keeps_step]).
  - unfold compare_all. apply keeps_bind; [apply keeps_ask |]. intros keys. by apply compare_keys_keeps.
Qed.

Lemma ingest_bucket_expected key e gap : Keeps expected_view (ingest_bucket key e gap).
Proof. unfold ingest_bucket. keeps_all. Qed.

Lemma ingest_expected e : Keeps expected_view (ingest_evidence e).
Proof. unfold ingest_evidence, note_sequence, ingest_bucket. keeps_all. Qed.

Lemma ingest_concluded e : Keeps concluded_view (ingest_evidence e).
Proof. unfold ingest_evidence, note_sequence, ingest_bucket. keeps_all. Qed.

Lemma ingest_lifecycle e : Keeps lifecycle_view (ingest_evidence e).
Proof. unfold ingest_evidence, note_sequence, ingest_bucket. keeps_all. Qed.

Lemma ingest_all_keeps {T} (view : Runtime -> T) batch n :
  (forall e, Keeps view (ingest_evidence e)) -> Keeps view (ingest_all batch n).
Proof.
  intros H. revert n. induction batch as [| e batch IH]; intros n; cbn [ingest_all]; [apply keeps_ret |].
  apply keeps_try; [apply H | intros; apply IH].
Qed.

Lemma register_expected d : Keeps expected_view (register_source d).
Proof. unfold register_source. keeps_all. Qed.
Lemma register_concluded d : Keeps concluded_view (register_source d).
Proof. unfold register_source. keeps_all. Qed.

Lemma publish_topology_observed g : Keeps observed_view (publish_topology g).
Proof. unfold publish_topology. keeps_all. Qed.
Lemma publish_topology_concluded g : Keeps concluded_view (publish_topology g).
Proof. unfold publish_topology. keeps_all. Qed.
Lemma publish_routes_observed g : Keeps observed_view (publish_routes g).
Proof. unfold publish_routes. keeps_all. Qed.
Lemma publish_routes_concluded g : Keeps concluded_view (publish_routes g).
Proof. unfold publish_routes. keeps_all. Qed.

Lemma acknowledge_expected id : Keeps expected_view (acknowledge_finding id).
Proof. unfold acknowledge_finding. keeps_all. Qed.
Lemma acknowledge_observed id : Keeps observed_view (acknowledge_finding id).
Proof. unfold acknowledge_finding. keeps_all. Qed.
Lemma prune_expected : Keeps expected_view prune_history.
Proof. unfold prune_history. keeps_all. Qed.
Lemma prune_observed : Keeps observed_view prune_history.
Proof. unfold prune_history. keeps_all. Qed.
Lemma flush_keeps {T} (view : Runtime -> T) :
  (forall w r, view (set_world w r) = view r) -> (forall s r, view (set_store s r) = view r) ->
  (forall m r, view (set_metrics m r) = view r) -> Keeps view flush.
Proof.
  intros. unfold flush. apply keeps_bind; [apply keeps_ask |]. intros [s |]; [| apply keeps_ret].
  apply keeps_bind; [apply keeps_ask |]. intros f. by apply persist_findings_keeps.
Qed.

(** ** The steps of a runtime *)

(** The critical sections of the public member functions, and the steps of the
    worker threads.  A batch is a sequence of [ingest_evidence] and a
    [compare_all]. *)
Inductive runtime_step : Runtime -> Runtime -> Prop :=
| step_start r status r' : start r = Some (status, r') -> runtime_step r r'
| step_stop_begin r : runtime_step r (stop_begin r).2
| step_stop_pool r : runtime_step r (stop_pool r)
| step_stop_end r : runtime_step r (stop_end r).2
| step_register r d : runtime_step r (register_source d r).2
| step_topology r g : runtime_step r (publish_topology g r).2
| step_routes r g : runtime_step r (publish_routes g r).2
| step_ingest r e : runtime_step r (ingest_evidence e r).2
| step_compare_group r group : runtime_step r (compare_group group r).2
| step_compare_path r path : runtime_step r (compare_path path r).2
| step_compare_all r : runtime_step r (compare_all r).2
| step_submit r batch : runtime_step r (submit_batch batch r).2
| step_worker r pool tr pool' : rt_pool r = Some pool -> Worker.step pool tr pool' -> runtime_step r (set_pool (Some pool') r)
| step_task r completed : runtime_step r (count (if completed : bool then add_task_completed else add_task_cancelled) r).2
| step_history r q : runtime_step r (history q r).2
| step_acknowledge r id : runtime_step r (acknowledge_finding id r).2
| step_prune r : runtime_step r (prune_history r).2
| step_flush r : runtime_step r (flush r).2.

Inductive reachable (config : RuntimeConfig) : Runtime -> Prop :=
| reachable_new clock world r : create config clock world = Ok r -> reachable config r
| reachable_step r r' : reachable config r -> runtime_step r r' -> reachable config r'.

(** ** What holds of every reachable state *)

Definition bucket_ok (limits : Limits) (bucket : list ObservedPathEvidence) : Prop :=
  Z.of_nat (length bucket) <= max_evidence_per_comparison limits /\ NoDup (map ev_id bucket) /\
  Forall (fun e => evidence_validate limits e = ok /\ ev_id e = compute_evidence_id e) bucket.

(** The evidence: bounded buckets of distinct, validated, sealed records, and a
    registry of valid sources. *)
Record observed_ok (r : Runtime) : Prop := mk_observed_ok {
  ob_registry : registry_ok (rt_sources r);
  ob_map : om_wf (rt_evidence r);
  ob_buckets : forall key bucket, om_find key (rt_evidence r) = Some bucket -> bucket_ok (limits_of r) bucket
}.

(** The expected state: finalised generations, the index of the current topology,
    and an epoch that neither generation is ahead of. *)
Record expected_ok (r : Runtime) : Prop := mk_expected_ok {
  ex_topology : forall t, rt_topology r = Some t ->
    (exists g, topology_finalize (limits_of r) g = (ok, t)) /\
    (exists index, rt_topology_index r = Some index /\ index_build (limits_of r) t = Ok index) /\
    valid (rt_epoch r) = true /\ id_lt (rt_epoch r) (topo_epoch t) = false;
  ex_routes : forall g, rt_routes r = Some g ->
    (exists h, route_finalize (limits_of r) h = Ok g) /\ is_Some (rt_topology r) /\
    valid (rt_epoch r) = true /\ id_lt (rt_epoch r) (route_epoch g) = false
}.

(** The conclusions: a bounded history and a bounded, well filed registry of findings. *)
Record concluded_ok (r : Runtime) : Prop := mk_concluded_ok {
  co_history_limits : hs_limits (rt_history r) = limits_of r;
  co_history : history_bounded (rt_history r);
  co_findings_limits : fr_limits (rt_findings r) = limits_of r;
  co_findings : registry_wf (rt_findings r)
}.

Lemma observed_ok_view r r' : observed_view r' = observed_view r -> observed_ok r -> observed_ok r'.
Proof.
  intros E [H1 H2 H3]. unfold observed_view in E. injection E as Ec Es _ Ee _. unfold limits_of in *.
  constructor; unfold limits_of; rewrite ?Ec, ?Es, ?Ee; done.
Qed.

Lemma expected_ok_view r r' : expected_view r' = expected_view r -> expected_ok r -> expected_ok r'.
Proof.
  intros E [H1 H2]. unfold expected_view in E. injection E as Ec Et Ei Er Ee _ _ _. unfold limits_of in *.
  constructor; unfold limits_of; rewrite ?Ec, ?Et, ?Ei, ?Er, ?Ee; done.
Qed.

Lemma concluded_ok_view r r' : concluded_view r' = concluded_view r -> concluded_ok r -> concluded_ok r'.
Proof.
  intros E [H1 H2 H3 H4]. unfold concluded_view in E. injection E as Ec Eh Ef. unfold limits_of in *.
  constructor; unfold limits_of; rewrite ?Ec, ?Eh, ?Ef; done.
Qed.

(** *** Evidence *)

Lemma bucket_of_ok r key : observed_ok r -> 0 <= max_evidence_per_comparison (limits_of r) ->
  bucket_ok (limits_of r) (bucket_of key (rt_evidence r)).
Proof.
  intros [_ _ Hb] Hl. unfold bucket_of. destruct (om_find key (rt_evidence r)) eqn:E; [by apply (Hb key) |].
  split_and!; [done | apply NoDup_nil_2 | constructor].
Qed.

Lemma observed_insert r key bucket :
  observed_ok r -> bucket_ok (limits_of r) bucket ->
  observed_ok (set_evidence (om_insert key bucket (rt_evidence r)) r).
Proof.
  intros [Hr Hm Hb] Hk. constructor; cbn; [done | by apply om_insert_wf |].
  intros key' bucket'. destruct (decide (key = key')) as [<- | Hne].
  - rewrite om_find_insert. by intros [= <-].
  - rewrite om_find_insert_ne by done. apply Hb.
Qed.

Lemma observed_insert_twice r key b b' :
  observed_ok r -> bucket_ok (limits_of r) b -> bucket_ok (limits_of r) b' ->
  observed_ok (set_evidence (om_insert key b' (om_insert key b (rt_evidence r))) r).
Proof.
  intros Hr Hb Hb'. exact (observed_insert (set_evidence _ r) key b' (observed_insert r key b Hr Hb) Hb').
Qed.

Lemma has_evidence_false id bucket : has_evidence id bucket = false -> ~ id ∈ map ev_id bucket.
Proof.
  intros H (e & -> & He)%list_elem_of_fmap. apply not_true_iff_false in H. apply H, existsb_elem.
  exists e. split; [done | by apply bool_decide_eq_true_2].
Qed.

Lemma bucket_ok_snoc limits bucket e :
  bucket_ok limits bucket -> Z.of_nat (length bucket) < max_evidence_per_comparison limits ->
  has_evidence (ev_id e) bucket = false -> evidence_validate limits e = ok -> ev_id e = compute_evidence_id e ->
  bucket_ok limits (bucket ++ [e]).
Proof.
  intros (Hl & Hd & Hv) Hlt Hnew He Hid. split_and!.
  - rewrite length_app. cbn [length]. lia.
  - rewrite map_app. apply list.NoDup_app. split_and!; [done | | apply NoDup_singleton].
    intros x Hx ->%list_elem_of_singleton. by apply has_evidence_false in Hnew.
  - apply Forall_app_2; [done |]. by apply list.Forall_singleton.
Qed.

(** What a write to the store leaves alone. *)
Lemma store_append_observed type payload : Keeps observed_view (store_append type payload).
Proof. keeps_all. Qed.

(** The three outcomes of filing a record: the bucket is full or holds it, the
    store refuses it, or it is filed at the end of its bucket. *)
Lemma ingest_bucket_cases key e gap r :
  let bucket := bucket_of key (rt_evidence r) in
  let '(result, r') := ingest_bucket key e gap r in
  rt_config r' = rt_config r /\ rt_sources r' = rt_sources r /\ rt_ledger r' = rt_ledger r /\
  ir_id result = ev_id e /\ ir_sequence_gap result = gap /\ ir_replay result = false /\
  ((Z.of_nat (length bucket) < max_evidence_per_comparison (limits_of r) /\
    has_evidence (ev_id e) bucket = false /\ ir_accepted result = true /\ ir_persisted result = true /\
    rt_evidence r' = om_insert key (bucket ++ [e]) (om_insert key bucket (rt_evidence r))) \/
   (ir_persisted result = false /\ (ir_accepted result = true -> has_evidence (ev_id e) bucket = true) /\
    rt_evidence r' = om_insert key bucket (rt_evidence r))).
Proof.
  cbv zeta. unfold ingest_bucket, run_bind, ask, change, count, run_ret.
  set (r1 := set_evidence (om_insert key (bucket_of key (rt_evidence r)) (rt_evidence r)) r).
  destruct (Z.leb_spec (max_evidence_per_comparison (limits_of r)) (Z.of_nat (length (bucket_of key (rt_evidence r))))) as [Hf | Hf].
  { split_and!; try done. by right. }
  destruct (has_evidence (ev_id e) (bucket_of key (rt_evidence r))) eqn:Hd.
  { split_and!; try done. by right. }
  pose proof (store_append_observed EvidenceRecord (encode_evidence e) r1) as Hk.
  destruct (store_append EvidenceRecord (encode_evidence e) r1) as [[[] | err] r2]; cbn [snd] in Hk;
    unfold observed_view in Hk; injection Hk as Ec Es El Ee _; cbn.
  - rewrite Ee. split_and!; try done. by left.
  - split_and!; try done. by right.
Qed.

(** Sealing changes nothing that validation looks at, and agrees with it. *)
Lemma seal_valid limits e : evidence_validate limits e = ok ->
  evidence_validate limits (seal e) = ok /\ ev_id (seal e) = compute_evidence_id (seal e).
Proof. rewrite !evidence_validate_iff. intros []. split; [by constructor | done]. Qed.

Lemma ingest_refusal_none r e :
  ingest_refusal r e = None ->
  evidence_validate (limits_of r) e = ok /\ exists d, registry_find (rt_sources r) (ev_source e) = Ok d /\
    authority_code (ev_authority e) <= authority_code (source_authority d) /\ source_surface d = ev_surface e.
Proof.
  unfold ingest_refusal. destruct (evidence_validate _ e) as [[] |] eqn:Ev; [| done].
  destruct (registry_find _ _) as [d |] eqn:Ed; [| done].
  destruct (Z.ltb_spec (authority_code (source_authority d)) (authority_code (ev_authority e))); [done |].
  destruct (bool_decide (source_surface d = ev_surface e)) eqn:Es; [| done]. intros _. bool_prop.
  split; [done |]. by exists d.
Qed.

(** [ingest_evidence] before the record reaches its bucket. *)
Lemma note_sequence_keeps source v r :
  let r' := (note_sequence source v r).2 in
  rt_config r' = rt_config r /\ rt_sources r' = rt_sources r /\ rt_ledger r' = rt_ledger r /\
  rt_evidence r' = rt_evidence r /\ rt_routes r' = rt_routes r.
Proof. by destruct v. Qed.

(** What one record does: refused before the ledger, refused by the ledger,
    without a subject, or filed. *)
Inductive ingest_case (e : ObservedPathEvidence) (r : Runtime) (result : IngestResult) (r' : Runtime) : Prop :=
| case_refused refusal add :
    ingest_refusal r e = Some (refusal, add) -> result = refusal -> ir_accepted result = false ->
    ir_persisted result = false -> rt_ledger r' = rt_ledger r -> rt_evidence r' = rt_evidence r ->
    ingest_case e r result r'
| case_replay :
    ingest_refusal r e = None ->
    verdict (ledger_observe (rt_ledger r) (ev_source e) (ev_incarnation e) (ev_sequence e)).1 = Replay ->
    ir_accepted result = false -> ir_replay result = true -> ir_persisted result = false ->
    rt_ledger r' = (ledger_observe (rt_ledger r) (ev_source e) (ev_incarnation e) (ev_sequence e)).2 ->
    rt_evidence r' = rt_evidence r -> ingest_case e r result r'
| case_no_subject err :
    ingest_refusal r e = None -> resolve_subject (rt_routes r) (seal e) = Err err ->
    ir_accepted result = false -> ir_persisted result = false ->
    rt_ledger r' = (ledger_observe (rt_ledger r) (ev_source e) (ev_incarnation e) (ev_sequence e)).2 ->
    rt_evidence r' = rt_evidence r -> ingest_case e r result r'
| case_filed key :
    ingest_refusal r e = None ->
    verdict (ledger_observe (rt_ledger r) (ev_source e) (ev_incarnation e) (ev_sequence e)).1 <> Replay ->
    resolve_subject (rt_routes r) (seal e) = Ok key ->
    Z.of_nat (length (bucket_of key (rt_evidence r))) < max_evidence_per_comparison (limits_of r) ->
    has_evidence (ev_id (seal e)) (bucket_of key (rt_evidence r)) = false ->
    ir_accepted result = true -> ir_persisted result = true -> ir_id result = ev_id (seal e) ->
    rt_ledger r' = (ledger_observe (rt_ledger r) (ev_source e) (ev_incarnation e) (ev_sequence e)).2 ->
    rt_evidence r' = om_insert key (bucket_of key (rt_evidence r) ++ [seal e])
                       (om_insert key (bucket_of key (rt_evidence r)) (rt_evidence r)) ->
    ingest_case e r result r'
| case_not_filed key :
    ingest_refusal r e = None ->
    verdict (ledger_observe (rt_ledger r) (ev_source e) (ev_incarnation e) (ev_sequence e)).1 <> Replay ->
    resolve_subject (rt_routes r) (seal e) = Ok key ->
    (ir_accepted result = true -> has_evidence (ev_id (seal e)) (bucket_of key (rt_evidence r)) = true) ->
    ir_persisted result = false ->
    rt_ledger r' = (ledger_observe (rt_ledger r) (ev_source e) (ev_incarnation e) (ev_sequence e)).2 ->
    rt_evidence r' = om_insert key (bucket_of key (rt_evidence r)) (rt_evidence r) -> ingest_case e r result r'.

Lemma refusal_not_accepted r e refusal add :
  ingest_refusal r e = Some (refusal, add) -> ir_accepted refusal = false /\ ir_persisted refusal = false.
Proof.
  unfold ingest_refusal. repeat case_match; intros [= <- <-]; done.
Qed.

Lemma ingest_cases e r :
  exists result, (ingest_evidence e r).1 = Ok result /\
    let r' := (ingest_evidence e r).2 in
    rt_config r' = rt_config r /\ rt_sources r' = rt_sources r /\ ingest_case e r result r'.
Proof.
  destruct (ingest_evidence e r) as [out r'] eqn:E. cbn [fst snd].
  unfold ingest_evidence, run_bind at 1, ask at 1 in E.
  destruct (ingest_refusal r e) as [[refusal add] |] eqn:Eref.
  { destruct (refusal_not_accepted _ _ _ _ Eref) as [Ha Hp]. injection E as <- <-. exists refusal.
    split_and!; try done. by eapply case_refused. }
  unfold run_bind at 1, ask at 1 in E.
  destruct (ledger_observe (rt_ledger r) (ev_source e) (ev_incarnation e) (ev_sequence e)) as [outcome ledger] eqn:El.
  unfold run_bind at 1, change at 1 in E.
  destruct (bool_decide (verdict outcome = Replay)) eqn:Ev; bool_prop.
  { injection E as <- <-. eexists. split_and!; try done. apply case_replay; rewrite ?El; done. }
  unfold run_bind at 1 in E.
  pose proof (note_sequence_keeps (ev_source e) (verdict outcome) (set_ledger ledger r)) as Hn.
  destruct (note_sequence _ _ _) as [u r1]. cbn [snd] in Hn. destruct Hn as (Hc & Hs & Hl & He & Hr).
  unfold run_bind at 1, ask at 1 in E. rewrite Hr in E. cbn [rt_routes set_ledger] in E.
  destruct (resolve_subject (rt_routes r) (seal e)) as [key | err] eqn:Ek.
  - unfold run_bind in E.
    pose proof (ingest_bucket_cases key (seal e) (bool_decide (verdict outcome = Gap)) r1) as Hb.
    cbv zeta in Hb. unfold limits_of in Hb. rewrite Hc, He in Hb.
    destruct (ingest_bucket _ _ _ r1) as [result r2]. destruct Hb as (Hc2 & Hs2 & Hl2 & Hid & _ & _ & Hcase).
    injection E as <- <-. exists result. split_and!; [done | by rewrite Hc2 | by rewrite Hs2, Hs |].
    destruct Hcase as [(H1 & H2 & H3 & H4 & H5) | (H1 & H2 & H3)].
    + eapply case_filed; rewrite ?El; try done. by rewrite Hl2, Hl.
    + eapply case_not_filed; rewrite ?El; try done. by rewrite Hl2, Hl.
  - injection E as <- <-. eexists. split_and!; [reflexivity | done | done |].
    eapply case_no_subject; rewrite ?El; try done.
Qed.

Lemma ingest_observed r e :
  0 <= max_evidence_per_comparison (limits_of r) -> observed_ok r -> observed_ok (ingest_evidence e r).2.
Proof.
  intros Hl Hr. destruct (ingest_cases e r) as (result & _ & Hc & Hs & Hcase).
  set (r' := (ingest_evidence e r).2) in *. cbv zeta in *.
  assert (forall m, rt_evidence r' = rt_evidence (set_evidence m r) -> observed_ok (set_evidence m r) -> observed_ok r')
    as Hset.
  { intros m Em [H1 H2 H3]. unfold limits_of in H3. cbn in Em, H1, H2, H3.
    constructor; unfold limits_of; rewrite ?Hc, ?Hs, ?Em; done. }
  destruct Hcase as [refusal add ? ? ? ? ? He | ? ? ? ? ? ? He | err ? ? ? ? ? He
    | key Href _ _ Hlt Hnew ? ? ? ? He | key ? ? ? ? ? ? He].
  - apply (Hset (rt_evidence r)); [done | by destruct r].
  - apply (Hset (rt_evidence r)); [done | by destruct r].
  - apply (Hset (rt_evidence r)); [done | by destruct r].
  - apply (Hset _ He). apply ingest_refusal_none in Href as [Hv _]. apply seal_valid in Hv as [Hv Hid].
    apply observed_insert_twice; [done | by apply bucket_of_ok |]. by apply bucket_ok_snoc; [apply bucket_of_ok |..].
  - apply (Hset _ He), observed_insert; [done | by apply bucket_of_ok].
Qed.

Lemma register_observed r d : observed_ok r -> observed_ok (register_source d r).2.
Proof.
  intros Hr. unfold register_source, run_bind, ask, change.
  pose proof (store_append_observed SourceRecord (encode_source d) r) as Hk.
  destruct (store_append SourceRecord (encode_source d) r) as [[[] | err] r1]; cbn [snd] in Hk.
  2:{ by apply (observed_ok_view r). }
  apply (observed_ok_view r r1) in Hr; [| done]. destruct Hr as [H1 H2 H3].
  pose proof (registry_first_writer_wins (rt_sources r1) d H1) as Hreg.
  destruct (Source.register_source (rt_sources r1) d) as [status sources]. destruct Hreg as [Hreg _].
  by constructor.
Qed.

(** *** Reading the store back *)

Lemma restore_evidence_observed r e :
  0 <= max_evidence_per_comparison (limits_of r) -> evidence_validate (limits_of r) e = ok ->
  ev_id e = compute_evidence_id e -> observed_ok r -> observed_ok (restore_evidence e r).
Proof.
  intros Hl Hv Hid Hr. unfold restore_evidence. destruct (resolve_subject _ _) as [key |]; [| done]. cbv zeta.
  pose proof (observed_insert r key _ Hr (bucket_of_ok r key Hr Hl)) as Hr1.
  destruct (Z.leb_spec (max_evidence_per_comparison (limits_of (set_evidence
    (om_insert key (bucket_of key (rt_evidence r)) (rt_evidence r)) r)))
    (Z.of_nat (length (bucket_of key (rt_evidence r))))) as [| Hlt]; [done |].
  destruct (has_evidence _ _) eqn:Hnew; [done |].
  refine (observed_insert_twice r key _ _ Hr (bucket_of_ok r key Hr Hl) _).
  by apply bucket_ok_snoc; [apply bucket_of_ok |..].
Qed.

Lemma restore_evidence_config r e :
  rt_config (restore_evidence e r) = rt_config r /\ concluded_view (restore_evidence e r) = concluded_view r.
Proof. unfold restore_evidence. by repeat case_match. Qed.

(** What a restored record preserves. *)
Definition restorable (r : Runtime) : Prop :=
  0 <= max_evidence_per_comparison (limits_of r) /\ history_limits_ok (limits_of r) /\
  0 < max_findings (limits_of r) /\ observed_ok r /\ concluded_ok r.

Lemma restore_record_ok record r status r' :
  restorable r -> restore_record record r = Some (status, r') -> restorable r' /\ rt_config r' = rt_config r.
Proof.
  intros Hr. assert (restorable r /\ rt_config r = rt_config r) as Hsame by done.
  destruct Hr as (Hl & Hh & Hf & Ho & Hc). unfold restore_record.
  assert (forall e, decode_exact (decode_evidence (limits_of r)) (sr_payload record) = Ok e ->
    evidence_validate (limits_of r) e = ok /\ ev_id e = compute_evidence_id e) as He
    by exact (fun e => decode_exact_ok _ _ _ e (decoded_evidence (limits_of r))).
  destruct (sr_type record); try (intros [= <- <-]; exact Hsame).
  - destruct (decode_exact (decode_source_descriptor _) _) as [d |]; [| intros [= <- <-]; exact Hsame].
    destruct Ho as [H1 H2 H3].
    pose proof (registry_first_writer_wins (rt_sources r) d H1) as Hreg.
    destruct (Source.register_source (rt_sources r) d) as [st sources]. destruct Hreg as [Hreg _].
    intros [= <- <-]. unfold restorable. split_and!; try done; first [by apply (concluded_ok_view r) | by constructor].
  - destruct (decode_exact (decode_evidence _) _) as [e |] eqn:E; [| intros [= <- <-]; exact Hsame].
    destruct (He e eq_refl) as [Hv Hid]. intros [= <- <-].
    destruct (restore_evidence_config r e) as [Ec Ev]. unfold restorable, limits_of in *. rewrite Ec.
    split_and!; try done; [by apply restore_evidence_observed | by apply (concluded_ok_view r)].
  - destruct (decode_exact (decode_comparison _) _) as [w |]; [| intros [= <- <-]; exact Hsame].
    destruct (result_of_wire w) as [c |]; [| done]. cbn.
    destruct Hc as [Hc1 Hc2 Hc3 Hc4].
    destruct (history_apply_bounded (rt_history r) (AppendOp c)) as [Hb Hb']; [by rewrite Hc1 | done |].
    cbn [history_apply] in Hb, Hb'. destruct (history_append (rt_history r) c) as [st h]. cbn [snd] in *.
    intros [= <- <-]. unfold restorable. split_and!; try done; [by apply (observed_ok_view r) |].
    constructor; cbn; [by rewrite Hb' | done | done | done].
  - destruct (decode_exact (decode_finding _) _) as [w |]; [| intros [= <- <-]; exact Hsame].
    destruct (finding_of_wire w) as [f |]; [| done]. cbn.
    destruct Hc as [Hc1 Hc2 Hc3 Hc4].
    destruct (finding_apply_wf (rt_findings r) (RestoreOp f)) as [Hb Hb']; [done | by rewrite Hc3 |].
    cbn [finding_apply] in Hb, Hb'. destruct (finding_restore (rt_findings r) f) as [st h]. cbn [snd] in *.
    intros [= <- <-]. unfold restorable. split_and!; try done; [by apply (observed_ok_view r) |].
    constructor; cbn; [done | done | by rewrite Hb' | done].
Qed.

Lemma restore_records_ok records r status r' :
  restorable r -> restore_records records r = Some (status, r') -> restorable r' /\ rt_config r' = rt_config r.
Proof.
  revert r. induction records as [| record records IH]; intros r Hr; cbn [restore_records].
  { by intros [= _ <-]. }
  destruct (restore_record record r) as [[[[] | e] r1] |] eqn:E; [| | done].
  - apply restore_record_ok in E as [Hr1 Ec]; [| done]. intros [H1 H2]%IH; [| done]. split; [done | by rewrite H2].
  - apply restore_record_ok in E as [Hr1 Ec]; [| done]. by intros [= _ <-].
Qed.

(** *** The expected state *)

Lemma topology_precheck_epoch limits g t : topology_finalize limits g = (ok, t) -> valid (topo_epoch t) = true.
Proof.
  unfold topology_finalize. destruct (topology_precheck limits g) as [[] |] eqn:E; [| by intros [=]].
  destruct (check? _ in _) as [[] |]; [| by intros [=]]. intros [= <-]. cbn.
  unfold topology_precheck in E. destruct (_ || _) eqn:Ev in E; [done |]. by bool_prop.
Qed.

Lemma route_precheck_epoch limits g h : route_finalize limits g = Ok h -> valid (route_epoch h) = true.
Proof.
  unfold route_finalize. destruct (route_precheck limits g) as [[] |] eqn:E; [| done]. cbn [result_bind].
  do 2 (destruct (check_each _ _ _) as [[] |]; [cbn [result_bind] | done]). intros [= <-]. cbn.
  unfold route_precheck in E. destruct (_ || _) eqn:Ev in E; [done |]. by bool_prop.
Qed.

(** A publication that is let through is not behind the current epoch. *)
Lemma epoch_step (old new other : EpochId) :
  valid new = true -> valid old && id_lt new old = false ->
  (valid old = true -> id_lt old other = false) -> (valid old = false -> False) -> id_lt new other = false.
Proof.
  intros Hn Hf Ho Hv. destruct (valid old) eqn:E; [| by destruct Hv]. specialize (Ho eq_refl). cbn [andb] in Hf.
  unfold id_lt in *. bool_prop. apply Z.ltb_ge. lia.
Qed.

Lemma topology_admitted_inv r g b :
  topology_admitted r g = Ok b ->
  registry_contains (rt_sources r) (topo_source g) = true /\ valid (rt_epoch r) && id_lt (topo_epoch g) (rt_epoch r) = false /\
  (forall t, rt_topology r = Some t -> topo_epoch t = topo_epoch g -> topo_incarnation t = topo_incarnation g ->
     id_lt (topo_revision g) (topo_revision t) = false).
Proof.
  unfold topology_admitted. destruct (registry_contains _ _) eqn:E1; [| done].
  destruct (valid (rt_epoch r) && _) eqn:E2; [done |]. cbn [negb]. destruct (rt_topology r) as [t |].
  - destruct (_ && id_lt (topo_revision g) (topo_revision t)) eqn:E3; [done |]. intros _. split_and!; try done.
    intros t' [= <-] He Hi. rewrite !bool_decide_eq_true_2 in E3 by done. done.
  - intros _. by split_and!.
Qed.

Lemma routes_admitted_inv r g b :
  routes_admitted r g = Ok b ->
  registry_contains (rt_sources r) (route_source g) = true /\
  (exists t, rt_topology r = Some t /\ route_topology g = topo_id t) /\
  valid (rt_epoch r) && id_lt (route_epoch g) (rt_epoch r) = false /\
  (forall h, rt_routes r = Some h -> route_epoch h = route_epoch g -> route_incarnation h = route_incarnation g ->
     id_lt (route_revision g) (route_revision h) = false).
Proof.
  unfold routes_admitted. destruct (registry_contains _ _) eqn:E1; [| done]. cbn [negb].
  destruct (rt_topology r) as [t |]; [| done]. destruct (bool_decide (route_topology g = topo_id t)) eqn:Et; [| done].
  bool_prop. cbn [negb]. destruct (valid (rt_epoch r) && _) eqn:E2; [done |]. destruct (rt_routes r) as [h |].
  - destruct (_ && id_lt (route_revision g) (route_revision h)) eqn:E3; [done |]. intros _. split_and!; try done.
    + by exists t.
    + intros h' [= <-] He Hi. rewrite !bool_decide_eq_true_2 in E3 by done. done.
  - intros _. split_and!; try done. by exists t.
Qed.

(** [publish_topology]: nothing changes but the counters, or the generation is adopted. *)
Lemma publish_topology_cases g r :
  let '(status, r') := publish_topology g r in
  expected_view r' = expected_view r \/
  exists t index, topology_finalize (limits_of r) g = (ok, t) /\ topology_admitted r t = Ok false /\
    index_build (limits_of r) t = Ok index /\ expected_view r' = expected_view (adopt_topology t index r).
Proof.
  unfold publish_topology, run_bind at 1, ask at 1.
  destruct (topology_finalize (limits_of r) g) as [[[] | e] t] eqn:Ef; [| by left].
  unfold run_bind at 1, ask at 1.
  destruct (topology_admitted r t) as [[] | e] eqn:Ea; [by left | | by left].
  destruct (index_build (limits_of r) t) as [index | e] eqn:Ei; [| by left].
  unfold run_bind, change.
  assert (Keeps expected_view (store_append TopologyRecord (encode_topology t))) as Hk by keeps_all.
  specialize (Hk (adopt_topology t index r)). destruct (store_append _ _ _) as [status r']. cbn [snd] in Hk.
  right. by exists t, index.
Qed.

Lemma publish_routes_cases g r :
  let '(status, r') := publish_routes g r in
  expected_view r' = expected_view r \/
  exists h, route_finalize (limits_of r) g = Ok h /\ routes_admitted r h = Ok false /\
    expected_view r' = expected_view (adopt_routes h r).
Proof.
  unfold publish_routes, run_bind at 1, ask at 1.
  destruct (route_finalize (limits_of r) g) as [h | e] eqn:Ef; [| by left].
  unfold run_bind at 1, ask at 1.
  destruct (routes_admitted r h) as [[] | e] eqn:Ea; [by left | | by left].
  unfold run_bind, change.
  assert (Keeps expected_view (store_append RouteRecord (encode_routes h))) as Hk by keeps_all.
  specialize (Hk (adopt_routes h r)). destruct (store_append _ _ _) as [status r']. cbn [snd] in Hk.
  right. by exists h.
Qed.

Lemma adopt_topology_ok r g t index :
  expected_ok r -> topology_finalize (limits_of r) g = (ok, t) -> topology_admitted r t = Ok false ->
  index_build (limits_of r) t = Ok index -> expected_ok (adopt_topology t index r).
Proof.
  intros [Ht Hg] Hf Ha Hi. apply topology_admitted_inv in Ha as (_ & He & _).
  pose proof (topology_precheck_epoch _ _ _ Hf) as Hv. constructor; cbn.
  - intros t' [= <-]. split_and!; [by exists g | by exists index | done |]. unfold id_lt. apply Z.ltb_irrefl.
  - intros h Hh. destruct (Hg h Hh) as (H1 & H2 & H3 & H4). split_and!; [done | done | done |].
    apply (epoch_step (rt_epoch r)); try done. congruence.
Qed.

Lemma adopt_routes_ok r g h :
  expected_ok r -> route_finalize (limits_of r) g = Ok h -> routes_admitted r h = Ok false ->
  expected_ok (adopt_routes h r).
Proof.
  intros [Ht Hg] Hf Ha. apply routes_admitted_inv in Ha as (_ & (t & Et & _) & He & _).
  pose proof (route_precheck_epoch _ _ _ Hf) as Hv. constructor; cbn.
  - intros t' Ht'. destruct (Ht t' Ht') as (H1 & H2 & H3 & H4). split_and!; [done | done | done |].
    apply (epoch_step (rt_epoch r)); try done. congruence.
  - intros h' [= <-]. split_and!; [by exists g | by rewrite Et | done |]. unfold id_lt. apply Z.ltb_irrefl.
Qed.

Lemma publish_topology_expected r g : expected_ok r -> expected_ok (publish_topology g r).2.
Proof.
  intros Hr. pose proof (publish_topology_cases g r) as Hc. destruct (publish_topology g r) as [status r'].
  destruct Hc as [E | (t & index & Hf & Ha & Hi & E)]; [by apply (expected_ok_view r) |].
  apply (expected_ok_view _ _ E). by apply (adopt_topology_ok r g).
Qed.

Lemma publish_routes_expected r g : expected_ok r -> expected_ok (publish_routes g r).2.
Proof.
  intros Hr. pose proof (publish_routes_cases g r) as Hc. destruct (publish_routes g r) as [status r'].
  destruct Hc as [E | (h & Hf & Ha & E)]; [by apply (expected_ok_view r) |].
  apply (expected_ok_view _ _ E). by apply (adopt_routes_ok r g).
Qed.

(** *** The conclusions *)

Definition conclusive (r : Runtime) : Prop :=
  history_limits_ok (limits_of r) /\ 0 < max_findings (limits_of r) /\ concluded_ok r.

Lemma conclusive_view r r' : concluded_view r' = concluded_view r -> conclusive r -> conclusive r'.
Proof.
  intros E (Hh & Hf & Hc). pose proof E as E'. unfold concluded_view in E'. injection E' as Ec _ _.
  unfold conclusive, limits_of in *. rewrite Ec. split_and!; [done | done |]. by apply (concluded_ok_view r).
Qed.

Lemma conclusive_ticks n r : conclusive r -> conclusive (set_ticks n r).
Proof. by apply conclusive_view. Qed.

Lemma conclusive_metrics m r : conclusive r -> conclusive (set_metrics m r).
Proof. by apply conclusive_view. Qed.

Lemma conclusive_history r op : conclusive r -> conclusive (set_history (history_apply (rt_history r) op) r).
Proof.
  intros (Hh & Hf & [H1 H2 H3 H4]).
  destruct (history_apply_bounded (rt_history r) op) as [Hb Hl]; [by rewrite H1 | done |].
  split_and!; [done | done |]. constructor; cbn; [by rewrite Hl | done | done | done].
Qed.

Lemma conclusive_findings r op : conclusive r -> conclusive (set_findings (finding_apply (rt_findings r) op) r).
Proof.
  intros (Hh & Hf & [H1 H2 H3 H4]).
  destruct (finding_apply_wf (rt_findings r) op) as [Hb Hl]; [done | by rewrite H3 |].
  split_and!; [done | done |]. constructor; cbn; [done | done | by rewrite Hl | done].
Qed.

Lemma conclusive_keeps {A} (m : Run A) r : Keeps concluded_view m -> conclusive r -> conclusive (m r).2.
Proof. intros Hm. by apply conclusive_view. Qed.

Lemma record_finding_conclusive result r : conclusive r -> conclusive (record_finding result r).2.
Proof.
  intros Hr. unfold record_finding, run_bind, ask, change, now, count, run_ret. cbv beta zeta. cbn [rt_findings set_ticks].
  pose proof (conclusive_findings (set_ticks (S (rt_ticks r)) r) (RecordOp result (rt_clock r (rt_ticks r)))
    (conclusive_ticks _ r Hr)) as H1.
  cbn [finding_apply rt_findings set_ticks] in H1.
  destruct (record (rt_findings r) result (rt_clock r (rt_ticks r))) as [[id | e] findings]; [| exact H1].
  cbn [snd] in H1. destruct (digest_id_valid id); [by eapply conclusive_view; [| exact H1] |].
  pose proof (conclusive_findings _ (ResolveOp result (rt_clock r (S (rt_ticks r))))
    (conclusive_ticks (S (S (rt_ticks r))) _ H1)) as H2.
  cbn [finding_apply rt_findings set_ticks set_findings rt_clock rt_ticks] in *.
  destruct (resolve_from_match findings result _) as [[n | e] findings']; [by eapply conclusive_view; [| exact H2] | exact H2].
Qed.

Lemma record_result_conclusive result r : conclusive r -> conclusive (record_result result r).2.
Proof.
  intros Hr. unfold record_result. unfold run_bind at 1, ask at 1.
  pose proof (conclusive_history r (AppendOp result) Hr) as H1. cbn [history_apply] in H1.
  destruct (history_append (rt_history r) result) as [appended history]. cbn [snd] in H1.
  unfold run_bind at 1, change at 1. unfold run_try, run_ret. unfold run_bind at 1.
  destruct appended as [[] | e]; [| exact H1]. unfold run_bind at 1.
  apply (record_finding_conclusive result) in H1. destruct (record_finding _ _) as [[[] | e] r2]; [| exact H1].
  apply (conclusive_keeps (A := Status)); [| exact H1]. keeps_all; by intros ?.
Qed.

Lemma compare_bucket_conclusive key keep r : conclusive r -> conclusive (compare_bucket key keep r).2.
Proof.
  intros Hr. unfold compare_bucket. do 2 (unfold run_bind at 1, ask at 1). unfold run_bind at 1.
  assert (conclusive (make_context r).2) as H1 by (by apply conclusive_keeps; [unfold make_context; keeps_all |]).
  destruct (make_context r) as [context r1]. cbn [snd] in H1.
  destruct (compare _ _ _ context) as [result | e]; [| exact H1].
  unfold run_bind at 1, count, change. destruct (negb keep); [by eapply conclusive_view; [| exact H1] |].
  unfold run_try, run_bind.
  pose proof (record_result_conclusive result _
    (conclusive_metrics (add_comparison (cr_outcome result) (rt_metrics r1)) _ H1)) as H2.
  destruct (record_result _ _) as [[[] | e] r2]; exact H2.
Qed.

(** A property that every comparison of a bucket preserves is preserved by the
    three ways of comparing. *)
Lemma comparisons_preserve (P : Runtime -> Prop) :
  (forall key r, P r -> P (compare_bucket key true r).2) ->
  forall r, P r -> (forall group, P (compare_group group r).2) /\ (forall path, P (compare_path path r).2) /\
    P (compare_all r).2.
Proof.
  intros H r Hr.
  assert (forall keys r, P r -> P (compare_keys keys r).2) as Hkeys.
  { intros keys. induction keys as [| key keys IH]; intros r1 Hr1; [done |]. cbn [compare_keys].
    unfold run_try, run_bind. specialize (H key r1 Hr1). destruct (compare_bucket key true r1) as [[x | e] r2]; [| done].
    specialize (IH r2 H). by destruct (compare_keys keys r2) as [[xs | e] r3]. }
  split_and!.
  - intros group. unfold compare_group, run_bind, ask. destruct (bucket_of_group r group); [by apply H | done].
  - intros path. unfold compare_path, run_bind, ask. destruct (rt_routes r) as [g |]; [| done].
    destruct (find_path g path) as [p |]; [| done]. destruct (bucket_of_group r _); [by apply H | done].
  - unfold compare_all, run_bind, ask. by apply Hkeys.
Qed.

Lemma acknowledge_conclusive id r : conclusive r -> conclusive (acknowledge_finding id r).2.
Proof.
  intros Hr. unfold acknowledge_finding, run_bind, ask, change, now, run_ret.
  pose proof (conclusive_findings (set_ticks (S (rt_ticks r)) r) (AcknowledgeOp id (rt_clock r (rt_ticks r)))
    (conclusive_ticks _ r Hr)) as H1.
  cbn [finding_apply rt_findings set_ticks] in *.
  destruct (acknowledge (rt_findings r) id _) as [status findings]. exact H1.
Qed.

Lemma prune_conclusive r : conclusive r -> conclusive (prune_history r).2.
Proof.
  intros Hr. unfold prune_history, run_bind, ask, change, now, run_ret.
  pose proof (conclusive_history (set_ticks (S (rt_ticks r)) r) (PruneOp (rt_clock r (rt_ticks r)))
    (conclusive_ticks _ r Hr)) as H1.
  cbn [history_apply rt_history set_ticks] in *.
  destruct (history_prune (rt_history r) _) as [status history]. exact H1.
Qed.
