(* ===== verification/RuntimeDemo.v ===== *)
(** A run of the runtime on concrete input: construction, start, two sources, a
    topology, its routes, one record of evidence and a comparison. *)
From stdpp Require Import gmap.
From S2P Require Import Prelude Errors StdAlgo Digest Canonical Ids TimeModel Limits Source Topology Observed Expected Freshness Divergence Compare Finding History Codec Persistence Metrics Worker RuntimeState Runtime RuntimeProps.
#[local] Open Scope pathobs_scope.
#[local] Open Scope Z_scope.

Definition demo_config : RuntimeConfig :=
  mk_config default_limits default_comparison_policy "" false true 0 true.

Definition demo_clock (n : nat) : TimePoint := from_unix_nanos 10.

Definition demo_world : World := mk_world ∅ [] "no space left on device".

Definition demo_new : Runtime := runtime_new demo_config demo_clock demo_world.

Definition demo_started : Runtime := match start demo_new with Some (_, r) => r | None => demo_new end.

(** The authority of the routes. *)
Definition demo_authority : SourceDescriptor :=
  mk_source (from_value 8) "planner" TelemetryObserver SurfaceReal Advisory (mk_capabilities false true false) 0 0.

Definition demo_registered : Runtime := (register_source demo_authority (register_source example_source demo_started).2).2.
Definition demo_topology : Runtime := (publish_topology example_topology demo_registered).2.
Definition demo_routes : Runtime := (publish_routes example_route demo_topology).2.
Definition demo_observed : Runtime := (ingest_evidence example_evidence demo_routes).2.

Definition demo_key : SubjectKey := mk_subject (from_value 1) (maybe (from_value 4)).

Lemma demo_start : start demo_new = Some (ok, demo_started).
Proof. by vm_compute. Qed.

Lemma demo_follows : rtc runtime_step demo_started demo_observed.
Proof.
  apply (rtc_l _ _ (register_source example_source demo_started).2); [apply step_register |].
  apply (rtc_l _ _ demo_registered); [apply step_register |].
  apply (rtc_l _ _ demo_topology); [apply step_topology |].
  apply (rtc_l _ _ demo_routes); [apply step_routes |].
  apply rtc_once, step_ingest.
Qed.

Lemma demo_reachable : reachable demo_config demo_observed.
Proof.
  assert (reachable demo_config demo_started) as H.
  { apply (reachable_step _ demo_new); [by apply (reachable_new _ (Some demo_clock) demo_world) |].
    apply (step_start _ ok), demo_start. }
  pose proof demo_follows as Hf. revert H. generalize demo_started, demo_observed, Hf.
  intros a b H. induction H as [| x y z Hs _ IH]; [done |]. intros Hx. apply IH. by eapply reachable_step.
Qed.

(** The record is accepted, filed under its subject, and compared. *)
Definition matches (answer : Result ComparisonResult * Runtime) : bool :=
  match answer.1 with Ok result => bool_decide (cr_outcome result = Match) | Err _ => false end.

Lemma matches_inv answer :
  matches answer = true -> exists result r', answer = (Ok result, r') /\ cr_outcome result = Match.
Proof. destruct answer as [[result | e] r']; [| done]. intros H. apply bool_decide_eq_true_1 in H. by exists result, r'. Qed.

Lemma demo_match : exists result r', compare_bucket demo_key true demo_observed = (Ok result, r') /\ cr_outcome result = Match.
Proof. apply matches_inv. vm_compute. reflexivity. Qed.

(** After a restart the evidence is still there, but nothing is expected. *)
Example demo_restart :
  match start (set_state Stopped demo_observed) with
  | Some (Ok _, r) =>
      match compare_bucket demo_key true r with
      | (Ok result, _) => cr_outcome result = Indeterminate /\ bucket_of demo_key (rt_evidence r) = [seal example_evidence]
      | (Err _, _) => False
      end
  | _ => False
  end.
Proof. by vm_compute. Qed.
