(* ===== verification/RuntimePolicy.v ===== *)
(** The policy of the runtime over its whole life: the invariant of every state,
    fencing, the restart, and the evidence that a restart brings back. *)
From stdpp Require Import gmap.
From S2P Require Import Prelude Errors CheckedArith StdAlgo Digest Canonical Ids TimeModel Limits Source Topology Observed Expected Freshness Divergence Compare CompareProps Finding History Codec Persistence StoreFormat StoreFiles StoreRuns StoreState Metrics Worker RuntimeState Runtime RuntimeProps RuntimeDemo.
#[local] Open Scope pathobs_scope.
#[local] Open Scope Z_scope.

(** ** Starting *)

(** A new pool has no threads to lose, so starting it does not end the process. *)
Lemma new_pool_starts threads max_queue :
  Worker.start (pool_new threads max_queue) <> Terminates /\
  ((0 < threads)%nat -> (start_pool threads max_queue).1 = ok).
Proof. unfold start_pool, Worker.start. cbn. destruct threads; cbn; [by split; [| lia] | by split]. Qed.

Lemma open_store_keeps {T} (view : Runtime -> T) :
  (forall n r, view (set_ticks n r) = view r) -> (forall w r, view (set_world w r) = view r) ->
  (forall s r, view (set_store s r) = view r) -> (forall m r, view (set_metrics m r) = view r) ->
  Keeps view open_store.
Proof.
  intros Ht Hw Hs Hm. unfold open_store. apply keeps_bind; [apply keeps_ask |]. intros config.
  apply keeps_bind; [by apply keeps_now |]. intros at_. apply keeps_try; [by apply keeps_io |]. intros store.
  apply keeps_bind; [apply keeps_change; auto |]. intros _.
  apply keeps_bind; [apply keeps_change; auto |]. intros _.
  apply keeps_bind; [| intros; apply keeps_ret].
  destruct (rr_corrupt_tail_truncated _); [apply keeps_change; auto | apply keeps_ret].
Qed.

(** Reading the store back leaves the expected state alone. *)
Lemma restore_record_expected record r status r' :
  restore_record record r = Some (status, r') -> expected_view r' = expected_view r /\ rt_ledger r' = rt_ledger r.
Proof.
  unfold restore_record. destruct (sr_type record); try (by intros [= <- <-]).
  - destruct (decode_exact _ _) as [d |]; [| by intros [= <- <-]]. destruct (Source.register_source _ d). by intros [= <- <-].
  - destruct (decode_exact _ _) as [e |]; [| by intros [= <- <-]]. intros [= <- <-].
    unfold restore_evidence. by repeat case_match.
  - destruct (decode_exact _ _) as [w |]; [| by intros [= <- <-]].
    destruct (result_of_wire w) as [c |]; [| done]. cbn. destruct (history_append _ c). by intros [= <- <-].
  - destruct (decode_exact _ _) as [w |]; [| by intros [= <- <-]].
    destruct (finding_of_wire w) as [f |]; [| done]. cbn. destruct (finding_restore _ f). by intros [= <- <-].
Qed.

Lemma restore_records_expected records r status r' :
  restore_records records r = Some (status, r') -> expected_view r' = expected_view r /\ rt_ledger r' = rt_ledger r.
Proof.
  revert r. induction records as [| record records IH]; intros r; cbn [restore_records]; [by intros [= _ <-] |].
  destruct (restore_record record r) as [[[[] | e] r1] |] eqn:E; [| | done].
  - apply restore_record_expected in E as [E El]. intros [-> ->]%IH. by split.
  - apply restore_record_expected in E as [E El]. by intros [= _ <-].
Qed.

Lemma restorable_view r r' :
  observed_view r' = observed_view r -> concluded_view r' = concluded_view r -> restorable r -> restorable r'.
Proof.
  intros Eo Ec (H1 & H2 & H3 & H4 & H5). pose proof Ec as E. unfold concluded_view in E. injection E as E _ _.
  unfold restorable, limits_of in *. rewrite E.
  split_and!; [done | done | done | by apply (observed_ok_view r) | by apply (concluded_ok_view r)].
Qed.

(** The three ends of [start]: refused, failed in the middle, or running with
    nothing expected. *)
Inductive start_case (r : Runtime) (status : Status) (r' : Runtime) : Prop :=
| start_refused : status <> ok -> r' = r -> start_case r status r'
| start_fails r1 : status <> ok -> r' = set_state RuntimeFailed r1 -> rt_config r1 = rt_config r ->
    expected_view r1 = expected_view r -> rt_ledger r1 = rt_ledger r -> (restorable r -> restorable r1) ->
    start_case r status r'
| start_runs r1 : status = ok -> r' = forget_expected r1 -> rt_config r1 = rt_config r ->
    rt_ledger r1 = rt_ledger r -> (restorable r -> restorable r1) -> start_case r status r'.

Lemma start_cases r status r' : start r = Some (status, r') -> start_case r status r'.
Proof.
  unfold start. case_bool_decide; [intros [= <- <-]; by apply start_refused |].
  case_bool_decide; [intros [= <- <-]; by apply start_refused |].
  destruct (_ || _); [intros [= <- <-]; by apply start_refused |].
  destruct (start_pool _ _) as [started pool]. set (r0 := set_pool (Some pool) r).
  assert (restorable r -> restorable r0) as Hk0 by (by apply restorable_view).
  destruct started as [[] | e].
  2:{ intros [= <- <-]. by eapply (start_fails _ _ _ r0). }
  destruct (cfg_persist (rt_config r)); [| intros [= <- <-]; by eapply (start_runs _ _ _ r0)].
  assert (expected_view (open_store r0).2 = expected_view r /\ observed_view (open_store r0).2 = observed_view r /\
    concluded_view (open_store r0).2 = concluded_view r) as (Ke & Ko & Kc).
  { split_and!; [ apply (open_store_keeps expected_view) with (r := r0) | apply (open_store_keeps observed_view) with (r := r0)
                | apply (open_store_keeps concluded_view) with (r := r0) ]; reflexivity. }
  destruct (open_store r0) as [[[] | e] r1]; cbn [snd] in Ke, Ko, Kc;
    assert (restorable r -> restorable r1) as Hk by (by apply restorable_view);
    assert (rt_config r1 = rt_config r) as Hc by (unfold concluded_view in Kc; by injection Kc);
    assert (rt_ledger r1 = rt_ledger r) as Hled by (unfold observed_view in Ko; by injection Ko).
  2:{ intros [= <- <-]. by eapply (start_fails _ _ _ r1). }
  destruct (cfg_load_evidence_on_start _); [| intros [= <- <-]; by eapply (start_runs _ _ _ r1)].
  unfold restore_from_store. destruct (rt_store r1) as [store |].
  2:{ intros [= <- <-]. by eapply (start_fails _ _ _ r1). }
  unfold run_io. destruct (read_all store (rt_world r1)) as [[records | e] w];
    assert (restorable r -> restorable (set_world w r1)) as Hk1 by (intros ?; by apply (restorable_view r1), Hk).
  2:{ intros [= <- <-]. by eapply (start_fails _ _ _ (set_world w r1)). }
  destruct (restore_records records (set_world w r1)) as [[[[] | e] r2] |] eqn:E; [| | done];
    pose proof (restore_records_expected _ _ _ _ E) as [Ee El]; cbn [rt_ledger set_world] in El; rewrite Hled in El;
    assert (rt_config r2 = rt_config r /\ (restorable r -> restorable r2)) as [Hc2 Hk2] by
      (split; [unfold expected_view in Ee; injection Ee; intros; by rewrite <- Hc |
               intros Hr; by apply restore_records_ok in E as [? _]; [| apply (restorable_view r1), Hk]]).
  - intros [= <- <-]. by eapply (start_runs _ _ _ r2).
  - intros [= <- <-]. eapply (start_fails _ _ _ r2); try done. by rewrite Ee.
Qed.

(** ** The invariant *)

(** The limits that [create] lets through, with room for a finding. *)
Definition config_ok (config : RuntimeConfig) : Prop :=
  limits_ok (cfg_limits config) /\ 0 < max_findings (cfg_limits config).

Record runtime_ok (r : Runtime) : Prop := mk_runtime_ok {
  rk_observed : observed_ok r;
  rk_expected : expected_ok r;
  rk_concluded : concluded_ok r
}.

Lemma config_ok_limits config : config_ok config ->
  0 <= max_evidence_per_comparison (cfg_limits config) /\ history_limits_ok (cfg_limits config) /\
  0 < max_findings (cfg_limits config).
Proof. intros [Hl Hf]. unfold limits_ok, u_ok in Hl. unfold history_limits_ok. destruct_and!. by split_and!. Qed.

Lemma runtime_ok_restorable r : config_ok (rt_config r) -> runtime_ok r -> restorable r.
Proof. intros (H1 & H2 & H3)%config_ok_limits [? ? ?]. by split_and!. Qed.

Lemma runtime_ok_conclusive r : config_ok (rt_config r) -> runtime_ok r -> conclusive r.
Proof. intros (H1 & H2 & H3)%config_ok_limits [? ? ?]. by split_and!. Qed.

Lemma new_runtime_ok config clock world : config_ok config -> runtime_ok (runtime_new config clock world).
Proof.
  intros (H1 & [H2 H3] & H4)%config_ok_limits. split.
  - constructor; cbn; [| constructor | done]. split; [constructor | done].
  - by constructor.
  - constructor; cbn; [done | | done |].
    + split; cbn; [done | by intros x ?%elem_of_nil].
    + constructor; cbn; [constructor | done | lia].
Qed.

Lemma forget_expected_ok r : restorable r -> runtime_ok (forget_expected r).
Proof.
  intros (_ & _ & _ & Ho & Hc). split; [by apply (observed_ok_view r) | by constructor | by apply (concluded_ok_view r)].
Qed.

(** Steps that leave the parts of the invariant alone, or only the expected and
    the observed one. *)
Lemma runtime_ok_views r r' :
  observed_view r' = observed_view r -> expected_view r' = expected_view r -> concluded_view r' = concluded_view r ->
  runtime_ok r -> runtime_ok r'.
Proof.
  intros Ho He Hc [H1 H2 H3].
  split; [by apply (observed_ok_view r) | by apply (expected_ok_view r) | by apply (concluded_ok_view r)].
Qed.

Lemma comparison_ok {A} (m : Run A) r :
  Keeps expected_view m -> Keeps observed_view m -> conclusive (m r).2 -> runtime_ok r -> runtime_ok (m r).2.
Proof.
  intros He Ho (_ & _ & Hc) [H1 H2 _].
  split; [by apply (observed_ok_view r) | by apply (expected_ok_view r) | done].
Qed.

Lemma stop_pool_config r : expected_view (stop_pool r) = expected_view r /\ observed_view (stop_pool r) = observed_view r /\
  concluded_view (stop_pool r) = concluded_view r.
Proof. unfold stop_pool. by repeat case_match. Qed.

Lemma stop_end_keeps {T} (view : Runtime -> T) :
  (forall n r, view (set_ticks n r) = view r) -> (forall w r, view (set_world w r) = view r) ->
  (forall s r, view (set_store s r) = view r) -> (forall s r, view (set_state s r) = view r) -> Keeps view stop_end.
Proof.
  intros Ht Hw Hs Hm. unfold stop_end. do 2 (apply keeps_bind; [apply keeps_ask |]; intros ?).
  apply keeps_bind.
  - destruct a as [s |]; [| apply keeps_ret]. destruct (cfg_mark_store_clean_on_stop a0); [| apply keeps_ret].
    apply keeps_bind; [by apply keeps_now |]. intros at_. apply keeps_bind; [by apply keeps_io |]. intros result.
    apply keeps_bind; [apply keeps_change; auto | intros; apply keeps_ret].
  - intros [x | e]; (apply keeps_bind; [apply keeps_change; auto | intros; apply keeps_ret]).
Qed.

(** The configuration is fixed at construction. *)
Lemma step_config r r' : runtime_step r r' -> rt_config r' = rt_config r.
Proof.
  assert (forall T (view : Runtime -> T) (f : T -> RuntimeConfig) r r',
    (forall r, rt_config r = f (view r)) -> view r' = view r -> rt_config r' = rt_config r) as Hv
    by (intros T view f r1 r2 Hf E; by rewrite !Hf, E).
  pose proof (fun r r' => Hv _ expected_view (fun v => v.1.1.1.1.1.1.1) r r' (fun _ => eq_refl)) as He.
  pose proof (fun r r' => Hv _ observed_view (fun v => v.1.1.1.1) r r' (fun _ => eq_refl)) as Ho.
  clear Hv. intros [r0 status r1 Hs | r0 | r0 | r0 | r0 d | r0 g | r0 g | r0 e | r0 group | r0 path | r0 | r0 batch
    | r0 pool tr pool' Hp Hs | r0 completed | r0 q | r0 id | r0 | r0].
  - apply start_cases in Hs as [? -> | ? ? -> Hc _ _ _ | ? ? -> Hc _ _]; done.
  - unfold stop_begin. by case_bool_decide.
  - apply He, stop_pool_config.
  - by apply He, stop_end_keeps.
  - apply He, register_expected.
  - apply Ho, publish_topology_observed.
  - apply Ho, publish_routes_observed.
  - apply He, ingest_expected.
  - apply He, (comparisons_keep expected_view); intros; apply compare_bucket_expected.
  - apply He, (comparisons_keep expected_view); intros; apply compare_bucket_expected.
  - apply He, (comparisons_keep expected_view); intros; apply compare_bucket_expected.
  - unfold submit_batch. repeat case_match; done.
  - done.
  - done.
  - unfold history, run_bind, ask. by case_match.
  - apply He, acknowledge_expected.
  - apply He, prune_expected.
  - by apply He, flush_keeps.
Qed.

Lemma comparisons_ok r : config_ok (rt_config r) -> runtime_ok r ->
  (forall group, runtime_ok (compare_group group r).2) /\ (forall path, runtime_ok (compare_path path r).2) /\
  runtime_ok (compare_all r).2.
Proof.
  intros Hcfg Hr. pose proof (runtime_ok_conclusive r Hcfg Hr) as Hcon.
  destruct (comparisons_keep expected_view) as (Eg & Ep & Ea); [intros; apply compare_bucket_expected |].
  destruct (comparisons_keep observed_view) as (Og & Op & Oa); [intros; apply compare_bucket_observed |].
  destruct (comparisons_preserve conclusive) with (r := r) as (Cg & Cp & Ca);
    [intros key r'; apply compare_bucket_conclusive | done |].
  by split_and!; intros; apply comparison_ok.
Qed.

Lemma started_ok r status r' : config_ok (rt_config r) -> runtime_ok r -> start r = Some (status, r') -> runtime_ok r'.
Proof.
  intros Hcfg Hr Hs. pose proof (runtime_ok_restorable r Hcfg Hr) as Hrest.
  apply start_cases in Hs as [? -> | r2 ? -> Hc He _ Hk | r2 ? -> Hc _ Hk]; [done | | by apply forget_expected_ok, Hk].
  destruct (Hk Hrest) as (_ & _ & _ & Ho & Hco).
  split; [by apply (observed_ok_view r2) | by apply (expected_ok_view r), Hr | by apply (concluded_ok_view r2)].
Qed.

Lemma step_ok r r' : config_ok (rt_config r) -> runtime_step r r' -> runtime_ok r -> runtime_ok r'.
Proof.
  intros Hcfg Hstep Hr. pose proof (runtime_ok_conclusive r Hcfg Hr) as Hcon.
  pose proof (config_ok_limits _ Hcfg) as (Hl & _ & _). pose proof (comparisons_ok r Hcfg Hr) as (Hg & Hp & Ha).
  destruct Hstep as [r status r1 Hs | r | r | r | r d | r g | r g | r e | r group | r path | r | r batch
    | r pool tr pool' Hpool Hs | r completed | r q | r id | r | r]; try done.
  - by eapply started_ok.
  - unfold stop_begin. case_bool_decide; [done |]. by apply (runtime_ok_views r).
  - destruct (stop_pool_config r) as (E1 & E2 & E3). by apply (runtime_ok_views r).
  - by apply (runtime_ok_views r); [apply stop_end_keeps .. |].
  - destruct Hr as [H1 H2 H3]. split; [by apply register_observed | |].
    + apply (expected_ok_view r); [apply register_expected | done].
    + apply (concluded_ok_view r); [apply register_concluded | done].
  - destruct Hr as [H1 H2 H3]. split; [| by apply publish_topology_expected |].
    + apply (observed_ok_view r); [apply publish_topology_observed | done].
    + apply (concluded_ok_view r); [apply publish_topology_concluded | done].
  - destruct Hr as [H1 H2 H3]. split; [| by apply publish_routes_expected |].
    + apply (observed_ok_view r); [apply publish_routes_observed | done].
    + apply (concluded_ok_view r); [apply publish_routes_concluded | done].
  - destruct Hr as [H1 H2 H3]. split; [by apply ingest_observed | |].
    + apply (expected_ok_view r); [apply ingest_expected | done].
    + apply (concluded_ok_view r); [apply ingest_concluded | done].
  - unfold submit_batch. repeat case_match; try done; by apply (runtime_ok_views r).
  - by apply (runtime_ok_views r).
  - by apply (runtime_ok_views r).
  - unfold history, run_bind, ask. case_match; [done | by apply (runtime_ok_views r)].
  - apply comparison_ok; [apply acknowledge_expected | apply acknowledge_observed | by apply acknowledge_conclusive | done].
  - apply comparison_ok; [apply prune_expected | apply prune_observed | by apply prune_conclusive | done].
  - by apply (runtime_ok_views r); [apply flush_keeps .. |].
Qed.

Lemma reachable_config config r : reachable config r -> rt_config r = config.
Proof.
  induction 1 as [clock world r Hc | r r' _ IH Hs]; [| by rewrite (step_config _ _ Hs)].
  unfold create in Hc. destruct (limits_validate _); [| done]. destruct (comparison_policy_validate _); [| done].
  destruct clock; [| done]. cbn [result_bind] in Hc. destruct (_ && _); [done |]. by injection Hc as <-.
Qed.

Lemma reachable_ok config r : config_ok config -> reachable config r -> runtime_ok r.
Proof.
  intros Hcfg Hr. induction Hr as [clock world r Hc | r r' Hr IH Hs].
  - unfold create in Hc. destruct (limits_validate _); [| done]. destruct (comparison_policy_validate _); [| done].
    destruct clock; [| done]. cbn [result_bind] in Hc. destruct (_ && _); [done |]. injection Hc as <-.
    by apply new_runtime_ok.
  - apply (step_ok r); [by rewrite (reachable_config _ _ Hr) | done | done].
Qed.

(** ** The invariant of every reachable state *)

(** C4. The state of a runtime is well formed in every reachable state, whatever
    the calls, their order and the failures of the files: the evidence is kept in
    bounded buckets of distinct, validated records sealed with the identity of
    their content; the registry holds valid sources; the current generations went
    through [finalize], the index is the one of the current topology, and neither
    generation is ahead of the current epoch; the history is bounded, and the
    findings are bounded and filed under the identity of their content.  The
    configuration is the one of construction. *)
Theorem runtime_state_well_formed (config : RuntimeConfig) (r : Runtime) :
  config_ok config -> reachable config r ->
  rt_config r = config /\ observed_ok r /\ expected_ok r /\ concluded_ok r.
Proof.
  intros Hc Hr. split; [by apply reachable_config |]. by destruct (reachable_ok config r Hc Hr).
Qed.

(** ** What a verdict rests on *)

(** The context a comparison is made in. *)
Definition context_at (r : Runtime) : ComparisonContext := (make_context r).1.

Lemma compare_bucket_answer key keep r result r' :
  compare_bucket key keep r = (Ok result, r') ->
  compare (limits_of r) (cfg_comparison (rt_config r)) (bucket_request r key) (context_at r) = Ok result.
Proof.
  unfold compare_bucket, run_bind at 1, ask at 1. unfold run_bind at 1, ask at 1. unfold run_bind at 1.
  unfold context_at, limits_of. destruct (make_context r) as [context r1]. cbn [fst].
  destruct (compare _ _ _ context) as [a | e]; [| done]. unfold run_bind at 1, count, change.
  destruct keep; cbn [negb]; [| by intros [= -> _]].
  unfold run_try, run_bind. destruct (record_result _ _) as [[[] | e] r2]; by intros [= -> _].
Qed.

(** A definite outcome needs routes of the current epoch and incarnation. *)
Lemma definite_routes key keep r result r' :
  compare_bucket key keep r = (Ok result, r') -> cr_outcome result = Match \/ cr_outcome result = Divergent ->
  exists g, rt_routes r = Some g /\ route_id g = sk_generation key /\ route_epoch g = rt_epoch r /\
    route_incarnation g = rt_incarnation r.
Proof.
  intros (_ & _ & _ & ->)%compare_bucket_answer%compare_ok Ho.
  apply answer_definite in Ho as (g & group & w & rest & Hm & _). exists g.
  by apply matching_routes_spec in Hm.
Qed.

(** No record of the bucket is from a source with a gap. *)
Definition without_gaps (r : Runtime) (bucket : list ObservedPathEvidence) : Prop :=
  forall e, e ∈ bucket -> om_find (ev_source e) (rt_source_has_gap r) <> Some true.

(** C2. A [Match] of the runtime is grounded in its own state.  Whenever a
    comparison of a bucket reports [Match], in any reachable state of a checked
    configuration: the current routes are the generation of the bucket, of the
    current epoch and incarnation, and went through [finalize]; no source of the
    bucket has an unrepaired gap; and some record of the bucket, valid, sealed,
    from a registered source with at least that authority, of the current epoch
    and incarnation, is fresh at the reading of the clock the comparison took
    under the configured policy of that source, the one its descriptor and the
    configuration of the runtime determine, and agrees hop by hop with the whole of
    a path that the group of the bucket's subject declares in these routes. *)
Theorem runtime_match_grounded (config : RuntimeConfig) (r : Runtime) key keep result r' :
  config_ok config -> reachable config r ->
  compare_bucket key keep r = (Ok result, r') -> cr_outcome result = Match ->
  exists g group p e d,
    rt_routes r = Some g /\ route_id g = sk_generation key /\ route_epoch g = rt_epoch r /\
    route_incarnation g = rt_incarnation r /\ (exists h, route_finalize (limits_of r) h = Ok g) /\
    without_gaps r (bucket_of key (rt_evidence r)) /\
    e ∈ bucket_of key (rt_evidence r) /\ evidence_validate (limits_of r) e = ok /\ ev_id e = compute_evidence_id e /\
    registry_find (rt_sources r) (ev_source e) = Ok d /\
    authority_code Advisory <= authority_code (ev_authority e) <= authority_code (source_authority d) /\
    ev_epoch e = rt_epoch r /\ ev_claimed_incarnation e = rt_incarnation r /\
    fa_state (assess_evidence e (rt_clock r (rt_ticks r)) (effective_policy (cfg_comparison (rt_config r)) d)) = Fresh /\
    Compare.resolve_subject (bucket_request r key) g = Some group /\
    p ∈ paths g /\ path_id p ∈ group_members group /\ path_hops p <> [] /\
    traces_conform (path_hops p) (map (correlate (context_at r)) (ev_hops e)) /\
    (length (path_hops p) <= length (ev_hops e))%nat.
Proof.
  intros Hcfg Hreach Hcmp Ho. pose proof (reachable_ok _ _ Hcfg Hreach) as [Hob Hex _].
  apply compare_bucket_answer in Hcmp.
  assert (forall g, ctx_routes (context_at r) = Some g -> finalised g) as Hfin.
  { intros g Hg. destruct (ex_routes r Hex g Hg) as [[h Hh] _]. by exists (limits_of r), h. }
  destruct (match_compliance _ _ _ _ _ Hcmp Ho Hfin) as
    (g & group & w & Hg & Hid & Hep & Hinc & Hsub & _ & Hgap & Hacc & _ & Hw & Hau & (p & Hp & Hm & Hne & Hc & Hl) & _).
  destruct (Hacc w Hw) as (Hin & [Hv (d & Hd & Hle) Hu] & Hfr & _). destruct Hu as (He1 & He2 & _).
  change (registry_find (rt_sources r) (ev_source (w_evidence w)) = Ok d) in Hd.
  unfold policy_for in Hfr. change (ctx_sources (context_at r)) with (Some (rt_sources r)) in Hfr.
  cbv beta iota in Hfr. rewrite Hd in Hfr.
  destruct (accepted_evidence _ _ _ _ _ _ Hw) as (_ & Hadm & Ew).
  destruct (judge_admissible _ _ _ _ _ _ Hadm) as (Hhops & _). rewrite <- Ew in Hhops. rewrite Hhops in Hc, Hl.
  rewrite length_map in Hl. destruct (ex_routes r Hex g Hg) as [Hh _].
  exists g, group, p, (w_evidence w), d. split_and!; try done; try apply Hle.
  - intros e Hel Hgp. apply not_true_iff_false in Hgap. apply Hgap. cbn [rq_source_sequence_gap bucket_request].
    apply existsb_elem. exists e. split; [done |]. by rewrite Hgp.
  - cbn [rq_evidence bucket_request] in Hin. unfold bucket_of in Hin.
    destruct (om_find key (rt_evidence r)) eqn:E; [| by apply elem_of_nil in Hin].
    destruct (ob_buckets r Hob key l E) as (_ & _ & Hall). rewrite Forall_elem in Hall. by apply Hall.
Qed.

(** ** Fencing and the restart *)

Definition follows : Runtime -> Runtime -> Prop := rtc runtime_step.

(** Steps other than a start and the two publications leave the expected state alone. *)
Lemma step_expected r r' : runtime_step r r' ->
  expected_view r' = expected_view r \/ (exists status, start r = Some (status, r')) \/
  (exists g, r' = (publish_topology g r).2) \/ (exists g, r' = (publish_routes g r).2).
Proof.
  intros [r0 status r1 Hs | r0 | r0 | r0 | r0 d | r0 g | r0 g | r0 e | r0 group | r0 path | r0 | r0 batch
    | r0 pool tr pool' Hp Hs | r0 completed | r0 q | r0 id | r0 | r0].
  - right. left. by exists status.
  - left. unfold stop_begin. by case_bool_decide.
  - left. apply stop_pool_config.
  - left. by apply stop_end_keeps.
  - left. apply register_expected.
  - right. right. left. by exists g.
  - right. right. right. by exists g.
  - left. apply ingest_expected.
  - left. apply (comparisons_keep expected_view); intros; apply compare_bucket_expected.
  - left. apply (comparisons_keep expected_view); intros; apply compare_bucket_expected.
  - left. apply (comparisons_keep expected_view); intros; apply compare_bucket_expected.
  - left. unfold submit_batch. repeat case_match; done.
  - by left.
  - by left.
  - left. unfold history, run_bind, ask. by case_match.
  - left. apply acknowledge_expected.
  - left. apply prune_expected.
  - left. by apply flush_keeps.
Qed.

(** The expected state only moves forward. *)
Record advances (r r' : Runtime) : Prop := mk_advances {
  av_epoch : valid (rt_epoch r) = true -> id_lt (rt_epoch r') (rt_epoch r) = false;
  av_topology : forall t t', rt_topology r = Some t -> rt_topology r' = Some t' ->
    topo_epoch t = topo_epoch t' -> topo_incarnation t = topo_incarnation t' ->
    id_lt (topo_revision t') (topo_revision t) = false;
  av_routes : forall g g', rt_routes r = Some g -> rt_routes r' = Some g' ->
    route_epoch g = route_epoch g' -> route_incarnation g = route_incarnation g' ->
    id_lt (route_revision g') (route_revision g) = false
}.

Lemma id_lt_irrefl {tag} (i : StrongId tag) : id_lt i i = false.
Proof. apply Z.ltb_irrefl. Qed.

Lemma advances_view r r' : expected_view r' = expected_view r -> advances r r'.
Proof.
  intros E. unfold expected_view in E. injection E as _ Et _ Er Ee _ _ _.
  constructor; rewrite ?Et, ?Er, ?Ee; intros; simplify_eq; apply id_lt_irrefl.
Qed.

Lemma publish_topology_advances g r : advances r (publish_topology g r).2.
Proof.
  pose proof (publish_topology_cases g r) as Hc. destruct (publish_topology g r) as [status r']. cbn [snd].
  destruct Hc as [E | (t & index & Hf & (_ & He & Hrev)%topology_admitted_inv & _ & E)]; [by apply advances_view |].
  unfold expected_view in E. injection E as _ Et _ Er Ee _ _ _. constructor; rewrite ?Et, ?Er, ?Ee; cbn.
  - intros Hv. by rewrite Hv in He.
  - intros t0 t' Ht0 [= <-] H1 H2. by apply Hrev.
  - intros h h' Hh Hh' _ _. simplify_eq. apply id_lt_irrefl.
Qed.

Lemma publish_routes_advances g r : advances r (publish_routes g r).2.
Proof.
  pose proof (publish_routes_cases g r) as Hc. destruct (publish_routes g r) as [status r']. cbn [snd].
  destruct Hc as [E | (h & Hf & (_ & _ & He & Hrev)%routes_admitted_inv & E)]; [by apply advances_view |].
  unfold expected_view in E. injection E as _ Et _ Er Ee _ _ _. constructor; rewrite ?Et, ?Er, ?Ee; cbn.
  - intros Hv. by rewrite Hv in He.
  - intros t0 t' Ht0 Ht1 _ _. simplify_eq. apply id_lt_irrefl.
  - intros h0 h' Hh [= <-] H1 H2. by apply Hrev.
Qed.

(** C11. What is superseded does not come back.  Every step of the runtime other
    than a start moves the expected state forward: the current epoch does not go
    back to an older one, and a generation of the same epoch and incarnation is
    never replaced by an older revision.  A publication of an older epoch is
    refused and changes nothing at all. *)
Theorem expected_state_advances (r : Runtime) :
  (forall r', runtime_step r r' -> (exists status, start r = Some (status, r')) \/ advances r r') /\
  (forall g h, route_finalize (limits_of r) g = Ok h -> valid (rt_epoch r) && id_lt (route_epoch h) (rt_epoch r) = true ->
     exists e, publish_routes g r = (Err e, r)) /\
  (forall g t, topology_finalize (limits_of r) g = (ok, t) -> valid (rt_epoch r) && id_lt (topo_epoch t) (rt_epoch r) = true ->
     exists e, publish_topology g r = (Err e, r)).
Proof.
  split_and!.
  - intros r' [E | [Hs | [[g ->] | [g ->]]]]%step_expected.
    + right. by apply advances_view.
    + by left.
    + right. apply publish_topology_advances.
    + right. apply publish_routes_advances.
  - intros g h Hf He. unfold publish_routes, run_bind at 1, ask at 1. rewrite Hf. unfold run_bind, ask.
    unfold routes_admitted. destruct (negb (registry_contains _ _)); [by eexists |].
    destruct (rt_topology r) as [t |]; [| by eexists]. destruct (negb (bool_decide _)); [by eexists |].
    rewrite He. by eexists.
  - intros g t Hf He. unfold publish_topology, run_bind at 1, ask at 1. rewrite Hf. cbn [ok]. unfold run_bind, ask.
    unfold topology_admitted. destruct (negb (registry_contains _ _)); [by eexists |]. rewrite He. by eexists.
Qed.

(** Where the current routes come from. *)
Lemma step_routes_origin r r' h :
  runtime_step r r' -> rt_routes r' = Some h ->
  rt_routes r = Some h \/
  exists g, r' = (publish_routes g r).2 /\ route_finalize (limits_of r) g = Ok h /\ routes_admitted r h = Ok false.
Proof.
  assert (forall r r', expected_view r' = expected_view r -> rt_routes r' = rt_routes r) as Hview
    by (intros r1 r2 E; unfold expected_view in E; by injection E).
  intros [E | [[status Hs] | [[g ->] | [g ->]]]]%step_expected Hh.
  - left. by rewrite <- (Hview _ _ E).
  - apply start_cases in Hs as [? -> | r2 ? -> Hc He _ Hk | r2 ? -> Hc _ Hk]; [by left | | done].
    left. rewrite <- (Hview _ _ He). exact Hh.
  - pose proof (publish_topology_cases g r) as Hc. destruct (publish_topology g r) as [status r'].
    cbn [snd] in *. destruct Hc as [E | (t & index & _ & _ & _ & E)]; left; [by rewrite <- (Hview _ _ E) |].
    rewrite (Hview _ _ E) in Hh. exact Hh.
  - pose proof (publish_routes_cases g r) as Hc. destruct (publish_routes g r) as [status r'] eqn:Ep.
    destruct Hc as [E | (k & Hf & Ha & E)]; [left; by rewrite <- (Hview _ _ E) |].
    right. cbn [snd] in *. rewrite (Hview _ _ E) in Hh. injection Hh as <-. exists g. by rewrite Ep.
Qed.

Lemma routes_origin r r' h :
  follows r r' -> rt_routes r' = Some h ->
  rt_routes r = Some h \/
  exists ra g, follows r ra /\ follows (publish_routes g ra).2 r' /\
    route_finalize (limits_of ra) g = Ok h /\ routes_admitted ra h = Ok false.
Proof.
  intros Hf. revert h. induction Hf as [r0 | r0 r1 r2 Hs Hf IH]; intros h Hh; [by left |].
  destruct (IH h Hh) as [Hh1 | (ra & g & H1 & H2 & H3)].
  - destruct (step_routes_origin _ _ _ Hs Hh1) as [? | (g & -> & H)]; [by left |].
    right. by exists r0, g.
  - right. exists ra, g. split; [by eapply rtc_l | done].
Qed.

(** C3. A restart forgets what was expected.  After a successful start no
    topology, no routes and no epoch are current, and a comparison cannot report
    [Match] or [Divergent] before an authority publishes again: whatever happens
    in between, a definite outcome rests on routes that were published, finalized
    and admitted after the start, for a topology that was current then. *)
Theorem verdict_after_restart (r r0 r1 r2 : Runtime) key keep result :
  start r = Some (ok, r0) -> follows r0 r1 -> compare_bucket key keep r1 = (Ok result, r2) ->
  cr_outcome result = Match \/ cr_outcome result = Divergent ->
  rt_state r0 = Running /\ rt_topology r0 = None /\ rt_routes r0 = None /\ valid (rt_epoch r0) = false /\
  exists ra g h, follows r0 ra /\ follows (publish_routes g ra).2 r1 /\ route_finalize (limits_of ra) g = Ok h /\
    (exists t, rt_topology ra = Some t /\ route_topology h = topo_id t) /\
    rt_routes r1 = Some h /\ route_id h = sk_generation key /\ route_epoch h = rt_epoch r1.
Proof.
  intros Hs Hf Hc Ho. assert (exists rs, r0 = forget_expected rs) as [rs ->].
  { apply start_cases in Hs as [Hne | rs Hne | rs _ ->]; [done | done | by exists rs]. }
  split_and!; try done. destruct (definite_routes _ _ _ _ _ Hc Ho) as (h & Hh & Hid & Hep & _).
  destruct (routes_origin _ _ h Hf Hh) as [? | (ra & g & H1 & H2 & H3 & Ha)]; [done |].
  apply routes_admitted_inv in Ha as (_ & Ht & _). exists ra, g, h. by split_and!.
Qed.

(** ** Evidence *)

(** A bucket after a change to the map of buckets. *)
Lemma bucket_of_insert key key' bucket m :
  bucket_of key' (om_insert key bucket m) = if decide (key' = key) then bucket else bucket_of key' m.
Proof.
  unfold bucket_of. destruct (decide (key' = key)) as [-> | Hne]; [by rewrite om_find_insert |].
  by rewrite om_find_insert_ne by done.
Qed.

(** C10. Every record gets an answer, and the answer says what became of it.  A
    record that is accepted and persisted was valid, from a registered source of
    its surface and with at least its authority, in sequence, and is, sealed, the
    newest record of the bucket of its subject, which it did not hold before and
    which had room.  Every other answer leaves the content of every bucket as it
    was; it is an acceptance only when the bucket already holds the record. *)
Theorem ingest_evidence_spec (e : ObservedPathEvidence) (r : Runtime) :
  let r' := (ingest_evidence e r).2 in
  exists result, (ingest_evidence e r).1 = Ok result /\
    if ir_persisted result then
      ir_accepted result = true /\ ir_id result = ev_id (seal e) /\
      evidence_validate (limits_of r) e = ok /\
      (exists d, registry_find (rt_sources r) (ev_source e) = Ok d /\
         authority_code (ev_authority e) <= authority_code (source_authority d) /\ source_surface d = ev_surface e) /\
      Source.verdict (ledger_observe (rt_ledger r) (ev_source e) (ev_incarnation e) (ev_sequence e)).1 <> Replay /\
      exists key, resolve_subject (rt_routes r) (seal e) = Ok key /\
        ~ ev_id (seal e) ∈ map ev_id (bucket_of key (rt_evidence r)) /\
        Z.of_nat (length (bucket_of key (rt_evidence r))) < max_evidence_per_comparison (limits_of r) /\
        bucket_of key (rt_evidence r') = bucket_of key (rt_evidence r) ++ [seal e] /\
        forall key', key' <> key -> bucket_of key' (rt_evidence r') = bucket_of key' (rt_evidence r)
    else
      (forall key, bucket_of key (rt_evidence r') = bucket_of key (rt_evidence r)) /\
      (ir_accepted result = true -> exists key, resolve_subject (rt_routes r) (seal e) = Ok key /\
         ev_id (seal e) ∈ map ev_id (bucket_of key (rt_evidence r'))).
Proof.
  cbv zeta. destruct (ingest_cases e r) as (result & Hout & Hc & Hs & Hcase). exists result. split; [exact Hout |].
  destruct Hcase as [refusal add ? ? Ha Hp _ He | ? ? Ha _ Hp _ He | err ? ? Ha Hp _ He
    | key Href Hv Hk Hlt Hnew Ha Hp Hid _ He | key Href Hv Hk Ha Hp _ He]; rewrite Hp.
  - rewrite He, Ha. by split.
  - rewrite He, Ha. by split.
  - rewrite He, Ha. by split.
  - apply ingest_refusal_none in Href as (Hval & Hd). split_and!; try done. exists key. rewrite He.
    split_and!; [done | by apply has_evidence_false | done | by rewrite bucket_of_insert, decide_True |].
    intros key' Hne. by rewrite !bucket_of_insert, !decide_False.
  - assert (forall k, bucket_of k (rt_evidence (ingest_evidence e r).2) = bucket_of k (rt_evidence r)) as Hb.
    { intros k. rewrite He, bucket_of_insert. by case_decide; subst. }
    split; [done |]. intros Hacc. exists key. split; [done |]. rewrite Hb.
    apply Ha in Hacc. apply existsb_elem in Hacc as (x & Hx & Ex). bool_prop. rewrite <- Ex. by apply list_elem_of_fmap_2.
Qed.

(** *** The ledger of the runtime *)

Lemma ingest_ledger e r :
  rt_ledger (ingest_evidence e r).2 = rt_ledger r \/
  ingest_refusal r e = None /\
  rt_ledger (ingest_evidence e r).2 = (ledger_observe (rt_ledger r) (ev_source e) (ev_incarnation e) (ev_sequence e)).2.
Proof. destruct (ingest_cases e r) as (result & _ & _ & _ & []); tauto. Qed.

Lemma step_ledger r r' : runtime_step r r' ->
  rt_ledger r' = rt_ledger r \/ exists e, r' = (ingest_evidence e r).2.
Proof.
  assert (forall r r', observed_view r' = observed_view r -> rt_ledger r' = rt_ledger r) as Hview
    by (intros r1 r2 E; unfold observed_view in E; by injection E).
  intros [r0 status r1 Hs | r0 | r0 | r0 | r0 d | r0 g | r0 g | r0 e | r0 group | r0 path | r0 | r0 batch
    | r0 pool tr pool' Hp Hs | r0 completed | r0 q | r0 id | r0 | r0]; try (right; by eexists); left.
  - apply start_cases in Hs as [? -> | ? ? -> _ _ Hl _ | ? ? -> _ Hl _]; done.
  - unfold stop_begin. by case_bool_decide.
  - apply Hview, stop_pool_config.
  - by apply Hview, stop_end_keeps.
  - unfold register_source, run_bind, ask, change.
    pose proof (store_append_observed SourceRecord (encode_source d) r0) as Hk.
    destruct (store_append SourceRecord (encode_source d) r0) as [[[] | err] r1]; cbn [snd] in Hk; [| by apply Hview].
    destruct (Source.register_source (rt_sources r1) d). by apply Hview in Hk.
  - apply Hview, publish_topology_observed.
  - apply Hview, publish_routes_observed.
  - apply Hview, (comparisons_keep observed_view); intros; apply compare_bucket_observed.
  - apply Hview, (comparisons_keep observed_view); intros; apply compare_bucket_observed.
  - apply Hview, (comparisons_keep observed_view); intros; apply compare_bucket_observed.
  - unfold submit_batch. repeat case_match; done.
  - done.
  - done.
  - unfold history, run_bind, ask. by case_match.
  - apply Hview, acknowledge_observed.
  - apply Hview, prune_observed.
  - by apply Hview, flush_keeps.
Qed.

(** The entry of a source that is at this incarnation, with this sequence behind it. *)
Definition passed (s : SourceId) (i : SourceIncarnationId) (q : SourceSequence) (r : Runtime) : Prop :=
  entry_incarnation (ledger_entry (rt_ledger r) s) = i /\ id_lt (entry_highest (ledger_entry (rt_ledger r) s)) q = false.

Lemma entry_observe_passed entry i q :
  entry_incarnation (entry_observe entry i q).2 = i /\ id_lt (entry_highest (entry_observe entry i q).2) q = false.
Proof.
  unfold entry_observe. destruct (valid (entry_incarnation entry)) eqn:Ev; cbn [negb orb].
  - case_bool_decide as Ei; cbn [negb]; [| by split; [| apply id_lt_irrefl]].
    destruct (id_lt (entry_highest entry) q) eqn:El; cbn [negb snd entry_incarnation entry_highest];
      by split; [| first [apply id_lt_irrefl | done]].
  - by split; [| apply id_lt_irrefl].
Qed.

Lemma entry_observe_grows entry i i' q q' :
  valid i = true -> entry_incarnation entry = i -> id_lt (entry_highest entry) q = false ->
  entry_incarnation (entry_observe entry i' q').2 = i -> id_lt (entry_highest (entry_observe entry i' q').2) q = false.
Proof.
  intros Hv Hi Hq. rewrite (proj1 (entry_observe_passed entry i' q')). intros ->.
  unfold entry_observe. rewrite Hi, Hv, bool_decide_eq_true_2 by done. cbn [negb orb].
  destruct (id_lt (entry_highest entry) q') eqn:El; cbn [negb snd entry_highest]; [| done].
  unfold id_lt in *. bool_prop. apply Z.ltb_ge. lia.
Qed.

Lemma entry_observe_replay entry i q :
  valid i = true -> entry_incarnation entry = i -> id_lt (entry_highest entry) q = false ->
  Source.verdict (entry_observe entry i q).1 = Replay.
Proof. intros Hv Hi Hq. unfold entry_observe. by rewrite Hi, Hv, bool_decide_eq_true_2, Hq. Qed.

Lemma step_passed s i q r r' :
  valid i = true -> runtime_step r r' -> passed s i q r ->
  entry_incarnation (ledger_entry (rt_ledger r') s) = i -> passed s i q r'.
Proof.
  intros Hv Hs [Hi Hq] Hi'. split; [done |]. apply step_ledger in Hs as [-> | [e ->]]; [done |].
  destruct (ingest_ledger e r) as [E | [_ E]]; rewrite E in *; [done |].
  rewrite ledger_observe_entry in *. destruct (decide (ev_source e = s)) as [<- | Hne].
  - rewrite bool_decide_eq_true_2 in * by done. exact (entry_observe_grows _ _ _ _ _ Hv Hi Hq Hi').
  - by rewrite bool_decide_eq_false_2 by done.
Qed.

(** C6. A record is taken at most once by one runtime object and one incarnation of
    its source.  Once a record has reached the ledger of a runtime, every later
    delivery to this runtime from the same incarnation of its source with that
    sequence, or an earlier one, is refused and files nothing: whatever operations
    happen in between, as long as the ledger shows that incarnation of the source
    all the time.  Stopping and starting the same object is among the operations,
    it keeps the ledger in memory; a new object begins with a ledger of its own, and
    after another incarnation of the source an old one is accepted again
    ([ledger_accepts_superseded_incarnation]). *)
Theorem evidence_at_most_once (e e' : ObservedPathEvidence) (r r1 : Runtime) :
  ingest_refusal r e = None ->
  rtc (fun a b => runtime_step a b /\ entry_incarnation (ledger_entry (rt_ledger b) (ev_source e)) = ev_incarnation e)
    (ingest_evidence e r).2 r1 ->
  ev_source e' = ev_source e -> ev_incarnation e' = ev_incarnation e -> id_lt (ev_sequence e) (ev_sequence e') = false ->
  exists result, (ingest_evidence e' r1).1 = Ok result /\ ir_accepted result = false /\ ir_persisted result = false /\
    rt_evidence (ingest_evidence e' r1).2 = rt_evidence r1.
Proof.
  intros Href Hrun Es Ei Eq. apply ingest_refusal_none in Href as Hval. destruct Hval as [Hval%evidence_validate_iff _].
  pose proof (wf_incarnation _ _ Hval) as Hv.
  assert (passed (ev_source e) (ev_incarnation e) (ev_sequence e) (ingest_evidence e r).2) as H0.
  { destruct (ingest_cases e r) as (res & _ & _ & _ & Hcase).
    assert (rt_ledger (ingest_evidence e r).2 = (ledger_observe (rt_ledger r) (ev_source e) (ev_incarnation e) (ev_sequence e)).2)
      as El by (destruct Hcase as [? ? Hsome | | | |]; [by rewrite Href in Hsome | assumption ..]).
    unfold passed. rewrite El, ledger_observe_entry, bool_decide_eq_true_2 by done. apply entry_observe_passed. }
  assert (passed (ev_source e) (ev_incarnation e) (ev_sequence e) r1) as [Hi Hq].
  { induction Hrun as [r0 | r0 r2 r3 [Hs Hinc] _ IH]; [done |]. by apply IH, (step_passed _ _ _ r0). }
  destruct (ingest_cases e' r1) as (result & Hout & _ & _ & Hcase). exists result. split; [done |].
  assert (Source.verdict (ledger_observe (rt_ledger r1) (ev_source e') (ev_incarnation e') (ev_sequence e')).1 = Replay) as Hr.
  { unfold ledger_observe. rewrite Es, Ei.
    assert (id_lt (entry_highest (ledger_entry (rt_ledger r1) (ev_source e))) (ev_sequence e') = false) as Hq'
      by (unfold id_lt in *; bool_prop; apply Z.ltb_ge; lia).
    pose proof (entry_observe_replay _ _ _ Hv Hi Hq') as Hrep. by destruct (entry_observe _ _ _). }
  destruct Hcase as [refusal add ? ? Ha Hp _ He | ? ? Ha _ Hp _ He | err ? ? Ha Hp _ He | key ? Hn | key ? Hn]; done.
Qed.

(** ** Witnesses *)

Lemma demo_config_ok : config_ok demo_config.
Proof. split; [vm_compute; intuition discriminate | by vm_compute]. Qed.

Lemma runtime_state_well_formed_witness :
  observed_ok demo_observed /\ expected_ok demo_observed /\ concluded_ok demo_observed /\
  rt_routes demo_observed <> None.
Proof.
  destruct (runtime_state_well_formed demo_config demo_observed demo_config_ok demo_reachable) as (_ & H1 & H2 & H3).
  split_and!; [exact H1 | exact H2 | exact H3 | by vm_compute].
Defined.

Lemma runtime_match_grounded_witness :
  exists g group p e d, rt_routes demo_observed = Some g /\ e ∈ bucket_of demo_key (rt_evidence demo_observed) /\
    registry_find (rt_sources demo_observed) (ev_source e) = Ok d /\
    fa_state (assess_evidence e (rt_clock demo_observed (rt_ticks demo_observed))
      (effective_policy (cfg_comparison (rt_config demo_observed)) d)) = Fresh /\
    p ∈ paths g /\ path_id p ∈ group_members group /\
    traces_conform (path_hops p) (map (correlate (context_at demo_observed)) (ev_hops e)).
Proof.
  destruct demo_match as (result & r' & E & Hm).
  destruct (runtime_match_grounded demo_config demo_observed demo_key true result r' demo_config_ok demo_reachable E
    Hm) as (g & group & p & e & d & Hg & _ & _ & _ & _ & _ & He & _ & _ & Hd & _ & _ & _ & Hf & _ & Hp & Hm' & _ & Hc & _).
  exists g, group, p, e, d. exact (conj Hg (conj He (conj Hd (conj Hf (conj Hp (conj Hm' Hc)))))).
Defined.

Lemma verdict_after_restart_witness :
  exists ra g, follows demo_started ra /\ follows (publish_routes g ra).2 demo_observed.
Proof.
  destruct demo_match as (result & r' & E & Hm).
  destruct (verdict_after_restart demo_new demo_started demo_observed r' demo_key true result demo_start demo_follows E
    (or_introl Hm)) as (_ & _ & _ & _ & ra & g & h & H1 & H2 & _).
  exists ra, g. exact (conj H1 H2).
Defined.

Lemma evidence_at_most_once_witness :
  exists result, (ingest_evidence example_evidence (compare_all demo_observed).2).1 = Ok result /\
    ir_accepted result = false.
Proof.
  assert (ingest_refusal demo_routes example_evidence = None) as H0 by (vm_compute; reflexivity).
  destruct (evidence_at_most_once example_evidence example_evidence demo_routes (compare_all demo_observed).2 H0)
    as (result & H1 & H2 & _); [| reflexivity | reflexivity | reflexivity |].
  - apply rtc_once. split; [apply step_compare_all | vm_compute; reflexivity].
  - exists result. split; [exact H1 | exact H2].
Defined.
