(* ===== verification/RuntimeRestart.v ===== *)
(** Evidence across a restart: a record that was accepted and persisted is in
    the bucket of its subject again after the runtime starts on the same files. *)
From stdpp Require Import gmap.
From S2P Require Import Prelude Errors CheckedArith StdAlgo Digest Canonical Ids TimeModel Limits Source Topology Observed Expected Freshness Divergence Compare Finding History Codec Persistence StoreFormat StoreFiles StoreRuns StoreState Metrics Worker RuntimeState Runtime RuntimeProps RuntimeDemo RuntimePolicy.
#[local] Open Scope pathobs_scope.
#[local] Open Scope Z_scope.

(** ** Writing *)

(** The runtime has an open store with these records, at its own path. *)
Definition persists (r : Runtime) (s : PersistentStore) (records : list StoredRecord) : Prop :=
  rt_store r = Some s /\ store_holds (rt_world r) s records /\ ps_path s = cfg_store_path (rt_config r) /\
  ps_options s = mk_options (limits_of r) false.

(** An append to the store of the runtime adds its record, or fails and changes nothing. *)
Lemma store_append_persists r s records type payload :
  persists r s records -> bytes_ok payload ->
  let '(status, r') := store_append type payload r in
  match status with
  | Ok _ => exists s', persists r' s' (records ++ [next_stored s type payload]) /\ ps_recovery s' = ps_recovery s
  | Err _ => persists r' s records
  end.
Proof.
  intros (Hs & Hh & Hp & Ho) Hb. unfold store_append, run_bind at 1, ask. rewrite Hs. unfold run_bind at 1, run_io.
  destruct (append_check s payload) as [[] | e] eqn:Hc.
  - destruct (store_holds_append _ s records type payload Hh Hb Hc) as (s' & w' & Happ & Hh').
    assert (ps_path s' = ps_path s /\ ps_options s' = ps_options s /\ ps_recovery s' = ps_recovery s) as (E1 & E2 & E3).
    { destruct Hh as (Hcalm & _ & _ & _ & _ & _ & file & pos & Hfile & _).
      rewrite (holding_world (rt_world r) _ _ _ Hcalm Hfile) in Happ.
      destruct (append_run s type payload (rt_world r) file pos Hc) as [p' Hr]. rewrite Hr in Happ. by injection Happ as <- _. }
    rewrite Happ. cbn. exists s'. split; [| done]. unfold persists. cbn. split_and!; [done | done | by rewrite E1 | by rewrite E2].
  - rewrite (append_refused _ _ _ _ _ Hc). by split_and!.
Qed.

Lemma put_bytes_ok bs : bytes_ok bs -> bytes_ok (put_bytes bs).
Proof. intros. apply Forall_app. split; [apply le_bytes_ok | done]. Qed.

Lemma put_seq_ok {A} (put : A -> list Z) l : (forall a, bytes_ok (put a)) -> bytes_ok (put_seq put l).
Proof.
  intros H. apply Forall_app. split; [apply le_bytes_ok |]. induction l as [| a l IH]; [constructor |].
  cbn [flat_map]. apply Forall_app. by split.
Qed.

(** The encoding of a record is a string of bytes. *)
Lemma encode_evidence_bytes e :
  bytes_ok (id_bytes (ev_id e)) -> bytes_ok (bytes_ (ev_payload_digest e)) -> bytes_ok (encode_evidence e).
Proof.
  intros Hid Hd. assert (forall v, byte_ok v -> bytes_ok (put_u8 v)) as Hu by (intros v Hv; by constructor).
  assert (forall b, bytes_ok (put_boolean b)) as Hb by (intros []; by apply Hu).
  assert (forall tag (m : MaybeId tag), bytes_ok (put_maybe m)) as Hm
    by (intros tag m; apply Forall_app_2; [apply Hb | apply le_bytes_ok]).
  assert (forall h, bytes_ok (put_hop h)) as Hh
    by (intros h; unfold put_hop; repeat apply Forall_app_2; first [apply le_bytes_ok | apply Hu, provenance_byte]).
  unfold encode_evidence. rewrite !Forall_app. split_and!;
    first [ apply Hm | apply Hb | apply put_bytes_ok, string_bytes_ok | by apply put_bytes_ok | apply le_bytes_ok
          | by apply put_seq_ok | apply Hu, proof_surface_byte | apply Hu, authority_byte | apply Hu, completeness_byte
          | exact Hd ].
Qed.

(** A record that is persisted was appended to the store. *)
Lemma encode_source_bytes d : bytes_ok (encode_source d).
Proof.
  assert (forall v, byte_ok v -> bytes_ok (put_u8 v)) as Hu by (intros v Hv; by constructor).
  assert (forall b, bytes_ok (put_boolean b)) as Hbool by (intros []; by apply Hu).
  unfold encode_source. rewrite !Forall_app. split_and!;
    first [ apply Hbool | apply put_bytes_ok, string_bytes_ok | apply le_bytes_ok
          | apply Hu, source_kind_byte | apply Hu, proof_surface_byte | apply Hu, authority_byte ].
Qed.

Lemma ingest_appends e r result :
  (ingest_evidence e r).1 = Ok result -> ir_persisted result = true ->
  exists r1 r2, rt_config r1 = rt_config r /\ rt_store r1 = rt_store r /\ rt_world r1 = rt_world r /\
    store_append EvidenceRecord (encode_evidence (seal e)) r1 = (ok, r2) /\
    rt_store (ingest_evidence e r).2 = rt_store r2 /\ rt_world (ingest_evidence e r).2 = rt_world r2.
Proof.
  destruct (ingest_evidence e r) as [out r'] eqn:E. cbn [fst snd]. intros -> Hp.
  unfold ingest_evidence, run_bind at 1, ask at 1 in E.
  destruct (ingest_refusal r e) as [[refusal add] |] eqn:Eref.
  { destruct (refusal_not_accepted _ _ _ _ Eref) as [_ Hn]. injection E as <- <-. congruence. }
  unfold run_bind at 1, ask at 1 in E.
  destruct (ledger_observe (rt_ledger r) (ev_source e) (ev_incarnation e) (ev_sequence e)) as [outcome ledger].
  unfold run_bind at 1, change at 1 in E. destruct (bool_decide _); [by injection E as <- <-|].
  unfold run_bind at 1 in E.
  assert (forall r, rt_config (note_sequence (ev_source e) (verdict outcome) r).2 = rt_config r /\
    rt_store (note_sequence (ev_source e) (verdict outcome) r).2 = rt_store r /\
    rt_world (note_sequence (ev_source e) (verdict outcome) r).2 = rt_world r) as Hn by (by destruct (verdict outcome)).
  specialize (Hn (set_ledger ledger r)). destruct (note_sequence _ _ _) as [u r1]. cbn [snd] in Hn.
  destruct Hn as (Hc & Hs & Hw). unfold run_bind at 1, ask at 1 in E.
  destruct (resolve_subject _ _) as [key | err]; [| by injection E as <- <-].
  unfold run_bind in E. destruct (ingest_bucket _ _ _ r1) as [result' r2] eqn:Eb. injection E as <- <-.
  unfold ingest_bucket, run_bind, ask, change, count, run_ret in Eb.
  destruct (_ <=? _); [by injection Eb as <- <-|]. destruct (has_evidence _ _); [by injection Eb as <- <-|].
  destruct (store_append EvidenceRecord _ _) as [[[] | err] r3] eqn:Ea; [| by injection Eb as <- <-].
  injection Eb as <- <-. eexists _, r3. by split_and!; [| | | exact Ea | |].
Qed.

Lemma ingest_persists e r s records result :
  persists r s records -> bytes_ok (bytes_ (ev_payload_digest e)) ->
  (ingest_evidence e r).1 = Ok result -> ir_persisted result = true ->
  exists s', persists (ingest_evidence e r).2 s' (records ++ [next_stored s EvidenceRecord (encode_evidence (seal e))]) /\
    ps_recovery s' = ps_recovery s.
Proof.
  intros (Hs & Hh & Hp & Ho) Hd Hout Hpers.
  destruct (ingest_appends e r result Hout Hpers) as (r1 & r2 & Hc & Hs1 & Hw1 & Ha & Hs2 & Hw2).
  assert (persists r1 s records) as Hr1.
  { unfold persists, limits_of in *. rewrite Hs1, Hw1, Hc. by split_and!. }
  apply store_append_persists with (type := EvidenceRecord) (payload := encode_evidence (seal e)) in Hr1.
  2:{ apply encode_evidence_bytes; [| done]. apply Forall_take, digest_of_ok. }
  rewrite Ha in Hr1. destruct Hr1 as (s' & (H1 & H2 & H3 & H4) & Hrec). exists s'. split; [| done].
  assert (rt_config r2 = rt_config r) as Hc2.
  { rewrite <- Hc. pose proof (store_append_keeps rt_config EvidenceRecord (encode_evidence (seal e))) as Hk.
    specialize (Hk (fun _ _ => eq_refl) (fun _ _ => eq_refl) (fun _ _ => eq_refl) r1). by rewrite Ha in Hk. }
  destruct (ingest_cases e r) as (_ & _ & Hc' & _).
  unfold persists, limits_of in *. rewrite Hs2, Hw2, Hc'. rewrite Hc2 in H3, H4. by split_and!.
Qed.

Lemma register_persists r s records d :
  persists r s records ->
  exists s' records', persists (register_source d r).2 s' records' /\ ps_recovery s' = ps_recovery s.
Proof.
  intros Hper. pose proof (store_append_persists r s records SourceRecord (encode_source d) Hper (encode_source_bytes d)) as Ha.
  unfold register_source, run_bind, ask, change.
  destruct (store_append SourceRecord (encode_source d) r) as [[[] | e] r1].
  - destruct Ha as (s' & (H1 & H2 & H3 & H4) & Hrec). destruct (Source.register_source (rt_sources r1) d) as [status sources].
    by exists s', (records ++ [next_stored s SourceRecord (encode_source d)]).
  - by exists s, records.
Qed.

(** ** Reading back *)

(** The bucket holds the record, or is full. *)
Definition kept (key : SubjectKey) (id : EvidenceId) (r : Runtime) : Prop :=
  id ∈ map ev_id (bucket_of key (rt_evidence r)) \/
  max_evidence_per_comparison (limits_of r) <= Z.of_nat (length (bucket_of key (rt_evidence r))).

Lemma restore_evidence_kept key id e r : kept key id r -> kept key id (restore_evidence e r).
Proof.
  unfold restore_evidence. destruct (resolve_subject _ e) as [key' |]; [| done]. cbv zeta. intros Hk.
  assert (forall bucket l, bucket = bucket_of key' (rt_evidence r) ->
    kept key id (set_evidence (om_insert key' (bucket ++ l) (rt_evidence r)) r)) as Hins.
  { intros bucket l ->. unfold kept, limits_of in *. cbn [rt_evidence rt_config set_evidence]. rewrite bucket_of_insert.
    destruct (decide (key = key')) as [-> |]; [| done]. rewrite map_app, length_app.
    destruct Hk as [Hk | Hk]; [left; apply elem_of_app; by left | right; lia]. }
  destruct (_ <=? _); [| destruct (has_evidence _ _)]; try (rewrite <- (app_nil_r (bucket_of _ _)) at 1; by apply Hins).
  unfold kept, limits_of in *. cbn [rt_evidence rt_config set_evidence]. rewrite !bucket_of_insert.
  specialize (Hins _ [e] eq_refl). cbn [rt_evidence rt_config set_evidence] in Hins. rewrite bucket_of_insert in Hins.
  by destruct (decide (key = key')).
Qed.

Lemma restore_evidence_files key e r : resolve_subject (rt_routes r) e = Ok key -> kept key (ev_id e) (restore_evidence e r).
Proof.
  intros Hk. unfold restore_evidence, kept. rewrite Hk. cbv zeta.
  set (bucket := bucket_of key (rt_evidence r)).
  destruct (Z.leb_spec (max_evidence_per_comparison (limits_of (set_evidence (om_insert key bucket (rt_evidence r)) r)))
    (Z.of_nat (length bucket))) as [Hfull | _].
  - right. cbn [rt_evidence set_evidence]. by rewrite bucket_of_insert, decide_True by done.
  - left. destruct (has_evidence (ev_id e) bucket) eqn:Hh; cbn [rt_evidence set_evidence];
      rewrite bucket_of_insert, decide_True by done.
    + apply existsb_elem in Hh as (x & Hx & Ex). bool_prop. rewrite <- Ex. by apply list_elem_of_fmap_2.
    + rewrite map_app. apply elem_of_app. right. by apply list_elem_of_singleton.
Qed.

Lemma restore_record_kept key id record r status r' :
  restore_record record r = Some (status, r') -> kept key id r -> kept key id r'.
Proof.
  unfold restore_record. destruct (sr_type record); try (by intros [= <- <-]).
  - destruct (decode_exact _ _) as [d |]; [| by intros [= <- <-]]. destruct (Source.register_source _ d). by intros [= <- <-].
  - destruct (decode_exact _ _) as [e |]; [| by intros [= <- <-]]. intros [= <- <-]. apply restore_evidence_kept.
  - destruct (decode_exact _ _) as [w |]; [| by intros [= <- <-]].
    destruct (result_of_wire w) as [c |]; [| done]. cbn. destruct (history_append _ c). by intros [= <- <-].
  - destruct (decode_exact _ _) as [w |]; [| by intros [= <- <-]].
    destruct (finding_of_wire w) as [f |]; [| done]. cbn. destruct (finding_restore _ f). by intros [= <- <-].
Qed.

Lemma restore_records_kept key id records r status r' :
  restore_records records r = Some (status, r') -> kept key id r -> kept key id r'.
Proof.
  revert r. induction records as [| record records IH]; intros r; cbn [restore_records]; [by intros [= _ <-] |].
  destruct (restore_record record r) as [[[[] | err] r1] |] eqn:E; [| | done].
  - intros Hr Hk. apply (IH r1 Hr). by eapply restore_record_kept.
  - intros [= _ <-] Hk. by eapply restore_record_kept.
Qed.

(** A record whose subject is explicit is filed by the pass over the store. *)
Lemma restore_records_file key e record records r r' :
  restore_records records r = Some (ok, r') -> record ∈ records -> sr_type record = EvidenceRecord ->
  decode_exact (decode_evidence (limits_of r)) (sr_payload record) = Ok e ->
  (forall routes, resolve_subject routes e = Ok key) -> kept key (ev_id e) r'.
Proof.
  intros Hr Hin Ht Hd Hk. revert r Hr Hd. induction Hin as [record records | record other records Hin IH]; intros r; cbn [restore_records].
  - unfold restore_record at 1. rewrite Ht. intros Hr Hd. rewrite Hd in Hr.
    apply (restore_records_kept _ _ _ _ _ _ Hr), restore_evidence_files, Hk.
  - destruct (restore_record other r) as [[[[] | err] r1] |] eqn:E; [| by intros [=] | by intros [=]].
    intros Hr Hd. apply (IH Ht r1 Hr). apply restore_record_expected in E as [E _].
    unfold expected_view in E. injection E as E _ _ _ _ _ _ _. unfold limits_of in *. by rewrite E.
Qed.

(** ** The restart *)

Lemma open_store_opens r s w :
  store_open (cfg_store_path (rt_config r)) (mk_options (limits_of r) false) (rt_clock r (rt_ticks r)) (rt_world r) =
    (Ok s, w) ->
  exists r1, open_store r = (ok, r1) /\ rt_config r1 = rt_config r /\ rt_store r1 = Some s /\ rt_world r1 = w.
Proof.
  intros Ho. unfold open_store. unfold run_bind at 1, ask at 1. unfold run_bind at 1, now at 1. cbv beta iota.
  unfold run_try, run_bind at 1, run_io at 1. cbn [rt_world set_ticks]. unfold limits_of in Ho. rewrite Ho.
  unfold run_bind, change, count, change, run_ret. cbv beta iota.
  destruct (rr_corrupt_tail_truncated _); by eexists.
Qed.

(** A start that reads the store back, from what opening and reading return. *)
Lemma start_reads r r' s w records w' :
  start r = Some (ok, r') -> cfg_persist (rt_config r) = true -> cfg_load_evidence_on_start (rt_config r) = true ->
  store_open (cfg_store_path (rt_config r)) (mk_options (limits_of r) false) (rt_clock r (rt_ticks r)) (rt_world r) =
    (Ok s, w) ->
  read_all s w = (Ok records, w') ->
  exists ra rb, rt_config ra = rt_config r /\ rt_store ra = Some s /\ rt_world ra = w' /\
    restore_records records ra = Some (ok, rb) /\ r' = forget_expected rb.
Proof.
  intros Hs Hp Hl Ho Hr. unfold start in Hs. destruct (bool_decide (rt_state r = Running)); [done |].
  destruct (bool_decide (rt_state r = Stopping)); [done |]. destruct (_ || _); [done |].
  destruct (start_pool _ _) as [[[] | e] pool]; [| done]. rewrite Hp, Hl in Hs.
  destruct (open_store_opens (set_pool (Some pool) r) s w Ho) as (rc & E & Hc & Hst & Hw). rewrite E in Hs.
  unfold restore_from_store in Hs. rewrite Hst in Hs. unfold run_io in Hs. rewrite Hw, Hr in Hs.
  destruct (restore_records records (set_world w' rc)) as [[[[] | e] rb] |] eqn:Eb; [| by injection Hs | done].
  injection Hs as <-. by exists (set_world w' rc), rb.
Qed.

(** An open store reopens with what it holds. *)
Lemma reopen_now w s records at_ :
  store_holds w s records -> is_set at_ = true -> i64_ok (unix_nanos at_) ->
  rr_header_generation (ps_recovery s) + 1 < 2 ^ 64 ->
  exists s' w', store_open (ps_path s) (ps_options s) at_ w = (Ok s', w') /\ store_holds w' s' records.
Proof.
  intros (Hcalm & Hopen & Hrw & Hlim & Hcount & Hnext & file & position & Hfile & Hok & Hsize & Hhead) Hset Hnow Hgen.
  destruct (reopen_holds w (ps_path s) (ps_options s) at_ file position records [] (ps_active_slot s) (ps_recovery s))
    as (s' & w' & Ho & Hh & _); try done. by exists s', w'.
Qed.

(** C5. Accepted evidence survives the process.  Take a runtime with an open store
    on a system whose calls succeed, and a representable record that names its
    route generation and its group, which the runtime accepts and persists.  Any
    runtime with this configuration, with persistence and loading enabled and a
    clock that is set, that then starts successfully on the files as the ingest
    left them has a record with that identity in the bucket of this subject again,
    unless the bucket came to its bound first.  A record that names no generation
    or no group is not covered: it can be lost ([unnamed_generation_is_lost]). *)
Theorem evidence_survives_restart (e : ObservedPathEvidence) (r r0 r' : Runtime) s records result :
  persists r s records -> rr_header_generation (ps_recovery s) + 1 < 2 ^ 64 ->
  rt_config r0 = rt_config r ->
  evidence_repr e -> bytes_ok (bytes_ (ev_payload_digest e)) -> i64_ok (unix_nanos (ev_received_at e)) ->
  present (ev_route_generation e) = true -> present (ev_group e) = true ->
  (ingest_evidence e r).1 = Ok result -> ir_persisted result = true ->
  cfg_persist (rt_config r0) = true -> cfg_load_evidence_on_start (rt_config r0) = true ->
  is_set (rt_clock r0 (rt_ticks r0)) = true -> i64_ok (unix_nanos (rt_clock r0 (rt_ticks r0))) ->
  rt_world r0 = rt_world (ingest_evidence e r).2 ->
  start r0 = Some (ok, r') ->
  let bucket := bucket_of (mk_subject (maybe_value (ev_route_generation e)) (ev_group e)) (rt_evidence r') in
  ir_id result ∈ map ev_id bucket \/ max_evidence_per_comparison (limits_of r) <= Z.of_nat (length bucket).
Proof.
  intros Hper Hgen Hcfg Hrepr Hdig Hrecv Hg Hgr Hout Hp Hcp Hcl Hset Hnow Hworld Hstart bucket.
  assert (limits_of r0 = limits_of r) as El by (unfold limits_of; by rewrite Hcfg).
  destruct (ingest_persists e r s records result Hper Hdig Hout Hp) as (s1 & (_ & Hh & Hpath & Hopt) & Hrec).
  destruct (ingest_cases e r) as (result' & Hout' & Hc1 & _ & Hcase). rewrite Hout in Hout'. injection Hout' as <-.
  unfold limits_of in Hopt. rewrite Hc1 in Hpath, Hopt.
  destruct (reopen_now _ _ _ (rt_clock r0 (rt_ticks r0)) Hh Hset Hnow) as (s2 & w2 & Ho & Hh2); [by rewrite Hrec |].
  rewrite Hpath, Hopt, <- Hcfg, <- Hworld in Ho.
  destruct (store_holds_read _ _ _ Hh2) as (w3 & Hread & _).
  destruct (start_reads _ _ _ _ _ _ Hstart Hcp Hcl Ho Hread) as (ra & rb & Hca & _ & _ & Hrs & ->).
  assert (evidence_validate (limits_of r) e = ok /\ ir_id result = ev_id (seal e)) as [Hv Hid].
  { destruct Hcase as [| | | key Href | key]; try congruence. split; [| done]. by apply ingest_refusal_none in Href as [? _]. }
  apply seal_valid in Hv as [Hv Hsealed].
  assert (limits_of ra = limits_of r) as Ela by (unfold limits_of; by rewrite Hca, Hcfg).
  assert (limits_of rb = limits_of r) as Elb.
  { apply restore_records_expected in Hrs as [E _]. unfold expected_view in E. injection E as E _ _ _ _ _ _ _.
    unfold limits_of in *. by rewrite E. }
  rewrite Hid, <- Elb. apply (restore_records_file _ (seal e) (next_stored s EvidenceRecord (encode_evidence (seal e))) _ ra rb Hrs).
  - apply elem_of_app. right. by apply list_elem_of_singleton.
  - done.
  - rewrite Ela. destruct (decode_exact_encode (decode_evidence (limits_of r)) (encode_evidence (seal e)) (seal e) []) as [Hdec _];
      [| exact Hdec]. intros rest. by apply (wire_roundtrip (put := encode_evidence)).
  - intros routes. unfold resolve_subject. change (ev_route_generation (seal e)) with (ev_route_generation e).
    change (ev_group (seal e)) with (ev_group e). rewrite Hg, Hgr. reflexivity.
Qed.

(** ** Witness *)

Definition disk_config : RuntimeConfig :=
  mk_config default_limits default_comparison_policy "paths.store" true true 0 true.

Definition disk_new (world : World) : Runtime := runtime_new disk_config demo_clock world.

Lemma disk_new_world w : rt_world (disk_new w) = w.
Proof. reflexivity. Qed.

Definition run_start (r : Runtime) : Runtime := match start r with Some (_, r') => r' | None => r end.

Definition starts (r : Runtime) : bool := match start r with Some (Ok _, _) => true | _ => false end.

Lemma starts_run r : starts r = true -> start r = Some (ok, run_start r).
Proof. unfold starts, run_start. by destruct (start r) as [[[[] | e] r'] |]. Qed.

Definition disk_started : Runtime := run_start (disk_new demo_world).
Definition disk_registered : Runtime := (register_source example_source disk_started).2.

(** The example record, naming its generation. *)
Definition disk_evidence : ObservedPathEvidence :=
  mk_evidence digest_id_zero (from_value 7) (from_value 1) (from_value 1) SurfaceReal Advisory
    (maybe (from_value 3)) (maybe (from_value 4)) absent absent (from_value 1) (from_value 1)
    (maybe (from_value 1)) absent (from_value 1) (from_unix_nanos 5) (from_unix_nanos 6)
    [mk_observed_hop 0 (from_value 1) id_none (from_value 11) id_none ProvenanceAbsent unset;
     mk_observed_hop 1 (from_value 2) (from_value 12) id_none id_none ProvenanceAbsent unset]
    false Complete digest_zero "".

Definition disk_observed : Runtime := (ingest_evidence disk_evidence disk_registered).2.

Definition persisted_of (x : Result IngestResult) : bool := match x with Ok i => ir_persisted i | Err _ => false end.

Lemma persisted_inv x : persisted_of x = true -> exists i, x = Ok i /\ ir_persisted i = true.
Proof. destruct x as [i |]; [| done]. by exists i. Qed.

Lemma disk_persists : exists s records,
  persists disk_registered s records /\ rr_header_generation (ps_recovery s) + 1 < 2 ^ 64.
Proof.
  destruct (store_create demo_world "paths.store" (mk_options default_limits false) (from_unix_nanos 10))
    as (s & w & Ho & Hh & Hp & Hopt & Hg & _);
    [reflexivity | apply lookup_empty | by vm_compute | by vm_compute | reflexivity | reflexivity | by vm_compute |].
  destruct (store_holds_read w s [] Hh) as (w' & Hr & Hh').
  assert (start (disk_new demo_world) = Some (ok, disk_started)) as Hs
    by (apply starts_run; vm_compute; reflexivity).
  destruct (start_reads _ _ s w [] w' Hs eq_refl eq_refl Ho Hr) as (ra & rb & Hc & Hst & Hw & Hrs & E).
  injection Hrs as <-. assert (persists disk_started s []) as Hper.
  { rewrite E. unfold persists, limits_of. cbn [rt_store rt_world rt_config forget_expected set_state set_routes
      set_topology_index set_topology set_topology_revision set_route_revision set_incarnation set_epoch].
    rewrite Hc, Hst, Hw. exact (conj eq_refl (conj Hh' (conj Hp Hopt))). }
  destruct (register_persists disk_started s [] example_source Hper) as (s' & records & Hper' & Hrec).
  exists s', records. split; [exact Hper' |]. by rewrite Hrec, Hg.
Qed.

Lemma disk_evidence_repr : evidence_repr disk_evidence.
Proof.
  unfold evidence_repr, id_ok, u_ok, i64_ok, int64_min, int64_max, len32. simpl.
  split_and!; try lia; try done.
  rewrite !Forall_cons_iff, Forall_nil_iff. unfold hop_repr, id_ok, u_ok, i64_ok.
  split_and!; by vm_compute.
Qed.

Example disk_restarted :
  map ev_id (bucket_of (mk_subject (from_value 1) (maybe (from_value 4)))
    (rt_evidence (run_start (disk_new (rt_world disk_observed))))) = [ev_id (seal disk_evidence)].
Proof. vm_compute. reflexivity. Qed.

Lemma evidence_survives_restart_witness :
  let bucket := bucket_of (mk_subject (from_value 1) (maybe (from_value 4)))
    (rt_evidence (run_start (disk_new (rt_world disk_observed)))) in
  exists result, (ingest_evidence disk_evidence disk_registered).1 = Ok result /\
    (ir_id result ∈ map ev_id bucket \/ 4096 <= Z.of_nat (length bucket)).
Proof.
  destruct disk_persists as (s & records & Hper & Hgen).
  assert (start (disk_new (rt_world disk_observed)) = Some (ok, run_start (disk_new (rt_world disk_observed)))) as Hs
    by (apply starts_run; vm_compute; reflexivity).
  destruct (persisted_inv (ingest_evidence disk_evidence disk_registered).1) as (result & Hr & Hp);
    [vm_compute; reflexivity |].
  exists result. split; [exact Hr |].
  apply (evidence_survives_restart disk_evidence disk_registered (disk_new (rt_world disk_observed)) _ s records result
    Hper Hgen).
  - vm_compute. reflexivity.
  - exact disk_evidence_repr.
  - vm_compute. repeat constructor; discriminate.
  - vm_compute. by split.
  - reflexivity.
  - reflexivity.
  - exact Hr.
  - exact Hp.
  - reflexivity.
  - reflexivity.
  - reflexivity.
  - vm_compute. by split.
  - exact (disk_new_world _).
  - exact Hs.
Defined.

(** ** What the runtime does at the edges *)

(** The store is written before the registry is asked: a descriptor that the
    registry refuses, because the source is registered with other content, is in
    the store all the same, and no later start on these files succeeds. *)
Definition conflicting_source : SourceDescriptor :=
  mk_source (from_value 7) "edge-renamed" TelemetryObserver SurfaceReal Advisory (mk_capabilities false true false) 0 0.

Example refused_descriptor_stops_restart :
  is_Some (err_code (register_source conflicting_source disk_registered).1) /\
  starts (disk_new (rt_world disk_registered)) = true /\
  starts (disk_new (rt_world (register_source conflicting_source disk_registered).2)) = false.
Proof. vm_compute. split; [by eexists | done]. Qed.

(** A record that is refused because nothing is expected yet has used its
    sequence: once routes are published, the same record is refused as a replay. *)
Example refused_record_is_spent :
  let refused := ingest_evidence example_evidence demo_registered in
  let published := (publish_routes example_route (publish_topology example_topology refused.2).2).2 in
  match refused.1, (ingest_evidence example_evidence published).1 with
  | Ok first, Ok second =>
      ir_accepted first = false /\ ir_replay first = false /\ ir_accepted second = false /\ ir_replay second = true
  | _, _ => False
  end.
Proof. by vm_compute. Qed.

(** A record that names no generation is filed under the current routes, and
    persisted as it came.  When the store is read back no routes are current, so
    the record has no subject and is left out without a word. *)
Example unnamed_generation_is_lost :
  let ready := (publish_routes example_route (publish_topology example_topology
    (register_source demo_authority disk_registered).2).2).2 in
  let observed := (ingest_evidence example_evidence ready).2 in
  let restarted := disk_new (rt_world observed) in
  length (bucket_of (mk_subject (from_value 1) (maybe (from_value 4))) (rt_evidence observed)) = 1%nat /\
  starts restarted = true /\ rt_evidence (run_start restarted) = [].
Proof. by vm_compute. Qed.

(** Starting a stopped runtime again reads the store into the history it still
    holds: every comparison is there twice. *)
Example second_start_repeats_history :
  let ready := (publish_routes example_route (publish_topology example_topology
    (register_source demo_authority disk_registered).2).2).2 in
  let compared := (compare_all (ingest_evidence example_evidence ready).2).2 in
  let again := run_start (stop compared).2 in
  length (hs_records (rt_history compared)) = 1%nat /\ rt_state again = Running /\
  length (hs_records (rt_history again)) = 2%nat.
Proof. by vm_compute. Qed.
