(* ===== verification/DocumentRead.v ===== *)
(** The readers of [include/pathobs/documents.hpp], [src/documents.cpp]: JSON
    documents of sources, topology and route generations and observed evidence.

    A reader runs its lookups and conversions in the order of the code and stops
    at the first failure; the record it fills is built where the code has set its
    last member.  What a document leaves out takes the default of the member. *)
From Stdlib Require Import Ascii.
From S2P Require Import Prelude Errors StdAlgo Digest Canonical Ids TimeModel Limits Source Topology Observed Expected Json.
#[local] Open Scope string_scope.
#[local] Open Scope Z_scope.

Definition kSourceKindTag : string := "pathobs.source".
Definition kTopologyKindTag : string := "pathobs.topology_generation".
Definition kRoutesKindTag : string := "pathobs.route_generation".
Definition kEvidenceKindTag : string := "pathobs.evidence".

(** ** Members *)

Definition is_null (v : JsonValue) : bool := match v with JNull => true | _ => false end.
Definition is_number (v : JsonValue) : bool := match v with JNumber _ => true | _ => false end.
Definition is_string (v : JsonValue) : bool := match v with JString _ => true | _ => false end.
Definition is_array (v : JsonValue) : bool := match v with JArray _ => true | _ => false end.
Definition is_object (v : JsonValue) : bool := match v with JObject _ => true | _ => false end.

Definition require_member (object : JsonValue) (key : string) : Result JsonValue :=
  fail? negb (is_object object) with error InvalidFormat "document node is not an object" in
  match json_find object key with
  | Some value => Ok value
  | None => Err (error InvalidFormat ("document is missing a required member: " +:+ key))
  end.

Definition optional_member (object : JsonValue) (key : string) : option JsonValue :=
  if is_object object then json_find object key else None.

(** The optional members that fall back on null too. *)
Definition optional_value (object : JsonValue) (key : string) : option JsonValue :=
  match optional_member object key with
  | Some value => if is_null value then None else Some value
  | None => None
  end.

Definition require_u64 (object : JsonValue) (key : string) : Result Z :=
  let? value := require_member object key in
  fail? negb (is_number value) with error InvalidFormat ("member is not a number: " +:+ key) in
  as_u64 value.

Definition optional_u64 (object : JsonValue) (key : string) (fallback : Z) : Result Z :=
  match optional_value object key with
  | None => Ok fallback
  | Some value =>
      fail? negb (is_number value) with error InvalidFormat ("member is not a number: " +:+ key) in
      as_u64 value
  end.

Definition require_text (object : JsonValue) (key : string) : Result string :=
  let? value := require_member object key in
  fail? negb (is_string value) with error InvalidFormat ("member is not a string: " +:+ key) in
  Ok (as_string value).

Definition optional_text (object : JsonValue) (key : string) (fallback : string) : Result string :=
  match optional_value object key with
  | None => Ok fallback
  | Some value =>
      fail? negb (is_string value) with error InvalidFormat ("member is not a string: " +:+ key) in
      Ok (as_string value)
  end.

Definition optional_boolean (object : JsonValue) (key : string) (fallback : bool) : Result bool :=
  match optional_value object key with
  | None => Ok fallback
  | Some value => as_bool_checked value
  end.

Definition require_time (object : JsonValue) (key : string) : Result TimePoint :=
  let? text := require_text object key in
  parse_rfc3339 text.

Definition optional_time (object : JsonValue) (key : string) (fallback : TimePoint) : Result TimePoint :=
  match optional_value object key with
  | None => Ok fallback
  | Some value =>
      fail? negb (is_string value) with error InvalidFormat ("member is not a timestamp: " +:+ key) in
      parse_rfc3339 (as_string value)
  end.

Definition check_kind (object : JsonValue) (expected : string) : Status :=
  let? kind := require_text object "kind" in
  fail? negb (bool_decide (kind = expected)) with
    mk_error InvalidFormat "document kind does not match" kind in
  ok.

Definition to_id {tag} (raw : Z) (what : string) : Result (StrongId tag) :=
  fail? raw =? 0 with error InvalidIdentity ("identity must not be zero: " +:+ what) in
  Ok (from_value raw).

(** [PATHOBS_TRY(raw, require_u64(object, key)); PATHOBS_TRY(id, to_id<Id>(raw, what));] *)
Definition require_id {tag} (object : JsonValue) (key what : string) : Result (StrongId tag) :=
  let? raw := require_u64 object key in
  to_id raw what.

(** An identity that is absent when the member is missing, null or zero. *)
Definition optional_id {tag} (object : JsonValue) (key : string) : Result (MaybeId tag) :=
  let? raw := optional_u64 object key 0 in
  if raw =? 0 then Ok absent else Ok (maybe (from_value raw)).

Definition optional_device (object : JsonValue) (key : string) : Result (MaybeId DeviceIdTag) :=
  optional_id object key.

(** The loop over the items of an array, which stops at the first failure. *)
Fixpoint read_each {A} (read : JsonValue -> Result A) (l : list JsonValue) : Result (list A) :=
  match l with
  | [] => Ok []
  | item :: l =>
      let? x := read item in
      let? rest := read_each read l in
      Ok (x :: rest)
  end.

(** The tests in front of each of those loops. *)
Definition check_array (value : JsonValue) (kind_error : string) (bound : Z) (bound_error : string) :
    Result (list JsonValue) :=
  fail? negb (is_array value) with error InvalidFormat kind_error in
  fail? bound <? Z.of_nat (length (items value)) with error CapacityExceeded bound_error in
  Ok (items value).

Definition read_array {A} (value : JsonValue) (kind_error : string) (bound : Z) (bound_error : string)
    (read : JsonValue -> Result A) : Result (list A) :=
  let? l := check_array value kind_error bound bound_error in
  read_each read l.

(** An array a document may leave out. *)
Definition optional_array {A} (object : JsonValue) (key kind_error : string) (bound : Z)
    (bound_error : string) (read : JsonValue -> Result A) : Result (list A) :=
  match optional_member object key with
  | Some value => read_array value kind_error bound bound_error read
  | None => Ok []
  end.

(** ** Sources *)

(** The body of the loop over the capability names. *)
Definition read_capability (c : SourceCapabilities) (item : JsonValue) : Result SourceCapabilities :=
  fail? negb (is_string item) with error InvalidFormat "capability names must be strings" in
  let capability := as_string item in
  if bool_decide (capability = "expected_state") then
    Ok (mk_capabilities true (cap_observed_evidence c) (cap_topology c))
  else if bool_decide (capability = "observed_evidence") then
    Ok (mk_capabilities (cap_expected_state c) true (cap_topology c))
  else if bool_decide (capability = "topology") then
    Ok (mk_capabilities (cap_expected_state c) (cap_observed_evidence c) true)
  else Err (mk_error InvalidFormat "unknown capability" capability).

Fixpoint read_capability_names (c : SourceCapabilities) (l : list JsonValue) : Result SourceCapabilities :=
  match l with
  | [] => Ok c
  | item :: l => let? c := read_capability c item in read_capability_names c l
  end.

Definition no_capabilities : SourceCapabilities := mk_capabilities false false false.

Definition read_capabilities (document : JsonValue) : Result SourceCapabilities :=
  match optional_member document "capabilities" with
  | None => Ok no_capabilities
  | Some capabilities =>
      fail? negb (is_array capabilities) with error InvalidFormat "capabilities must be an array" in
      read_capability_names no_capabilities (items capabilities)
  end.

(** [parse_source_descriptor], from the parsed document on. *)
Definition read_source (document : JsonValue) : Result SourceDescriptor :=
  check? check_kind document kSourceKindTag in
  let? id := require_id document "id" "source" in
  let? name := require_text document "name" in
  let? kind_text := require_text document "source_kind" in
  let? kind := parse_source_kind kind_text in
  let? surface_text := require_text document "surface" in
  let? surface := parse_proof_surface surface_text in
  let? authority_text := require_text document "authority" in
  let? authority := parse_authority_class authority_text in
  let? capabilities := read_capabilities document in
  let? age_ms := optional_u64 document "max_observation_age_ms" 0 in
  let? skew_ms := optional_u64 document "clock_skew_tolerance_ms" 0 in
  fail? (86400000 <? age_ms) || (86400000 <? skew_ms) with
    error OutOfRange "source timing tolerance is implausibly large" in
  let descriptor :=
    mk_source id name kind surface authority capabilities (age_ms * 1000000) (skew_ms * 1000000) in
  check? source_validate descriptor in
  Ok descriptor.

(** ** Topology generations *)

Definition read_device (item : JsonValue) : Result DeviceRecord :=
  let? id := require_id item "id" "device" in
  let? name := optional_text item "name" "" in
  let? role_text := optional_text item "role" "unknown" in
  let? role := parse_device_role role_text in
  Ok (mk_device id name role).

Definition read_port (item : JsonValue) : Result PortRecord :=
  let? id := require_id item "id" "port" in
  let? device := require_id item "device" "device" in
  let? name := optional_text item "name" "" in
  let? index := optional_u64 item "index" 0 in
  Ok (mk_port id device name (wrap_u 32 index)).

Definition read_link (item : JsonValue) : Result LinkRecord :=
  let? id := require_id item "id" "link" in
  let? local_device := require_id item "local_device" "local device" in
  let? local_port := require_id item "local_port" "local port" in
  let? remote_device := require_id item "remote_device" "remote device" in
  let? remote_port := require_id item "remote_port" "remote port" in
  let? kind_text := optional_text item "kind" "unknown" in
  let? kind := parse_link_kind kind_text in
  Ok (mk_link id local_device local_port remote_device remote_port kind).

Section Readers.
Variable limits : Limits.

(** The members of [parse_topology_generation], up to the call of [finalize]. *)
Definition read_topology_members (document : JsonValue) : Result TopologyGeneration :=
  let? id := require_id document "generation" "topology generation" in
  let? epoch := require_id document "epoch" "epoch" in
  let? incarnation := require_id document "incarnation" "incarnation" in
  let? revision := require_id document "revision" "revision" in
  let? sequence := require_id document "sequence" "sequence" in
  let? source := require_id document "source" "source" in
  let? created := require_time document "created" in
  let? received := optional_time document "received" created in
  let? devices := optional_array document "devices" "devices must be an array"
    (max_devices_per_topology limits) "device list exceeds the configured bound" read_device in
  let? ports := optional_array document "ports" "ports must be an array"
    (max_links_per_topology limits * 2) "port list exceeds the configured bound" read_port in
  let? links := optional_array document "links" "links must be an array"
    (max_links_per_topology limits) "link list exceeds the configured bound" read_link in
  Ok (mk_topology id epoch incarnation revision sequence source created received devices ports links digest_zero).

(** [parse_topology_generation], from the parsed document on. *)
Definition read_topology (document : JsonValue) : Result TopologyGeneration :=
  check? check_kind document kTopologyKindTag in
  let? generation := read_topology_members document in
  let (finalized, generation) := topology_finalize limits generation in
  check? finalized in
  Ok generation.

(** ** Route generations *)

Definition read_member (member : JsonValue) : Result PathId :=
  fail? negb (is_number member) with error InvalidFormat "group member identities must be numbers" in
  let? raw := as_u64 member in
  to_id raw "path".

Definition read_group (item : JsonValue) : Result PathGroup :=
  let? id := require_id item "id" "path group" in
  let? origin := require_id item "origin" "origin device" in
  let? destination := require_id item "destination" "destination device" in
  let? label := optional_text item "label" "" in
  let? members_value := require_member item "members" in
  let? members := read_array members_value "group members must be an array"
    (max_members_per_group limits) "group exceeds the configured member bound" read_member in
  Ok (mk_group id origin destination label members).

Definition read_expected_hop (expected_index : Z) (item : JsonValue) : Result ExpectedHop :=
  let? id := require_id item "id" "hop" in
  let? index := optional_u64 item "index" expected_index in
  let? device := require_id item "device" "hop device" in
  let? ingress := require_id item "ingress" "hop ingress port" in
  let? egress := require_id item "egress" "hop egress port" in
  let? link_raw := optional_u64 item "link" 0 in
  if negb (link_raw =? 0)
  then Ok (mk_expected_hop id (wrap_u 32 index) device ingress egress (from_value link_raw) true)
  else Ok (mk_expected_hop id (wrap_u 32 index) device ingress egress id_none false).

(** The loop over the hops of a path, with its counter. *)
Fixpoint read_expected_hops (expected_index : Z) (l : list JsonValue) : Result (list ExpectedHop) :=
  match l with
  | [] => Ok []
  | item :: l =>
      let? hop := read_expected_hop expected_index item in
      let? rest := read_expected_hops (wrap_u 32 (expected_index + 1)) l in
      Ok (hop :: rest)
  end.

Definition read_path (generation : RouteGenerationId) (item : JsonValue) : Result ExpectedPath :=
  let? id := require_id item "id" "path" in
  let? group := require_id item "group" "path group" in
  let? generation_of_path := optional_u64 item "generation" (value generation) in
  let? hops_value := require_member item "hops" in
  let? hop_items := check_array hops_value "path hops must be an array"
    (max_hops_per_path limits) "path exceeds the configured hop bound" in
  let? hops := read_expected_hops 0 hop_items in
  Ok (mk_path id group (from_value generation_of_path) hops digest_zero).

(** The members of [parse_route_generation], up to the call of [finalize]. *)
Definition read_routes_members (document : JsonValue) : Result RouteGeneration :=
  let? id := require_id document "generation" "route generation" in
  let? epoch := require_id document "epoch" "epoch" in
  let? incarnation := require_id document "incarnation" "incarnation" in
  let? revision := require_id document "revision" "revision" in
  let? sequence := require_id document "sequence" "sequence" in
  let? source := require_id document "source" "source" in
  let? topology := require_id document "topology_generation" "topology generation" in
  let? created := require_time document "created" in
  let? received := optional_time document "received" created in
  let? groups_value := require_member document "groups" in
  let? groups := read_array groups_value "groups must be an array"
    (max_groups_per_generation limits) "group list exceeds the configured bound" read_group in
  let? paths_value := require_member document "paths" in
  let? paths := read_array paths_value "paths must be an array"
    (max_paths_per_generation limits) "path list exceeds the configured bound" (read_path id) in
  Ok (mk_route id epoch incarnation revision sequence source topology created received groups paths digest_zero).

(** [parse_route_generation], from the parsed document on. *)
Definition read_routes (document : JsonValue) : Result RouteGeneration :=
  check? check_kind document kRoutesKindTag in
  let? generation := read_routes_members document in
  route_finalize limits generation.

(** ** Observed evidence *)

Definition read_observed_hop (fallback_index : Z) (item : JsonValue) : Result ObservedHop :=
  let? index := optional_u64 item "index" fallback_index in
  let? device := require_id item "device" "hop device" in
  let? ingress_raw := optional_u64 item "ingress" 0 in
  let? egress_raw := optional_u64 item "egress" 0 in
  let? link_raw := optional_u64 item "link" 0 in
  let? provenance_text := optional_text item "link_provenance" "absent" in
  let? provenance := parse_hop_link_provenance provenance_text in
  let? at_ := optional_time item "at" unset in
  Ok (mk_observed_hop (wrap_u 32 index) device (from_value ingress_raw) (from_value egress_raw)
        (from_value link_raw) provenance at_).

(** The loop over the hops: a hop without an index follows the previous one. *)
Fixpoint read_observed_hops (previous : option Z) (l : list JsonValue) : Result (list ObservedHop) :=
  match l with
  | [] => Ok []
  | item :: l =>
      let fallback := match previous with None => 0 | Some previous => wrap_u 32 (previous + 1) end in
      let? hop := read_observed_hop fallback item in
      let? rest := read_observed_hops (Some (oh_index hop)) l in
      Ok (hop :: rest)
  end.

Definition read_evidence_hops (document : JsonValue) : Result (list ObservedHop) :=
  match optional_member document "hops" with
  | None => Ok []
  | Some hops =>
      let? l := check_array hops "hops must be an array" (max_hops_per_path limits)
        "hop list exceeds the configured bound" in
      read_observed_hops None l
  end.

Definition read_payload_digest (document : JsonValue) : Result Digest :=
  let? payload_hex := optional_text document "payload_digest" "" in
  if negb (bool_decide (payload_hex = "")) then parse_hex payload_hex else Ok digest_zero.

(** The members of [parse_evidence], up to the call of [validate]. *)
Definition read_evidence_members (document : JsonValue) : Result ObservedPathEvidence :=
  let? source := require_id document "source" "source" in
  let? incarnation := require_id document "incarnation" "source incarnation" in
  let? sequence := require_id document "sequence" "sequence" in
  let? surface_text := require_text document "surface" in
  let? surface := parse_proof_surface surface_text in
  let? authority_text := require_text document "authority" in
  let? authority := parse_authority_class authority_text in
  let? epoch := require_id document "epoch" "epoch" in
  let? claimed := require_id document "claimed_incarnation" "claimed incarnation" in
  let? revision := require_id document "revision" "revision" in
  let? route_generation := optional_id document "route_generation" in
  let? topology_generation := optional_id document "topology_generation" in
  let? path := optional_id document "path" in
  let? group := optional_id document "group" in
  let? origin := optional_device document "origin" in
  let? destination := optional_device document "destination" in
  let? observed_at := optional_time document "observed_at" unset in
  let? received_at := optional_time document "received_at" observed_at in
  let? truncated := optional_boolean document "truncated" false in
  let? completeness_text := optional_text document "completeness" "unknown" in
  let? completeness := parse_evidence_completeness completeness_text in
  let? payload := read_payload_digest document in
  let? note := optional_text document "note" "" in
  let? hops := read_evidence_hops document in
  Ok (mk_evidence digest_id_zero source incarnation sequence surface authority path group origin
        destination epoch claimed route_generation topology_generation revision observed_at received_at
        hops truncated completeness payload note).

(** [parse_evidence], from the parsed document on. *)
Definition read_evidence (document : JsonValue) : Result ObservedPathEvidence :=
  check? check_kind document kEvidenceKindTag in
  let? evidence := read_evidence_members document in
  check? evidence_validate limits evidence in
  Ok (seal evidence).

(** ** Documents *)

(** [PATHOBS_TRY(document, JsonValue::parse(text, limits)); ...] *)
Definition parse_document {A} (read : JsonValue -> Result A) (text : string) : Parsed A :=
  parsed_bind (parse limits text) (fun document => parsed_of (read document)).

Definition parse_source_descriptor (text : string) : Parsed SourceDescriptor :=
  parse_document read_source text.
Definition parse_topology_generation (text : string) : Parsed TopologyGeneration :=
  parse_document read_topology text.
Definition parse_route_generation (text : string) : Parsed RouteGeneration :=
  parse_document read_routes text.
Definition parse_evidence (text : string) : Parsed ObservedPathEvidence :=
  parse_document read_evidence text.

(** *** JSON Lines *)

(** [text.find(0x0A, position)]: the line that starts there, and what is left
    after the line feed, if there is one. *)
Fixpoint split_line (text : string) : string * option string :=
  match text with
  | "" => ("", None)
  | String c rest =>
      if Ascii.eqb c kNewline then ("", Some rest)
      else let (line, after) := split_line rest in (String c line, after)
  end.

(** The loop over the lines of a text: it ends when nothing is left. *)
Fixpoint lines_of (fuel : nat) (text : string) : list string :=
  match fuel with
  | O => []
  | S fuel =>
      if bool_decide (text = "") then [] else
      let (line, after) := split_line text in
      line :: match after with Some rest => lines_of fuel rest | None => [] end
  end.

Definition is_blank (c : ascii) : bool := existsb (Ascii.eqb c) [" "%char; "009"%char].

Fixpoint drop_front (text : string) : string :=
  match text with
  | String c rest => if is_blank c then drop_front rest else text
  | "" => ""
  end.

(** Blanks and carriage returns are dropped at the end of a line. *)
Fixpoint drop_back (text : string) : string :=
  match text with
  | "" => ""
  | String c rest =>
      match drop_back rest with
      | "" => if is_blank c || Ascii.eqb c "013"%char then "" else String c ""
      | rest => String c rest
      end
  end.

Definition trim_line (line : string) : string := drop_front (drop_back line).

(** Blank lines and comments. *)
Definition is_skipped (line : string) : bool :=
  bool_decide (line = "") || Ascii.eqb (peek line) "#"%char.

Definition line_error (line_number : Z) (e : Error) : Error :=
  mk_error (code e) ("evidence line " +:+ to_string line_number +:+ ": " +:+ message e) (detail e).

(** The loop of [parse_evidence_lines]; [out] is what it has collected. *)
Fixpoint read_lines (line_number : Z) (out : list ObservedPathEvidence) (lines : list string) :
    Parsed (list ObservedPathEvidence) :=
  match lines with
  | [] => Got out
  | line :: lines =>
      let line_number := line_number + 1 in
      let line := trim_line line in
      if is_skipped line then read_lines line_number out lines else
      match parse_evidence line with
      | Failed e => Failed (line_error line_number e)
      | OutOfFuel => OutOfFuel
      | Got evidence =>
          let out := (out ++ [evidence])%list in
          if max_evidence_per_ingest_batch limits <? Z.of_nat (length out) then
            Failed (error CapacityExceeded "evidence document exceeds the ingest bound")
          else read_lines line_number out lines
      end
  end.

(** [parse_evidence_lines]: every line takes at least one character. *)
Definition parse_evidence_lines (text : string) : Parsed (list ObservedPathEvidence) :=
  read_lines 0 [] (lines_of (String.length text) text).
End Readers.
