(* ===== verification/DocumentWrite.v ===== *)
(** The writers of [include/pathobs/documents.hpp], [src/documents.cpp]: the JSON
    form of the domain types.

    Every [to_json] sets the members of an object in order, leaving some out; here
    it is the list of those members ([object_of]), in the order of the code. *)
From S2P Require Import Prelude Errors StdAlgo Digest Canonical Ids TimeModel Limits Source Topology Observed Expected Freshness Divergence Compare Finding History Persistence Metrics Json RuntimeState Runtime DocumentRead.
#[local] Open Scope string_scope.
#[local] Open Scope list_scope.
#[local] Open Scope Z_scope.

(** ** Members *)

(** A member, and whether it is set at all. *)
Definition Member : Set := string * option JsonValue.

Definition set_member (object : JsonValue) (m : Member) : JsonValue :=
  match m.2 with Some v => json_set object m.1 v | None => object end.

(** [make_object()] and the calls of [set] after it. *)
Definition object_of (members : list Member) : JsonValue := fold_left set_member members (JObject []).

(** [make_array()] and the calls of [push_back] after it. *)
Definition array_of (values : list JsonValue) : JsonValue := fold_left json_push_back values (JArray []).

(** A loop over [l] that pushes one value for each element. *)
Definition array_map {A} (to_value : A -> JsonValue) (l : list A) : JsonValue := array_of (map to_value l).

Definition set_value (key : string) (v : JsonValue) : Member := (key, Some v).
Definition set_string (key value : string) : Member := set_value key (JString value).
Definition set_bool (key : string) (value : bool) : Member := set_value key (JBoolean value).
Definition set_u64 (key : string) (value : Z) : Member := set_value key (make_number value).
Definition set_size (key : string) (value : nat) : Member := set_u64 key (Z.of_nat value).
Definition set_time (key : string) (value : TimePoint) : Member := set_value key (JString (to_rfc3339 value)).
Definition set_id {tag} (key : string) (id : StrongId tag) : Member := set_u64 key (value id).

(** [if (condition) { set(..); }] *)
Definition set_if (condition : bool) (m : Member) : Member := (m.1, if condition then m.2 else None).

(** [if (id.present()) { set_u64(object, key, id.value().value()); }] *)
Definition set_maybe {tag} (key : string) (id : MaybeId tag) : Member :=
  set_if (present id) (set_id key (maybe_value id)).

(** [if (id.valid()) { set_u64(object, key, id.value()); }] *)
Definition set_valid {tag} (key : string) (id : StrongId tag) : Member := set_if (valid id) (set_id key id).

(** ** Documents that are read back *)

Definition capability_names (c : SourceCapabilities) : list string :=
  (if cap_expected_state c then ["expected_state"] else []) ++
  (if cap_observed_evidence c then ["observed_evidence"] else []) ++
  (if cap_topology c then ["topology"] else []).

(** [static_cast<std::uint64_t>(value.count() / 1000000)] *)
Definition milliseconds (d : Duration) : Z := wrap_u 64 (Z.quot d 1000000).

Definition source_json (d : SourceDescriptor) : JsonValue := object_of [
  set_string "kind" kSourceKindTag;
  set_id "id" (source_id d);
  set_string "name" (source_name d);
  set_string "source_kind" (source_kind_to_string (source_kind d));
  set_string "surface" (proof_surface_to_string (source_surface d));
  set_string "authority" (authority_to_string (source_authority d));
  set_value "capabilities" (array_map JString (capability_names (source_capabilities d)));
  set_u64 "max_observation_age_ms" (milliseconds (max_observation_age d));
  set_u64 "clock_skew_tolerance_ms" (milliseconds (clock_skew_tolerance d))].

Definition device_json (device : DeviceRecord) : JsonValue := object_of [
  set_id "id" (device_id device);
  set_string "name" (device_name device);
  set_string "role" (device_role_to_string (device_role device))].

Definition port_json (port : PortRecord) : JsonValue := object_of [
  set_id "id" (port_id port);
  set_id "device" (port_device port);
  set_string "name" (port_name port);
  set_u64 "index" (port_index port)].

Definition link_json (link : LinkRecord) : JsonValue := object_of [
  set_id "id" (link_id link);
  set_id "local_device" (local_device link);
  set_id "local_port" (local_port link);
  set_id "remote_device" (remote_device link);
  set_id "remote_port" (remote_port link);
  set_string "kind" (link_kind_to_string (link_kind link))].

Definition topology_json (g : TopologyGeneration) : JsonValue := object_of [
  set_string "kind" kTopologyKindTag;
  set_id "generation" (topo_id g);
  set_id "epoch" (topo_epoch g);
  set_id "incarnation" (topo_incarnation g);
  set_id "revision" (topo_revision g);
  set_id "sequence" (topo_sequence g);
  set_id "source" (topo_source g);
  set_time "created" (topo_created g);
  set_time "received" (topo_received g);
  set_string "digest" (hex (topo_digest g));
  set_value "devices" (array_map device_json (devices g));
  set_value "ports" (array_map port_json (ports g));
  set_value "links" (array_map link_json (links g))].

Definition hop_json (hop : ExpectedHop) : JsonValue := object_of [
  set_id "id" (eh_id hop);
  set_u64 "index" (eh_index hop);
  set_id "device" (eh_device hop);
  set_id "ingress" (eh_ingress hop);
  set_id "egress" (eh_egress hop);
  set_if (eh_has_egress_link hop) (set_id "link" (eh_egress_link hop))].

Definition group_json (group : PathGroup) : JsonValue := object_of [
  set_id "id" (group_id group);
  set_id "origin" (group_origin group);
  set_id "destination" (group_destination group);
  set_string "label" (group_label group);
  set_value "members" (array_map (fun member => make_number (value member)) (group_members group))].

Definition path_json (path : ExpectedPath) : JsonValue := object_of [
  set_id "id" (path_id path);
  set_id "group" (path_group path);
  set_id "generation" (path_generation path);
  set_value "hops" (array_map hop_json (path_hops path))].

Definition routes_json (g : RouteGeneration) : JsonValue := object_of [
  set_string "kind" kRoutesKindTag;
  set_id "generation" (route_id g);
  set_id "epoch" (route_epoch g);
  set_id "incarnation" (route_incarnation g);
  set_id "revision" (route_revision g);
  set_id "sequence" (route_sequence g);
  set_id "source" (route_source g);
  set_id "topology_generation" (route_topology g);
  set_time "created" (route_created g);
  set_time "received" (route_received g);
  set_string "digest" (hex (route_digest g));
  set_value "groups" (array_map group_json (groups g));
  set_value "paths" (array_map path_json (paths g))].

Definition observed_hop_json (hop : ObservedHop) : JsonValue := object_of [
  set_u64 "index" (oh_index hop);
  set_id "device" (oh_device hop);
  set_valid "ingress" (oh_ingress hop);
  set_valid "egress" (oh_egress hop);
  set_valid "link" (oh_link hop);
  set_string "link_provenance" (provenance_to_string (oh_provenance hop));
  set_if (is_set (oh_at hop)) (set_time "at" (oh_at hop))].

Definition evidence_json (e : ObservedPathEvidence) : JsonValue := object_of [
  set_string "kind" kEvidenceKindTag;
  set_string "id" (digest_id_str (ev_id e));
  set_id "source" (ev_source e);
  set_id "incarnation" (ev_incarnation e);
  set_id "sequence" (ev_sequence e);
  set_string "surface" (proof_surface_to_string (ev_surface e));
  set_string "authority" (authority_to_string (ev_authority e));
  set_id "epoch" (ev_epoch e);
  set_id "claimed_incarnation" (ev_claimed_incarnation e);
  set_id "revision" (ev_revision e);
  set_maybe "route_generation" (ev_route_generation e);
  set_maybe "topology_generation" (ev_topology_generation e);
  set_maybe "path" (ev_path e);
  set_maybe "group" (ev_group e);
  set_maybe "origin" (ev_origin e);
  set_maybe "destination" (ev_destination e);
  set_time "observed_at" (ev_observed_at e);
  set_time "received_at" (ev_received_at e);
  set_bool "truncated" (ev_source_truncated e);
  set_string "completeness" (completeness_to_string (ev_declared_completeness e));
  set_string "payload_digest" (hex (ev_payload_digest e));
  set_string "note" (ev_note e);
  set_value "hops" (array_map observed_hop_json (ev_hops e))].

Definition source_to_json (d : SourceDescriptor) (pretty : bool) : string := dump (source_json d) pretty.
Definition topology_to_json (g : TopologyGeneration) (pretty : bool) : string := dump (topology_json g) pretty.
Definition routes_to_json (g : RouteGeneration) (pretty : bool) : string := dump (routes_json g) pretty.
Definition evidence_to_json (e : ObservedPathEvidence) (pretty : bool) : string := dump (evidence_json e) pretty.

(** ** Reports *)

Definition judgement_json (j : EvidenceJudgement) : JsonValue := object_of [
  set_string "evidence" (digest_id_str (ej_id j));
  set_bool "accepted" (ej_accepted j);
  set_string "rejection" (to_code (ej_rejection j));
  set_string "freshness" (freshness_to_string (ej_freshness j));
  set_string "surface" (proof_surface_to_string (ej_surface j));
  set_string "authority" (authority_to_string (ej_authority j));
  set_string "completeness" (completeness_to_string (ej_completeness j));
  set_string "reason" (ej_reason j)].

Definition difference_json (d : HopDifference) : JsonValue := object_of [
  set_u64 "index" (hd_index d);
  set_string "detail" (to_code (hd_detail d));
  set_if (hd_has_expected d) (set_id "expected_device" (eh_device (hd_expected d)));
  set_if (hd_has_expected d) (set_id "expected_ingress" (eh_ingress (hd_expected d)));
  set_if (hd_has_expected d) (set_id "expected_egress" (eh_egress (hd_expected d)));
  set_if (hd_has_observed d) (set_id "observed_device" (oh_device (hd_observed d)));
  set_if (hd_has_observed d) (set_valid "observed_ingress" (oh_ingress (hd_observed d)));
  set_if (hd_has_observed d) (set_valid "observed_egress" (oh_egress (hd_observed d)))].

Definition comparison_json (r : ComparisonResult) : JsonValue := object_of [
  set_string "kind" "pathobs.comparison";
  set_string "id" (digest_id_str (cr_id r));
  set_id "route_generation" (cr_generation r);
  set_id "topology_generation" (cr_topology r);
  set_maybe "group" (cr_group r);
  set_maybe "path" (cr_path r);
  set_maybe "matched_path" (cr_matched_path r);
  set_string "outcome" (outcome_to_string (cr_outcome r));
  set_string "compliance" (if result_is_compliance r then "true" else "false");
  set_string "primary_class" (to_code (cr_primary r));
  set_string "primary_category" (category_to_string (category_of (cr_primary r)));
  set_value "classes" (array_map (fun entry => JString (to_code entry)) (cr_classes r));
  set_string "freshness" (freshness_to_string (cr_freshness r));
  set_string "completeness" (completeness_to_string (cr_completeness r));
  set_string "consistency" (consistency_to_string (cr_consistency r));
  set_string "proof_surface" (proof_surface_to_string (cr_surface r));
  set_bool "multipath" (cr_multipath r);
  set_bool "multipath_ambiguous" (cr_multipath_ambiguous r);
  set_size "evidence_offered" (cr_evidence_offered r);
  set_size "evidence_considered" (cr_evidence_considered r);
  set_size "evidence_rejected" (cr_evidence_rejected r);
  set_size "duplicate_evidence" (cr_duplicate_evidence r);
  set_time "evaluated_at" (cr_evaluated_at r);
  set_value "judgements" (array_map judgement_json (cr_judgements r));
  set_value "differences" (array_map difference_json (cr_differences r));
  set_value "rationale" (array_map JString (cr_rationale r))].

Definition finding_json (f : Finding) : JsonValue := object_of [
  set_string "kind" "pathobs.finding";
  set_string "id" (digest_id_str (fd_id f));
  set_string "class" (to_code (fd_class f));
  set_string "category" (category_to_string (category_of (fd_class f)));
  set_maybe "group" (fd_group f);
  set_maybe "path" (fd_path f);
  set_id "route_generation" (fd_generation f);
  set_id "topology_generation" (fd_topology f);
  set_string "status" (finding_status_to_string (fd_status f));
  set_u64 "occurrences" (fd_occurrences f);
  set_time "first_seen" (fd_first_seen f);
  set_time "last_seen" (fd_last_seen f);
  set_string "last_comparison" (digest_id_str (fd_last_comparison f));
  set_string "detail" (fd_detail f);
  set_value "evidence" (array_map (fun item => JString (digest_id_str item)) (fd_evidence f));
  set_value "hop_indices" (array_map make_number (fd_hops f))].

Definition history_record_json (r : HistoryRecord) : JsonValue := object_of [
  set_string "kind" "pathobs.history_record";
  set_string "id" (digest_id_str (hr_id r));
  set_id "route_generation" (hr_generation r);
  set_id "topology_generation" (hr_topology r);
  set_maybe "group" (hr_group r);
  set_maybe "path" (hr_path r);
  set_string "outcome" (outcome_to_string (hr_outcome r));
  set_string "primary_class" (to_code (hr_primary r));
  set_string "freshness" (freshness_to_string (hr_freshness r));
  set_string "completeness" (completeness_to_string (hr_completeness r));
  set_string "consistency" (consistency_to_string (hr_consistency r));
  set_string "proof_surface" (proof_surface_to_string (hr_surface r));
  set_u64 "evidence_considered" (hr_evidence_considered r);
  set_u64 "evidence_rejected" (hr_evidence_rejected r);
  set_time "evaluated_at" (hr_evaluated_at r)].

Definition history_record_to_json (r : HistoryRecord) (pretty : bool) : string := dump (history_record_json r) pretty.

(** A document that is embedded in another one: it is read back first. *)
Definition embedded (text : string) : JsonValue :=
  match parse default_limits text with Got v => v | _ => JNull end.

Definition history_json (a : HistoryQueryResult) : JsonValue := object_of [
  set_string "kind" "pathobs.history";
  set_size "matched" (ha_matched a);
  set_size "excluded_by_window" (ha_excluded_by_window a);
  set_size "excluded_by_filter" (ha_excluded_by_filter a);
  set_bool "truncated" (ha_truncated a);
  set_value "records" (array_map (fun r => embedded (history_record_to_json r false)) (ha_records a))].

Definition recovery_json (r : RecoveryReport) : JsonValue := object_of [
  set_string "kind" "pathobs.store_recovery";
  set_bool "created" (rr_created r);
  set_bool "used_secondary_header_slot" (rr_used_secondary_header_slot r);
  set_bool "unclean_previous_shutdown" (rr_unclean_previous_shutdown r);
  set_bool "corrupt_tail_truncated" (rr_corrupt_tail_truncated r);
  set_u64 "valid_records" (rr_valid_records r);
  set_u64 "invalid_records" (rr_invalid_records r);
  set_u64 "bytes" (rr_bytes r);
  set_u64 "restart_count" (rr_restart_count r);
  set_u64 "header_generation" (rr_header_generation r);
  set_id "store_incarnation" (rr_incarnation r);
  set_string "truncate_detail" (rr_truncate_detail r);
  set_time "created_at" (rr_created_at r);
  set_time "opened_at" (rr_opened_at r)].

Definition metrics_json (m : MetricsSnapshot) : JsonValue := object_of [
  set_string "kind" "pathobs.metrics";
  set_u64 "evidence_offered" (evidence_offered m);
  set_u64 "evidence_accepted" (evidence_accepted m);
  set_u64 "evidence_rejected" (evidence_rejected m);
  set_u64 "evidence_unregistered_source" (evidence_unregistered_source m);
  set_u64 "evidence_replayed" (evidence_replayed m);
  set_u64 "evidence_gap_events" (evidence_gap_events m);
  set_u64 "comparisons" (comparisons m);
  set_u64 "matches" (matches m);
  set_u64 "divergences" (divergences m);
  set_u64 "indeterminate" (indeterminate m);
  set_u64 "unsupported" (unsupported m);
  set_u64 "no_expected_state" (no_expected_state m);
  set_u64 "findings_recorded" (findings_recorded m);
  set_u64 "findings_resolved" (findings_resolved m);
  set_u64 "findings_evicted" (findings_evicted m);
  set_u64 "queue_submitted" (queue_submitted m);
  set_u64 "queue_rejected" (queue_rejected m);
  set_u64 "tasks_completed" (tasks_completed m);
  set_u64 "tasks_cancelled" (tasks_cancelled m);
  set_u64 "store_appends" (store_appends m);
  set_u64 "store_records_recovered" (store_records_recovered m);
  set_u64 "store_corrupt_tail_truncations" (store_corrupt_tail_truncations m);
  set_u64 "transport_frames_in" (transport_frames_in m);
  set_u64 "transport_frames_out" (transport_frames_out m);
  set_u64 "transport_bytes_in" (transport_bytes_in m);
  set_u64 "transport_bytes_out" (transport_bytes_out m);
  set_u64 "transport_protocol_violations" (transport_protocol_violations m)].

Definition comparison_to_json (r : ComparisonResult) (pretty : bool) : string := dump (comparison_json r) pretty.
Definition finding_to_json (f : Finding) (pretty : bool) : string := dump (finding_json f) pretty.
Definition history_to_json (a : HistoryQueryResult) (pretty : bool) : string := dump (history_json a) pretty.
Definition recovery_to_json (r : RecoveryReport) (pretty : bool) : string := dump (recovery_json r) pretty.
Definition metrics_to_json (m : MetricsSnapshot) (pretty : bool) : string := dump (metrics_json m) pretty.

Definition stats_json (s : RuntimeStats) : JsonValue := object_of [
  set_string "kind" "pathobs.runtime_stats";
  set_string "state" (runtime_state_to_string (st_state s));
  set_bool "has_route_generation" (st_has_route_generation s);
  set_bool "has_topology_generation" (st_has_topology_generation s);
  set_id "epoch" (st_epoch s);
  set_id "incarnation" (st_incarnation s);
  set_id "route_generation" (st_route_generation s);
  set_id "topology_generation" (st_topology_generation s);
  set_id "route_revision" (st_route_revision s);
  set_size "evidence_buckets" (st_evidence_buckets s);
  set_size "evidence_records" (st_evidence_records s);
  set_size "findings" (st_findings s);
  set_size "findings_open" (st_findings_open s);
  set_size "history" (st_history s);
  set_size "queue_pending" (st_queue_pending s);
  set_value "metrics" (embedded (metrics_to_json (st_metrics s) false));
  set_value "recovery" (embedded (recovery_to_json (st_recovery s) false))].

Definition stats_to_json (s : RuntimeStats) (pretty : bool) : string := dump (stats_json s) pretty.
