(* ===== verification/DocumentForms.v ===== *)
(** Lemmas of the document readers and writers: what a reader finds in an object
    that was written member by member, and when such an object is within the
    bounds of the JSON reader. *)
From Stdlib Require Import Ascii.
From S2P Require Import Prelude Errors StdAlgo Digest Canonical Ids TimeModel Limits Utf8 Json JsonGrammar JsonProps DocumentRead DocumentWrite.
#[local] Open Scope string_scope.
#[local] Open Scope list_scope.
#[local] Open Scope Z_scope.

(** ** Objects *)

Fixpoint absent_key (key : string) (l : list Member) : bool :=
  match l with [] => true | m :: l => negb (String.eqb m.1 key) && absent_key key l end.

(** The keys of the members are distinct. *)
Fixpoint distinct (l : list Member) : bool :=
  match l with [] => true | m :: l => absent_key m.1 l && distinct l end.

(** The members that are set. *)
Fixpoint fields_set (l : list Member) : list (string * JsonValue) :=
  match l with
  | [] => []
  | (key, Some v) :: l => (key, v) :: fields_set l
  | (_, None) :: l => fields_set l
  end.

(** The value of a member. *)
Fixpoint member (key : string) (l : list Member) : option JsonValue :=
  match l with [] => None | m :: l => if String.eqb m.1 key then m.2 else member key l end.

Lemma absent_key_elem key l : absent_key key l = true <-> ~ key ∈ map fst l.
Proof.
  induction l as [| m l IH]; cbn [absent_key map]; [split; [intros _ H; by apply elem_of_nil in H | done] |].
  rewrite andb_true_iff, IH, negb_true_iff, elem_of_cons. destruct (String.eqb_spec m.1 key); split; intros;
    [naive_solver | exfalso; naive_solver | naive_solver | naive_solver].
Qed.

Lemma fields_set_keys key l : key ∈ map fst (fields_set l) -> key ∈ map fst l.
Proof.
  induction l as [| [k [v |]] l IH]; cbn; rewrite ?elem_of_cons; naive_solver.
Qed.

Lemma distinct_nodup l : distinct l = true -> NoDup (map fst (fields_set l)).
Proof.
  induction l as [| m l IH]; cbn [distinct]; [constructor |]. rewrite andb_true_iff, absent_key_elem.
  intros [Hm Hl]. destruct m as [k [v |]]; cbn; [| by apply IH]. constructor; [| by apply IH].
  intros H. by apply Hm, fields_set_keys.
Qed.

(** Setting members with distinct keys appends them. *)
Lemma object_of_members l : distinct l = true -> object_of l = JObject (fields_set l).
Proof.
  intros Hd. unfold object_of.
  assert (forall before, (forall key, key ∈ map fst before -> absent_key key l = true) ->
    fold_left set_member l (JObject before) = JObject (before ++ fields_set l)) as H.
  { induction l as [| m l IH]; intros before Hb; [by rewrite app_nil_r |]. cbn [fold_left].
    cbn [distinct] in Hd. apply andb_true_iff in Hd as [Hm Hd].
    assert (forall key, key ∈ map fst before -> absent_key key l = true) as Hb'.
    { intros key Hk. specialize (Hb key Hk). by apply andb_true_iff in Hb as [_ Hb]. }
    destruct m as [k [v |]]; cbn [set_member fst snd]; [| by apply IH].
    unfold json_set. cbn [fields]. rewrite set_field_new.
    2:{ intros Hk. specialize (Hb k Hk). cbn [absent_key fst] in Hb. by rewrite String.eqb_refl in Hb. }
    rewrite IH; [| done |].
    - by rewrite <- app_assoc.
    - intros key. rewrite map_app, elem_of_app. intros [Hk | Hk]; [by apply Hb' |].
      apply list_elem_of_singleton in Hk as ->. done. }
  apply (H []). intros key Hk. by apply elem_of_nil in Hk.
Qed.

Lemma find_absent key l : absent_key key l = true -> find_field key (fields_set l) = None.
Proof. rewrite absent_key_elem, find_field_none. intros H Hk. by apply H, fields_set_keys. Qed.

Lemma find_member key l : distinct l = true -> find_field key (fields_set l) = member key l.
Proof.
  induction l as [| m l IH]; [done |]. cbn [distinct member]. rewrite andb_true_iff. intros [Hm Hl].
  destruct (String.eqb_spec m.1 key) as [<- | Hne].
  - destruct m as [k [v |]]; cbn in *; [by rewrite bool_decide_eq_true_2 | by apply find_absent].
  - rewrite <- IH by done. destruct m as [k [v |]]; cbn in *; [by rewrite bool_decide_eq_false_2 | done].
Qed.

(** The object has the value under the key, or nothing. *)
Definition has (object : JsonValue) (key : string) (v : option JsonValue) : Prop :=
  optional_member object key = v /\ is_object object = true.

Lemma object_find l key v : distinct l = true -> member key l = v -> json_find (object_of l) key = v.
Proof. intros Hd <-. rewrite object_of_members by done. by apply find_member. Qed.

Lemma object_has l key v : distinct l = true -> member key l = v -> has (object_of l) key v.
Proof.
  intros Hd Hv. unfold has, optional_member. rewrite (object_find l key v Hd Hv), object_of_members by done. done.
Qed.

(** ** The lookups of the readers *)

Section Lookups.
Context (object : JsonValue) (key : string).

Lemma require_member_has v : has object key (Some v) -> require_member object key = Ok v.
Proof.
  unfold has, optional_member, require_member. intros [H ->]. cbn [negb].
  destruct (is_object object); [by rewrite H | done].
Qed.

Lemma require_u64_has v : has object key (Some (make_number v)) -> u_ok 64 v -> require_u64 object key = Ok v.
Proof.
  intros H Hv. unfold require_u64. rewrite (require_member_has _ H). cbn [result_bind].
  by apply number_roundtrip.
Qed.

Lemma require_id_has {tag} (id : StrongId tag) what :
  has object key (Some (make_number (value id))) -> id_ok id -> valid id = true ->
  require_id object key what = Ok id.
Proof.
  unfold require_id, to_id, valid. intros H Hok Hv. rewrite (require_u64_has _ H) by done. cbn [result_bind].
  destruct (value id =? 0) eqn:E; [done |]. by destruct id.
Qed.

Lemma require_text_has s : has object key (Some (JString s)) -> require_text object key = Ok s.
Proof. intros H. unfold require_text. by rewrite (require_member_has _ H). Qed.

Lemma require_time_has t :
  has object key (Some (JString (to_rfc3339 t))) -> i64_ok (unix_nanos t) -> is_set t = true ->
  require_time object key = Ok t.
Proof. intros H Ht Hs. unfold require_time. rewrite (require_text_has _ H). by apply rfc3339_roundtrip. Qed.

Lemma optional_value_has v :
  has object key v -> match v with Some v => is_null v = false | None => True end -> optional_value object key = v.
Proof. unfold optional_value. intros [-> _]. destruct v as [v |]; [by intros -> | done]. Qed.

Lemma optional_u64_has v fallback :
  has object key (Some (make_number v)) -> u_ok 64 v -> optional_u64 object key fallback = Ok v.
Proof.
  intros H Hv. unfold optional_u64. rewrite (optional_value_has _ H) by done. by apply number_roundtrip.
Qed.

Lemma optional_u64_none fallback : has object key None -> optional_u64 object key fallback = Ok fallback.
Proof. intros H. unfold optional_u64. by rewrite (optional_value_has _ H). Qed.

(** A member that is only written when its identity is valid. *)
Lemma optional_u64_valid {tag} (id : StrongId tag) :
  has object key (set_valid key id).2 -> id_ok id -> optional_u64 object key 0 = Ok (value id).
Proof.
  unfold set_valid, set_if, valid. cbn [fst snd]. destruct (Z.eqb_spec (value id) 0) as [E | E]; cbn [negb]; intros H Hok.
  - rewrite E. by apply optional_u64_none.
  - by apply optional_u64_has.
Qed.

Lemma optional_id_has {tag} (m : MaybeId tag) :
  has object key (set_maybe key m).2 -> id_ok (maybe_value m) -> optional_id object key = Ok m.
Proof.
  intros H Hok. unfold optional_id. change (set_maybe key m) with (set_valid key (maybe_value m)) in H.
  rewrite (optional_u64_valid _ H) by done. cbn [result_bind]. destruct m as [[v]]. cbn [maybe_value value].
  by destruct (Z.eqb_spec v 0) as [-> | _].
Qed.

Lemma optional_text_has s fallback : has object key (Some (JString s)) -> optional_text object key fallback = Ok s.
Proof. intros H. unfold optional_text. by rewrite (optional_value_has _ H). Qed.

Lemma optional_boolean_has b fallback :
  has object key (Some (JBoolean b)) -> optional_boolean object key fallback = Ok b.
Proof. intros H. unfold optional_boolean. by rewrite (optional_value_has _ H). Qed.

Lemma optional_time_has t fallback :
  has object key (Some (JString (to_rfc3339 t))) -> i64_ok (unix_nanos t) -> is_set t = true ->
  optional_time object key fallback = Ok t.
Proof.
  intros H Ht Hs. unfold optional_time. rewrite (optional_value_has _ H) by done. by apply rfc3339_roundtrip.
Qed.

(** A time that is only written when it is set. *)
Lemma optional_time_set t :
  has object key (set_if (is_set t) (set_time key t)).2 -> i64_ok (unix_nanos t) ->
  optional_time object key unset = Ok t.
Proof.
  unfold set_if. cbn [snd]. destruct (is_set t) eqn:Es; intros H Ht.
  - by apply optional_time_has.
  - unfold optional_time. rewrite (optional_value_has _ H) by done.
    unfold is_set in Es. apply negb_false_iff, Z.eqb_eq in Es. destruct t as [n]. cbn in Es. by subst n.
Qed.

Lemma check_kind_has kind : has object "kind" (Some (JString kind)) -> check_kind object kind = ok.
Proof.
  intros [H1 H2]. unfold check_kind, require_text, require_member. rewrite H2. unfold optional_member in H1.
  rewrite H2 in H1. rewrite H1. cbn [negb result_bind is_string as_string]. by rewrite bool_decide_eq_true_2.
Qed.
End Lookups.

(** ** Arrays *)

Lemma array_of_items values : array_of values = JArray values.
Proof.
  unfold array_of. rewrite <- (app_nil_l values) at 2. generalize (@nil JsonValue).
  induction values as [| v values IH]; intros before; cbn [fold_left]; [by rewrite app_nil_r |].
  unfold json_push_back at 2. cbn [items]. rewrite IH. by rewrite <- app_assoc.
Qed.

Lemma read_each_map {A} (read : JsonValue -> Result A) (write : A -> JsonValue) l :
  Forall (fun x => read (write x) = Ok x) l -> read_each read (map write l) = Ok l.
Proof.
  induction 1 as [| x l Hx _ IH]; [done |]. cbn [map read_each]. rewrite Hx. cbn [result_bind].
  by rewrite IH.
Qed.

Lemma check_array_map {A} (write : A -> JsonValue) l e1 bound e2 :
  Z.of_nat (length l) <= bound -> check_array (array_map write l) e1 bound e2 = Ok (map write l).
Proof.
  intros Hl. unfold check_array, array_map. rewrite array_of_items. cbn [is_array negb items].
  by rewrite length_map, (proj2 (Z.ltb_ge _ _)).
Qed.

Lemma read_array_map {A} (read : JsonValue -> Result A) (write : A -> JsonValue) l e1 bound e2 :
  Z.of_nat (length l) <= bound -> Forall (fun x => read (write x) = Ok x) l ->
  read_array (array_map write l) e1 bound e2 read = Ok l.
Proof.
  intros Hl Hr. unfold read_array. rewrite check_array_map by done. by apply read_each_map.
Qed.

Lemma optional_array_map {A} object key (read : JsonValue -> Result A) (write : A -> JsonValue) l e1 bound e2 :
  has object key (Some (array_map write l)) ->
  Z.of_nat (length l) <= bound -> Forall (fun x => read (write x) = Ok x) l ->
  optional_array object key e1 bound e2 read = Ok l.
Proof. intros [H _] Hl Hr. unfold optional_array. rewrite H. by apply read_array_map. Qed.

(** One lookup of a reader of an object that was written: [lookup] solves the
    lookup at the head of the reader, or gives up. *)
Lemma bind_ok {A B} (r : Result A) (k : A -> Result B) a b : r = Ok a -> k a = Ok b -> result_bind r k = Ok b.
Proof. by intros -> H. Qed.

(** ** Bounds *)

Definition ascii_char (c : ascii) : bool := byte c <? 0x80.

(** Plain text of at most 64 characters: keys, labels, digests and times. *)
Definition plain (s : string) : bool := all_chars ascii_char s && (String.length s <=? 64)%nat.

Lemma ascii_utf8 s : all_chars ascii_char s = true -> Utf8 s.
Proof.
  intros H. apply is_valid_utf8_spec. unfold is_valid_utf8.
  assert (forall fuel, (String.length s <= fuel)%nat -> utf8_loop fuel s = true) as E; [| by apply E].
  induction s as [| c s IH]; intros [| fuel] Hf; cbn in *; try done; try lia.
  apply andb_true_iff in H as [Hc Hs]. unfold utf8_step. unfold ascii_char in Hc. rewrite Hc.
  apply IH; [done | lia].
Qed.

Section Fits.
Context (limits : Limits) (Hstrings : 64 <= max_string_bytes limits).

Lemma plain_fits s : plain s = true -> text_fits limits s.
Proof using Hstrings.
  unfold plain, text_fits. rewrite andb_true_iff, Nat.leb_le. intros [Ha Hl].
  split; [by apply ascii_utf8 | lia].
Qed.

(** A well formed value of at most this height. *)
Definition fits (n : nat) (v : JsonValue) : Prop := JsonWf limits v /\ (json_height v <= n)%nat.

Definition member_fits (n : nat) (m : Member) : Prop :=
  plain m.1 = true /\ match m.2 with Some v => fits n v | None => True end.

Lemma fits_number n v : fits n (make_number v).
Proof. split; [apply make_number_wf | cbn; lia]. Qed.

Lemma fits_boolean n b : fits n (JBoolean b).
Proof. split; [constructor | cbn; lia]. Qed.

Lemma fits_string n s : text_fits limits s -> fits n (JString s).
Proof. split; [by constructor | cbn; lia]. Qed.

Lemma fits_weaken n m v : fits n v -> (n <= m)%nat -> fits m v.
Proof. unfold fits. intros [? ?] ?. split; [done | lia]. Qed.

Lemma list_max_bound {A} (f : A -> nat) n l :
  Forall (fun x => (f x <= n)%nat) l -> (list_max (map (fun x => S (f x)) l) <= S n)%nat.
Proof.
  induction 1 as [| x l Hx _ IH]; [cbn; lia |].
  change (Nat.max (S (f x)) (list_max (map (fun x => S (f x)) l)) <= S n)%nat. lia.
Qed.

Lemma fits_array {A} n (write : A -> JsonValue) l :
  Forall (fun x => fits n (write x)) l -> fits (S n) (array_map write l).
Proof.
  intros H. unfold array_map. rewrite array_of_items. apply Forall_map in H. split.
  - constructor. eapply Forall_impl; [exact H | by intros v []].
  - cbn [json_height]. apply (list_max_bound json_height). eapply Forall_impl; [exact H | by intros v []].
Qed.

Lemma fields_set_forall (P : string * JsonValue -> Prop) (Q : Member -> Prop) l :
  (forall key v, Q (key, Some v) -> P (key, v)) -> Forall Q l -> Forall P (fields_set l).
Proof.
  intros H. induction 1 as [| [key [v |]] l Hx Hl IH]; cbn [fields_set]; [constructor | | done].
  constructor; [by apply H | done].
Qed.

Lemma fits_object n l : distinct l = true -> Forall (member_fits n) l -> fits (S n) (object_of l).
Proof using Hstrings.
  intros Hd Hl. rewrite object_of_members by done. split.
  - constructor; [by apply distinct_nodup | |]; (eapply fields_set_forall; [| exact Hl]);
      unfold member_fits; cbn [fst snd]; [intros key v [Hk _]; by apply plain_fits | by intros key v [_ []]].
  - cbn [json_height]. apply (list_max_bound (fun f : string * JsonValue => json_height f.2)).
    eapply fields_set_forall; [| exact Hl]. unfold member_fits. cbn [fst snd]. by intros key v [_ []].
Qed.

(** *** Members *)

Lemma set_value_fits n key v : plain key = true -> fits n v -> member_fits n (set_value key v).
Proof. done. Qed.

Lemma set_string_fits n key s : plain key = true -> text_fits limits s -> member_fits n (set_string key s).
Proof. intros Hk Hs. split; [done | by apply fits_string]. Qed.

Lemma set_plain_fits n key s : plain key = true -> plain s = true -> member_fits n (set_string key s).
Proof using Hstrings. intros Hk Hs. apply set_string_fits; [done | by apply plain_fits]. Qed.

Lemma set_bool_fits n key b : plain key = true -> member_fits n (set_bool key b).
Proof. intros Hk. split; [done | apply fits_boolean]. Qed.

Lemma set_u64_fits n key v : plain key = true -> member_fits n (set_u64 key v).
Proof. intros Hk. split; [done | apply fits_number]. Qed.

Lemma set_if_fits n b m : member_fits n m -> member_fits n (set_if b m).
Proof. intros [Hk Hv]. split; [done |]. by destruct b. Qed.
End Fits.

(** ** Text *)

Lemma plain_app s t n m :
  all_chars ascii_char s = true -> all_chars ascii_char t = true -> (String.length s <= n)%nat ->
  (String.length t <= m)%nat -> all_chars ascii_char (s +:+ t) = true /\ (String.length (s +:+ t) <= n + m)%nat.
Proof. intros Hs Ht Hn Hm. rewrite all_chars_app, Hs, Ht, str_length_app. split; [done | lia]. Qed.

Definition at_most (n : nat) (s : string) : Prop := all_chars ascii_char s = true /\ (String.length s <= n)%nat.

Lemma within_app n m s t : at_most n s -> at_most m t -> at_most (n + m) (s +:+ t).
Proof. intros [? ?] [? ?]. by apply plain_app. Qed.

Lemma digit_char_ascii d : ascii_char (digit_char (d mod 10)) = true.
Proof.
  pose proof (Z.mod_pos_bound d 10 ltac:(lia)) as Hd. generalize dependent (d mod 10). intros e He.
  unfold ascii_char, digit_char. rewrite byte_chr by (unfold byte_ok; lia). apply Z.ltb_lt. lia.
Qed.

Lemma pad_go_within n v s : at_most (String.length s) s -> at_most (n + String.length s) (pad_go n v s).
Proof.
  revert v s. induction n as [| n IH]; intros v s Hs; cbn [pad_go]; [done |].
  destruct (IH (v / 10) (String (digit_char (v mod 10)) s)) as [H1 H2].
  - split; [| done]. cbn [all_chars]. rewrite digit_char_ascii. by destruct Hs as [-> _].
  - split; [done |]. cbn [String.length] in *. lia.
Qed.

Lemma pad_int_within n v : 0 <= v < 10 ^ Z.of_nat n -> at_most n (pad_int n v).
Proof.
  intros Hv. unfold pad_int. rewrite (proj2 (Z.ltb_lt _ _)) by lia.
  destruct (pad_go_within n v "" (conj eq_refl (le_n _))) as [H1 H2]. split; [done |]. cbn in H2. lia.
Qed.

Lemma trim_zeros_within n s : at_most n s -> at_most n (trim_zeros s).
Proof.
  revert n. induction s as [| c s IH]; intros n [Ha Hl]; cbn [trim_zeros]; [done |].
  cbn [all_chars String.length] in *. apply andb_true_iff in Ha as [Hc Hs].
  destruct n as [| n]; [lia |]. destruct (IH n) as [H1 H2]; [split; [done | lia] |].
  destruct (trim_zeros s) as [| d [| e r]]; [split; cbn; [by rewrite Hc | lia] | |].
  - destruct (Ascii.eqb d (digit_char 0)); split; cbn in *; rewrite ?Hc; try done; lia.
  - split; cbn in *; rewrite ?Hc; try done; lia.
Qed.

Lemma hex_digit_ascii v : 0 <= v < 16 -> ascii_char (Digest.hex_digit v) = true.
Proof.
  intros Hv. assert (In v (map Z.of_nat (seq 0 16))) as H.
  { apply in_map_iff. exists (Z.to_nat v). rewrite in_seq. lia. }
  cbn [map seq] in H. repeat (destruct H as [<- | H]; [reflexivity |]). done.
Qed.

Lemma hex_of_within bs : bytes_ok bs -> at_most (2 * length bs) (hex_of bs).
Proof.
  intros H. split; [| by rewrite length_hex_of]. induction H as [| b bs Hb _ IH]; [done |].
  cbn [hex_of all_chars]. rewrite IH. unfold byte_ok in Hb.
  rewrite !hex_digit_ascii; [done | |].
  all: rewrite ?Z.shiftr_div_pow2 by lia; change 0x0F with (Z.ones 4); rewrite ?Z.land_ones by lia; div_lia.
Qed.

Lemma within_weaken n m s : at_most n s -> (n <= m)%nat -> at_most m s.
Proof. unfold at_most. intros [? ?] ?. split; [done | lia]. Qed.

(** The text of an instant is short: the year has four digits over the whole
    range of the nanosecond count. *)
Lemma civil_date_within days :
  -106752 <= days <= 106752 -> let '(year, month, day) := civil_from_days days in
  at_most 10 (pad_int 4 year +:+ "-" +:+ pad_int 2 month +:+ "-" +:+ pad_int 2 day).
Proof.
  intros Hdays. pose proof (civil_days_roundtrip days ltac:(lia)) as Hciv.
  destruct (civil_from_days days) as [[year month] day]. destruct Hciv as (Eday & Hmonth & Hday & Hyear).
  assert (days_in_month year month <= 31) as Hdim.
  { unfold days_in_month. destruct (_ && _); [lia |].
    assert (Forall (fun d => d <= 31) kDays) as Hall by (repeat constructor; lia).
    destruct (nth_in_or_default (Z.to_nat (month - 1)) kDays 0) as [Hin | ->]; [| lia].
    apply list_elem_of_In in Hin. rewrite Forall_elem in Hall. by apply Hall. }
  apply (within_app 4 6); [apply pad_int_within; div_lia |].
  apply (within_app 1 5); [done |]. apply (within_app 2 3); [apply pad_int_within; lia |].
  apply (within_app 1 2); [done | apply pad_int_within; lia].
Qed.

Lemma clock_within rem :
  0 <= rem < 86400 ->
  at_most 8 (pad_int 2 (Z.quot rem 3600) +:+ ":" +:+ pad_int 2 (Z.quot (Z.rem rem 3600) 60) +:+ ":" +:+
            pad_int 2 (Z.rem rem 60)).
Proof.
  intros Hrem. apply (within_app 2 6); [apply pad_int_within; div_lia |].
  apply (within_app 1 5); [done |]. apply (within_app 2 3); [apply pad_int_within; div_lia |].
  apply (within_app 1 2); [done | apply pad_int_within; div_lia].
Qed.

Lemma rfc3339_within t : i64_ok (unix_nanos t) -> at_most 30 (to_rfc3339 t).
Proof.
  intros Hn. unfold to_rfc3339. destruct (is_set t); cbn [negb]; [| split; [done | cbn; lia]].
  destruct t as [n]. cbn [unix_nanos] in *. unfold i64_ok, int64_min, int64_max in Hn.
  rewrite (floor_fix n 1000000000) by lia. cbv beta iota zeta.
  rewrite (floor_fix (n / 1000000000) 86400) by lia. cbv beta iota zeta.
  pose proof (civil_date_within (n / 1000000000 / 86400) ltac:(div_lia)) as Hdate.
  destruct (civil_from_days _) as [[year month] day].
  pose proof (clock_within ((n / 1000000000) mod 86400) ltac:(div_lia)) as Hclock.
  destruct (n mod 1000000000 =? 0).
  - apply (within_weaken 20); [| lia]. apply (within_app 10 10); [done |].
    apply (within_app 1 9); [done |]. by apply (within_app 8 1).
  - apply (within_app 10 20); [done |]. apply (within_app 1 19); [done |]. apply (within_app 8 11); [done |].
    apply (within_app 1 10); [done |]. apply (within_app 9 1); [| done].
    apply trim_zeros_within, pad_int_within. div_lia.
Qed.

Lemma within_plain n s : at_most n s -> (n <= 64)%nat -> plain s = true.
Proof. unfold plain. intros [-> H] Hn. cbn [andb]. apply Nat.leb_le. lia. Qed.

Lemma rfc3339_plain t : i64_ok (unix_nanos t) -> plain (to_rfc3339 t) = true.
Proof. intros H. apply (within_plain 30); [by apply rfc3339_within | lia]. Qed.

Lemma hex_plain bs : bytes_ok bs -> (length bs <= 32)%nat -> plain (hex_of bs) = true.
Proof. intros H Hl. apply (within_plain (2 * length bs)); [by apply hex_of_within | lia]. Qed.

Lemma set_time_fits limits (H : 64 <= max_string_bytes limits) n key t :
  plain key = true -> i64_ok (unix_nanos t) -> member_fits limits n (set_time key t).
Proof. intros Hk Ht. apply (set_plain_fits limits H n key); [done | by apply rfc3339_plain]. Qed.
