(* ===== verification/DocumentProps.v ===== *)
(** What the documents promise: a document that is written reads back as the value
    it was written from, whatever is read has passed the validation of its type,
    and an evidence journal is read line by line in order. *)
From Stdlib Require Import Ascii.
From S2P Require Import Prelude Errors StdAlgo Digest Canonical Ids TimeModel Limits Utf8 Source Topology Observed Expected Codec Json JsonGrammar JsonProps DocumentRead DocumentWrite DocumentForms.
#[local] Open Scope string_scope.
#[local] Open Scope list_scope.
#[local] Open Scope Z_scope.

(** ** Writing within the bounds of the reader *)

(** The bounds of the reader leave room for the document: 64 bytes for the strings
    every document has, depth 5 for the deepest of them (a member of a hop of a path),
    and its own nodes and bytes. *)
Record writes_within (limits : Limits) (v : JsonValue) (pretty : bool) : Prop := {
  ww_strings : 64 <= max_string_bytes limits;
  ww_depth : 5 <= max_json_depth limits;
  ww_nodes : Z.of_nat (json_nodes v) <= max_json_nodes limits;
  ww_bytes : Z.of_nat (String.length (dump v pretty)) <= max_document_bytes limits
}.

Lemma parse_document_dump {A} limits (read : JsonValue -> Result A) v pretty x :
  fits limits 5 v -> writes_within limits v pretty -> read v = Ok x ->
  parse_document limits read (dump v pretty) = Got x.
Proof.
  intros [Hwf Hh] [] Hr. unfold parse_document.
  rewrite dump_parse_roundtrip by (done || lia). cbn [parsed_bind]. by rewrite Hr.
Qed.

(** *** The labels of the enumerations *)

Lemma source_kind_plain k : plain (source_kind_to_string k) = true.
Proof. by destruct k. Qed.

Lemma proof_surface_plain s : plain (proof_surface_to_string s) = true.
Proof. by destruct s. Qed.

Lemma authority_plain a : plain (authority_to_string a) = true.
Proof. by destruct a. Qed.

Lemma device_role_plain r : plain (device_role_to_string r) = true.
Proof. by destruct r. Qed.

Lemma link_kind_plain k : plain (link_kind_to_string k) = true.
Proof. by destruct k. Qed.

Lemma provenance_plain p : plain (provenance_to_string p) = true.
Proof. by destruct p. Qed.

Lemma completeness_plain c : plain (completeness_to_string c) = true.
Proof. by destruct c. Qed.

(** The lookup of a member that was written. *)
Ltac written := apply object_has; reflexivity.

(** The conversions of the enumerations. *)
Create HintDb documents.
#[local] Hint Resolve parse_source_kind_to_string parse_proof_surface_to_string parse_authority_class_to_string : documents.
#[local] Hint Resolve source_kind_plain proof_surface_plain authority_plain device_role_plain link_kind_plain
  provenance_plain completeness_plain : documents.

(** The step at the head of a reader, on an object that was written. *)
Ltac read_step :=
  cbv beta zeta; eapply bind_ok;
  [ lazymatch goal with
    | |- check_kind _ _ = _ => apply check_kind_has; written
    | |- require_id _ _ _ = _ => eapply require_id_has; [written | |]
    | |- require_u64 _ _ = _ => eapply require_u64_has; [written |]
    | |- require_text _ _ = _ => eapply require_text_has; written
    | |- require_time _ _ = _ => eapply require_time_has; [written | |]
    | |- require_member _ _ = _ => eapply require_member_has; written
    | |- optional_u64 _ _ _ = _ => first [eapply optional_u64_has; [written |] | eapply optional_u64_valid; [written |]]
    | |- optional_id _ _ = _ => eapply optional_id_has; [written |]
    | |- optional_device _ _ = _ => eapply optional_id_has; [written |]
    | |- optional_text _ _ _ = _ => eapply optional_text_has; written
    | |- optional_boolean _ _ _ = _ => eapply optional_boolean_has; written
    | |- optional_time _ _ _ = _ => first [eapply optional_time_has; [written | |] | eapply optional_time_set; [written |]]
    | |- optional_array _ _ _ _ _ _ = _ => eapply optional_array_map; [written | |]
    | |- read_array _ _ _ _ _ = _ => apply read_array_map
    | |- check_array _ _ _ _ = _ => apply check_array_map
    | |- _ => solve [auto with documents]
    end; try done |].

(** The members of a document are within the bounds. *)
Ltac member_step :=
  lazymatch goal with
  | |- member_fits _ _ (set_id _ _) => apply set_u64_fits; reflexivity
  | |- member_fits _ _ (set_u64 _ _) => apply set_u64_fits; reflexivity
  | |- member_fits _ _ (set_size _ _) => apply set_u64_fits; reflexivity
  | |- member_fits _ _ (set_bool _ _) => apply set_bool_fits; reflexivity
  | |- member_fits _ _ (set_time _ _) => apply set_time_fits; [assumption | reflexivity |]
  | |- member_fits _ _ (set_if _ _) => apply set_if_fits
  | |- member_fits _ _ (set_maybe _ _) => apply set_if_fits
  | |- member_fits _ _ (set_valid _ _) => apply set_if_fits
  | |- member_fits _ _ (set_value _ (array_map _ _)) => apply set_value_fits; [reflexivity | apply fits_array]
  | |- member_fits _ _ (set_string _ _) =>
      first [ apply set_string_fits; [reflexivity | assumption]
            | apply set_plain_fits; [assumption | reflexivity | first [reflexivity | solve [auto with documents]]]
            | apply set_plain_fits; [assumption | reflexivity |] ]
  end.

Ltac members_fit :=
  lazymatch goal with
  | |- Forall _ [] => constructor
  | |- Forall _ (_ :: _) => constructor; [repeat member_step | members_fit]
  end.

Ltac object_fits := cbv beta; apply fits_object; [assumption | reflexivity | members_fit].

(** ** Sources *)

(** A tolerance that the document can hold: whole milliseconds, at most a day. *)
Definition whole_milliseconds (d : Duration) : Prop :=
  exists ms, d = ms * 1000000 /\ 0 <= ms <= 86400000.

Lemma milliseconds_of ms : 0 <= ms <= 86400000 -> milliseconds (ms * 1000000) = ms.
Proof.
  intros H. unfold milliseconds. rewrite Z.quot_mul by lia. rewrite wrap_u_mod by lia.
  apply Z.mod_small. lia.
Qed.

Lemma read_capabilities_written object c :
  has object "capabilities" (Some (array_map JString (capability_names c))) -> read_capabilities object = Ok c.
Proof.
  unfold has, read_capabilities, array_map. rewrite array_of_items. intros [-> _].
  by destruct c as [[] [] []].
Qed.

Lemma read_source_written d :
  source_validate d = ok -> id_ok (source_id d) ->
  whole_milliseconds (max_observation_age d) -> whole_milliseconds (clock_skew_tolerance d) ->
  read_source (source_json d) = Ok d.
Proof.
  intros Hv Hid (age & Eage & Hage) (skew & Eskew & Hskew).
  assert (valid (source_id d) = true) as Hvalid.
  { unfold source_validate in Hv. guards_ok Hv. by apply negb_false_iff. }
  unfold read_source, source_json. do 9 read_step.
  eapply bind_ok; [eapply read_capabilities_written; written |].
  rewrite Eage, Eskew. rewrite !milliseconds_of by done.
  read_step; [unfold u_ok; lia |]. read_step; [unfold u_ok; lia |]. cbv beta.
  rewrite !(proj2 (Z.ltb_ge _ _)) by lia. cbn [orb]. rewrite <- Eage, <- Eskew.
  destruct d. cbn in *. by rewrite Hv.
Qed.

Lemma parse_device_role_to_string r : parse_device_role (device_role_to_string r) = Ok r.
Proof. by destruct r. Qed.

Lemma parse_link_kind_to_string k : parse_link_kind (link_kind_to_string k) = Ok k.
Proof. by destruct k. Qed.

Lemma parse_provenance_to_string p : parse_hop_link_provenance (provenance_to_string p) = Ok p.
Proof. by destruct p. Qed.

Lemma parse_completeness_to_string c : parse_evidence_completeness (completeness_to_string c) = Ok c.
Proof. by destruct c. Qed.

#[local] Hint Resolve parse_device_role_to_string parse_link_kind_to_string parse_provenance_to_string
  parse_completeness_to_string : documents.

(** ** Topology generations *)

(** An instant that a document can hold. *)
Definition time_ok (t : TimePoint) : Prop := i64_ok (unix_nanos t) /\ is_set t = true.

Lemma wrap_u32_small v : u_ok 32 v -> wrap_u 32 v = v.
Proof. intros H. rewrite wrap_u_mod by lia. by apply Z.mod_small. Qed.

Lemma u32_u64 v : u_ok 32 v -> u_ok 64 v.
Proof. unfold u_ok. lia. Qed.

Section Topology.
Variable limits : Limits.

Record topology_document_ok (g : TopologyGeneration) : Prop := {
  td_id : id_ok (topo_id g);
  td_epoch : id_ok (topo_epoch g);
  td_incarnation : id_ok (topo_incarnation g);
  td_revision : id_ok (topo_revision g);
  td_sequence : id_ok (topo_sequence g) /\ valid (topo_sequence g) = true;
  td_source : id_ok (topo_source g);
  td_created : time_ok (topo_created g);
  td_received : time_ok (topo_received g);
  td_devices : Forall (fun d => id_ok (device_id d) /\ text_fits limits (device_name d)) (devices g);
  td_ports : Forall (fun p => id_ok (port_id p) /\ id_ok (port_device p) /\ u_ok 32 (port_index p) /\
                              text_fits limits (port_name p)) (ports g);
  td_links : Forall link_repr (links g);
  td_finalized : topology_finalize limits g = (ok, g)
}.

Lemma read_device_written d :
  id_ok (device_id d) -> valid (device_id d) = true -> read_device (device_json d) = Ok d.
Proof. intros Hi Hv. unfold read_device, device_json. do 4 read_step. by destruct d. Qed.

Lemma read_port_written p :
  id_ok (port_id p) -> id_ok (port_device p) -> u_ok 32 (port_index p) -> valid (port_id p) = true ->
  valid (port_device p) = true -> read_port (port_json p) = Ok p.
Proof.
  intros Hi Hd Hx Hv Hw. unfold read_port, port_json. do 3 read_step. read_step; [by apply u32_u64 |].
  rewrite wrap_u32_small by done. by destruct p.
Qed.

Lemma read_link_written l :
  link_repr l -> valid (link_id l) = true -> valid (local_device l) = true -> valid (local_port l) = true ->
  valid (remote_device l) = true -> valid (remote_port l) = true -> read_link (link_json l) = Ok l.
Proof.
  intros (H1 & H2 & H3 & H4 & H5) V1 V2 V3 V4 V5. unfold read_link, link_json. do 7 read_step. by destruct l.
Qed.

(** A finalised generation is within the bounds, and each of its records is valid. *)
Lemma topology_finalized_inv g :
  topology_finalize limits g = (ok, g) -> topology_precheck limits g = ok /\ topology_consistent g.
Proof.
  intros H. destruct (topology_finalize_cases limits g) as [(_ & Hp & Hc) | [(e & He) _]]; [done |].
  by rewrite H in He.
Qed.

Lemma read_topology_written g : topology_document_ok g -> read_topology limits (topology_json g) = Ok g.
Proof.
  intros []. pose proof (topology_finalized_inv g td_finalized0) as [Hpre (_ & _ & _ & Hd & Hp & Hl)].
  unfold topology_precheck in Hpre. guards_ok Hpre. rewrite !orb_false_iff, !negb_false_iff in G.
  destruct G as ((((V1 & V2) & V3) & V4) & V5). rewrite Z.ltb_ge in G0, G1, G2.
  destruct td_sequence0, td_created0, td_received0.
  unfold read_topology, topology_json. read_step.
  eapply (bind_ok _ _ (with_records g (devices g) (ports g) (links g) digest_zero)).
  - unfold read_topology_members. do 8 read_step.
    read_step. { rewrite Forall_elem in *. intros d Hin. apply read_device_written; [by apply td_devices0 | by apply Hd]. }
    read_step. { rewrite Forall_elem in *. intros p Hin. destruct (td_ports0 p Hin) as (? & ? & ? & _).
                 destruct (Hp p Hin) as (? & ? & _). by apply read_port_written. }
    read_step. { rewrite Forall_elem in *. intros l Hin. destruct (Hl l Hin) as (? & ? & ? & ? & ? & _).
                 by apply read_link_written; [apply td_links0 | ..]. }
    done.
  - cbv beta. by rewrite (topology_finalize_digest limits g g digest_zero).
Qed.

Lemma topology_json_fits g :
  64 <= max_string_bytes limits -> topology_document_ok g -> plain (hex (topo_digest g)) = true ->
  fits limits 5 (topology_json g).
Proof.
  intros Hs [] Hdig. destruct td_created0, td_received0. apply (fits_weaken _ 3); [| lia].
  unfold topology_json. object_fits; try done.
  - eapply Forall_impl; [exact td_devices0 |]. intros d [_ Hn]. unfold device_json. object_fits.
  - eapply Forall_impl; [exact td_ports0 |]. intros p (_ & _ & _ & Hn). unfold port_json. object_fits.
  - eapply Forall_impl; [exact td_links0 |]. intros l _. unfold link_json. object_fits.
Qed.

(** The digest of a finalised generation. *)
Lemma topology_finalized_digest g : topology_finalize limits g = (ok, g) -> plain (hex (topo_digest g)) = true.
Proof.
  intros H. destruct (topology_finalize_cases limits g) as [(E & _) | [(e & He) _]]; [| by rewrite H in He].
  rewrite H in E. injection E as E. rewrite E. unfold topology_normal. cbn [topo_digest with_records].
  unfold topology_canonical_digest. destruct (digest_of_ok (topology_canonical (with_records g
    (sort_by by_device_id (devices g)) (sort_by by_port_id (ports g)) (sort_by by_link_id (links g))
    (topo_digest g)))) as [Hb Hl].
  apply hex_plain; [done |]. by rewrite Hl.
Qed.
End Topology.

(** ** Route generations *)

Section Routes.
Variable limits : Limits.

(** A hop names a link exactly when it has one. *)
Definition expected_hop_document_ok (h : ExpectedHop) : Prop :=
  expected_hop_repr h /\ eh_has_egress_link h = valid (eh_egress_link h).

Record routes_document_ok (g : RouteGeneration) : Prop := {
  rd_id : id_ok (route_id g);
  rd_epoch : id_ok (route_epoch g);
  rd_incarnation : id_ok (route_incarnation g);
  rd_revision : id_ok (route_revision g);
  rd_sequence : id_ok (route_sequence g) /\ valid (route_sequence g) = true;
  rd_source : id_ok (route_source g);
  rd_topology : id_ok (route_topology g);
  rd_created : time_ok (route_created g);
  rd_received : time_ok (route_received g);
  rd_groups : Forall (fun gr => id_ok (group_id gr) /\ id_ok (group_origin gr) /\ id_ok (group_destination gr) /\
    text_fits limits (group_label gr) /\
    Forall (fun m : PathId => id_ok m /\ valid m = true) (group_members gr)) (groups g);
  rd_paths : Forall (fun p => id_ok (path_id p) /\ id_ok (path_group p) /\
    Forall expected_hop_document_ok (path_hops p)) (paths g);
  rd_finalized : route_finalize limits g = Ok g
}.

Lemma read_member_written m : id_ok m -> valid m = true -> read_member (make_number (value m)) = Ok m.
Proof.
  intros Hi Hv. unfold read_member. change (is_number (make_number (value m))) with true. cbn [negb].
  rewrite (proj1 (number_roundtrip (value m))) by done. cbn [result_bind]. unfold to_id, valid in *.
  destruct (value m =? 0); [done | by destruct m].
Qed.

Lemma read_group_written gr :
  valid (group_id gr) = true -> valid (group_origin gr) = true -> valid (group_destination gr) = true ->
  Z.of_nat (length (group_members gr)) <= max_members_per_group limits ->
  id_ok (group_id gr) -> id_ok (group_origin gr) -> id_ok (group_destination gr) ->
  Forall (fun m : PathId => id_ok m /\ valid m = true) (group_members gr) ->
  read_group limits (group_json gr) = Ok gr.
Proof.
  intros V1 V2 V3 Hn H1 H2 H3 Hm.
  unfold read_group, group_json. do 5 read_step.
  read_step. { eapply Forall_impl; [exact Hm |]. intros m [? ?]. by apply read_member_written. }
  by destruct gr.
Qed.

Lemma read_expected_hop_written i h :
  expected_hop_document_ok h -> expected_hop_wf h -> read_expected_hop i (hop_json h) = Ok h.
Proof.
  intros [(H1 & H2 & H3 & H4 & H5 & H6) Hl] (V1 & V2 & V3 & V4).
  unfold read_expected_hop, hop_json. rewrite Hl. read_step. read_step; [by apply u32_u64 |]. do 4 read_step.
  rewrite wrap_u32_small by done. fold (valid (eh_egress_link h)).
  destruct h as [i1 i2 i3 i4 i5 [l] b]. cbn [eh_egress_link eh_has_egress_link] in *. unfold valid in *. cbn [value] in *.
  subst b. destruct (Z.eqb_spec l 0) as [E | E]; [by rewrite E | done].
Qed.

Lemma read_expected_hops_written l : forall i,
  Forall expected_hop_document_ok l -> Forall expected_hop_wf l -> read_expected_hops i (map hop_json l) = Ok l.
Proof.
  induction l as [| h l IH]; intros i Hd Hw; [done |]. apply Forall_cons in Hd as [? ?], Hw as [? ?].
  cbn [map read_expected_hops]. rewrite read_expected_hop_written by done. cbn [result_bind]. by rewrite IH.
Qed.

Lemma hops_numbered_wf l : hops_numbered 0 l -> Forall expected_hop_wf l.
Proof.
  intros H. apply Forall_elem. intros h (k & Hk)%list_elem_of_lookup. by apply (H k h Hk).
Qed.

Lemma read_path_written g p :
  path_wf limits g p -> id_ok (path_id p) -> id_ok (path_group p) -> id_ok (route_id g) ->
  Forall expected_hop_document_ok (path_hops p) ->
  read_path limits (route_id g) (path_json (undigested p)) = Ok (undigested p).
Proof.
  intros (V1 & V2 & V3 & E & _ & Hn & Hw) H1 H2 H3 Hd. apply hops_numbered_wf in Hw.
  unfold read_path, path_json, undigested. cbn [path_id path_group path_generation path_hops]. rewrite E.
  do 5 read_step. eapply bind_ok; [by apply read_expected_hops_written |]. by destruct (route_id g).
Qed.

Lemma route_finalized_inv g :
  route_finalize limits g = Ok g -> route_precheck limits g = ok /\ route_consistent limits g /\ g = route_normal g.
Proof. apply route_finalize_iff. Qed.

Lemma read_routes_written g : routes_document_ok g -> read_routes limits (routes_json g) = Ok g.
Proof.
  intros []. destruct (route_finalized_inv g rd_finalized0) as (Hpre & (_ & _ & Hp & Hg) & _).
  unfold route_precheck in Hpre. guards_ok Hpre. rewrite !orb_false_iff, !negb_false_iff in G.
  destruct G as (((((V1 & V2) & V3) & V4) & V5) & V6). rewrite Z.ltb_ge in G0, G1.
  destruct rd_sequence0, rd_created0, rd_received0.
  assert (array_map path_json (paths g) = array_map path_json (map undigested (paths g))) as Epaths.
  { unfold array_map. by rewrite map_map. }
  unfold read_routes, routes_json. rewrite Epaths. read_step.
  eapply (bind_ok _ _ (with_expected g (groups g) (map undigested (paths g)) digest_zero)).
  - unfold read_routes_members. do 10 read_step.
    read_step. { rewrite Forall_elem in *. intros gr Hin. destruct (rd_groups0 gr Hin) as (? & ? & ? & _ & ?).
                 destruct (Hg gr Hin) as (? & ? & ? & ? & _). by apply read_group_written. }
    read_step. read_step; [by rewrite length_map | |].
    { apply Forall_map. rewrite Forall_elem in *. intros p Hin. destruct (rd_paths0 p Hin) as (? & ? & ?).
      by apply read_path_written; [apply Hp | ..]. }
    done.
  - cbv beta. by rewrite route_finalize_undigested.
Qed.

Lemma routes_json_fits g :
  64 <= max_string_bytes limits -> routes_document_ok g -> fits limits 5 (routes_json g).
Proof.
  intros Hs []. destruct rd_created0, rd_received0.
  assert (plain (hex (route_digest g)) = true) as Hdig.
  { destruct (route_finalized_inv g rd_finalized0) as (_ & _ & E). rewrite E. unfold route_normal.
    cbn [route_digest with_expected]. apply hex_plain; [apply digest_of_ok |].
    unfold route_canonical_digest. by rewrite (proj2 (digest_of_ok _)). }
  unfold routes_json. object_fits; try done.
  - eapply Forall_impl; [exact rd_groups0 |]. intros gr (_ & _ & _ & Hn & Hm). unfold group_json. object_fits.
    eapply Forall_impl; [exact Hm |]. intros m _. apply fits_number.
  - eapply Forall_impl; [exact rd_paths0 |]. intros p _. unfold path_json. object_fits.
    apply Forall_true. intros h. unfold hop_json. object_fits.
Qed.
End Routes.

(** ** Observed evidence *)

Section Evidence.
Variable limits : Limits.

Record evidence_document_ok (e : ObservedPathEvidence) : Prop := {
  ed_source : id_ok (ev_source e);
  ed_incarnation : id_ok (ev_incarnation e);
  ed_sequence : id_ok (ev_sequence e);
  ed_epoch : id_ok (ev_epoch e);
  ed_claimed : id_ok (ev_claimed_incarnation e);
  ed_revision : id_ok (ev_revision e);
  ed_route : id_ok (maybe_value (ev_route_generation e));
  ed_topology : id_ok (maybe_value (ev_topology_generation e));
  ed_path : id_ok (maybe_value (ev_path e));
  ed_group : id_ok (maybe_value (ev_group e));
  ed_origin : id_ok (maybe_value (ev_origin e));
  ed_destination : id_ok (maybe_value (ev_destination e));
  ed_observed : time_ok (ev_observed_at e);
  ed_received : time_ok (ev_received_at e);
  ed_hops : Forall hop_repr (ev_hops e);
  ed_payload : bytes_ok (bytes_ (ev_payload_digest e)) /\ length (bytes_ (ev_payload_digest e)) = kDigestBytes;
  ed_note : text_fits limits (ev_note e);
  ed_valid : evidence_validate limits e = ok;
  ed_sealed : digest_id_valid (ev_id e) = true
}.

Lemma read_observed_hop_written i h :
  hop_repr h -> hop_wf h -> read_observed_hop i (observed_hop_json h) = Ok h.
Proof.
  intros (H1 & H2 & H3 & H4 & H5 & H6) (V1 & _).
  unfold read_observed_hop, observed_hop_json. read_step; [by apply u32_u64 |]. do 7 read_step.
  rewrite wrap_u32_small by done. destruct h as [? ? [] [] [] ? ?]. done.
Qed.

Lemma read_observed_hops_written l : forall previous,
  Forall hop_repr l -> Forall hop_wf l -> read_observed_hops previous (map observed_hop_json l) = Ok l.
Proof.
  induction l as [| h l IH]; intros previous Hr Hw; [done |].
  apply Forall_cons in Hr as [? ?], Hw as [? ?]. cbn [map read_observed_hops].
  rewrite read_observed_hop_written by done. cbn [result_bind]. by rewrite IH.
Qed.

Lemma hex_nonempty d : length (bytes_ d) = kDigestBytes -> hex d <> "".
Proof. unfold hex. destruct (bytes_ d); [done |]. by cbn [hex_of]. Qed.

Lemma parse_hex_of d : bytes_ok (bytes_ d) -> length (bytes_ d) = kDigestBytes -> parse_hex (hex d) = Ok d.
Proof.
  intros Hb Hl. unfold parse_hex, hex. rewrite length_hex_of, Hl. cbn [Nat.eqb negb].
  change (2 * kDigestBytes =? 2 * kDigestBytes)%nat with true. cbn [negb].
  rewrite parse_nibbles_hex_of by done. by destruct d.
Qed.

Lemma read_payload_written object d :
  has object "payload_digest" (Some (JString (hex d))) -> bytes_ok (bytes_ d) ->
  length (bytes_ d) = kDigestBytes -> read_payload_digest object = Ok d.
Proof.
  intros H Hb Hl. unfold read_payload_digest. rewrite (optional_text_has _ _ _ _ H). cbn [result_bind].
  rewrite bool_decide_eq_false_2 by by apply hex_nonempty. by apply parse_hex_of.
Qed.

Lemma read_hops_written object l :
  has object "hops" (Some (array_map observed_hop_json l)) -> Z.of_nat (length l) <= max_hops_per_path limits ->
  Forall hop_repr l -> Forall hop_wf l -> read_evidence_hops limits object = Ok l.
Proof.
  intros [H _] Hn Hr Hw. unfold read_evidence_hops. rewrite H, check_array_map by done. cbn [result_bind].
  by apply read_observed_hops_written.
Qed.

(** The identity is not part of what it identifies. *)
Lemma seal_again e : ev_id e = compute_evidence_id e -> seal (with_identity e digest_id_zero) = e.
Proof.
  intros E. unfold seal.
  change (compute_evidence_id (with_identity e digest_id_zero)) with (compute_evidence_id e).
  rewrite <- E. by destruct e.
Qed.

Lemma validate_unsealed e :
  evidence_validate limits e = ok -> evidence_validate limits (with_identity e digest_id_zero) = ok.
Proof.
  rewrite !evidence_validate_iff. intros [].
  constructor; cbn [with_identity ev_source ev_incarnation ev_sequence ev_surface ev_authority ev_path
    ev_group ev_origin ev_destination ev_epoch ev_claimed_incarnation ev_route_generation
    ev_topology_generation ev_revision ev_observed_at ev_received_at ev_hops ev_source_truncated
    ev_declared_completeness ev_payload_digest ev_note ev_id]; done.
Qed.

Lemma read_evidence_written e : evidence_document_ok e -> read_evidence limits (evidence_json e) = Ok e.
Proof.
  intros []. pose proof (proj1 (evidence_validate_iff _ _) ed_valid0) as [].
  destruct ed_observed0, ed_received0, ed_payload0.
  unfold read_evidence, evidence_json. read_step.
  eapply (bind_ok _ _ (with_identity e digest_id_zero)).
  - unfold read_evidence_members. do 21 read_step.
    eapply bind_ok; [apply read_payload_written; [written | done..] |]. read_step.
    eapply bind_ok; [apply read_hops_written; [written | done..] |]. done.
  - cbv beta. rewrite (validate_unsealed e) by done. cbn [result_bind].
    by rewrite seal_again by by apply wf_identity.
Qed.

Lemma evidence_json_fits e :
  64 <= max_string_bytes limits -> evidence_document_ok e -> fits limits 5 (evidence_json e).
Proof.
  intros Hs []. pose proof (proj1 (evidence_validate_iff _ _) ed_valid0) as [].
  destruct ed_observed0, ed_received0, ed_payload0. apply (fits_weaken _ 3); [| lia].
  assert (plain (hex (ev_payload_digest e)) = true) as Hpayload.
  { apply hex_plain; [done |]. change kDigestBytes with 32%nat in *. lia. }
  assert (plain (digest_id_str (ev_id e)) = true) as Hid.
  { rewrite wf_identity by done. unfold digest_id_str, compute_evidence_id, from_digest. cbn [id_bytes].
    apply hex_plain; [by apply Forall_take, digest_of_ok |]. rewrite length_take. change kDigestIdBytes with 16%nat. lia. }
  unfold evidence_json. object_fits; try done.
  eapply Forall_impl; [exact ed_hops0 |]. intros h (_ & _ & _ & _ & _ & Hat). unfold observed_hop_json.
  by object_fits.
Qed.
End Evidence.

(** ** The contract of the documents *)

(** What a descriptor has to satisfy to be written as a document: the tolerances
    are whole milliseconds, since the document holds no smaller unit. *)
Record source_document_ok (limits : Limits) (d : SourceDescriptor) : Prop := {
  sd_valid : source_validate d = ok;
  sd_id : id_ok (source_id d);
  sd_name : text_fits limits (source_name d);
  sd_age : whole_milliseconds (max_observation_age d);
  sd_skew : whole_milliseconds (clock_skew_tolerance d)
}.

Lemma source_json_fits limits d :
  64 <= max_string_bytes limits -> source_document_ok limits d -> fits limits 5 (source_json d).
Proof.
  intros Hs []. apply (fits_weaken _ 2); [| lia]. unfold source_json. object_fits; try done.
  apply Forall_elem. intros s Hin. apply fits_string, plain_fits; [done |].
  unfold capability_names in Hin. rewrite !elem_of_app in Hin.
  destruct Hin as [Hin | [Hin | Hin]]; case_match; rewrite ?list_elem_of_singleton in Hin; by subst || by apply elem_of_nil in Hin.
Qed.

(** C36. The documents of the configuration are faithful, for values that their
    documents can hold: a valid source descriptor whose ages are whole milliseconds
    of at most a day, and a finalised topology or route generation with a sequence
    that is not zero and with both times set, whose texts are UTF-8 and whose
    document is within the bounds of the reader, are read back as the same values
    when they are written, pretty printed or not; names, labels, digests and the
    order of members included.  Finer ages and generations without a sequence are
    valid but do not read back ([submillisecond_age_is_lost],
    [sequence_less_generation_is_not_read_back]). *)
Theorem configuration_documents_roundtrip (limits : Limits) (pretty : bool) :
  (forall d, source_document_ok limits d -> writes_within limits (source_json d) pretty ->
     parse_source_descriptor limits (source_to_json d pretty) = Got d) /\
  (forall g, topology_document_ok limits g -> writes_within limits (topology_json g) pretty ->
     parse_topology_generation limits (topology_to_json g pretty) = Got g) /\
  (forall g, routes_document_ok limits g -> writes_within limits (routes_json g) pretty ->
     parse_route_generation limits (routes_to_json g pretty) = Got g).
Proof.
  split_and!.
  - intros d Hd Hw. apply parse_document_dump; [by apply source_json_fits; [apply Hw |] | done |].
    destruct Hd. by apply read_source_written.
  - intros g Hg Hw. apply parse_document_dump; [| done | by apply read_topology_written].
    apply topology_json_fits; [apply Hw | done |]. by eapply topology_finalized_digest, td_finalized.
  - intros g Hg Hw. apply parse_document_dump; [by apply routes_json_fits; [apply Hw |] | done |].
    by apply read_routes_written.
Qed.

(** An evidence document reads back as the sealed record it was written from. *)
Lemma evidence_document_roundtrip limits pretty e :
  evidence_document_ok limits e -> writes_within limits (evidence_json e) pretty ->
  parse_evidence limits (evidence_to_json e pretty) = Got e.
Proof.
  intros He Hw. apply parse_document_dump; [by apply evidence_json_fits; [apply Hw |] | done |].
  by apply read_evidence_written.
Qed.

Lemma parse_document_got {A} limits (read : JsonValue -> Result A) text x :
  parse_document limits read text = Got x <-> exists v, parse limits text = Got v /\ read v = Ok x.
Proof.
  unfold parse_document. split.
  - intros H. destruct (parse limits text) as [v | |]; [| done..]. exists v. split; [done |].
    cbn [parsed_bind] in H. destruct (read v); [by injection H as -> | done].
  - intros (v & -> & Hr). cbn [parsed_bind]. by rewrite Hr.
Qed.

Lemma parse_document_returns {A} limits (read : JsonValue -> Result A) text :
  parse_document limits read text <> OutOfFuel.
Proof.
  unfold parse_document. pose proof (parse_returns limits text). destruct (parse limits text); cbn [parsed_bind]; [| done..].
  by destruct (read a).
Qed.

Lemma require_id_valid {tag} object key what (id : StrongId tag) :
  require_id object key what = Ok id -> valid id = true.
Proof.
  unfold require_id, to_id. intros (raw & _ & H)%result_bind_ok. unfold valid. destruct (raw =? 0) eqn:E; [done |].
  injection H as <-. cbn [value]. by rewrite E.
Qed.

Lemma read_evidence_sound limits v e :
  read_evidence limits v = Ok e -> evidence_validate limits e = ok /\ ev_id e = compute_evidence_id e.
Proof.
  unfold read_evidence. intros ([] & _ & (e0 & Hm & H)%result_bind_ok)%result_bind_ok.
  apply result_bind_ok in H as ([] & Hv & [= <-]). split; [| done].
  unfold seal. revert Hv. rewrite !evidence_validate_iff. intros []. by constructor.
Qed.

(** The sequence of a generation was read from its member. *)
Ltac sequence_valid :=
  match goal with H : require_id _ "sequence" _ = Ok _ |- _ => exact (require_id_valid _ _ _ _ H) end.

(** C35. Nothing unchecked comes in through a document.  Reading any text ends, and
    what it returns has passed the validation of its type: descriptors are valid,
    generations are finalised (sorted, consistent, with the digest of their content,
    whatever digest the text states) with a sequence to order them by, and evidence
    is valid and carries the identity of its content, whatever identity the text
    states. *)
Theorem documents_are_validated (limits : Limits) (text : string) :
  (parse_source_descriptor limits text <> OutOfFuel /\ parse_topology_generation limits text <> OutOfFuel /\
   parse_route_generation limits text <> OutOfFuel /\ parse_evidence limits text <> OutOfFuel) /\
  (forall d, parse_source_descriptor limits text = Got d -> source_validate d = ok) /\
  (forall g, parse_topology_generation limits text = Got g ->
     topology_finalize limits g = (ok, g) /\ valid (topo_sequence g) = true) /\
  (forall g, parse_route_generation limits text = Got g ->
     route_finalize limits g = Ok g /\ valid (route_sequence g) = true) /\
  (forall e, parse_evidence limits text = Got e ->
     evidence_validate limits e = ok /\ ev_id e = compute_evidence_id e).
Proof.
  split_and!; try apply parse_document_returns.
  - intros d (v & _ & H)%parse_document_got. unfold read_source in H. guards_ok H.
    injection H as <-. by match goal with H : source_validate _ = Ok ?u |- _ => destruct u end.
  - intros g (v & _ & H)%parse_document_got. unfold read_topology in H.
    apply result_bind_ok in H as ([] & _ & (g0 & Hm & H)%result_bind_ok).
    destruct (topology_finalize limits g0) as [s g'] eqn:E. apply result_bind_ok in H as ([] & -> & [= ->]).
    split; [by eapply topology_finalize_again |].
    destruct (topology_finalize_cases limits g0) as [(E' & _) | [[e E'] _]]; [| by rewrite E in E'].
    rewrite E in E'. injection E' as ->. unfold read_topology_members in Hm.
    guards_ok Hm. injection Hm as <-. cbn. sequence_valid.
  - intros g (v & _ & H)%parse_document_got. unfold read_routes in H.
    apply result_bind_ok in H as ([] & _ & (g0 & Hm & H)%result_bind_ok).
    split; [by eapply route_finalize_again |]. apply route_finalize_iff in H as (_ & _ & ->).
    unfold read_routes_members in Hm. guards_ok Hm. injection Hm as <-. cbn. sequence_valid.
  - intros e (v & _ & H)%parse_document_got. by eapply read_evidence_sound.
Qed.

(** A configuration to write: two devices, a link, and a route over it. *)
Definition document_topology : TopologyGeneration :=
  let records d := mk_topology (from_value 1) (from_value 1) (from_value 1) (from_value 1) (from_value 5)
    (from_value 7) (from_unix_nanos 1) (from_unix_nanos 1500000000)
    [mk_device (from_value 1) "a" Switch; mk_device (from_value 2) "b" Switch]
    [mk_port (from_value 11) (from_value 1) "a0" 0; mk_port (from_value 12) (from_value 2) "b0" 0]
    [mk_link (from_value 21) (from_value 1) (from_value 11) (from_value 2) (from_value 12) Physical] d in
  records (topology_canonical_digest (records digest_zero)).

Definition document_route : RouteGeneration :=
  let hops :=
    [mk_expected_hop (from_value 31) 0 (from_value 1) (from_value 10) (from_value 11) (from_value 21) true;
     mk_expected_hop (from_value 32) 1 (from_value 2) (from_value 12) (from_value 13) id_none false] in
  let path := set_path_digest (mk_path (from_value 3) (from_value 4) (from_value 1) hops digest_zero) in
  let records d := mk_route (from_value 1) (from_value 1) (from_value 1) (from_value 1) (from_value 6) (from_value 8)
    (from_value 1) (from_unix_nanos 1) (from_unix_nanos 1)
    [mk_group (from_value 4) (from_value 1) (from_value 2) "a-b" [from_value 3]] [path] d in
  records (route_canonical_digest (records digest_zero)).

(** Goals about concrete records. *)
Ltac concrete :=
  lazymatch goal with
  | |- _ /\ _ => split; concrete
  | |- Forall _ [] => constructor
  | |- Forall _ (_ :: _) => constructor; [cbv beta; concrete | concrete]
  | |- text_fits _ _ => apply plain_fits; [by vm_compute | reflexivity]
  | |- id_ok _ => by vm_compute
  | |- u_ok _ _ => by vm_compute
  | |- time_ok _ => split; by vm_compute
  | |- i64_ok _ => by vm_compute
  | |- whole_milliseconds _ => exists 0; by vm_compute
  | |- bytes_ok _ => repeat constructor; by vm_compute
  | |- Forall _ ?l => let l' := eval hnf in l in change l with l'; concrete
  | |- link_repr _ => unfold link_repr; concrete
  | |- hop_repr _ => unfold hop_repr; concrete
  | |- expected_hop_document_ok _ => unfold expected_hop_document_ok, expected_hop_repr; concrete
  | |- _ => vm_compute; first [reflexivity | discriminate]
  end.

Lemma document_source_ok : source_document_ok default_limits example_source.
Proof. constructor; concrete. Qed.

Lemma document_topology_ok : topology_document_ok default_limits document_topology.
Proof. constructor; concrete. Qed.

Lemma document_route_ok : routes_document_ok default_limits document_route.
Proof. constructor; concrete. Qed.

Lemma configuration_documents_roundtrip_witness :
  parse_source_descriptor default_limits (source_to_json example_source true) = Got example_source /\
  parse_topology_generation default_limits (topology_to_json document_topology false) = Got document_topology /\
  parse_route_generation default_limits (routes_to_json document_route true) = Got document_route.
Proof.
  assert (forall v pretty, Z.of_nat (json_nodes v) <= 1000 -> Z.of_nat (String.length (dump v pretty)) <= 10000 ->
    writes_within default_limits v pretty) as Hw.
  { intros v pretty Hn Hb. constructor; [by vm_compute | by vm_compute | |];
      eapply Z.le_trans; [exact Hn | by vm_compute | exact Hb | by vm_compute]. }
  destruct (configuration_documents_roundtrip default_limits true) as (Hs & _ & Hr).
  destruct (configuration_documents_roundtrip default_limits false) as (_ & Ht & _).
  split; [| split].
  - apply Hs; [apply document_source_ok | apply Hw; by vm_compute].
  - apply Ht; [apply document_topology_ok | apply Hw; by vm_compute].
  - apply Hr; [apply document_route_ok | apply Hw; by vm_compute].
Defined.

Lemma documents_are_validated_witness :
  topology_finalize default_limits document_topology = (ok, document_topology) /\
  evidence_validate default_limits (seal example_evidence) = ok.
Proof.
  split.
  - apply (documents_are_validated default_limits (topology_to_json document_topology true)). vm_compute. reflexivity.
  - apply (documents_are_validated default_limits (evidence_to_json (seal example_evidence) true)). vm_compute. reflexivity.
Defined.

(** ** Documents that do not come back *)

(** A valid sealed record without a receive time is written with the text [unset],
    which no reader takes for a time. *)
Example unset_time_is_not_read_back :
  let e := seal (with_received_at example_evidence unset) in
  evidence_validate default_limits e = ok /\
  parse_evidence default_limits (evidence_to_json e false) =
    Failed (error InvalidFormat "timestamp is too short for RFC 3339").
Proof. split; vm_compute; reflexivity. Qed.

(** A finalised generation without a sequence writes a document that is refused. *)
Example sequence_less_generation_is_not_read_back :
  let g := topology_normal example_topology in
  topology_finalize default_limits g = (ok, g) /\
  parse_topology_generation default_limits (topology_to_json g false) =
    Failed (error InvalidIdentity "identity must not be zero: sequence").
Proof. split; vm_compute; reflexivity. Qed.

(** A port index beyond 32 bits is cut without an error. *)
Example wide_index_is_truncated :
  read_port (object_of [set_u64 "id" 1; set_u64 "device" 2; set_u64 "index" 4294967297]) =
  Ok (mk_port (from_value 1) (from_value 2) "" 1).
Proof. vm_compute. reflexivity. Qed.

(** An age below a millisecond is written as zero. *)
Example submillisecond_age_is_lost :
  let d := mk_source (from_value 7) "edge" TelemetryObserver SurfaceReal Advisory
    (mk_capabilities false true false) 999999 0 in
  source_validate d = ok /\
  parse_source_descriptor default_limits (source_to_json d false) = Got example_source.
Proof. split; vm_compute; reflexivity. Qed.
