(* ===== verification/DocumentLines.v ===== *)
(** Evidence journals ([parse_evidence_lines] of [src/documents.cpp]): how a text
    falls into lines, and that a journal of written records, with blank lines,
    comments, indentation and carriage returns, reads back in order. *)
From Stdlib Require Import Ascii.
From S2P Require Import Prelude Errors StdAlgo Digest Canonical Ids TimeModel Limits Utf8 Source Observed Json JsonGrammar JsonProps DocumentRead DocumentWrite DocumentForms DocumentProps.
#[local] Open Scope string_scope.
#[local] Open Scope list_scope.
#[local] Open Scope Z_scope.

(** ** Lines *)

Definition not_newline (c : ascii) : bool := negb (Ascii.eqb c kNewline).

(** A text without a line feed. *)
Definition one_line (s : string) : Prop := all_chars not_newline s = true.

Lemma split_line_app s rest : one_line s -> split_line (s +:+ String kNewline rest) = (s, Some rest).
Proof.
  unfold one_line. induction s as [| c s IH]; [done |]. cbn [all_chars]. rewrite andb_true_iff. intros [Hc Hs].
  rewrite str_app_cons. cbn [split_line]. unfold not_newline in Hc. destruct (Ascii.eqb c kNewline); [done |].
  by rewrite IH.
Qed.

Lemma split_line_end s : one_line s -> split_line s = (s, None).
Proof.
  unfold one_line. induction s as [| c s IH]; [done |]. cbn [all_chars split_line]. rewrite andb_true_iff.
  intros [Hc Hs]. unfold not_newline in Hc. destruct (Ascii.eqb c kNewline); [done |]. by rewrite IH.
Qed.

(** A text of lines, each of which ends with a line feed. *)
Fixpoint unlines (lines : list string) : string :=
  match lines with [] => "" | line :: lines => line +:+ String kNewline (unlines lines) end.

Lemma lines_of_unlines lines : forall fuel, (String.length (unlines lines) <= fuel)%nat ->
  Forall one_line lines -> lines_of fuel (unlines lines) = lines.
Proof.
  induction lines as [| line lines IH]; intros fuel Hf Hl; [by destruct fuel |].
  apply Forall_cons in Hl as [Hline Hl]. cbn [unlines] in *. rewrite str_length_app in Hf. cbn [String.length] in Hf.
  destruct fuel as [| fuel]; [lia |]. cbn [lines_of].
  rewrite bool_decide_eq_false_2 by by destruct line.
  rewrite split_line_app by done. f_equal. apply IH; [lia | done].
Qed.

(** ** What is around a document on its line *)

Definition blanks (s : string) : Prop := all_chars is_blank s = true.
Definition line_tail (s : string) : Prop := all_chars (fun c => is_blank c || Ascii.eqb c "013"%char) s = true.

Lemma drop_front_app before s : blanks before -> is_blank (peek s) = false -> drop_front (before +:+ s) = s.
Proof.
  unfold blanks. intros Hb Hs. induction before as [| c before IH].
  - rewrite str_app_nil. destruct s as [| c s]; [done |]. cbn [peek drop_front] in *. by rewrite Hs.
  - cbn [all_chars] in Hb. apply andb_true_iff in Hb as [Hc Hb]. rewrite str_app_cons. cbn [drop_front].
    rewrite Hc. by apply IH.
Qed.

Lemma drop_back_tail after : line_tail after -> drop_back after = "".
Proof.
  unfold line_tail. induction after as [| c after IH]; [done |]. cbn [all_chars drop_back].
  rewrite andb_true_iff. intros [Hc Ha]. rewrite IH by done. by rewrite Hc.
Qed.

Lemma drop_back_last s c after :
  line_tail after -> is_blank c || Ascii.eqb c "013"%char = false ->
  drop_back (s +:+ String c "" +:+ after) = s +:+ String c "".
Proof.
  intros Ha Hc. induction s as [| d s IH].
  - rewrite str_app_nil, str_app_cons, !str_app_nil. cbn [drop_back]. rewrite drop_back_tail by done. by rewrite Hc.
  - rewrite (str_app_cons d s), (str_app_cons d s (String c "")). cbn [drop_back]. rewrite IH. by destruct s.
Qed.

(** ** Compact documents take one line *)

Lemma one_line_app s t : one_line s -> one_line t -> one_line (s +:+ t).
Proof. unfold one_line. intros Hs Ht. by rewrite all_chars_app, Hs, Ht. Qed.

Lemma digits_one_line s : all_chars is_digit s = true -> one_line s.
Proof.
  unfold one_line. induction s as [| c s IH]; [done |]. cbn [all_chars]. rewrite !andb_true_iff. intros [Hc Hs].
  split; [| by apply IH]. unfold not_newline. by rewrite (is_digit_neq c kNewline).
Qed.

Lemma number_one_line s : NumberText s -> one_line s.
Proof.
  intros H. destruct H as [sign int frac exp Hs Hi Hf He].
  apply one_line_app; [by destruct Hs |]. apply one_line_app; [by apply digits_one_line, integer_all_digits |].
  apply one_line_app.
  - destruct Hf as [| d [_ Hd]]; [done |]. apply (one_line_app "."); [done | by apply digits_one_line].
  - assert (forall chars c, is_one_of chars c = true -> is_one_of chars kNewline = false -> one_line (String c "")) as Hone.
    { intros chars c Hc Hn. unfold one_line. cbn [all_chars]. unfold not_newline.
      destruct (Ascii.eqb_spec c kNewline) as [-> |]; [congruence | done]. }
    destruct He as [| e d He [_ Hd] | e sign' d He Hs' [_ Hd]]; [done | |].
    + apply (one_line_app (String e "")); [by eapply Hone | by apply digits_one_line].
    + apply (one_line_app (String e "")); [by eapply Hone |].
      apply (one_line_app (String sign' "")); [by eapply Hone | by apply digits_one_line].
Qed.

Lemma escape_text_one_line s : one_line (escape_text s).
Proof.
  apply (one_line_app (String kQuote "")); [done |]. apply one_line_app; [| done].
  induction s as [| c s IH]; [done |]. cbn [escape_chars]. apply one_line_app; [| done].
  by destruct c as [[] [] [] [] [] [] [] []].
Qed.

Lemma dump_list_one_line {A} (one : A -> string) first l :
  Forall (fun x => one_line (one x)) l -> one_line (dump_list one first l).
Proof.
  intros H. revert first. induction H as [| x l Hx _ IH]; intros first; [done |]. rewrite dump_list_cons.
  apply one_line_app; [by destruct first |]. by apply one_line_app.
Qed.

Lemma dump_one_line limits v : JsonWf limits v -> forall indent, one_line (dump_text false indent v).
Proof.
  induction v as [| b | s | s | items IH | fields IH] using JsonValue_ind; intros Hwf indent.
  - done.
  - by destruct b.
  - inversion_clear Hwf as [| | ? Hs | | |]. cbn [dump_text]. case_bool_decide; [done | by apply number_one_line].
  - cbn [dump_text]. apply escape_text_one_line.
  - inversion_clear Hwf as [| | | | ? Hall |]. destruct items as [| v items]; [done |]. cbn [dump_text].
    set (l := v :: items) in *. apply (one_line_app "["); [done |]. apply one_line_app; [| done].
    apply dump_list_one_line, Forall_elem. intros w Hw. rewrite Forall_elem in IH, Hall.
    apply (one_line_app ""); [done |]. apply (IH w Hw), (Hall w Hw).
  - inversion_clear Hwf as [| | | | | ? _ _ Hall]. destruct fields as [| f fields]; [done |]. cbn [dump_text].
    set (l := f :: fields) in *. apply (one_line_app "{"); [done |]. apply one_line_app; [| done].
    apply dump_list_one_line, Forall_elem. intros w Hw. rewrite Forall_elem in IH, Hall.
    apply (one_line_app ""); [done |]. apply one_line_app; [apply escape_text_one_line |].
    apply (one_line_app ":"); [done |]. apply (one_line_app ""); [done |]. apply (IH w Hw), (Hall w Hw).
Qed.

(** An object is between braces. *)
Lemma dump_object_braces fields pretty :
  exists inner, dump (JObject fields) pretty = String "{"%char (inner +:+ "}").
Proof.
  unfold dump. destruct fields as [| f fields]; [by exists "" |]. cbn [dump_text].
  match goal with |- exists inner, "{" +:+ ?l +:+ ?n +:+ "}" = _ => exists (l +:+ n); by rewrite (str_app_assoc l n "}") end.
Qed.

(** ** Journals *)

Section Journal.
Variable limits : Limits.

(** The lines of a journal and the records they hold: blank lines and comments
    hold none, and a document may be indented and end with a carriage return. *)
Inductive Journal : list ObservedPathEvidence -> list string -> Prop :=
| journal_end : Journal [] []
| journal_skip line es lines :
    one_line line -> is_skipped (trim_line line) = true -> Journal es lines -> Journal es (line :: lines)
| journal_record before e after es lines :
    blanks before -> line_tail after -> one_line before -> one_line after ->
    evidence_document_ok limits e -> writes_within limits (evidence_json e) false ->
    Journal es lines -> Journal (e :: es) ((before +:+ evidence_to_json e false +:+ after) :: lines).

Lemma trim_document before after fields :
  blanks before -> line_tail after ->
  trim_line (before +:+ dump (JObject fields) false +:+ after) = dump (JObject fields) false.
Proof.
  intros Hb Ha. destruct (dump_object_braces fields false) as (inner & ->). unfold trim_line.
  assert (before +:+ String "{"%char (inner +:+ "}") +:+ after =
          (before +:+ String "{"%char inner) +:+ String "}"%char "" +:+ after) as ->.
  { by rewrite !str_app_assoc, !str_app_cons, !str_app_assoc. }
  rewrite drop_back_last by done. rewrite str_app_assoc, str_app_cons. by apply drop_front_app.
Qed.

Lemma evidence_json_object e : exists fields, evidence_json e = JObject fields.
Proof. unfold evidence_json. rewrite object_of_members by reflexivity. by eexists. Qed.

Lemma journal_one_line es lines : Journal es lines -> Forall one_line lines.
Proof.
  induction 1 as [| line es lines Hl _ _ IH | before e after es lines _ _ Hb Ha He [] _ IH]; constructor; try done.
  apply one_line_app; [done |]. apply one_line_app; [| done].
  apply (dump_one_line limits). by apply (evidence_json_fits limits e).
Qed.

Lemma read_lines_journal es lines : Journal es lines -> forall n out rest,
  Z.of_nat (length (out ++ es)) <= max_evidence_per_ingest_batch limits ->
  read_lines limits n out (lines ++ rest) = read_lines limits (n + Z.of_nat (length lines)) (out ++ es) rest.
Proof.
  induction 1 as [| line es lines _ Hs _ IH | before e after es lines Hb Ha _ _ He Hw _ IH]; intros n out rest Hn.
  - cbn. rewrite app_nil_r. f_equal. lia.
  - cbn [read_lines app]. cbv zeta. rewrite Hs, IH by done. f_equal. cbn [length]. lia.
  - cbn [read_lines app]. cbv zeta.
    assert (trim_line (before +:+ evidence_to_json e false +:+ after) = evidence_to_json e false) as ->.
    { unfold evidence_to_json. destruct (evidence_json_object e) as (fields & ->). by apply trim_document. }
    assert (is_skipped (evidence_to_json e false) = false) as ->.
    { unfold evidence_to_json. destruct (evidence_json_object e) as (fields & ->).
      by destruct (dump_object_braces fields false) as (inner & ->). }
    rewrite evidence_document_roundtrip by done.
    assert (length (out ++ e :: es) = length ((out ++ [e]) ++ es)) as E by by rewrite <- app_assoc.
    rewrite (proj2 (Z.ltb_ge _ _)) by (rewrite E, length_app in Hn; lia).
    rewrite IH by (by rewrite <- E). rewrite <- app_assoc. f_equal. cbn [length]. lia.
Qed.

(** C37. A journal is read in order and completely.  A text of lines, each blank, a
    comment or the compact document of a record (indented or not, with or without a
    carriage return), where every record is valid and sealed, has both its times
    set, a UTF-8 note and a document within the bounds of the reader, and which are
    no more records than one ingest takes, reads back as exactly those records in
    their order; and a line after them that is no evidence document fails the whole
    journal with the error of that line and its number.  A valid record without a
    receive time is written but not read back ([unset_time_is_not_read_back]). *)
Theorem evidence_journal_roundtrip es lines :
  Journal es lines -> Z.of_nat (length es) <= max_evidence_per_ingest_batch limits ->
  parse_evidence_lines limits (unlines lines) = Got es /\
  forall bad after e, Forall one_line (bad :: after) -> is_skipped (trim_line bad) = false ->
    parse_evidence limits (trim_line bad) = Failed e ->
    parse_evidence_lines limits (unlines (lines ++ bad :: after)) =
      Failed (line_error (Z.of_nat (length lines) + 1) e).
Proof.
  intros Hj Hn. pose proof (journal_one_line es lines Hj) as Hl. unfold parse_evidence_lines. split.
  - rewrite lines_of_unlines by done. rewrite <- (app_nil_r lines). by rewrite (read_lines_journal es lines Hj 0 []).
  - intros bad after e Hbad Hs He. rewrite lines_of_unlines by (done || by apply Forall_app).
    rewrite (read_lines_journal es lines Hj 0 []) by done. cbn [read_lines]. cbv zeta. by rewrite Hs, He.
Qed.

(** What the loop returns extends what it had, by valid records, one line each,
    within the bound. *)
Lemma read_lines_sound lines : forall n out es,
  read_lines limits n out lines = Got es ->
  exists added, es = out ++ added /\ (length added <= length lines)%nat /\
    Forall (fun e => evidence_validate limits e = ok /\ ev_id e = compute_evidence_id e) added /\
    (added = [] \/ Z.of_nat (length es) <= max_evidence_per_ingest_batch limits).
Proof.
  induction lines as [| line lines IH]; intros n out es; cbn [read_lines].
  - intros [= <-]. exists []. rewrite app_nil_r. split_and!; [done | done | constructor | by left].
  - cbv zeta. destruct (is_skipped _).
    + intros (added & -> & Hl & Ha & Hb)%IH. exists added. split_and!; [done | cbn [length]; lia | done | done].
    + destruct (parse_evidence limits (trim_line line)) as [e | |] eqn:Ee; [| done..].
      destruct (Z.ltb_spec (max_evidence_per_ingest_batch limits) (Z.of_nat (length (out ++ [e])))) as [| Hb]; [done |].
      intros (added & -> & Hl & Ha & Hb')%IH. exists (e :: added).
      apply parse_document_got in Ee as (v & _ & Hv). apply read_evidence_sound in Hv.
      split_and!; [by rewrite <- app_assoc | cbn [length]; lia | by constructor |].
      right. destruct Hb' as [-> | Hb']; [by rewrite app_nil_r | done].
Qed.
End Journal.

(** Whatever a journal holds, what is read from it is valid and sealed. *)
Theorem journal_is_validated limits text es :
  parse_evidence_lines limits text = Got es ->
  Forall (fun e => evidence_validate limits e = ok /\ ev_id e = compute_evidence_id e) es /\
  (es = [] \/ Z.of_nat (length es) <= max_evidence_per_ingest_batch limits).
Proof. by intros (added & -> & _ & H & Hb)%read_lines_sound. Qed.

(** A comment, an indented record and a blank line. *)
Definition journal_lines : list string :=
  ["# captured"; "  " +:+ evidence_to_json (seal example_evidence) false +:+ String "013"%char ""; ""].

Lemma document_evidence_ok : evidence_document_ok default_limits (seal example_evidence).
Proof. constructor; concrete. Qed.

Lemma evidence_journal_roundtrip_witness :
  parse_evidence_lines default_limits (unlines journal_lines) = Got [seal example_evidence] /\
  parse_evidence_lines default_limits (unlines (journal_lines ++ ["{}"])) =
    Failed (error InvalidFormat "evidence line 4: document is missing a required member: kind").
Proof.
  destruct (evidence_journal_roundtrip default_limits [seal example_evidence] journal_lines) as [H1 H2].
  - apply journal_skip; [reflexivity | reflexivity |]. apply journal_record; [reflexivity.. | | |].
    + apply document_evidence_ok.
    + constructor; by vm_compute.
    + apply journal_skip; [reflexivity | reflexivity | constructor].
  - by vm_compute.
  - split; [exact H1 |]. rewrite (H2 "{}" [] (error InvalidFormat "document is missing a required member: kind"));
      [reflexivity | repeat constructor | reflexivity | by vm_compute].
Defined.
