(* ===== verification/DocumentReports.v ===== *)
(** The reports of [src/documents.cpp]: every report is a JSON document of its
    value, and the documents a report embeds are embedded as they are, never as
    the null that the code falls back on. *)
From S2P Require Import Prelude Errors StdAlgo Digest Canonical Ids TimeModel Limits Utf8 Source Topology Observed Expected Freshness Divergence Compare Finding History Persistence Metrics Codec Json JsonGrammar JsonProps RuntimeState Runtime DocumentRead DocumentWrite DocumentForms DocumentProps.
#[local] Open Scope string_scope.
#[local] Open Scope list_scope.
#[local] Open Scope Z_scope.

(** ** The length of a compact document *)

(** A bound on the text of a value: an escaped character takes at most six. *)
Fixpoint text_weight (v : JsonValue) : nat :=
  match v with
  | JNull | JBoolean _ => 5
  | JNumber s => S (String.length s)
  | JString s => 2 + 6 * String.length s
  | JArray items => 2 + list_sum (map (fun v => S (text_weight v)) items)
  | JObject fields => 2 + list_sum (map (fun f => 4 + 6 * String.length f.1 + text_weight f.2) fields)
  end%nat.

Lemma escape_text_length s : (String.length (escape_text s) <= 2 + 6 * String.length s)%nat.
Proof.
  unfold escape_text. cbn [String.length]. rewrite str_length_app. cbn [String.length].
  assert (String.length (escape_chars s) <= 6 * String.length s)%nat; [| lia].
  induction s as [| c s IH]; [cbn; lia |]. cbn [escape_chars String.length]. rewrite str_length_app.
  assert (String.length (escape_char c) <= 6)%nat; [| lia].
  unfold escape_char. destruct (_ || _); [cbn; lia |]. destruct (_ <? _); [| cbn; lia].
  destruct (short_escape _); cbn; lia.
Qed.

Lemma dump_list_length {A} (one : A -> string) (weight : A -> nat) first l :
  Forall (fun x => (String.length (one x) <= weight x)%nat) l ->
  (String.length (dump_list one first l) <= list_sum (map (fun x => S (weight x)) l))%nat.
Proof.
  intros H. revert first. induction H as [| x l Hx _ IH]; intros first; [cbn; lia |].
  rewrite dump_list_cons, !str_length_app. cbn [map]. rewrite list_sum_cons. specialize (IH false).
  destruct first; cbn [String.length]; lia.
Qed.

Lemma dump_length v : forall indent, (String.length (dump_text false indent v) <= text_weight v)%nat.
Proof.
  induction v as [| b | s | s | items IH | fields IH] using JsonValue_ind; intros indent.
  - cbn; lia.
  - destruct b; cbn; lia.
  - cbn [dump_text text_weight]. case_bool_decide; cbn; lia.
  - apply escape_text_length.
  - destruct items as [| v items]; [cbn; lia |]. cbn [dump_text]. set (l := v :: items) in *.
    rewrite !str_length_app. change (String.length (line false indent)) with 0%nat. cbn [String.length text_weight].
    assert (Forall (fun v => (String.length (line false (indent + 2) +:+ dump_text false (indent + 2) v) <= text_weight v)%nat) l)
      as H by (apply Forall_elem; intros w Hw; rewrite Forall_elem in IH; apply (IH w Hw)).
    apply (dump_list_length _ _ true) in H. lia.
  - destruct fields as [| f fields]; [cbn; lia |]. cbn [dump_text]. set (l := f :: fields) in *.
    rewrite !str_length_app. change (String.length (line false indent)) with 0%nat. cbn [String.length text_weight].
    assert (Forall (fun f : string * JsonValue => (String.length (line false (indent + 2) +:+ escape_text f.1 +:+ ":" +:+
      (if false then " " else "") +:+ dump_text false (indent + 2) f.2) <= 3 + 6 * String.length f.1 + text_weight f.2)%nat) l) as H.
    { apply Forall_elem. intros w Hw. rewrite Forall_elem in IH. specialize (IH w Hw (indent + 2)%nat).
      pose proof (escape_text_length w.1). rewrite !str_length_app. cbn [String.length line]. lia. }
    apply (dump_list_length _ _ true) in H.
    assert (map (fun x : string * JsonValue => S (3 + 6 * String.length x.1 + text_weight x.2)) l =
            map (fun f => (4 + 6 * String.length f.1 + text_weight f.2)%nat) l) as E by (apply map_ext; intros; lia).
    rewrite E in H. lia.
Qed.

Lemma dec_go_length fuel n acc : (String.length (dec_go fuel n acc) <= fuel + String.length acc)%nat.
Proof.
  revert n acc. induction fuel as [| fuel IH]; intros n acc; cbn [dec_go]; [cbn; lia |].
  destruct (n <? 10); [cbn [String.length]; lia |]. specialize (IH (n / 10) (String (digit_char (n mod 10)) acc)).
  cbn [String.length] in IH. lia.
Qed.

Lemma number_weight v : u_ok 64 v -> (text_weight (make_number v) <= 66)%nat.
Proof.
  unfold u_ok. intros Hv. unfold make_number. rewrite (proj2 (Z.ltb_ge v 0)) by lia. cbn [text_weight].
  unfold to_string. pose proof (dec_go_length (S (Z.to_nat (Z.log2 v))) v "") as H.
  assert (Z.log2 v < 64) by (destruct (decide (v = 0)) as [-> |]; [done | apply Z.log2_lt_pow2; lia]).
  pose proof (Z.log2_nonneg v). cbn [String.length] in H. lia.
Qed.

(** ** Embedded documents *)

(** A member of an embedded document that is written in at most this many bytes. *)
Definition member_light (bound : Z) (m : Member) : Prop :=
  match m.2 with Some v => Z.of_nat (text_weight v) <= bound | None => True end.

Definition flat (v : JsonValue) : Prop := json_nodes v = 1%nat.

(** A member of an object without nesting. *)
Definition report_member (bound : Z) (m : Member) : Prop :=
  member_fits default_limits 0 m /\ member_light bound m /\ match m.2 with Some v => flat v | None => True end.

Lemma fields_set_weight bound l : Forall (report_member bound) l ->
  (0 <= bound -> Z.of_nat (list_sum (map (fun f => 4 + 6 * String.length f.1 + text_weight f.2)%nat (fields_set l))) <=
   (388 + bound) * Z.of_nat (length l)) /\
  (list_sum (map (fun f => json_nodes f.2) (fields_set l)) <= length l)%nat.
Proof.
  induction 1 as [| [key [v |]] l [[Hk Hf] [Hw Hn]] _ [IH1 IH2]]; cbn [fields_set]; [cbn; lia | |].
  - cbn [map]. rewrite !list_sum_cons. cbn [fst snd length] in *. unfold member_light, flat in *. cbn [snd] in *.
    unfold plain in Hk. apply andb_true_iff in Hk as [_ Hk%Nat.leb_le]. rewrite Hn. lia.
  - cbn [length]. lia.
Qed.

(** A report of a few plain members is embedded as the value it was written from. *)
Lemma embedded_object bound l :
  distinct l = true -> Forall (report_member bound) l -> (length l <= 30)%nat -> 0 <= bound <= 100000 ->
  embedded (dump (object_of l) false) = object_of l.
Proof.
  intros Hd Hl Hn Hb. destruct (fields_set_weight bound l Hl) as [Hweight Hnodes]. specialize (Hweight (proj1 Hb)).
  assert (fits default_limits 1 (object_of l)) as [Hwf Hh].
  { apply fits_object; [by vm_compute | done |]. eapply Forall_impl; [exact Hl |]. by intros m []. }
  assert (Z.of_nat (String.length (dump (object_of l) false)) <= max_document_bytes default_limits) as Hbytes.
  { pose proof (dump_length (object_of l) 0) as H. unfold dump. rewrite object_of_members in * by done.
    cbn [text_weight] in H. change (max_document_bytes default_limits) with 67108864. nia. }
  assert (Z.of_nat (json_nodes (object_of l)) <= max_json_nodes default_limits) as Hnodes'.
  { rewrite object_of_members by done. cbn [json_nodes]. change (max_json_nodes default_limits) with 2000000. lia. }
  unfold embedded. rewrite dump_parse_roundtrip; try done.
  change (max_json_depth default_limits) with 64. lia.
Qed.

Lemma set_u64_report key v : plain key = true -> u_ok 64 v -> report_member 100000 (set_u64 key v).
Proof.
  intros Hk Hv. split_and!; [by apply set_u64_fits | | done].
  unfold member_light. cbn [snd set_u64 set_value]. pose proof (number_weight v Hv). lia.
Qed.

Lemma set_bool_report key b : plain key = true -> report_member 100000 (set_bool key b).
Proof. intros Hk. split_and!; [by apply set_bool_fits | unfold member_light; cbn; lia | done]. Qed.

Lemma set_string_report key s :
  plain key = true -> text_fits default_limits s -> Z.of_nat (String.length s) <= 10000 -> report_member 100000 (set_string key s).
Proof.
  intros Hk Hs Hl. split_and!; [by apply set_string_fits | | done].
  unfold member_light. cbn [snd set_string set_value text_weight]. lia.
Qed.

Lemma plain_length s : plain s = true -> (String.length s <= 64)%nat.
Proof. unfold plain. by intros [_ H%Nat.leb_le]%andb_true_iff. Qed.

Lemma set_plain_report key s : plain key = true -> plain s = true -> report_member 100000 (set_string key s).
Proof.
  intros Hk Hs. apply set_string_report; [done | apply plain_fits; [by vm_compute | done] |].
  pose proof (plain_length s Hs). lia.
Qed.

Lemma set_time_report key t : plain key = true -> i64_ok (unix_nanos t) -> report_member 100000 (set_time key t).
Proof. intros Hk Ht. apply (set_plain_report key); [done | by apply rfc3339_plain]. Qed.

Lemma set_if_report b m : report_member 100000 m -> report_member 100000 (set_if b m).
Proof. intros (H1 & H2 & H3). unfold set_if. destruct b; [by destruct m | by destruct H1]. Qed.

(** *** The labels *)

Lemma freshness_plain f : plain (freshness_to_string f) = true.
Proof. by destruct f. Qed.

Lemma consistency_plain c : plain (consistency_to_string c) = true.
Proof. by destruct c. Qed.

Lemma outcome_plain o : plain (outcome_to_string o) = true.
Proof. by destruct o. Qed.

Lemma to_code_plain d : plain (to_code d) = true.
Proof. by destruct d. Qed.

#[local] Hint Resolve freshness_plain consistency_plain outcome_plain to_code_plain completeness_plain
  proof_surface_plain : documents.

Ltac report_step :=
  lazymatch goal with
  | |- report_member _ (set_id _ _) => apply set_u64_report; [reflexivity |]
  | |- report_member _ (set_u64 _ _) => apply set_u64_report; [reflexivity |]
  | |- report_member _ (set_bool _ _) => apply set_bool_report; reflexivity
  | |- report_member _ (set_time _ _) => apply set_time_report; [reflexivity |]
  | |- report_member _ (set_maybe _ _) => apply set_if_report
  | |- report_member _ (set_string _ _) =>
      apply set_plain_report; [reflexivity | first [reflexivity | solve [auto with documents]]]
  end.

Ltac report_members :=
  lazymatch goal with
  | |- Forall _ [] => apply Forall_nil_2
  | |- Forall _ (_ :: _) => apply Forall_cons_2; [repeat report_step; try done | report_members]
  end.

(** What the records of a report can hold. *)
Definition snapshot_ok (m : MetricsSnapshot) : Prop := exists metrics, metrics_ok metrics /\ m = snapshot metrics.

Definition recovery_document_ok (r : RecoveryReport) : Prop :=
  u_ok 64 (rr_valid_records r) /\ u_ok 64 (rr_invalid_records r) /\ u_ok 64 (rr_bytes r) /\
  u_ok 64 (rr_restart_count r) /\ u_ok 64 (rr_header_generation r) /\ id_ok (rr_incarnation r) /\
  Utf8 (rr_truncate_detail r) /\ Z.of_nat (String.length (rr_truncate_detail r)) <= 4096 /\
  i64_ok (unix_nanos (rr_created_at r)) /\ i64_ok (unix_nanos (rr_opened_at r)).

Definition history_document_ok (r : HistoryRecord) : Prop :=
  bytes_ok (id_bytes (hr_id r)) /\ length (id_bytes (hr_id r)) = kDigestIdBytes /\ id_ok (hr_generation r) /\
  id_ok (hr_topology r) /\ id_ok (maybe_value (hr_group r)) /\ id_ok (maybe_value (hr_path r)) /\
  u_ok 64 (hr_evidence_considered r) /\ u_ok 64 (hr_evidence_rejected r) /\ i64_ok (unix_nanos (hr_evaluated_at r)).

Lemma embedded_metrics m : snapshot_ok m -> embedded (metrics_to_json m false) = metrics_json m.
Proof.
  intros (metrics & Hm & ->). apply (embedded_object 100000); [reflexivity | | cbn; lia | lia].
  report_members; apply Hm.
Qed.

Lemma embedded_recovery r : recovery_document_ok r -> embedded (recovery_to_json r false) = recovery_json r.
Proof.
  intros (H1 & H2 & H3 & H4 & H5 & H6 & H7 & H8 & H9 & H10).
  apply (embedded_object 100000); [reflexivity | | cbn; lia | lia].
  report_members. apply set_string_report; [reflexivity | split; [done |] | lia].
  change (max_string_bytes default_limits) with 1048576. lia.
Qed.

Lemma embedded_history_record r :
  history_document_ok r -> embedded (history_record_to_json r false) = history_record_json r.
Proof.
  intros (H1 & H2 & H3 & H4 & H5 & H6 & H7 & H8 & H9).
  apply (embedded_object 100000); [reflexivity | | cbn; lia | lia].
  report_members. apply set_plain_report; [reflexivity |]. apply hex_plain; [done |]. rewrite H2. unfold kDigestIdBytes. lia.
Qed.

(** Reports embed reports as they are.  The metrics and the recovery report
    inside the runtime statistics and the records inside a history answer are
    written, read back and embedded: the parser never refuses them, so the null the
    code falls back on is never written and nothing of them is lost. *)
Theorem reports_embed_reports (s : RuntimeStats) (a : HistoryQueryResult) :
  (snapshot_ok (st_metrics s) -> json_find (stats_json s) "metrics" = Some (metrics_json (st_metrics s))) /\
  (recovery_document_ok (st_recovery s) ->
     json_find (stats_json s) "recovery" = Some (recovery_json (st_recovery s))) /\
  (Forall history_document_ok (ha_records a) ->
     json_find (history_json a) "records" = Some (JArray (map history_record_json (ha_records a)))).
Proof.
  split_and!.
  - intros Hm. rewrite <- embedded_metrics by done. apply object_find; reflexivity.
  - intros Hr. rewrite <- embedded_recovery by done. apply object_find; reflexivity.
  - intros Hr.
    assert (map history_record_json (ha_records a) =
            map (fun r => embedded (history_record_to_json r false)) (ha_records a)) as ->.
    { apply map_ext_in. intros r Hin%list_elem_of_In. rewrite Forall_elem in Hr.
      symmetry. by apply embedded_history_record, Hr. }
    rewrite <- array_of_items. apply object_find; reflexivity.
Qed.

(** The statistics of a runtime that has just started, and a history of one record. *)
Definition report_stats : RuntimeStats :=
  mk_stats Running (snapshot metrics_new) 0 0 0 0 0 0 (from_value 1) (from_value 1) id_none id_none
    id_none recovery_none false false.

Definition report_history : HistoryQueryResult :=
  mk_history_answer
    [mk_history_record digest_id_zero (from_value 1) (from_value 1) (maybe (from_value 4)) absent absent
       Indeterminate EvidenceUnknown FreshUnknown CompletenessUnknown ConsistencyUnknown
       SurfaceUnknown 0 0 unset] 1 0 0 false.

Lemma reports_embed_reports_witness :
  json_find (stats_json report_stats) "metrics" = Some (metrics_json (snapshot metrics_new)) /\
  json_find (stats_json report_stats) "recovery" = Some (recovery_json recovery_none) /\
  json_find (history_json report_history) "records" = Some (JArray (map history_record_json (ha_records report_history))).
Proof.
  destruct (reports_embed_reports report_stats report_history) as (H1 & H2 & H3).
  split; [apply H1 | split; [apply H2 | apply H3]]; clear H1 H2 H3.
  - exists metrics_new. split; [apply metrics_new_ok | reflexivity].
  - unfold recovery_document_ok. cbn [report_stats st_recovery recovery_none rr_truncate_detail].
    do 6 (split; [concrete |]). split; [by apply ascii_utf8 |]. concrete.
  - constructor; [| constructor]. unfold history_document_ok. concrete.
Defined.
