(* ===== verification/Synthetic.v ===== *)
(** The laboratory fabric: [include/pathobs/synthetic.hpp], [src/synthetic.cpp].

    [build_lab_fabric] generates a topology, the routes over it and observations of
    the first route, consistent or off in the way its options ask for.  The loops
    over members, positions and ports are folds over [counter]; numbers that only
    the options bound are kept at their width. *)
From S2P Require Import Prelude Errors StdAlgo Digest Canonical Ids TimeModel Limits Source Topology Observed Expected.
#[local] Open Scope string_scope.
#[local] Open Scope list_scope.
#[local] Open Scope Z_scope.

(** ** Options and result *)

Record LabOptions : Set := mk_lab_options {
  lab_seed : Z;
  hop_count : Z;
  multipath_members : Z;
  lab_surface : ProofSurface;
  observer_authority : AuthorityClass;
  observer_kind : SourceKind;
  planning_source_id : Z;
  observer_source_id : Z;
  lab_epoch : Z;
  lab_incarnation : Z;
  lab_route_generation : Z;
  lab_topology_generation : Z;
  lab_revision : Z;
  evidence_count : Z;
  first_sequence : Z;
  evidence_age_nanos : Z;
  diverge : bool;
  partial : bool;
  omit_links : bool;
  stale_epoch : bool;
  stale_revision : bool;
  unknown_generation : bool;
  empty_trace : bool
}.

(** The default member initialisers. *)
Definition default_lab_options : LabOptions :=
  mk_lab_options 0 4 1 SurfaceSynthetic Advisory Simulator 1 2 1 3 7 5 12 1 1 0
    false false false false false false false.

Record LabFabric : Set := mk_fabric {
  lab_topology : TopologyGeneration;
  lab_routes : RouteGeneration;
  lab_sources : list SourceDescriptor;
  lab_evidence : list ObservedPathEvidence;
  lab_divergent_device : DeviceId;
  lab_primary_path : PathId;
  lab_group : PathGroupId
}.

(** ** Identities of the fabric *)

Definition kFirstDevice : Z := 10.
Definition kLastDevice : Z := 40.
Definition kMiddleDeviceBase : Z := 100.
Definition kDivergentDevice : Z := 9999.
Definition kLinkBase : Z := 1000.
Definition kCreationNanos : Z := 1767225600000000000.

Definition device_for (member position hop_count : Z) : DeviceId :=
  if position =? 0 then from_value kFirstDevice
  else if position + 1 =? hop_count then from_value kLastDevice
  else from_value (kMiddleDeviceBase + member * 100 + position).

Definition ingress_for (device : DeviceId) (member : Z) : PortId := from_value (value device * 100 + member * 10 + 1).
Definition egress_for (device : DeviceId) (member : Z) : PortId := from_value (value device * 100 + member * 10 + 2).
Definition link_for (member position : Z) : LinkId := from_value (kLinkBase + member * 100 + position).

Definition divergent_device_id : DeviceId := from_value kDivergentDevice.

(** The counters of a loop: 0, 1, ..., [n - 1]. *)
Definition counter (n : Z) : list Z := map Z.of_nat (seq 0 (Z.to_nat n)).

Section Fabric.
Variable options : LabOptions.

(** ** Sources *)

Definition planning_source : SourceDescriptor :=
  mk_source (from_value (planning_source_id options)) "laboratory-planning-authority" RoutingAuthority
    SurfaceSynthetic Authoritative (mk_capabilities true false true) 0 0.

Definition observer_source : SourceDescriptor :=
  mk_source (from_value (observer_source_id options)) "laboratory-observer" (observer_kind options)
    (lab_surface options) (observer_authority options) (mk_capabilities false true false) 0 0.

(** ** Topology *)

(** The lambdas [device_present] and [port_present]. *)
Definition has_lab_device (ds : list DeviceRecord) (candidate : DeviceId) : bool :=
  existsb (fun existing => bool_decide (device_id existing = candidate)) ds.
Definition has_lab_port (ps : list PortRecord) (candidate : PortId) : bool :=
  existsb (fun existing => bool_decide (port_id existing = candidate)) ps.

Definition add_lab_device (device : DeviceId) (ds : list DeviceRecord) : list DeviceRecord :=
  if has_lab_device ds device then ds
  else ds ++ [mk_device device ("lab-device-" +:+ to_string (value device)) Switch].

Definition lab_port (device : DeviceId) (member port_index : Z) : PortRecord :=
  mk_port (from_value (value device * 100 + member * 10 + port_index)) device
    ("lab-port-" +:+ to_string port_index) port_index.

Definition add_lab_port (device : DeviceId) (member : Z) (ps : list PortRecord) (port_index : Z) : list PortRecord :=
  let port := lab_port device member port_index in
  if has_lab_port ps (port_id port) then ps else ps ++ [port].

Definition lab_link (member position : Z) : LinkRecord :=
  let device := device_for member position (hop_count options) in
  let next := device_for member (position + 1) (hop_count options) in
  mk_link (link_for member position) device (egress_for device member) next (ingress_for next member) Physical.

(** The body of the loop over the positions of a member. *)
Definition add_lab_position (member : Z) (g : TopologyGeneration) (position : Z) : TopologyGeneration :=
  let device := device_for member position (hop_count options) in
  let ds := add_lab_device device (devices g) in
  let ps := fold_left (add_lab_port device member) [1; 2] (ports g) in
  let ls := if position + 1 <? hop_count options then links g ++ [lab_link member position] else links g in
  with_records g ds ps ls (topo_digest g).

Definition add_lab_member (g : TopologyGeneration) (member : Z) : TopologyGeneration :=
  fold_left (add_lab_position member) (counter (hop_count options)) g.

(** The plan is moved ahead of the evidence that has to be stale. *)
Definition plan_epoch : Z := if stale_epoch options then wrap_u 64 (lab_epoch options + 1) else lab_epoch options.
Definition plan_revision : Z :=
  if stale_revision options then wrap_u 64 (lab_revision options + 1) else lab_revision options.

Definition lab_created : TimePoint := from_unix_nanos kCreationNanos.
Definition lab_observed : TimePoint := from_unix_nanos (wrap_i64 (kCreationNanos + evidence_age_nanos options)).

Definition empty_lab_topology : TopologyGeneration :=
  mk_topology (from_value (lab_topology_generation options)) (from_value plan_epoch)
    (from_value (lab_incarnation options)) (from_value 2) (from_value 9) (source_id planning_source)
    lab_created lab_created [] [] [] digest_zero.

Definition unfinished_topology : TopologyGeneration :=
  fold_left add_lab_member (counter (multipath_members options)) empty_lab_topology.

(** ** Routes *)

Definition lab_hop (member position : Z) : ExpectedHop :=
  let device := device_for member position (hop_count options) in
  let has_link := position + 1 <? hop_count options in
  mk_expected_hop (from_value (1000 + member * 1000 + position)) position device (ingress_for device member)
    (egress_for device member) (if has_link then link_for member position else id_none) has_link.

Definition lab_path_id (member : Z) : PathId := from_value (wrap_u 32 (100 + member)).

Definition lab_group_id : PathGroupId := from_value 1.

Definition lab_path (generation : RouteGenerationId) (member : Z) : ExpectedPath :=
  mk_path (lab_path_id member) lab_group_id generation
    (map (lab_hop member) (counter (hop_count options))) digest_zero.

Definition lab_path_group : PathGroup :=
  mk_group lab_group_id (device_for 0 0 (hop_count options))
    (device_for 0 (hop_count options - 1) (hop_count options)) "laboratory path group"
    (map lab_path_id (counter (multipath_members options))).

Definition unfinished_routes (topology : TopologyGeneration) : RouteGeneration :=
  let generation := from_value (lab_route_generation options) in
  mk_route generation (topo_epoch topology) (topo_incarnation topology) (from_value plan_revision)
    (from_value 100) (source_id planning_source) (topo_id topology) lab_created lab_created
    [lab_path_group] (map (lab_path generation) (counter (multipath_members options))) digest_zero.

(** ** Evidence *)

(** The device that the observation reports at a position. *)
Definition observed_device (position : Z) : DeviceId :=
  if diverge options && (position =? 1) && (2 <? hop_count options) then divergent_device_id
  else device_for 0 position (hop_count options).

Definition lab_observed_hop (position : Z) : ObservedHop :=
  let device := observed_device position in
  let with_link := negb (omit_links options) && (position + 1 <? hop_count options) && negb (diverge options) in
  mk_observed_hop position device (ingress_for device 0) (egress_for device 0)
    (if with_link then link_for 0 position else id_none)
    (if with_link then ProvenanceObserved else ProvenanceAbsent) unset.

Definition trace_length : Z :=
  if partial options then (if 1 <? hop_count options then hop_count options - 1 else 1) else hop_count options.

Definition lab_trace : list ObservedHop :=
  if empty_trace options then [] else map lab_observed_hop (counter trace_length).

Definition lab_completeness : EvidenceCompleteness :=
  if empty_trace options then CompletenessUnknown else if partial options then Partial else Complete.

(** One round of the loop over the evidence, before [seal]. *)
Definition unsealed_evidence (topology : TopologyGeneration) (routes : RouteGeneration) (primary : PathId)
    (index : Z) : ObservedPathEvidence :=
  mk_evidence digest_id_zero (source_id observer_source) (from_value 7)
    (from_value (wrap_u 64 (first_sequence options + index))) (lab_surface options)
    (observer_authority options) (maybe primary) (maybe (group_id lab_path_group))
    (maybe (group_origin lab_path_group)) (maybe (group_destination lab_path_group))
    (from_value (lab_epoch options)) (topo_incarnation topology)
    (maybe (if unknown_generation options then from_value (wrap_u 64 (lab_route_generation options + 100))
            else route_id routes))
    (maybe (topo_id topology)) (from_value (lab_revision options)) lab_observed lab_observed lab_trace
    (partial options) lab_completeness digest_zero "laboratory observation".

Definition lab_evidence_of (topology : TopologyGeneration) (routes : RouteGeneration) (primary : PathId)
    (index : Z) : ObservedPathEvidence :=
  seal (unsealed_evidence topology routes primary index).
End Fabric.

(** ** [build_lab_fabric] *)

Definition check_options (options : LabOptions) (limits : Limits) : Status :=
  fail? hop_count options <? 2 with error InvalidArgument "a laboratory path needs at least two devices" in
  fail? max_hops_per_path limits <? hop_count options with
    error OutOfRange "the requested hop count exceeds the configured bound" in
  fail? multipath_members options =? 0 with error InvalidArgument "a path group needs at least one member" in
  fail? max_members_per_group limits <? multipath_members options with
    error OutOfRange "the requested member count exceeds the configured bound" in
  fail? max_evidence_per_comparison limits <? evidence_count options with
    error OutOfRange "the requested evidence count exceeds the configured bound" in
  ok.

Definition build_lab_fabric (options : LabOptions) (limits : Limits) : Result LabFabric :=
  check? check_options options limits in
  check? source_validate (planning_source options) in
  check? source_validate (observer_source options) in
  let (topology_valid, topology) := topology_finalize limits (unfinished_topology options) in
  check? topology_valid in
  let? routes := route_finalize limits (unfinished_routes options topology) in
  let primary := lab_path_id 0 in
  let evidence := map (lab_evidence_of options topology routes primary) (counter (evidence_count options)) in
  Ok (mk_fabric topology routes [planning_source options; observer_source options] evidence
        divergent_device_id primary lab_group_id).
