(* ===== verification/SyntheticProps.v ===== *)
(** What the laboratory fabric is good for: everything it generates is valid and
    finalised, its observations relate to its plan the way the options ask for, and
    a defect that was asked for is never taken for compliance by the engine. *)
From S2P Require Import Prelude Errors StdAlgo Digest Canonical Ids TimeModel Limits Source Topology Observed Expected Freshness Divergence Compare CompareProps Codec Synthetic.
#[local] Open Scope string_scope.
#[local] Open Scope list_scope.
#[local] Open Scope Z_scope.

(** ** Counters *)

Lemma counter_lookup n i v : counter n !! i = Some v <-> (i < Z.to_nat n)%nat /\ v = Z.of_nat i.
Proof.
  unfold counter. rewrite list_lookup_fmap_Some. split.
  - intros (k & -> & [-> Hk]%lookup_seq). by split.
  - intros [Hi ->]. exists i. split; [done |]. apply lookup_seq. by split.
Qed.

Lemma counter_length n : length (counter n) = Z.to_nat n.
Proof. unfold counter. by rewrite length_map, length_seq. Qed.

Lemma counter_elem n v : v ∈ counter n -> 0 <= v < n.
Proof. intros (i & [Hi ->]%counter_lookup)%list_elem_of_lookup. lia. Qed.

(** ** What the builder returns *)

Section Fabric.
Context (options : LabOptions) (limits : Limits).

Lemma build_inv f :
  build_lab_fabric options limits = Ok f ->
  check_options options limits = ok /\ source_validate (planning_source options) = ok /\
  source_validate (observer_source options) = ok /\
  topology_finalize limits (unfinished_topology options) = (ok, lab_topology f) /\
  route_finalize limits (unfinished_routes options (lab_topology f)) = Ok (lab_routes f) /\
  lab_sources f = [planning_source options; observer_source options] /\
  lab_evidence f = map (lab_evidence_of options (lab_topology f) (lab_routes f) (lab_primary_path f))
    (counter (evidence_count options)) /\
  lab_primary_path f = lab_path_id 0 /\ lab_group f = lab_group_id /\ lab_divergent_device f = divergent_device_id.
Proof.
  unfold build_lab_fabric. intros H.
  apply result_bind_ok in H as ([] & Ho & H). apply result_bind_ok in H as ([] & Hp & H).
  apply result_bind_ok in H as ([] & Hv & H).
  destruct (topology_finalize _ _) as [s topology] eqn:Et. apply result_bind_ok in H as ([] & -> & H).
  apply result_bind_ok in H as (routes & Hr & [= <-]). done.
Qed.

Lemma check_options_inv :
  check_options options limits = ok ->
  2 <= hop_count options <= max_hops_per_path limits /\ multipath_members options <> 0 /\
  multipath_members options <= max_members_per_group limits /\
  evidence_count options <= max_evidence_per_comparison limits.
Proof. intros H. unfold check_options in H. guards_ok H. bool_prop. lia. Qed.

Lemma lab_members g m : topo_id (add_lab_member options g m) = topo_id g /\
  topo_epoch (add_lab_member options g m) = topo_epoch g /\
  topo_incarnation (add_lab_member options g m) = topo_incarnation g.
Proof.
  unfold add_lab_member. generalize (counter (hop_count options)). intros l. revert g.
  induction l as [| p l IH]; intros g; [done |]. cbn [fold_left]. by destruct (IH (add_lab_position options m g p)) as (-> & -> & ->).
Qed.

Lemma unfinished_topology_header :
  topo_id (unfinished_topology options) = from_value (lab_topology_generation options) /\
  topo_epoch (unfinished_topology options) = from_value (plan_epoch options) /\
  topo_incarnation (unfinished_topology options) = from_value (lab_incarnation options).
Proof.
  unfold unfinished_topology.
  assert (forall l g, let h := fold_left (add_lab_member options) l g in
    topo_id h = topo_id g /\ topo_epoch h = topo_epoch g /\ topo_incarnation h = topo_incarnation g) as H.
  { induction l as [| m l IH]; intros g; [done |]. cbn [fold_left].
    destruct (IH (add_lab_member options g m)) as (-> & -> & ->). apply lab_members. }
  apply (H _ (empty_lab_topology options)).
Qed.

Lemma finalized_topology_header g g' :
  topology_finalize limits g = (ok, g') ->
  topo_id g' = topo_id g /\ topo_epoch g' = topo_epoch g /\ topo_incarnation g' = topo_incarnation g.
Proof.
  intros H. destruct (topology_finalize_cases limits g) as [(E & _) | [[e E] _]]; [| by rewrite H in E].
  rewrite H in E. by injection E as ->.
Qed.

(** The plan of a fabric: its header, and its paths, which take the positions of a
    member in order. *)
Record lab_plan (f : LabFabric) : Prop := {
  lp_epoch : route_epoch (lab_routes f) = from_value (plan_epoch options);
  lp_incarnation : route_incarnation (lab_routes f) = from_value (lab_incarnation options);
  lp_revision : route_revision (lab_routes f) = from_value (plan_revision options);
  lp_id : route_id (lab_routes f) = from_value (lab_route_generation options);
  lp_topology : route_topology (lab_routes f) = topo_id (lab_topology f);
  lp_topology_epoch : topo_epoch (lab_topology f) = route_epoch (lab_routes f);
  lp_topology_incarnation : topo_incarnation (lab_topology f) = route_incarnation (lab_routes f);
  lp_paths : forall p, p ∈ paths (lab_routes f) <->
    exists m, m ∈ counter (multipath_members options) /\
      p = set_path_digest (lab_path options (route_id (lab_routes f)) m)
}.

Lemma build_plan f : build_lab_fabric options limits = Ok f -> lab_plan f.
Proof.
  intros (_ & _ & _ & Ht & (_ & _ & Er)%route_finalize_iff & _)%build_inv.
  destruct (finalized_topology_header _ _ Ht) as (H1 & H2 & H3).
  destruct unfinished_topology_header as (U1 & U2 & U3).
  constructor; rewrite Er; cbn [route_normal with_expected unfinished_routes route_epoch route_incarnation route_revision
    route_id route_topology paths]; try congruence; try done.
  intros p. rewrite list_elem_of_In, in_map_iff. split.
  - intros (q & <- & Hq). apply list_elem_of_In in Hq. rewrite sort_by_perm in Hq.
    apply list_elem_of_In, in_map_iff in Hq as (m & <- & Hm). exists m. by rewrite list_elem_of_In.
  - intros (m & Hm & ->). eexists. split; [reflexivity |]. apply list_elem_of_In. rewrite sort_by_perm.
    apply list_elem_of_In, in_map_iff. exists m. by rewrite <- list_elem_of_In.
Qed.
End Fabric.

(** ** Sound fabrics *)

(** The members of the options hold what their types hold. *)
Definition lab_options_ok (options : LabOptions) : Prop :=
  u_ok 32 (hop_count options) /\ u_ok 32 (multipath_members options) /\ u_ok 32 (evidence_count options) /\
  u_ok 64 (lab_epoch options) /\ u_ok 64 (lab_revision options) /\ u_ok 64 (lab_route_generation options) /\
  u_ok 64 (first_sequence options).

(** How the trace of the evidence relates to the path it claims. *)
Definition expected_trace (options : LabOptions) : TraceMatch :=
  if empty_trace options then TraceIncomparable
  else if diverge options && (2 <? hop_count options) then TraceMismatch
  else if partial options then TracePrefix else TraceExact.

Lemma lab_hop_conforms options position :
  diverge options && (position =? 1) && (2 <? hop_count options) = false ->
  hop_conforms (lab_hop options 0 position) (lab_observed_hop options position).
Proof.
  intros Hd. unfold hop_conforms, lab_hop, lab_observed_hop, observed_device. rewrite Hd.
  cbn [eh_device eh_ingress eh_egress eh_egress_link eh_has_egress_link oh_device oh_ingress oh_egress oh_link oh_provenance].
  split_and!; [done | done | done |]. intros ->.
  destruct (negb (omit_links options) && true && negb (diverge options)); [done |]. by intros _ [].
Qed.

Lemma lab_divergence options : diverge options = true -> 2 < hop_count options ->
  ~ hop_conforms (lab_hop options 0 1) (lab_observed_hop options 1).
Proof.
  intros Hd Hn (H & _). unfold lab_observed_hop, observed_device in H. cbn [oh_device lab_hop eh_device] in H.
  rewrite Hd, (proj2 (Z.ltb_lt 2 (hop_count options))) in H by done. unfold device_for in H.
  rewrite (proj2 (Z.eqb_neq (1 + 1) (hop_count options))) in H by lia. by vm_compute in H.
Qed.

Lemma lab_lookup options m i e :
  map (lab_hop options m) (counter (hop_count options)) !! i = Some e ->
  (i < Z.to_nat (hop_count options))%nat /\ e = lab_hop options m (Z.of_nat i).
Proof. rewrite list_lookup_fmap_Some. by intros (v & -> & [Hi ->]%counter_lookup). Qed.

Lemma trace_lookup options i o :
  empty_trace options = false ->
  lab_trace options !! i = Some o <->
    (i < Z.to_nat (trace_length options))%nat /\ o = lab_observed_hop options (Z.of_nat i).
Proof.
  unfold lab_trace. intros ->. rewrite list_lookup_fmap_Some. split.
  - by intros (v & -> & [Hi ->]%counter_lookup).
  - intros [Hi ->]. eexists. split; [done |]. by apply counter_lookup.
Qed.

Lemma trace_length_eq options : 2 <= hop_count options ->
  trace_length options = if partial options then hop_count options - 1 else hop_count options.
Proof. intros H. unfold trace_length. destruct (partial options); [| done]. by rewrite (proj2 (Z.ltb_lt _ _)) by lia. Qed.

(** The trace against the path of the first member. *)
Lemma lab_trace_verdict options generation :
  2 <= hop_count options ->
  trace_match (compare_trace (set_path_digest (lab_path options generation 0)) (lab_trace options)) =
  expected_trace options.
Proof.
  intros Hn. pose proof (trace_length_eq options Hn) as Hlen.
  destruct (compare_trace_cases (set_path_digest (lab_path options generation 0)) (lab_trace options))
    as (Hinc & Hex & Hpre & Hmis & _). cbn [set_path_digest lab_path path_hops] in *. unfold expected_trace.
  destruct (empty_trace options) eqn:Ee.
  { apply Hinc. right. unfold lab_trace. by rewrite Ee. }
  assert (length (lab_trace options) = Z.to_nat (trace_length options)) as Hl.
  { unfold lab_trace. by rewrite Ee, length_map, counter_length. }
  assert (length (map (lab_hop options 0) (counter (hop_count options))) = Z.to_nat (hop_count options)) as Hm
    by by rewrite length_map, counter_length.
  destruct (diverge options && (2 <? hop_count options)) eqn:Ed.
  { apply andb_true_iff in Ed as [Ed E2%Z.ltb_lt]. apply Hmis. intros Hc.
    apply (lab_divergence options Ed E2). apply (Hc 1%nat).
    - apply list_lookup_fmap_Some. exists 1. split; [done |]. apply (counter_lookup _ 1%nat). lia.
    - apply trace_lookup; [done |]. split; [| done]. rewrite Hlen. destruct (partial options); lia. }
  assert (traces_conform (map (lab_hop options 0) (counter (hop_count options))) (lab_trace options)) as Hc.
  { intros i e o [_ ->]%lab_lookup [_ ->]%trace_lookup; [| done]. apply lab_hop_conforms.
    destruct (diverge options); [| done]. cbn [andb] in *. rewrite Ed. by rewrite andb_false_r. }
  destruct (partial options).
  - apply Hpre. split_and!; [intros E; rewrite E in Hl; cbn in Hl; lia | done | lia].
  - apply Hex. split_and!; [intros E; rewrite E in Hm; cbn in Hm; lia | done | lia].
Qed.

Section Sound.
Context (options : LabOptions) (limits : Limits).

Lemma device_for_valid member position n : 0 <= member -> 0 <= position -> valid (device_for member position n) = true.
Proof.
  intros Hm Hp. unfold device_for, valid. repeat case_match; try done. cbn [value]. unfold kMiddleDeviceBase.
  by rewrite (proj2 (Z.eqb_neq _ _)) by lia.
Qed.

Lemma observed_device_valid position : 0 <= position -> valid (observed_device options position) = true.
Proof. intros Hp. unfold observed_device. case_match; [done | by apply device_for_valid]. Qed.

Lemma lab_trace_wf : Forall hop_wf (lab_trace options) /\ indices_ascending (lab_trace options).
Proof.
  unfold lab_trace. destruct (empty_trace options); [split; constructor |]. split.
  - apply Forall_map, Forall_elem. intros position Hp%counter_elem. unfold hop_wf, lab_observed_hop.
    cbn [oh_device oh_link oh_provenance]. split; [apply observed_device_valid; lia |].
    destruct (_ && _); [| done]. split; [done |]. intros _. unfold valid, link_for, kLinkBase. cbn [value].
    by rewrite (proj2 (Z.eqb_neq _ _)) by lia.
  - unfold indices_ascending, counter. rewrite map_map. generalize 0%nat.
    induction (Z.to_nat (trace_length options)) as [| n IH]; intros start; cbn [seq map]; constructor; [apply IH |].
    apply Forall_map, Forall_elem. intros k [Hk _]%elem_of_seq. cbn [lab_observed_hop oh_index]. lia.
Qed.

(** Observations of a plan that states an epoch, a revision and a sequence are
    valid. *)
Lemma lab_evidence_valid topology routes primary index :
  source_validate (observer_source options) = ok -> topology_finalize limits topology = (ok, topology) ->
  2 <= hop_count options <= max_hops_per_path limits ->
  lab_epoch options <> 0 -> lab_revision options <> 0 -> wrap_u 64 (first_sequence options + index) <> 0 ->
  is_set (lab_observed options) = true ->
  evidence_validate limits (lab_evidence_of options topology routes primary index) = ok.
Proof.
  intros Ho Ht Hn He Hr Hs Hset.
  assert (valid (topo_incarnation topology) = true) as Hi.
  { destruct (topology_finalize_cases limits topology) as [(_ & Hp & _) | [[e E] _]]; [| by rewrite Ht in E].
    unfold topology_precheck in Hp. guards_ok Hp. rewrite !orb_false_iff, !negb_false_iff in G. tauto. }
  unfold source_validate in Ho. guards_ok Ho. bool_prop.
  assert (forall tag v, v <> 0 -> valid (@from_value tag v) = true) as Hvalid.
  { intros tag v Hv. unfold valid. cbn [value]. by rewrite (proj2 (Z.eqb_neq v 0) Hv). }
  destruct lab_trace_wf as [Hwf Hasc].
  apply evidence_validate_iff. unfold lab_evidence_of, seal, unsealed_evidence.
  constructor; cbn [with_identity ev_source ev_incarnation ev_sequence ev_surface ev_authority ev_epoch
    ev_claimed_incarnation ev_revision ev_hops ev_note ev_id ev_observed_at ev_received_at ev_origin ev_destination];
    try done; try (by apply Hvalid).
  - unfold lab_trace. destruct (empty_trace options); [cbn; lia |]. rewrite length_map, counter_length.
    rewrite trace_length_eq by lia. destruct (partial options); lia.
  - apply Nat.leb_le. reflexivity.
  - by left.
  - intros _ _. cbn [maybe_value lab_path_group group_origin group_destination]. unfold device_for. cbn [Z.eqb].
    rewrite (proj2 (Z.eqb_neq (hop_count options - 1) 0)) by lia. rewrite (proj2 (Z.eqb_eq (hop_count options - 1 + 1) (hop_count options))) by lia.
    done.
Qed.
End Sound.

(** A fabric is sound and is what its options ask for.  Whatever the options,
    a fabric that is returned has valid sources, a finalised topology and finalised
    routes over it; the observations relate to the claimed path as asked (all of
    it, a prefix, a mismatch, or nothing to compare); and they are valid as soon as
    the options state an epoch, a revision and sequences. *)
Theorem lab_fabric_sound (options : LabOptions) (limits : Limits) (f : LabFabric) :
  lab_options_ok options -> build_lab_fabric options limits = Ok f ->
  Forall (fun d => source_validate d = ok) (lab_sources f) /\
  topology_finalize limits (lab_topology f) = (ok, lab_topology f) /\
  route_finalize limits (lab_routes f) = Ok (lab_routes f) /\
  route_topology (lab_routes f) = topo_id (lab_topology f) /\
  length (lab_evidence f) = Z.to_nat (evidence_count options) /\
  (exists p, p ∈ paths (lab_routes f) /\ path_id p = lab_primary_path f /\
     Forall (fun e => trace_match (compare_trace p (ev_hops e)) = expected_trace options) (lab_evidence f)) /\
  (lab_epoch options <> 0 -> lab_revision options <> 0 -> first_sequence options <> 0 ->
   first_sequence options + evidence_count options <= 2 ^ 64 -> is_set (lab_observed options) = true ->
   Forall (fun e => evidence_validate limits e = ok) (lab_evidence f)).
Proof.
  intros (Uh & Um & Uc & Ue & Ur & Ug & Us) Hb. pose proof (build_plan options limits f Hb) as [].
  destruct (build_inv options limits f Hb) as (Ho & Hp & Hv & Ht & Hr & -> & Ev & Epri & _ & _).
  destruct (check_options_inv options limits Ho) as (Hh & Hm & _ & _). unfold u_ok in *.
  split_and!.
  - by repeat constructor.
  - by eapply topology_finalize_again.
  - by eapply route_finalize_again.
  - done.
  - by rewrite Ev, length_map, counter_length.
  - exists (set_path_digest (lab_path options (route_id (lab_routes f)) 0)). split_and!.
    + apply lp_paths0. exists 0. split; [| done]. apply list_elem_of_lookup. exists 0%nat. apply counter_lookup. lia.
    + by rewrite Epri.
    + rewrite Ev. apply Forall_map, Forall_elem. intros index _. apply lab_trace_verdict. lia.
  - intros He Hrev Hs Hsum Hset. rewrite Ev. apply Forall_map, Forall_elem. intros index Hi%counter_elem.
    apply lab_evidence_valid; try done; [by eapply topology_finalize_again |].
    rewrite wrap_u_mod by lia. rewrite Z.mod_small by lia. lia.
Qed.

(** ** The engine on a fabric *)

(** What a comparison of the whole fabric asks, and the plan it is judged against. *)
Definition lab_request (f : LabFabric) : ComparisonRequest :=
  mk_request (route_id (lab_routes f)) (maybe (lab_group f)) absent (lab_evidence f) false.

Definition lab_context (f : LabFabric) (index : option TopologyIndex) (now : TimePoint) : ComparisonContext :=
  mk_context (Some (lab_routes f)) (Some (lab_topology f)) index None
    (mk_authority (route_epoch (lab_routes f)) (route_incarnation (lab_routes f)) id_none
       (route_revision (lab_routes f)) id_none (topo_revision (lab_topology f))) now.

(** A defect that the options ask for. *)
Definition lab_defect (options : LabOptions) : bool :=
  partial options || empty_trace options || (diverge options && (2 <? hop_count options)) ||
  stale_epoch options || stale_revision options || unknown_generation options.

Lemma correlate_device context h : oh_device (correlate context h) = oh_device h.
Proof. unfold correlate. repeat case_match; reflexivity. Qed.

Lemma wrap_succ_ne k v : 0 < k < 2 ^ 64 -> u_ok 64 v -> wrap_u 64 (v + k) <> v.
Proof. unfold u_ok. intros Hk Hv. rewrite wrap_u_mod by lia. div_lia. Qed.

(** The device at the second position of every member is of the fabric. *)
Lemma lab_second_device options m : 0 <= m -> 2 < hop_count options ->
  eh_device (lab_hop options m 1) <> divergent_device_id.
Proof.
  intros Hm Hn. cbn [lab_hop eh_device]. unfold device_for.
  rewrite (proj2 (Z.eqb_neq (1 + 1) (hop_count options))) by lia. cbn [Z.eqb]. intros [= H].
  unfold kMiddleDeviceBase, kDivergentDevice in H. lia.
Qed.

(** Any comparison of observations of a fabric against its plan. *)
Lemma lab_match_sound (options : LabOptions) (limits limits' : Limits) (policy : ComparisonPolicy) (f : LabFabric)
    (request : ComparisonRequest) (context : ComparisonContext) (r : ComparisonResult) :
  lab_options_ok options -> lab_route_generation options < 2 ^ 64 - 100 ->
  build_lab_fabric options limits = Ok f ->
  ctx_routes context = Some (lab_routes f) ->
  as_route_revision (ctx_authority context) = route_revision (lab_routes f) ->
  (forall e, e ∈ rq_evidence request -> e ∈ lab_evidence f) ->
  compare limits' policy request context = Ok r -> cr_outcome r = Match -> lab_defect options = false.
Proof.
  intros (Uh & Um & Uc & Ue & Ur & Ug & Us) Hg Hb Hctx Hrevision Hevidence Hc Ho.
  pose proof (build_plan options limits f Hb) as [].
  destruct (build_inv options limits f Hb) as (Hopt & _ & _ & Ht & Hr & _ & Ev & Epri & _ & _).
  destruct (check_options_inv options limits Hopt) as (Hh & Hm & _ & _).
  destruct (match_compliance limits' policy request context r Hc Ho) as
    (routes & group & rep & Hroutes & Hid & Hepoch & _ & Hs & _ & _ & Hall & _ & Hrep & _ & (p & Hp & _ & Hne & Hconf & Hlen) & _).
  { intros routes Hrt. rewrite Hctx in Hrt. injection Hrt as <-. by exists limits, (unfinished_routes options (lab_topology f)). }
  rewrite Hctx in Hroutes. injection Hroutes as <-.
  destruct (Hall rep Hrep) as (Hev & Hadm & _ & Htrunc & _).
  destruct (accepted_evidence _ _ _ _ _ rep Hrep) as (_ & _ & Ew).
  destruct (judge_admissible limits' policy request context (lab_routes f) (w_evidence rep) Hadm) as (Hhops & _).
  rewrite <- Ew in Hhops. destruct Hadm as [_ _ (Aep & _ & Agen & _ & Arev & _)].
  rewrite <- Hepoch in Aep. rewrite Hrevision in Arev. rewrite <- Hid in Agen.
  apply Hevidence in Hev. rewrite Ev in Hev. apply list_elem_of_In, in_map_iff in Hev as (i & Ei & _). rewrite <- Ei in *.
  cbn [lab_evidence_of seal with_identity unsealed_evidence ev_epoch ev_revision ev_route_generation
    ev_source_truncated ev_hops] in *.
  rewrite lp_epoch0 in Aep. rewrite lp_revision0 in Arev. injection Aep as Aep. injection Arev as Arev.
  apply lp_paths0 in Hp as (m & Hm' & ->). apply counter_elem in Hm'. cbn [set_path_digest lab_path path_hops] in *.
  unfold lab_defect. rewrite Htrunc. cbn [orb].
  assert (empty_trace options = false) as Hempty.
  { destruct (empty_trace options) eqn:Ee; [| done]. rewrite Hhops in Hlen. unfold lab_trace in Hlen.
    rewrite Ee, !length_map, counter_length in Hlen. cbn [length] in Hlen. lia. }
  rewrite Hempty. cbn [orb]. rewrite !orb_false_iff. split_and!.
  - destruct (diverge options && (2 <? hop_count options)) eqn:Ed; [| done].
    apply andb_true_iff in Ed as [Ed E2%Z.ltb_lt]. exfalso.
    destruct (Hconf 1%nat (lab_hop options m 1) (correlate context (lab_observed_hop options 1))) as [Hd _].
    + apply list_lookup_fmap_Some. exists 1. split; [done |]. apply (counter_lookup _ 1%nat). lia.
    + rewrite Hhops. apply list_lookup_fmap_Some. eexists. split; [done |]. apply trace_lookup; [done |].
      split; [| done]. rewrite trace_length_eq, Htrunc by lia. lia.
    + rewrite correlate_device in Hd. cbn [lab_observed_hop oh_device] in Hd. unfold observed_device in Hd.
      rewrite Ed, (proj2 (Z.ltb_lt 2 (hop_count options))) in Hd by done. cbn [andb Z.eqb Pos.eqb] in Hd.
      revert Hd. apply lab_second_device; [lia | done].
  - destruct (stale_epoch options) eqn:E; [| done]. unfold plan_epoch in Aep. rewrite E in Aep.
    exfalso. by apply (wrap_succ_ne 1 (lab_epoch options) ltac:(lia) Ue).
  - destruct (stale_revision options) eqn:E; [| done]. unfold plan_revision in Arev. rewrite E in Arev.
    exfalso. by apply (wrap_succ_ne 1 (lab_revision options) ltac:(lia) Ur).
  - destruct (unknown_generation options) eqn:E; [| done].
    assert (wrap_u 64 (lab_route_generation options + 100) = lab_route_generation options + 100) as Ew'.
    { unfold u_ok in *. rewrite wrap_u_mod by lia. apply Z.mod_small. lia. }
    rewrite Ew' in Agen. unfold u_ok in Ug. unfold present, valid in Agen. cbn [maybe_value value] in Agen.
    rewrite (proj2 (Z.eqb_neq _ _)) in Agen by lia. specialize (Agen eq_refl). rewrite lp_id0 in Agen.
    injection Agen. lia.
Qed.

(** A defect is never compliance.  Whatever the options and the policy, when the
    engine reports a match for a fabric under its own plan, none of the defects was
    asked for: the trace is whole, not empty and not divergent, and the epoch, the
    revision and the generation are the current ones. *)
Theorem lab_defects_never_match (options : LabOptions) (limits : Limits) (policy : ComparisonPolicy)
    (f : LabFabric) (index : option TopologyIndex) (now : TimePoint) (r : ComparisonResult) :
  lab_options_ok options -> lab_route_generation options < 2 ^ 64 - 100 ->
  build_lab_fabric options limits = Ok f ->
  compare limits policy (lab_request f) (lab_context f index now) = Ok r -> cr_outcome r = Match ->
  lab_defect options = false.
Proof. intros Hok Hg Hb. by apply (lab_match_sound options limits limits policy f). Qed.

(** ** The scenarios of the tests *)

(** The verdict on a fabric, with the default limits and policy, at the time of its
    plan: the harness of [tests/test_domain.cpp]. *)
Definition lab_verdict (options : LabOptions) : Result (MatchOutcome * DivergenceClass) :=
  let? f := build_lab_fabric options default_limits in
  let? index := index_build default_limits (lab_topology f) in
  let? r := compare default_limits default_comparison_policy (lab_request f)
    (lab_context f (Some index) (route_received (lab_routes f))) in
  Ok (cr_outcome r, cr_primary r).

(** A scenario: members, age of the evidence and the flags, in their order. *)
Definition lab_scenario (members age : Z) (d p o se sr ug et : bool) : LabOptions :=
  mk_lab_options 0 4 members SurfaceSynthetic Advisory Simulator 1 2 1 3 7 5 12 1 1 age d p o se sr ug et.

(** The verdicts that the tests expect. *)
Example lab_scenarios :
  lab_verdict (lab_scenario 1 0 false false true false false false false) = Ok (Match, DivNone) /\
  lab_verdict (lab_scenario 3 0 false false false false false false false) = Ok (Match, DivNone) /\
  lab_verdict (lab_scenario 1 0 true false false false false false false) = Ok (Divergent, DeviceMismatch) /\
  lab_verdict (lab_scenario 1 0 false true false false false false false) = Ok (Indeterminate, EvidenceIncomplete) /\
  lab_verdict (lab_scenario 1 0 false false false true false false false) = Ok (Indeterminate, EpochFenced) /\
  lab_verdict (lab_scenario 1 0 false false false false true false false) = Ok (Indeterminate, RevisionFenced) /\
  lab_verdict (lab_scenario 1 0 false false false false false true false) = Ok (Indeterminate, RouteGenerationMismatch) /\
  lab_verdict (lab_scenario 1 0 false false false false false false true) = Ok (Indeterminate, EvidenceIncomplete) /\
  lab_verdict (lab_scenario 1 (-3600000000000) false false false false false false false) = Ok (Indeterminate, EvidenceExpired).
Proof. repeat apply conj; vm_compute; reflexivity. Qed.

(** A fabric of two devices cannot diverge: the option is ignored. *)
Example short_fabric_ignores_divergence :
  lab_verdict (mk_lab_options 0 2 1 SurfaceSynthetic Advisory Simulator 1 2 1 3 7 5 12 1 1 0
                 true false false false false false false) = Ok (Match, DivNone).
Proof. vm_compute. reflexivity. Qed.

(** The smallest fabric that matches. *)
Definition small_options : LabOptions :=
  mk_lab_options 0 2 1 SurfaceSynthetic Advisory Simulator 1 2 1 3 7 5 12 1 1 0
    false false false false false false false.

Definition small_fabric : LabFabric :=
  match build_lab_fabric small_options default_limits with
  | Ok f => f
  | Err _ => mk_fabric example_topology example_route [] [] id_none id_none id_none
  end.

Lemma small_fabric_built : build_lab_fabric small_options default_limits = Ok small_fabric.
Proof. vm_compute. reflexivity. Qed.

Lemma small_options_ok : lab_options_ok small_options.
Proof. unfold lab_options_ok, u_ok. cbn. lia. Qed.

Lemma lab_fabric_sound_witness :
  Forall (fun e => evidence_validate default_limits e = ok) (lab_evidence small_fabric) /\
  length (lab_evidence small_fabric) = 1%nat.
Proof.
  destruct (lab_fabric_sound small_options default_limits small_fabric small_options_ok small_fabric_built)
    as (_ & _ & _ & _ & Hl & _ & Hv).
  exact (conj (Hv ltac:(discriminate) ltac:(discriminate) ltac:(discriminate) ltac:(discriminate) eq_refl) Hl).
Defined.

(** The comparison of the small fabric. *)
Abbreviation small_comparison :=
  (compare default_limits default_comparison_policy (lab_request small_fabric)
    (lab_context small_fabric None lab_created)).

Lemma small_match : exists r, small_comparison = Ok r /\ cr_outcome r = Match.
Proof.
  assert (match small_comparison with Ok r => bool_decide (cr_outcome r = Match) | Err _ => false end = true) as H
    by (vm_compute; reflexivity).
  destruct small_comparison as [r | e]; [| discriminate H]. exists r. split; [reflexivity |].
  by apply bool_decide_eq_true_1 in H.
Qed.

Lemma lab_defects_never_match_witness :
  (exists r, small_comparison = Ok r /\ cr_outcome r = Match) /\ lab_defect small_options = false.
Proof.
  split; [exact small_match |]. destruct small_match as (r & Hr & Ho).
  apply (lab_defects_never_match small_options default_limits default_comparison_policy small_fabric None
    lab_created r small_options_ok ltac:(reflexivity) small_fabric_built Hr Ho).
Defined.
