(* ===== verification/Version.v ===== *)
(** The version of the library: [include/pathobs/version.hpp], [src/version.cpp].

    What the build defines ([PATHOBS_BUILD_CONFIGURATION], [NDEBUG],
    [PATHOBS_ASAN_ENABLED]) is a parameter, the record [Build]. *)
From S2P Require Import Prelude.
#[local] Open Scope string_scope.
#[local] Open Scope Z_scope.

Definition PATHOBS_VERSION_MAJOR : Z := 1.
Definition PATHOBS_VERSION_MINOR : Z := 0.
Definition PATHOBS_VERSION_PATCH : Z := 0.
Definition PATHOBS_STORE_FORMAT_VERSION : Z := 1.
Definition PATHOBS_WIRE_PROTOCOL_VERSION : Z := 1.

Record Version : Set := mk_version { major : Z; minor : Z; patch : Z }.

(** [operator==] and the order that [operator<=>] defaults to. *)
#[global] Instance Version_eq_dec : EqDecision Version.
Proof. solve_decision. Defined.

Definition version_compare (a b : Version) : comparison :=
  match major a ?= major b with
  | Eq => match minor a ?= minor b with Eq => patch a ?= patch b | c => c end
  | c => c
  end.

Definition kVersion : Version := mk_version PATHOBS_VERSION_MAJOR PATHOBS_VERSION_MINOR PATHOBS_VERSION_PATCH.
Definition kVersionString : string := "1.0.0".

Definition version : Version := kVersion.
Definition version_string : string := kVersionString.

Record Build : Set := mk_build {
  defined_configuration : option string;
  defined_ndebug : bool;
  defined_asan : bool
}.

Definition build_configuration (b : Build) : string :=
  match defined_configuration b with
  | Some text => text
  | None => if defined_ndebug b then "Release" else "Debug"
  end.

Definition built_with_address_sanitizer (b : Build) : bool := defined_asan b.

Definition build_description (b : Build) : string :=
  "Path Observatory " +:+ kVersionString +:+ " (" +:+ build_configuration b +:+
  (if built_with_address_sanitizer b then ", asan" else "") +:+ ")".

(** The text of a version is its numbers. *)
Definition version_text (v : Version) : string :=
  to_string (major v) +:+ "." +:+ to_string (minor v) +:+ "." +:+ to_string (patch v).

Lemma version_string_text : version_string = version_text version.
Proof. reflexivity. Qed.

Lemma version_compare_eq a b : version_compare a b = Eq <-> a = b.
Proof.
  destruct a as [a1 a2 a3], b as [b1 b2 b3]. unfold version_compare. cbn [major minor patch].
  destruct (Z.compare_spec a1 b1), (Z.compare_spec a2 b2), (Z.compare_spec a3 b3);
    subst; split; try discriminate; try done; intros [=]; subst; lia.
Qed.
