(* ===== verification/ToolOptions.v ===== *)
(** Command line options: [Options] and [parse_options] of
    [src/tools/pathobs_main.cpp] and [src/tools/pathobs_node_main.cpp], and the
    laboratory options they are turned into.

    [argv] is the list of the arguments; the map of the options is a [gmap].  The
    two tools have the same parser, the node starts it one argument earlier.
    [strtoull] and [strtoll] are those of the C standard, in base ten and in the
    C locale. *)
From Stdlib Require Import Ascii.
From stdpp Require Import gmap.
From S2P Require Import Prelude Errors Json Source Observed Synthetic SyntheticProps.
#[local] Open Scope string_scope.
#[local] Open Scope Z_scope.

(** ** Numbers *)

(** [isspace] *)
Definition is_c_space (c : ascii) : bool :=
  let b := byte_of_ascii c in (b =? 32) || ((9 <=? b) && (b <=? 13)).

Fixpoint skip_c_space (text : string) : string :=
  match text with
  | "" => ""
  | String c rest => if is_c_space c then skip_c_space rest else text
  end.

(** The optional sign: whether it is a minus, and what follows. *)
Definition scan_c_sign (text : string) : bool * string :=
  match text with
  | String c rest =>
      if Ascii.eqb c "-"%char then (true, rest)
      else if Ascii.eqb c "+"%char then (false, rest)
      else (false, text)
  | "" => (false, "")
  end.

(** The value of the digits up to the first other character. *)
Fixpoint digits_value (acc : Z) (text : string) : Z :=
  match text with
  | "" => acc
  | String c rest =>
      match digit_of c with
      | Some d => digits_value (acc * 10 + d) rest
      | None => acc
      end
  end.

(** [std::strtoull(text, nullptr, 10)]: a value that does not fit is
    [ULLONG_MAX], a minus negates the word. *)
Definition strtoull (text : string) : Z :=
  let (negative, digits) := scan_c_sign (skip_c_space text) in
  let v := digits_value 0 digits in
  if 2 ^ 64 <=? v then 2 ^ 64 - 1 else if negative then wrap_u 64 (- v) else v.

(** [std::strtoll(text, nullptr, 10)]: a value that does not fit is clamped. *)
Definition strtoll (text : string) : Z :=
  let (negative, digits) := scan_c_sign (skip_c_space text) in
  let v := digits_value 0 digits in
  let v := if negative then - v else v in
  Z.max int64_min (Z.min int64_max v).

(** ** Options *)

Definition Options : Type := gmap string string.

Definition has (o : Options) (key : string) : bool := bool_decide (is_Some (o !! key)).
Definition get (o : Options) (key fallback : string) : string := default fallback (o !! key).
Definition number (o : Options) (key : string) (fallback : Z) : Z :=
  match o !! key with Some text => strtoull text | None => fallback end.
Definition signed_number (o : Options) (key : string) (fallback : Z) : Z :=
  match o !! key with Some text => strtoll text | None => fallback end.

(** [std::strncmp(text, "--", 2) == 0]: what follows the dashes. *)
Definition after_dashes (text : string) : option string :=
  match text with
  | String c (String d rest) => if Ascii.eqb c "-"%char && Ascii.eqb d "-"%char then Some rest else None
  | _ => None
  end.

(** An argument that names an option: longer than its two dashes. *)
Definition long_option (argument : string) : option string :=
  match after_dashes argument with Some "" | None => None | Some body => Some body end.

(** [find('=')] and the two [substr]. *)
Fixpoint split_equals (body : string) : option (string * string) :=
  match body with
  | "" => None
  | String c rest =>
      if Ascii.eqb c "="%char then Some ("", rest)
      else match split_equals rest with Some (key, v) => Some (String c key, v) | None => None end
  end.

(** [parse_options] *)
Fixpoint parse_options (args : list string) (o : Options) : Options :=
  match args with
  | [] => o
  | argument :: rest =>
      match long_option argument with
      | None => parse_options rest o
      | Some body =>
          match split_equals body with
          | Some (key, v) => parse_options rest (<[key := v]> o)
          | None =>
              match rest with
              | v :: rest' =>
                  if after_dashes v is Some _ then parse_options rest (<[body := "true"]> o)
                  else parse_options rest' (<[body := v]> o)
              | [] => parse_options rest (<[body := "true"]> o)
              end
          end
      end
  end.

Definition static_cast_u32 (v : Z) : Z := wrap_u 32 v.

(** [lab_options] of [pathobs_main.cpp] *)
Definition lab_options (o : Options) : LabOptions :=
  let d := default_lab_options in
  mk_lab_options (number o "seed" 0) (static_cast_u32 (number o "hops" 4))
    (static_cast_u32 (number o "multipath" 1)) (lab_surface d) (observer_authority d) (observer_kind d)
    (planning_source_id d) (observer_source_id d) (number o "epoch" 1) (number o "incarnation" 3)
    (number o "route-generation" 7) (number o "topology-generation" 5) (number o "revision" 12)
    (static_cast_u32 (number o "evidence-count" 1)) (number o "first-sequence" 1)
    (signed_number o "evidence-age-nanos" 0) (has o "diverge") (has o "partial") (has o "omit-links")
    (has o "stale-epoch") (has o "stale-revision") (has o "unknown-generation") (has o "empty-trace").

(** The options of [pathobs_node_main.cpp], with its scenario. *)
Definition node_lab_options (o : Options) : LabOptions :=
  let d := default_lab_options in
  let scenario := get o "scenario" "match" in
  mk_lab_options (number o "seed" 0) (static_cast_u32 (number o "hops" 4))
    (static_cast_u32 (number o "multipath" 1)) (lab_surface d) (observer_authority d) (observer_kind d)
    (planning_source_id d) (observer_source_id d) (number o "epoch" 1) (number o "incarnation" 3)
    (number o "route-generation" 7) (number o "topology-generation" 5) (number o "revision" 12)
    (static_cast_u32 (number o "evidence-count" 2)) (number o "first-sequence" 1)
    (signed_number o "evidence-age-nanos" 0) (bool_decide (scenario = "diverge"))
    (bool_decide (scenario = "partial")) (has o "omit-links") (stale_epoch d) (stale_revision d)
    (unknown_generation d) (bool_decide (scenario = "empty")).

(** ** Numbers are read back *)

Lemma dec_go_read fuel n s acc :
  0 <= n < 2 ^ Z.of_nat fuel ->
  exists p, 0 <= p /\ digits_value acc (dec_go fuel n s) = digits_value (acc * 10 ^ p + n) s.
Proof.
  revert n s acc. induction fuel as [| fuel IH]; intros n s acc Hn; cbn [dec_go].
  { exists 0. split; [done |]. f_equal. cbn in Hn. lia. }
  destruct (Z.ltb_spec n 10) as [E | E].
  - exists 1. split; [done |]. cbn [digits_value]. rewrite digit_of_digit_char by (rewrite Z.mod_small; lia).
    f_equal. rewrite Z.mod_small by lia. lia.
  - rewrite Nat2Z.inj_succ, Z.pow_succ_r in Hn by lia.
    destruct (IH (n / 10) (String (digit_char (n mod 10)) s) acc) as (p & Hp & ->); [div_lia |].
    cbn [digits_value]. rewrite digit_of_digit_char by div_lia. exists (p + 1). split; [lia |]. f_equal.
    rewrite Z.pow_add_r by lia. pose proof (Z.div_mod n 10 ltac:(lia)). lia.
Qed.

Lemma digits_value_to_string n : 0 <= n -> digits_value 0 (to_string n) = n.
Proof.
  intros Hn. unfold to_string.
  destruct (dec_go_read (S (Z.to_nat (Z.log2 n))) n "" 0) as (p & _ & ->); [| done].
  split; [done |]. rewrite Nat2Z.inj_succ, Z2Nat.id by apply Z.log2_nonneg.
  destruct (decide (n = 0)) as [-> | Hne]; [done |]. apply Z.log2_spec. lia.
Qed.

Lemma digits_value_nonneg text acc : 0 <= acc -> 0 <= digits_value acc text.
Proof.
  revert acc. induction text as [| c text IH]; intros acc H; cbn [digits_value]; [done |].
  destruct (digit_of c) as [d |] eqn:E; [| done]. apply IH. unfold digit_of in E. case_match; [| done].
  bool_prop. injection E as <-. lia.
Qed.

Lemma strtoull_range text : u_ok 64 (strtoull text).
Proof.
  unfold strtoull. destruct (scan_c_sign _) as [negative digits].
  pose proof (digits_value_nonneg digits 0 ltac:(lia)).
  destruct (Z.leb_spec (2 ^ 64) (digits_value 0 digits)); [unfold u_ok; lia |].
  destruct negative; [by apply wrap_u_range | unfold u_ok; lia].
Qed.

Lemma strtoll_range text : i64_ok (strtoll text).
Proof. unfold strtoll, i64_ok, int64_min, int64_max. destruct (scan_c_sign _) as [negative digits]. lia. Qed.

(** A printed number begins with a digit. *)
Lemma digit_char_plain d : 0 <= d < 10 ->
  is_c_space (digit_char d) = false /\ Ascii.eqb (digit_char d) "-" = false /\ Ascii.eqb (digit_char d) "+" = false.
Proof.
  intros Hd. assert (In d (map Z.of_nat (seq 0 10))) as Hin by (apply in_map_iff; exists (Z.to_nat d); rewrite in_seq; lia).
  cbn in Hin. repeat (destruct Hin as [<- | Hin]; [done |]). done.
Qed.

Definition starts_with_digit (text : string) : Prop :=
  exists d rest, 0 <= d < 10 /\ text = String (digit_char d) rest.

Lemma dec_go_starts fuel n s : 0 <= n -> starts_with_digit s -> starts_with_digit (dec_go fuel n s).
Proof.
  revert n s. induction fuel as [| fuel IH]; intros n s Hn Hs; cbn [dec_go]; [done |].
  assert (starts_with_digit (String (digit_char (n mod 10)) s)) by (exists (n mod 10), s; split; [div_lia | done]).
  destruct (n <? 10); [done |]. apply IH; [div_lia | done].
Qed.

Lemma to_string_starts n : 0 <= n -> starts_with_digit (to_string n).
Proof.
  intros Hn. unfold to_string. cbn [dec_go].
  assert (starts_with_digit (String (digit_char (n mod 10)) "")) by (exists (n mod 10), ""; split; [div_lia | done]).
  destruct (n <? 10); [done |]. apply dec_go_starts; [div_lia | done].
Qed.

Lemma strtoull_to_string n : u_ok 64 n -> strtoull (to_string n) = n.
Proof.
  intros [H0 H1]. pose proof (digits_value_to_string n H0) as Hv.
  destruct (to_string_starts n H0) as (d & rest & Hd & E). destruct (digit_char_plain d Hd) as (Es & Em & Ep).
  unfold strtoull. rewrite E in *. cbn [skip_c_space]. rewrite Es. cbn [scan_c_sign]. rewrite Em, Ep, Hv.
  by rewrite (proj2 (Z.leb_gt (2 ^ 64) n)) by lia.
Qed.

Lemma strtoll_text n : i64_ok n -> strtoll (if n <? 0 then "-" +:+ to_string (- n) else to_string n) = n.
Proof.
  unfold i64_ok, int64_min, int64_max. intros Hn.
  destruct (Z.ltb_spec n 0) as [E | E].
  - change (strtoll ("-" +:+ to_string (- n))) with
      (Z.max int64_min (Z.min int64_max (- digits_value 0 (to_string (- n))))).
    rewrite digits_value_to_string by lia. unfold int64_min, int64_max. lia.
  - pose proof (digits_value_to_string n E) as Hv.
    destruct (to_string_starts n E) as (d & rest & Hd & Et). destruct (digit_char_plain d Hd) as (Es & Em & Ep).
    unfold strtoll. rewrite Et in *. cbn [skip_c_space]. rewrite Es. cbn [scan_c_sign]. rewrite Em, Ep, Hv.
    unfold int64_min, int64_max. lia.
Qed.

(** ** Every command line gives options of the right widths *)

Lemma number_range o key fallback : u_ok 64 fallback -> u_ok 64 (number o key fallback).
Proof. intros H. unfold number. destruct (o !! key); [apply strtoull_range | done]. Qed.

Lemma static_cast_range v : u_ok 32 (static_cast_u32 v).
Proof. by apply wrap_u_range. Qed.

Lemma lab_options_range o : lab_options_ok (lab_options o).
Proof.
  unfold lab_options_ok, lab_options. cbn [hop_count multipath_members evidence_count lab_epoch lab_revision
    lab_route_generation first_sequence]. split_and!; first [apply static_cast_range | by apply number_range].
Qed.

Lemma node_lab_options_range o : lab_options_ok (node_lab_options o).
Proof.
  unfold lab_options_ok, node_lab_options. cbn [hop_count multipath_members evidence_count lab_epoch lab_revision
    lab_route_generation first_sequence]. split_and!; first [apply static_cast_range | by apply number_range].
Qed.

(** ** Parsing what was written *)

(** An argument as a user means it: [--key=value], [--key value], [--key], or a
    word that is no option. *)
Inductive Argument : Set :=
| Assigned (key value : string)
| Separate (key value : string)
| Flag (key : string)
| Word (text : string).

Definition argument_words (a : Argument) : list string :=
  match a with
  | Assigned key v => ["--" +:+ key +:+ "=" +:+ v]
  | Separate key v => ["--" +:+ key; v]
  | Flag key => ["--" +:+ key]
  | Word text => [text]
  end.

Definition argument_sets (o : Options) (a : Argument) : Options :=
  match a with
  | Assigned key v | Separate key v => <[key := v]> o
  | Flag key => <[key := "true"]> o
  | Word _ => o
  end.

(** A key has no equals sign, and stands for an option unless it is empty. *)
Definition plain_key (key : string) : bool := bool_decide (split_equals key = None) && bool_decide (key <> "").

Definition argument_ok (a : Argument) : bool :=
  match a with
  | Assigned key _ => bool_decide (split_equals key = None)
  | Separate key v => plain_key key && bool_decide (after_dashes v = None)
  | Flag key => plain_key key
  | Word text => bool_decide (long_option text = None)
  end.

(** A flag takes the next word for its value unless that begins with two dashes. *)
Fixpoint flags_separated (l : list Argument) : bool :=
  match l with
  | Flag _ :: rest =>
      match rest with
      | Word text :: _ => if after_dashes text is Some _ then flags_separated rest else false
      | _ => flags_separated rest
      end
  | _ :: rest => flags_separated rest
  | [] => true
  end.

Lemma split_equals_none key v : split_equals key = None -> split_equals (key +:+ "=" +:+ v) = Some (key, v).
Proof.
  induction key as [| c key IH]; [done |].
  change (String c key +:+ "=" +:+ v) with (String c (key +:+ "=" +:+ v)). cbn [split_equals].
  destruct (Ascii.eqb c "="); [done |]. destruct (split_equals key) as [[] |]; [done |]. intros _.
  by rewrite (IH eq_refl).
Qed.

Lemma long_option_dashes key : key <> "" -> long_option ("--" +:+ key) = Some key.
Proof. by destruct key. Qed.

Lemma append_not_empty (a b : string) c : a +:+ String c b <> "".
Proof. by destruct a. Qed.

(** What [parse_options] does at a flag. *)
Lemma parse_flag key args o :
  plain_key key = true -> (forall v rest, args = v :: rest -> after_dashes v <> None) ->
  parse_options (("--" +:+ key) :: args) o = parse_options args (<[key := "true"]> o).
Proof.
  intros Hk Hnext. apply andb_true_iff in Hk as [Hs%bool_decide_eq_true Hn%bool_decide_eq_true].
  change (parse_options (("--" +:+ key) :: args) o) with
    (match long_option ("--" +:+ key) with
     | None => parse_options args o
     | Some body =>
         match split_equals body with
         | Some (key, v) => parse_options args (<[key := v]> o)
         | None =>
             match args with
             | v :: rest' =>
                 if after_dashes v is Some _ then parse_options args (<[body := "true"]> o)
                 else parse_options rest' (<[body := v]> o)
             | [] => parse_options args (<[body := "true"]> o)
             end
         end
     end).
  rewrite long_option_dashes, Hs by done. destruct args as [| v rest]; [done |].
  destruct (after_dashes v) eqn:E; [done |]. by destruct (Hnext v rest eq_refl).
Qed.

Lemma words_start a : match a with Word _ => true | _ => false end = false ->
  exists w rest, argument_words a = w :: rest /\ after_dashes w <> None.
Proof. destruct a; intros Hw; try done; eexists _, _; (split; [reflexivity | done]). Qed.

(** The arguments mean what they say, the last of several values of a key counts. *)
Theorem parse_options_meaning (l : list Argument) (o : Options) :
  forallb argument_ok l = true -> flags_separated l = true ->
  parse_options (flat_map argument_words l) o = fold_left argument_sets l o.
Proof.
  revert o. induction l as [| a l IH]; intros o Hok Hsep; [done |].
  cbn [forallb] in Hok. apply andb_true_iff in Hok as [Ha Hok].
  assert (flags_separated l = true) as Hl.
  { destruct a; try done. cbn [flags_separated] in Hsep. destruct l as [| [] l]; try done.
    by destruct (after_dashes text). }
  cbn [flat_map fold_left]. destruct a as [key v | key v | key | text]; cbn [argument_ok argument_words] in *.
  - apply bool_decide_eq_true in Ha. cbn [app parse_options]. rewrite long_option_dashes by apply (append_not_empty key v).
    rewrite (split_equals_none key v Ha). by apply IH.
  - apply andb_true_iff in Ha as [Hk Hv%bool_decide_eq_true].
    apply andb_true_iff in Hk as [Hs%bool_decide_eq_true Hn%bool_decide_eq_true]. cbn [app parse_options].
    rewrite long_option_dashes, Hs, Hv by done. by apply IH.
  - cbn [app]. rewrite parse_flag; [by apply IH | done |]. intros v rest E.
    destruct l as [| b l]; [done |]. cbn [flat_map] in E. destruct b as [k w | k w | k | text].
    + cbn [argument_words app] in E. by injection E as <- <-.
    + cbn [argument_words app] in E. by injection E as <- <-.
    + cbn [argument_words app] in E. by injection E as <- <-.
    + cbn [flags_separated] in Hsep. cbn [argument_words app] in E. injection E as -> _.
      by destruct (after_dashes v).
  - apply bool_decide_eq_true in Ha. cbn [app parse_options]. rewrite Ha. by apply IH.
Qed.
