(* ===== verification/Sockets.v ===== *)
(** Sockets and the system calls behind them: [include/pathobs/socket.hpp],
    [src/socket.cpp], in the POSIX configuration.

    The process is its set of open descriptors and its [errno]; the system answers
    the calls from a script of return codes, one entry per call, and every call may
    fail.  A connection that the system establishes brings the traffic behind it,
    a [Transport.Socket]; the transfers on it are modelled there.  [FD_SET] on a
    descriptor that is not below [FD_SETSIZE] is undefined behaviour: the flag
    [net_undefined] is set and the run means nothing any more. *)
From stdpp Require Import gmap sets.
From S2P Require Import Prelude Errors Transport.
#[local] Open Scope string_scope.
#[local] Open Scope list_scope.
#[local] Open Scope Z_scope.

(** ** The system *)

(** What a call returns, the [errno] it sets when it fails, and a value it stores. *)
Record SysCall : Set := mk_call { call_rc : Z; call_errno : Z; call_value : Z }.

(** The addresses the process names to the system. *)
Inductive SysAddress : Set := BindTo (address port : Z) | ConnectTo (address port : Z).

Record Net : Set := mk_net {
  net_open : gset nat;
  net_errno : Z;
  net_calls : list SysCall;
  net_peers : list Socket;
  net_addresses : list SysAddress;
  net_undefined : bool;
  net_init_count : Z
}.

Definition NetIO (A : Type) : Type := Net -> A * Net.

Definition net_ret {A} (a : A) : NetIO A := fun n => (a, n).
Definition net_bind {A B} (m : NetIO A) (k : A -> NetIO B) : NetIO B := fun n => let (a, n) := m n in k a n.
Definition net_try {A B} (m : NetIO (Result A)) (k : A -> NetIO (Result B)) : NetIO (Result B) :=
  net_bind m (fun x => match x with Ok a => k a | Err e => net_ret (Err e) end).

Notation "'sys!' x ':=' m 'in' k" := (net_bind m (fun x => k))
  (at level 10, x name, m at level 100, k at level 200) : pathobs_scope.
Notation "'systry!' x ':=' m 'in' k" := (net_try m (fun x => k))
  (at level 10, x name, m at level 100, k at level 200) : pathobs_scope.
#[local] Open Scope pathobs_scope.

Definition net_update (f : Net -> Net) : NetIO unit := fun n => (tt, f n).

Definition set_open (v : gset nat) (n : Net) : Net :=
  mk_net v (net_errno n) (net_calls n) (net_peers n) (net_addresses n) (net_undefined n) (net_init_count n).
Definition set_calls (errno : Z) (calls : list SysCall) (n : Net) : Net :=
  mk_net (net_open n) errno calls (net_peers n) (net_addresses n) (net_undefined n) (net_init_count n).
Definition set_peers (v : list Socket) (n : Net) : Net :=
  mk_net (net_open n) (net_errno n) (net_calls n) v (net_addresses n) (net_undefined n) (net_init_count n).
Definition set_undefined (n : Net) : Net :=
  mk_net (net_open n) (net_errno n) (net_calls n) (net_peers n) (net_addresses n) true (net_init_count n).
Definition set_init_count (v : Z) (n : Net) : Net :=
  mk_net (net_open n) (net_errno n) (net_calls n) (net_peers n) (net_addresses n) (net_undefined n) v.
Definition note_address (a : SysAddress) (n : Net) : Net :=
  mk_net (net_open n) (net_errno n) (net_calls n) (net_peers n) (net_addresses n ++ [a]) (net_undefined n)
    (net_init_count n).

(** A system call; it succeeds when the script is at its end. *)
Definition sys_call : NetIO SysCall := fun n =>
  match net_calls n with
  | [] => (mk_call 0 0 0, n)
  | c :: calls => (c, set_calls (if call_rc c <? 0 then call_errno c else net_errno n) calls n)
  end.

(** The lowest descriptor that is not open. *)
Definition least_unused (open : gset nat) : nat :=
  default 0%nat (List.find (fun fd => bool_decide (fd ∉ open)) (seq 0 (S (size open)))).

(** [::socket] and [::accept]: a new descriptor, unless the call fails. *)
Definition sys_descriptor : NetIO (option nat) :=
  sys! c := sys_call in
  if call_rc c <? 0 then net_ret None
  else fun n => let fd := least_unused (net_open n) in (Some fd, set_open ({[fd]} ∪ net_open n) n).

(** [::close] *)
Definition sys_close (fd : nat) : NetIO unit :=
  sys! _ := sys_call in net_update (fun n => set_open (net_open n ∖ {[fd]}) n).

(** ** The helpers *)

(** A socket's [handle_]; [None] is [kInvalid]. *)
Definition Handle : Set := option nat.
Definition kInvalid : Handle := None.

Definition AF_LOOPBACK : Z := 0x7F000001.
Definition EINPROGRESS : Z := 115.
Definition FD_SETSIZE : nat := 1024.
Definition kConnectTimeoutMillis : Z := 10000.

Definition last_socket_error : NetIO string := fun n => ("errno " +:+ to_string (net_errno n), n).

Definition close_raw (h : Handle) : NetIO unit :=
  match h with None => net_ret tt | Some fd => sys_close fd end.

Definition shutdown_raw (h : Handle) : NetIO unit :=
  match h with None => net_ret tt | Some _ => sys! _ := sys_call in net_ret tt end.

(** [return Error{ErrorCode::TransportFailure, message, last_socket_error()}] *)
Definition socket_failure {A} (message : string) : NetIO (Result A) :=
  sys! detail := last_socket_error in net_ret (Err (mk_error TransportFailure message detail)).

(** [close_raw(handle); return Error{...}] *)
Definition close_and_fail {A} (handle : nat) (message : string) : NetIO (Result A) :=
  sys! _ := close_raw (Some handle) in socket_failure message.

(** [FD_SET(handle, &write_set)] *)
Definition fd_set (handle : nat) : NetIO unit :=
  if (FD_SETSIZE <=? handle)%nat then net_update set_undefined else net_ret tt.

(** [connect_bounded]: the wait for a connection in progress. *)
Definition connect_wait (handle : nat) : NetIO Status :=
  sys! _ := fd_set handle in
  sys! selected := sys_call in
  if call_rc selected <=? 0 then
    close_and_fail handle (if call_rc selected =? 0 then "connect() timed out" else "select() failed")
  else
  sys! option := sys_call in
  if negb (call_rc option =? 0) then close_and_fail handle "getsockopt() failed"
  else if negb (call_value option =? 0) then
    sys! _ := close_raw (Some handle) in
    net_ret (Err (mk_error TransportFailure "connect() failed after select" (to_string (call_value option))))
  else net_ret ok.

(** [connect_bounded] *)
Definition connect_bounded (port : Z) : NetIO (Result nat) :=
  sys! handle := sys_descriptor in
  match handle with
  | None => socket_failure "socket() failed"
  | Some handle =>
      sys! flags := sys_call in
      sys! blocked := (if call_rc flags <? 0 then net_ret flags else sys_call) in
      if call_rc blocked <? 0 then close_and_fail handle "fcntl() failed" else
      sys! _ := net_update (note_address (ConnectTo AF_LOOPBACK port)) in
      sys! rc := sys_call in
      systry! _ := (if call_rc rc =? 0 then net_ret ok
                    else fun n =>
                      if net_errno n =? EINPROGRESS then connect_wait handle n
                      else close_and_fail handle "connect() failed" n) in
      sys! _ := sys_call in
      sys! _ := sys_call in
      net_ret (Ok handle)
  end.

(** ** The class *)

Definition system_init : NetIO Status :=
  sys! _ := net_update (fun n => set_init_count (wrap_u 32 (net_init_count n + 1)) n) in net_ret ok.

Definition system_shutdown : NetIO unit :=
  net_update (fun n => if net_init_count n =? 0 then n else set_init_count (net_init_count n - 1) n).

Definition handle_valid (h : Handle) : bool := bool_decide (is_Some h).

(** [setsockopt], whose result nobody reads. *)
Definition set_no_delay (h : Handle) : NetIO unit :=
  match h with None => net_ret tt | Some _ => sys! _ := sys_call in net_ret tt end.

Definition listen_loopback (port backlog : Z) : NetIO (Result Handle) :=
  if backlog <? 1 then net_ret (Err (error InvalidArgument "listen backlog must be at least one")) else
  sys! handle := sys_descriptor in
  match handle with
  | None => socket_failure "socket() failed"
  | Some handle =>
      sys! _ := sys_call in
      sys! _ := net_update (note_address (BindTo AF_LOOPBACK port)) in
      sys! bound := sys_call in
      if negb (call_rc bound =? 0) then close_and_fail handle "bind() failed" else
      sys! listening := sys_call in
      if negb (call_rc listening =? 0) then close_and_fail handle "listen() failed" else
      net_ret (Ok (Some handle))
  end.

Definition connect_loopback (port : Z) : NetIO (Result Handle) :=
  systry! raw := connect_bounded port in
  sys! _ := set_no_delay (Some raw) in
  net_ret (Ok (Some raw)).

Definition accept (h : Handle) : NetIO (Result Handle) :=
  if negb (handle_valid h) then net_ret (Err (error InvalidState "accept() on an invalid socket")) else
  sys! handle := sys_descriptor in
  match handle with
  | None => socket_failure "accept() failed"
  | Some handle => sys! _ := set_no_delay (Some handle) in net_ret (Ok (Some handle))
  end.

(** [shutdown_send] and [shutdown_both] of a listening socket. *)
Definition handle_shutdown (h : Handle) : NetIO unit := shutdown_raw h.

(** [close]: the handle afterwards. *)
Definition handle_close (h : Handle) : NetIO Handle := sys! _ := close_raw h in net_ret kInvalid.

Definition local_port (h : Handle) : NetIO Z :=
  match h with
  | None => net_ret 0
  | Some _ =>
      sys! name := sys_call in
      net_ret (if negb (call_rc name =? 0) then 0 else wrap_u 16 (call_value name))
  end.

(** [Socket(Socket&&)] and [operator=(Socket&&)] of two different sockets: the
    target and the source afterwards. *)
Definition handle_move (other : Handle) : Handle * Handle := (other, kInvalid).
Definition handle_assign (target other : Handle) : NetIO (Handle * Handle) :=
  sys! _ := handle_close target in net_ret (handle_move other).

(** ** Reasoning about system calls *)

(** The outcome of [m] from [n] satisfies [Q]. *)
Definition net_wp {A} (m : NetIO A) (Q : A -> Net -> Prop) (n : Net) : Prop := Q (m n).1 (m n).2.

(** What system calls leave alone: all but the script and [errno]. *)
Definition net_view (n : Net) : gset nat * list Socket * list SysAddress * bool * Z :=
  (net_open n, net_peers n, net_addresses n, net_undefined n, net_init_count n).

Section Rules.
Context {A B : Type}.
Implicit Types (Q : A -> Net -> Prop) (n : Net).

Lemma wp_ret (a : A) Q n : Q a n -> net_wp (net_ret a) Q n.
Proof. done. Qed.

Lemma wp_bind (m : NetIO B) (k : B -> NetIO A) Q n :
  net_wp m (fun b n' => net_wp (k b) Q n') n -> net_wp (net_bind m k) Q n.
Proof. unfold net_wp, net_bind. by destruct (m n). Qed.

Lemma wp_try (m : NetIO (Result B)) (k : B -> NetIO (Result A)) (Q : Result A -> Net -> Prop) n :
  net_wp m (fun r n' => match r with Ok b => net_wp (k b) Q n' | Err e => Q (Err e) n' end) n ->
  net_wp (net_try m k) Q n.
Proof. intros H. unfold net_try. revert H. unfold net_wp, net_bind. by destruct (m n) as [[] ]. Qed.

Lemma wp_mono (m : NetIO A) (P Q : A -> Net -> Prop) n :
  net_wp m P n -> (forall a n', P a n' -> Q a n') -> net_wp m Q n.
Proof. unfold net_wp. auto. Qed.
End Rules.

Lemma wp_call (Q : SysCall -> Net -> Prop) n :
  (forall c n', net_view n' = net_view n -> Q c n') -> net_wp sys_call Q n.
Proof. intros H. unfold net_wp, sys_call. case_match; by apply H. Qed.

Lemma wp_update f (Q : unit -> Net -> Prop) n : Q tt (f n) -> net_wp (net_update f) Q n.
Proof. done. Qed.

Lemma least_unused_fresh (X : gset nat) : least_unused X ∉ X.
Proof.
  unfold least_unused. destruct (List.find _ _) as [fd |] eqn:E.
  { cbn. by apply find_some in E as [_ E%bool_decide_eq_true]. }
  exfalso. assert (list_to_set (seq 0 (S (size X))) ⊆ X) as Hsub.
  { intros fd Hfd%elem_of_list_to_set%list_elem_of_In. pose proof (find_none _ _ E fd Hfd) as H. cbn in H.
    apply bool_decide_eq_false in H. by apply dec_stable in H. }
  apply subseteq_size in Hsub. rewrite size_list_to_set, length_seq in Hsub by apply NoDup_seq. lia.
Qed.

(** The view after a change of one component. *)
Definition with_open (X : gset nat) (v : gset nat * list Socket * list SysAddress * bool * Z) :=
  let '(_, p, a, u, i) := v in (X, p, a, u, i).

Lemma wp_descriptor (Q : option nat -> Net -> Prop) n :
  (forall n', net_view n' = net_view n -> Q None n') ->
  (forall n', net_view n' = with_open ({[least_unused (net_open n)]} ∪ net_open n) (net_view n) ->
     Q (Some (least_unused (net_open n))) n') ->
  net_wp sys_descriptor Q n.
Proof.
  intros Hf Hs. unfold sys_descriptor. apply wp_bind, wp_call. intros c n' E.
  assert (net_open n' = net_open n) as Eo by (unfold net_view in E; congruence).
  destruct (call_rc c <? 0); [by apply wp_ret, Hf |]. unfold net_wp. cbn [fst snd]. rewrite Eo. apply Hs.
  unfold net_view, with_open in *. cbn [set_open net_open net_peers net_addresses net_undefined net_init_count]. congruence.
Qed.

Lemma wp_close fd (Q : unit -> Net -> Prop) n :
  (forall n', net_view n' = with_open (net_open n ∖ {[fd]}) (net_view n) -> Q tt n') ->
  net_wp (close_raw (Some fd)) Q n.
Proof.
  intros H. apply wp_bind, wp_call. intros c n' E. apply wp_update, H.
  unfold net_view, with_open in *. cbn [set_open net_open net_peers net_addresses net_undefined net_init_count].
  congruence.
Qed.

Lemma wp_failure {A} message (Q : Result A -> Net -> Prop) n :
  (forall e, Q (Err e) n) -> net_wp (socket_failure message) Q n.
Proof. intros H. apply H. Qed.

Lemma wp_close_and_fail {A} fd message (Q : Result A -> Net -> Prop) n :
  (forall e n', net_view n' = with_open (net_open n ∖ {[fd]}) (net_view n) -> Q (Err e) n') ->
  net_wp (close_and_fail fd message) Q n.
Proof. intros H. apply wp_bind, wp_close. intros n' E. apply wp_failure. intros e. by apply H. Qed.

(** ** No descriptor is lost *)

Definition loopback (a : SysAddress) : Prop :=
  match a with BindTo address _ | ConnectTo address _ => address = AF_LOOPBACK end.

(** From [n] to [n'] a new descriptor was opened when the call succeeded and
    nothing otherwise; every address that was named is the loopback address; and
    nothing undefined happened as long as the descriptor fits into an [fd_set]. *)
Record acquired (n : Net) (r : Result Handle) (n' : Net) : Prop := {
  acq_open : match r with
             | Ok (Some fd) => (fd ∉ net_open n) /\ net_open n' = {[fd]} ∪ net_open n
             | Ok None => False
             | Err _ => net_open n' = net_open n
             end;
  acq_peers : net_peers n' = net_peers n;
  acq_addresses : exists l, net_addresses n' = net_addresses n ++ l /\ Forall loopback l;
  acq_undefined : (least_unused (net_open n) < FD_SETSIZE)%nat -> net_undefined n' = net_undefined n
}.

Lemma acquired_err n e n' :
  net_open n' = net_open n -> net_peers n' = net_peers n -> net_addresses n' = net_addresses n ->
  net_undefined n' = net_undefined n -> acquired n (Err e) n'.
Proof. intros. constructor; try done. exists []. by rewrite app_nil_r. Qed.

Lemma acquired_view n r m m' : acquired n r m -> net_view m' = net_view m -> acquired n r m'.
Proof.
  intros [Ho Hp (l & Ha & Hl) Hu] [= Eo Ep Ea Eu _]. constructor; try (rewrite Ep; done).
  - destruct r as [[fd |] |]; [| done |]; by rewrite Eo.
  - exists l. by rewrite Ea.
  - intros H. by rewrite Eu, Hu.
Qed.

(** One system call after the other. *)
Ltac net_step :=
  lazymatch goal with
  | |- net_wp (net_bind _ _) _ _ => apply wp_bind
  | |- net_wp (net_try _ _) _ _ => apply wp_try
  | |- net_wp (net_ret _) _ _ => apply wp_ret
  | |- net_wp (net_update _) _ _ => apply wp_update
  | |- net_wp sys_call _ _ => apply wp_call; intros ? ? ?
  | |- net_wp (close_raw (Some _)) _ _ => apply wp_close; intros ? ?
  | |- net_wp (close_and_fail _ _) _ _ => apply wp_close_and_fail; intros ? ? ?
  | |- net_wp (socket_failure _) _ _ => apply wp_failure; intros ?
  | |- net_wp (if ?c then _ else _) _ _ => destruct c
  end.

(** The components of the views in the hypotheses. *)
Ltac net_views :=
  repeat match goal with
  | H : net_view _ = _ |- _ => unfold net_view, with_open in H; cbn [net_open net_peers net_addresses net_undefined net_init_count note_address set_undefined] in H; injection H as ? ? ? ? ?
  end.

(** The wait leaves the descriptor open, or closes it and fails. *)
Lemma connect_wait_wp fd (Q : Status -> Net -> Prop) n :
  (forall r n', net_open n' = match r with Ok _ => net_open n | Err _ => net_open n ∖ {[fd]} end ->
     net_peers n' = net_peers n -> net_addresses n' = net_addresses n ->
     ((fd < FD_SETSIZE)%nat -> net_undefined n' = net_undefined n) -> Q r n') ->
  net_wp (connect_wait fd) Q n.
Proof.
  intros H. unfold connect_wait. apply wp_bind.
  assert (net_wp (fd_set fd) (fun _ n' => net_open n' = net_open n /\ net_peers n' = net_peers n /\
    net_addresses n' = net_addresses n /\ ((fd < FD_SETSIZE)%nat -> net_undefined n' = net_undefined n)) n) as Hset.
  { unfold fd_set. destruct (Nat.leb_spec FD_SETSIZE fd); [apply wp_update | apply wp_ret]; split_and!; try done. lia. }
  eapply wp_mono; [exact Hset |]. intros [] n1 (Eo & Ep & Ea & Eu).
  repeat net_step; net_views; apply H; unfold ok; cbv beta iota; try congruence.
  all: try (intros Hlt; rewrite <- (Eu Hlt); congruence).
Qed.

Lemma connect_bounded_acquires port n :
  net_wp (connect_bounded port) (fun r n' => acquired n (let? fd := r in Ok (Some fd)) n') n.
Proof.
  unfold connect_bounded. apply wp_bind, wp_descriptor; intros n1 E1.
  { repeat net_step. net_views. by apply acquired_err. }
  pose proof (least_unused_fresh (net_open n)) as Hfresh. set (fd := least_unused (net_open n)) in *.
  assert (({[fd]} ∪ net_open n) ∖ {[fd]} = net_open n) as Hback by set_solver.
  do 3 net_step. apply wp_mono with (P := fun c n' => net_view n' = net_view n1).
  { net_step; [by apply wp_ret | net_step; congruence]. }
  intros blocked n3 E3. net_step.
  { net_step. net_views. apply acquired_err; congruence. }
  do 4 net_step.
  assert (forall r n', net_open n' = match r with Ok _ => {[fd]} ∪ net_open n | Err _ => net_open n end ->
    net_peers n' = net_peers n -> net_addresses n' = net_addresses n ++ [ConnectTo AF_LOOPBACK port] ->
    ((fd < FD_SETSIZE)%nat -> net_undefined n' = net_undefined n) ->
    acquired n (let? _ := (r : Status) in Ok (Some fd)) n') as Hacq.
  { intros r m Ho Hp Ha Hu. constructor; [by destruct r | done | by exists [ConnectTo AF_LOOPBACK port]; repeat constructor | done]. }
  net_step. apply wp_mono with (P := fun r m => acquired n (let? _ := (r : Status) in Ok (Some fd)) m).
  - destruct (call_rc _ =? 0).
    + net_step. net_views. apply Hacq; unfold ok; congruence.
    + match goal with |- net_wp _ _ ?m => unfold net_wp; destruct (net_errno m =? EINPROGRESS) end.
      * apply connect_wait_wp. intros r m Ho Hp Ha Hu. net_views.
        apply Hacq; [destruct r; congruence | congruence | congruence |].
        intros Hlt. rewrite (Hu Hlt). congruence.
      * apply wp_close_and_fail. intros e m E. net_views. apply (Hacq (Err e)); congruence.
  - intros [[] | e] m Hn; [| done]. repeat net_step. apply (acquired_view n _ m); [done | congruence].
Qed.

Lemma set_no_delay_wp h (Q : unit -> Net -> Prop) n :
  (forall n', net_view n' = net_view n -> Q tt n') -> net_wp (set_no_delay h) Q n.
Proof. intros H. unfold set_no_delay. destruct h; repeat net_step; by apply H. Qed.

Lemma connect_acquires port n : net_wp (connect_loopback port) (acquired n) n.
Proof.
  unfold connect_loopback. net_step. eapply wp_mono; [apply connect_bounded_acquires |].
  intros [fd | e] m Hm; [| done]. net_step. apply set_no_delay_wp. intros m' E. apply wp_ret.
  by apply (acquired_view n _ m).
Qed.

Lemma listen_acquires port backlog n : net_wp (listen_loopback port backlog) (acquired n) n.
Proof.
  unfold listen_loopback. net_step; [by apply wp_ret, acquired_err |].
  apply wp_bind, wp_descriptor; intros n1 E1.
  { repeat net_step. net_views. by apply acquired_err. }
  pose proof (least_unused_fresh (net_open n)) as Hfresh. set (fd := least_unused (net_open n)) in *.
  assert (({[fd]} ∪ net_open n) ∖ {[fd]} = net_open n) as Hback by set_solver.
  repeat net_step; net_views; constructor; try congruence;
    try (exists [BindTo AF_LOOPBACK port]; split; [congruence | by repeat constructor]).
  split; [done | congruence].
Qed.

Lemma accept_acquires h n : net_wp (accept h) (acquired n) n.
Proof.
  unfold accept. net_step; [by apply wp_ret, acquired_err |].
  apply wp_bind, wp_descriptor; intros n1 E1.
  { repeat net_step. net_views. by apply acquired_err. }
  pose proof (least_unused_fresh (net_open n)) as Hfresh.
  net_step. apply set_no_delay_wp. intros m E. apply wp_ret. net_views. constructor; try congruence.
  - split; [done | congruence].
  - exists []. rewrite app_nil_r. split; [congruence | done].
Qed.

Lemma handle_close_wp h (Q : Handle -> Net -> Prop) n :
  (forall n', net_view n' = with_open (match h with Some fd => net_open n ∖ {[fd]} | None => net_open n end) (net_view n) ->
     Q kInvalid n') -> net_wp (handle_close h) Q n.
Proof.
  intros H. unfold handle_close. net_step. destruct h as [fd |]; [net_step | apply wp_ret]; apply wp_ret, H; done.
Qed.

(** C27. No descriptor is lost.  Whatever the system answers, listening, connecting
    and accepting open exactly one new descriptor when they succeed and none that
    stays open when they fail, closing a socket closes its descriptor, only the
    loopback address is ever named, and nothing undefined happens while the
    descriptors are below [FD_SETSIZE]. *)
Theorem sockets_lose_no_descriptor (n : Net) (h : Handle) (port backlog : Z) :
  (acquired n (listen_loopback port backlog n).1 (listen_loopback port backlog n).2 /\
   acquired n (connect_loopback port n).1 (connect_loopback port n).2 /\
   acquired n (accept h n).1 (accept h n).2) /\
  (forall i, net_open (handle_close (Some i) n).2 = net_open n ∖ {[i]} /\ (handle_close (Some i) n).1 = kInvalid) /\
  (forall r m i, acquired n r m -> r = Ok (Some i) -> net_open (handle_close (Some i) m).2 = net_open n).
Proof.
  assert (forall i m, net_open (handle_close (Some i) m).2 = net_open m ∖ {[i]}) as Hclose.
  { intros i m. apply (handle_close_wp (Some i) (fun _ n' => net_open n' = net_open m ∖ {[i]})).
    intros n' E. net_views. congruence. }
  split_and!; [apply listen_acquires | apply connect_acquires | apply accept_acquires | |].
  - intros i. split; [apply Hclose |]. by apply (handle_close_wp (Some i) (fun a _ => a = kInvalid)).
  - intros r m i [Ho _ _ _] ->. rewrite Hclose. destruct Ho as [Hf ->]. set_solver.
Qed.

(** ** Errors *)

(** A close that fails hides the cause: [errno] is read after it. *)
Example close_hides_errno :
  (listen_loopback 0 8 (mk_net ∅ 0 [mk_call 0 0 0; mk_call 0 0 0; mk_call (-1) 98 0; mk_call (-1) 5 0] [] [] false 0)).1 =
  Err (mk_error TransportFailure "bind() failed" "errno 5").
Proof. vm_compute. reflexivity. Qed.

(** With all descriptors below [FD_SETSIZE] in use, a connection in progress is
    waited for outside the [fd_set]. *)
Example connect_overruns_fd_set :
  net_undefined (connect_loopback 0 (mk_net (set_seq 0 1024) 0
    [mk_call 0 0 0; mk_call 0 0 0; mk_call 0 0 0; mk_call (-1) EINPROGRESS 0; mk_call 1 0 0] [] [] false 0)).2 = true.
Proof. vm_compute. reflexivity. Qed.

(** The initialisation is counted, but no run of the library gives it back. *)
Lemma system_init_counts n : u_ok 32 (net_init_count n + 1) -> 0 <= net_init_count n ->
  net_init_count (system_shutdown (system_init n).2).2 = net_init_count n.
Proof.
  intros H H0. unfold system_init, system_shutdown, net_update, net_bind, net_ret. cbn [fst snd set_init_count net_init_count].
  rewrite wrap_u_small by (done || lia). rewrite (proj2 (Z.eqb_neq _ 0)) by lia. cbn [set_init_count net_init_count]. lia.
Qed.
