(* ===== verification/Server.v ===== *)
(** The server and the client end of the transport: [TransportServer] and
    [connect] of [include/pathobs/transport.hpp], [src/transport.cpp], over the
    system calls of [Sockets].

    A connection is the descriptor of its socket and the channel on it; the
    traffic of a new connection is the next one that the system brings. *)
From stdpp Require Import gmap sets.
From S2P Require Import Prelude Errors Limits Transport Sockets.
#[local] Open Scope string_scope.
#[local] Open Scope list_scope.
#[local] Open Scope Z_scope.

Record Connection : Set := mk_connection { cn_handle : Handle; cn_channel : FramedChannel }.

Record ServerOptions : Set := mk_server_options { sv_limits : Limits; sv_port : Z; sv_backlog : Z }.

Record TransportServer : Set := mk_server { ts_socket : Handle; ts_limits : Limits }.

(** A peer that says nothing and takes everything. *)
Definition silent_peer : Socket := mk_socket true [] [] false true [] [] 0 "".

(** The traffic behind a connection that was just established. *)
Definition next_peer : NetIO Socket := fun n =>
  match net_peers n with
  | [] => (silent_peer, n)
  | s :: peers => (s, set_peers peers n)
  end.

(** [FramedChannel(std::move(peer), limits)] *)
Definition open_channel (handle : Handle) (limits : Limits) : NetIO Connection :=
  sys! peer := next_peer in net_ret (mk_connection handle (mk_channel peer limits)).

(** [TransportServer::start] *)
Definition server_start (options : ServerOptions) : NetIO (Result TransportServer) :=
  match limits_validate (sv_limits options) with
  | Err e => net_ret (Err e)
  | Ok _ =>
      systry! _ := system_init in
      systry! socket := listen_loopback (sv_port options) (sv_backlog options) in
      net_ret (Ok (mk_server socket (sv_limits options)))
  end.

(** [TransportServer::accept] *)
Definition server_accept (s : TransportServer) : NetIO (Result Connection) :=
  if negb (handle_valid (ts_socket s)) then net_ret (Err (error InvalidState "accept on a stopped server")) else
  systry! peer := accept (ts_socket s) in
  sys! c := open_channel peer (ts_limits s) in
  net_ret (Ok c).

(** [TransportServer::stop], also what the destructor does. *)
Definition server_stop (s : TransportServer) : NetIO TransportServer :=
  if negb (handle_valid (ts_socket s)) then net_ret s else
  sys! _ := handle_shutdown (ts_socket s) in
  sys! h := handle_close (ts_socket s) in
  net_ret (mk_server h (ts_limits s)).

Definition server_port (s : TransportServer) : NetIO Z := local_port (ts_socket s).
Definition listening (s : TransportServer) : bool := handle_valid (ts_socket s).

(** [connect] *)
Definition transport_connect (port : Z) (limits : Limits) : NetIO (Result Connection) :=
  systry! _ := system_init in
  systry! socket := connect_loopback port in
  sys! c := open_channel socket limits in
  net_ret (Ok c).

(** [FramedChannel::close], also what the destructor does. *)
Definition connection_close (c : Connection) : NetIO Connection :=
  sys! h := handle_close (cn_handle c) in net_ret (mk_connection h (channel_close (cn_channel c))).

Definition with_channel (c : Connection) (channel : FramedChannel) : Connection := mk_connection (cn_handle c) channel.

(** ** Descriptors *)

(** The handle that an operation returned, as [Sockets] judges it. *)
Definition opened (n : Net) (r : Result Handle) (n' : Net) : Prop :=
  match r with
  | Ok h => exists fd, h = Some fd /\ (fd ∉ net_open n) /\ net_open n' = {[fd]} ∪ net_open n
  | Err _ => net_open n' = net_open n
  end.

Lemma acquired_opened n r n' : acquired n r n' -> opened n r n'.
Proof. intros [Ho _ _ _]. destruct r as [[fd |] |]; [exists fd; tauto | done | done]. Qed.

Lemma open_channel_wp h limits (Q : Connection -> Net -> Prop) n :
  (forall c n', cn_handle c = h -> ch_limits (cn_channel c) = limits -> net_open n' = net_open n -> Q c n') ->
  net_wp (open_channel h limits) Q n.
Proof.
  intros H. unfold open_channel, next_peer, net_wp, net_bind, net_ret. by destruct (net_peers n); apply H.
Qed.

Lemma system_init_wp (Q : Status -> Net -> Prop) n :
  (forall n', net_open n' = net_open n -> Q ok n') -> net_wp system_init Q n.
Proof. intros H. by apply H. Qed.

Lemma server_start_opens options n :
  net_wp (server_start options) (fun r n' => opened n (let? s := r in Ok (ts_socket s)) n' /\
    forall s, r = Ok s -> ts_limits s = sv_limits options) n.
Proof.
  unfold server_start. destruct (limits_validate _); [| by apply wp_ret].
  apply wp_try, system_init_wp. intros n1 E1. cbn [ok].
  apply wp_try. eapply wp_mono; [apply listen_acquires |]. intros [h | e] n2 H%acquired_opened.
  - apply wp_ret. cbn [result_bind ts_socket opened] in *. rewrite <- E1. split; [done |]. by intros s [= <-].
  - cbn [result_bind opened] in *. split; [congruence | done].
Qed.

Lemma server_accept_opens s n :
  net_wp (server_accept s) (fun r n' => opened n (let? c := r in Ok (cn_handle c)) n' /\
    forall c, r = Ok c -> ch_limits (cn_channel c) = ts_limits s) n.
Proof.
  unfold server_accept. destruct (negb _); [by apply wp_ret |].
  apply wp_try. eapply wp_mono; [apply accept_acquires |]. intros [h | e] n1 H%acquired_opened; [| done].
  apply wp_bind, open_channel_wp. intros c n2 Hh Hl Ho. apply wp_ret. cbn [result_bind opened] in *.
  rewrite Hh, Ho. split; [done |]. by intros c' [= <-].
Qed.

Lemma transport_connect_opens port limits n :
  net_wp (transport_connect port limits) (fun r n' => opened n (let? c := r in Ok (cn_handle c)) n') n.
Proof.
  unfold transport_connect. apply wp_try, system_init_wp. intros n1 E1. cbn [ok].
  apply wp_try. eapply wp_mono; [apply connect_acquires |]. intros [h | e] n2 H%acquired_opened.
  - apply wp_bind, open_channel_wp. intros c n3 Hh Hl Ho. apply wp_ret. cbn [result_bind opened] in *.
    by rewrite Hh, Ho, <- E1.
  - cbn [result_bind opened] in *. congruence.
Qed.

Lemma close_open h n : net_open (handle_close h n).2 = match h with Some fd => net_open n ∖ {[fd]} | None => net_open n end.
Proof.
  apply (handle_close_wp h (fun _ n' => net_open n' = _)). intros n' E. net_views. congruence.
Qed.

Lemma connection_close_open c n :
  net_open (connection_close c n).2 = match cn_handle c with Some fd => net_open n ∖ {[fd]} | None => net_open n end.
Proof.
  unfold connection_close, net_bind, net_ret. rewrite <- close_open. by destruct (handle_close (cn_handle c) n).
Qed.

Lemma server_stop_open s n :
  net_open (server_stop s n).2 = match ts_socket s with Some fd => net_open n ∖ {[fd]} | None => net_open n end.
Proof.
  unfold server_stop. destruct (ts_socket s) as [fd |] eqn:E; [| done].
  change (negb (handle_valid (Some fd))) with false. cbv iota.
  apply (wp_bind _ _ (fun _ n' => net_open n' = net_open n ∖ {[fd]})). unfold handle_shutdown, shutdown_raw.
  apply wp_bind, wp_call. intros c n1 E1. apply wp_ret, wp_bind, handle_close_wp. intros n2 E2. apply wp_ret.
  net_views. congruence.
Qed.
