(* ===== verification/Tool.v ===== *)
(** The command line tool: [src/tools/pathobs_main.cpp].

    A process is its files, its sockets and what it has printed.  A command is a
    program on it, [Tool], whose result is the exit code; it has no result ([None])
    when a stored code that names no enumerator is read, as in [Runtime].  The
    destructors that run when a command returns are written out: those of the
    sockets; the others change nothing that lasts. *)
From Stdlib Require Import Ascii.
From stdpp Require Import gmap.
From S2P Require Import Prelude Errors StdAlgo Digest Canonical Ids TimeModel Limits Source Topology Observed Expected Freshness Divergence Compare Finding History Codec Persistence Metrics Worker RuntimeState Runtime Json DocumentWrite Transport Sockets Server Version Synthetic ToolOptions.
#[local] Open Scope pathobs_scope.
#[local] Open Scope string_scope.
#[local] Open Scope list_scope.
#[local] Open Scope Z_scope.

(** ** Processes *)

Record Process : Set := mk_process {
  pr_world : World;
  pr_net : Net;
  pr_out : list string;
  pr_err : list string
}.

Definition Tool (A : Type) : Type := Process -> option (A * Process).

Definition tool_ret {A} (a : A) : Tool A := fun p => Some (a, p).
Definition tool_bind {A B} (m : Tool A) (k : A -> Tool B) : Tool B := fun p => '(a, p) ← m p; k a p.
Definition tool_option {A} (o : option A) : Tool A := fun p => a ← o; Some (a, p).

Notation "'do!' x ':=' m 'in' k" := (tool_bind m (fun x => k))
  (at level 10, x pattern, m at level 100, k at level 200) : pathobs_scope.

Definition set_files (w : World) (p : Process) : Process := mk_process w (pr_net p) (pr_out p) (pr_err p).
Definition set_net (n : Net) (p : Process) : Process := mk_process (pr_world p) n (pr_out p) (pr_err p).

(** [std::cout << text << std::endl], and [std::printf] and [std::fprintf] to the
    error stream. *)
Definition print (text : string) : Tool unit := fun p =>
  Some (tt, mk_process (pr_world p) (pr_net p) (pr_out p ++ [text]) (pr_err p)).
Definition print_error (text : string) : Tool unit := fun p =>
  Some (tt, mk_process (pr_world p) (pr_net p) (pr_out p) (pr_err p ++ [text])).

Definition newline : string := String kNewline "".
Definition print_line (text : string) : Tool unit := print (text +:+ newline).

(** Operations of the files and of the sockets. *)
Definition with_files {A} (m : IO A) : Tool A := fun p => let (a, w) := m (pr_world p) in Some (a, set_files w p).
Definition with_net {A} (m : NetIO A) : Tool A := fun p => let (a, n) := m (pr_net p) in Some (a, set_net n p).

(** A member function of a runtime: its files are those of the process. *)
Definition with_runtime {A} (m : Run A) (r : Runtime) : Tool (A * Runtime) := fun p =>
  let (a, r) := m r in Some ((a, r), set_files (rt_world r) p).

(** [fail] *)
Definition fail (e : Error) : Tool Z :=
  do! _ := print_error ("pathobs: " +:+ error_to_string e +:+ newline) in tool_ret 1.

(** [if (!result.has_value()) { return fail(result.error()); }] *)
Definition or_fail {A} (x : Result A) (k : A -> Tool Z) : Tool Z :=
  match x with Ok a => k a | Err e => fail e end.

Notation "'ok!' x ':=' r 'in' k" := (or_fail r (fun x => k))
  (at level 10, x pattern, r at level 100, k at level 200) : pathobs_scope.

(** ** Helpers *)

(** Adjacent string literals. *)
Definition concat_texts (l : list string) : string := String.concat "" l.

Definition usage : Tool Z :=
  do! _ := print (concat_texts [
    "Path Observatory "; version_string; newline;
    "usage: pathobs <command> [options]"; newline; newline;
    "  version"; newline; "  selftest"; newline;
    "  compare   [--seed N --diverge --partial --multipath N --pretty --now TIME]"; newline;
    "  explain   [same options as compare]"; newline;
    "  ingest    --store DIR [--seed N ...]"; newline;
    "  history   --store DIR [--limit N --pretty]"; newline;
    "  export    --store DIR [--out FILE --pretty]"; newline;
    "  validate  --store DIR"; newline;
    "  serve     --port N [--store DIR --count N --pretty]"; newline]) in
  tool_ret 2.

(** [make_runtime]: the configuration. *)
Definition tool_config (o : Options) (persist : bool) : RuntimeConfig :=
  mk_config default_limits default_comparison_policy
    (if persist then get o "store" "pathobs-store.pob" else "") persist (negb (has o "no-load"))
    (static_cast_u32 (number o "workers" 2)) true.

(** [ManualClock(now)], which nobody advances. *)
Definition manual_clock (now : TimePoint) : nat -> TimePoint := fun _ => now.

(** [make_runtime] *)
Definition make_runtime (o : Options) (now : TimePoint) (persist : bool) : Tool (Result Runtime) := fun p =>
  match create (tool_config o persist) (Some (manual_clock now)) (pr_world p) with
  | Err e => Some (Err e, p)
  | Ok r =>
      '(started, r) ← Runtime.start r;
      Some (match started with Err e => Err e | Ok _ => Ok r end, set_files (rt_world r) p)
  end.

Fixpoint register_all (descriptors : list SourceDescriptor) : Run Status :=
  match descriptors with
  | [] => run_ret ok
  | d :: descriptors => try! _ := Runtime.register_source d in register_all descriptors
  end.

(** [publish_lab] *)
Definition publish_lab (f : LabFabric) : Run Status :=
  try! _ := register_all (lab_sources f) in
  try! _ := publish_topology (lab_topology f) in
  try! _ := publish_routes (lab_routes f) in
  run_ret ok.

(** ** compare, explain, ingest *)

(** The loop over the evidence; [compare] reports a rejection. *)
Fixpoint ingest_lab (report : bool) (evidence : list ObservedPathEvidence) (r : Runtime) : Tool (Status * Runtime) :=
  match evidence with
  | [] => tool_ret (ok, r)
  | e :: evidence =>
      do! (ingested, r) := with_runtime (ingest_evidence e) r in
      match ingested with
      | Err error => tool_ret (Err error, r)
      | Ok result =>
          do! _ := (if report && negb (ir_accepted result)
                    then print_error ("pathobs: evidence rejected: " +:+ ir_detail result +:+ newline)
                    else tool_ret tt) in
          ingest_lab report evidence r
      end
  end.

Fixpoint print_lines (lines : list string) : Tool unit :=
  match lines with [] => tool_ret tt | l :: lines => do! _ := print_line l in print_lines lines end.

(** The loop over the results. *)
Fixpoint print_results (pretty explain : bool) (results : list ComparisonResult) : Tool unit :=
  match results with
  | [] => tool_ret tt
  | result :: results =>
      do! _ := print_line (comparison_to_json result pretty) in
      do! _ := (if explain
                then do! _ := print_line "-- rationale --" in
                     print_lines (map (fun line => "  * " +:+ line) (cr_rationale result))
                else tool_ret tt) in
      print_results pretty explain results
  end.

(** The instant that [compare] evaluates at. *)
Definition compare_now (o : Options) (f : LabFabric) : Result TimePoint :=
  if has o "now" then parse_rfc3339 (get o "now" "") else Ok (route_received (lab_routes f)).

(** [command_compare] *)
Definition command_compare (o : Options) (explain : bool) : Tool Z :=
  ok! f := build_lab_fabric (lab_options o) default_limits in
  ok! now := compare_now o f in
  do! created := make_runtime o now false in
  ok! r := created in
  do! (published, r) := with_runtime (publish_lab f) r in
  ok! _ := published in
  do! (ingested, r) := ingest_lab true (lab_evidence f) r in
  ok! _ := ingested in
  do! (results, r) := with_runtime compare_all r in
  ok! results := results in
  do! _ := print_results (has o "pretty") explain results in
  do! (stopped, r) := with_runtime stop r in
  ok! _ := stopped in
  tool_ret 0.

(** [command_ingest] *)
Definition command_ingest (o : Options) : Tool Z :=
  ok! f := build_lab_fabric (lab_options o) default_limits in
  do! created := make_runtime o (route_received (lab_routes f)) true in
  ok! r := created in
  do! (published, r) := with_runtime (publish_lab f) r in
  ok! _ := published in
  do! (ingested, r) := ingest_lab false (lab_evidence f) r in
  ok! _ := ingested in
  do! (results, r) := with_runtime compare_all r in
  ok! _ := results in
  do! _ := print_line (stats_to_json (stats r) (has o "pretty")) in
  do! (stopped, r) := with_runtime stop r in
  ok! _ := stopped in
  tool_ret 0.

(** ** history, export, validate *)

Definition kToolEpoch : TimePoint := from_unix_nanos 1767225600000000000.

Definition reading_options : StoreOptions := mk_options default_limits true.

(** [PersistentStore::open] as the three commands call it. *)
Definition open_reading (o : Options) : IO (Result PersistentStore) :=
  store_open (get o "store" "pathobs-store.pob") reading_options kToolEpoch.

(** [command_history]: the query. *)
Definition tool_query (o : Options) : HistoryQuery :=
  mk_history_query
    (if has o "group" then maybe (from_value (number o "group" 0)) else hq_group history_query_new)
    (hq_path history_query_new) (hq_generation history_query_new) (hq_since history_query_new)
    (hq_outcome_filter history_query_new) (hq_filter_by_outcome history_query_new) (number o "limit" 64)
    (hq_now history_query_new) (hq_apply_window history_query_new).

(** [command_history]: the loop over the records.  [None] as in [Runtime]. *)
Fixpoint load_history (records : list StoredRecord) (h : HistoryStore) : option (Result HistoryStore) :=
  match records with
  | [] => Some (Ok h)
  | record :: records =>
      match sr_type record with
      | ComparisonRecord =>
          match decode_exact (decode_comparison default_limits) (sr_payload record) with
          | Err e => Some (Err e)
          | Ok wire =>
              result ← result_of_wire wire;
              match history_append h result with
              | (Err e, _) => Some (Err e)
              | (Ok _, h) => load_history records h
              end
          end
      | _ => load_history records h
      end
  end.

(** [command_history] *)
Definition command_history (o : Options) : Tool Z :=
  do! store := with_files (open_reading o) in
  ok! s := store in
  do! records := with_files (read_all s) in
  ok! records := records in
  do! loaded := tool_option (load_history records (history_new default_limits)) in
  ok! h := loaded in
  do! _ := print_line (history_to_json (history_query h (tool_query o)) (has o "pretty")) in
  tool_ret 0.

Definition quoted (text : string) : string := String kQuote (text +:+ String kQuote "").

Definition unreadable : string := "{" +:+ quoted "kind" +:+ ":" +:+ quoted "pathobs.unreadable" +:+ "}".

(** One case of the switch of [command_export] with a decoder. *)
Definition decoded_or {A} (r : Result A) (to_json : A -> option string) : option string :=
  match r with Err _ => Some unreadable | Ok a => to_json a end.

(** [command_export]: the switch. *)
Definition export_record (record : StoredRecord) : option string :=
  let payload := sr_payload record in
  match sr_type record with
  | SourceRecord =>
      decoded_or (decode_exact (decode_source_descriptor default_limits) payload) (fun d => Some (source_to_json d false))
  | EvidenceRecord =>
      decoded_or (decode_exact (decode_evidence default_limits) payload) (fun e => Some (evidence_to_json e false))
  | ComparisonRecord =>
      decoded_or (decode_exact (decode_comparison default_limits) payload)
        (fun wire => result ← result_of_wire wire; Some (comparison_to_json result false))
  | FindingRecord =>
      decoded_or (decode_exact (decode_finding default_limits) payload)
        (fun wire => f ← finding_of_wire wire; Some (finding_to_json f false))
  | TopologyRecord | RouteRecord | MarkerRecord =>
      Some ("{" +:+ quoted "kind" +:+ ":" +:+ quoted "pathobs.opaque" +:+ "," +:+ quoted "type" +:+ ":" +:+
            quoted (record_type_to_string (sr_type record)) +:+ "," +:+ quoted "sequence" +:+ ":" +:+
            to_string (sr_sequence record) +:+ "," +:+ quoted "bytes" +:+ ":" +:+
            to_string (Z.of_nat (length payload)) +:+ "}")
  end.

(** [command_export]: the loop, with the limit. *)
Fixpoint export_records (records : list StoredRecord) (first : bool) (limit : Z) : option string :=
  match records with
  | [] => Some ""
  | record :: records =>
      if limit =? 0 then Some "" else
      one ← export_record record;
      rest ← export_records records false (limit - 1);
      Some ((if first then "" else ",") +:+ one +:+ rest)
  end.

(** [command_export]: the text. *)
Definition export_text (o : Options) (s : PersistentStore) (records : list StoredRecord) : option string :=
  let pretty := has o "pretty" in
  body ← export_records records true (number o "limit" 1000000);
  Some ("{" +:+ (if pretty then newline else "") +:+ recovery_to_json (ps_recovery s) pretty +:+
        (if pretty then "," +:+ newline else ",") +:+ quoted "records" +:+ ":[" +:+ body +:+ "]}").

(** [std::ofstream] and [<<]: whether the file could be opened. *)
Definition write_document (path document : string) : IO bool :=
  io opened := f_create path in
  if opened then io _ := f_write path (string_bytes document) in io_ret true else io_ret false.

(** [command_export] *)
Definition command_export (o : Options) : Tool Z :=
  do! store := with_files (open_reading o) in
  ok! s := store in
  do! records := with_files (read_all s) in
  ok! records := records in
  do! document := tool_option (export_text o s records) in
  if has o "out" then
    do! written := with_files (write_document (get o "out" "") document) in
    if (written : bool) then tool_ret 0 else
    do! _ := print_error ("pathobs: cannot write " +:+ get o "out" "" +:+ newline) in tool_ret 1
  else do! _ := print_line document in tool_ret 0.

(** [command_validate] *)
Definition command_validate (o : Options) : Tool Z :=
  do! store := with_files (open_reading o) in
  ok! s := store in
  do! records := with_files (read_all s) in
  ok! records := records in
  do! _ := print_line (recovery_to_json (ps_recovery s) true) in
  do! _ := print ("validated " +:+ to_string (Z.of_nat (length records)) +:+ " records from " +:+ ps_path s +:+ newline) in
  tool_ret 0.

(** ** selftest *)

(** [beyond]: the default limits with one more hop than the ceiling. *)
Definition limits_beyond : Limits := {|
  max_hops_per_path := max_hops_per_path hard_ceiling + 1;
  max_paths_per_generation := max_paths_per_generation default_limits;
  max_groups_per_generation := max_groups_per_generation default_limits;
  max_members_per_group := max_members_per_group default_limits;
  max_devices_per_topology := max_devices_per_topology default_limits;
  max_links_per_topology := max_links_per_topology default_limits;
  max_evidence_per_comparison := max_evidence_per_comparison default_limits;
  max_evidence_per_ingest_batch := max_evidence_per_ingest_batch default_limits;
  max_evidence_payload_bytes := max_evidence_payload_bytes default_limits;
  max_document_bytes := max_document_bytes default_limits;
  max_json_depth := max_json_depth default_limits;
  max_json_nodes := max_json_nodes default_limits;
  max_string_bytes := max_string_bytes default_limits;
  worker_threads := worker_threads default_limits;
  max_worker_threads := max_worker_threads default_limits;
  max_queue_depth := max_queue_depth default_limits;
  max_transport_connections := max_transport_connections default_limits;
  max_frame_bytes := max_frame_bytes default_limits;
  max_connections_per_accept := max_connections_per_accept default_limits;
  max_history_records := max_history_records default_limits;
  max_history_per_group := max_history_per_group default_limits;
  history_window_nanos := history_window_nanos default_limits;
  max_findings := max_findings default_limits;
  max_finding_evidence := max_finding_evidence default_limits;
  max_export_records := max_export_records default_limits;
  max_store_bytes := max_store_bytes default_limits;
  max_store_records := max_store_records default_limits;
  max_store_record_bytes := max_store_record_bytes default_limits;
  max_store_segments := max_store_segments default_limits
|}.

Definition parses (text : string) : bool :=
  match parse default_limits text with Got _ => true | _ => false end.

(** The checks of [command_selftest], in their order. *)
Definition selftest_checks : list (bool * string) := [
  (has_value (limits_validate default_limits), "default limits validate");
  (negb (has_value (limits_validate limits_beyond)), "a limit above the hard ceiling is rejected");
  (bool_decide (hex_of (sha_finish (sha_update sha256_new (string_bytes "abc"))).1 =
     "ba7816bf8f01cfea414140de5dae2223b00361a396177a9cb410ff61f20015ad"),
   "SHA-256 matches the published vector for abc");
  (crc32c (string_bytes "123456789") =? 0xe3069283, "CRC-32C check value");
  (parses ("{" +:+ quoted "a" +:+ ":[1,2,3]}"), "a small JSON document parses");
  (negb (parses ("{" +:+ quoted "a" +:+ ":1," +:+ quoted "a" +:+ ":2}")), "a duplicate JSON key is rejected");
  ((length kDescriptors =? 26)%nat, "the divergence class list is closed and complete");
  (has_value (build_lab_fabric default_lab_options default_limits), "the synthetic laboratory fabric builds")
].

(** The lambda [check], for each of them. *)
Fixpoint run_checks (checks : list (bool * string)) (failures : Z) : Tool Z :=
  match checks with
  | [] => tool_ret failures
  | (condition, what) :: checks =>
      do! _ := print ("  [" +:+ (if condition : bool then "ok" else "FAIL") +:+ "] " +:+ what +:+ newline) in
      run_checks checks (if condition then failures else failures + 1)
  end.

(** [command_selftest] *)
Definition command_selftest (build : Build) : Tool Z :=
  do! _ := print ("Path Observatory self test (" +:+ build_description build +:+ ")" +:+ newline) in
  do! failures := run_checks selftest_checks 0 in
  do! _ := print ((if failures =? 0 then "self test passed" else "self test FAILED") +:+ newline) in
  tool_ret (if failures =? 0 then 0 else 1).

(** ** serve *)

(** What a frame leads to: the command returns, the connection ends, or the loop
    goes on. *)
Inductive Served : Type :=
| Returns (exit_code : Z)
| Ends (c : FramedChannel) (r : Runtime)
| Continues (c : FramedChannel) (r : Runtime).

(** [command_serve]: the frames, by their type. *)
Definition serve_frame (frame : Frame) (c : FramedChannel) (r : Runtime) : Tool Served :=
  match frame_type frame with
  | Bye => tool_ret (Ends c r)
  | Hello =>
      match decode_exact (decode_source_descriptor default_limits) (frame_payload frame) with
      | Ok descriptor =>
          do! (_, r) := with_runtime (Runtime.register_source descriptor) r in tool_ret (Continues c r)
      | Err _ => tool_ret (Continues c r)
      end
  | EvidenceFrame =>
      match decode_exact (decode_evidence default_limits) (frame_payload frame) with
      | Err e =>
          do! _ := print_error ("pathobs: bad evidence frame: " +:+ error_to_string e +:+ newline) in
          tool_ret (Continues c r)
      | Ok evidence =>
          do! (ingested, r) := with_runtime (ingest_evidence evidence) r in
          match ingested with
          | Err e => do! code := fail e in tool_ret (Returns code)
          | Ok result =>
              let ack := if ir_accepted result then "accepted" else "rejected" in
              let (_, c) := channel_send c Ack (string_bytes ack) in
              tool_ret (Continues c r)
          end
      end
  | _ => tool_ret (Continues c r)
  end.

(** [command_serve]: the loop over the frames of a connection.  Every round that
    goes on has read a frame, so the length of the stream is enough fuel. *)
Fixpoint serve_frames (fuel : nat) (c : FramedChannel) (r : Runtime) : Tool Served :=
  match fuel with
  | O => tool_ret (Ends c r)
  | S fuel =>
      match channel_receive c with
      | (Err e, c) =>
          do! _ := (if bool_decide (code e = ConnectionClosed) then tool_ret tt
                    else print_error ("pathobs: " +:+ error_to_string e +:+ newline)) in
          tool_ret (Ends c r)
      | (Ok frame, c) =>
          do! served := serve_frame frame c r in
          match served with
          | Continues c r => serve_frames fuel c r
          | _ => tool_ret served
          end
      end
  end.

Definition serve_fuel (c : FramedChannel) : nat := S (length (sk_stream (ch_socket c))).

(** [command_serve]: the loop over the connections, with the number accepted; the
    channel is closed on both ways out. *)
Fixpoint serve_connections (server : TransportServer) (connections : nat) (accepted : Z) (r : Runtime) :
    Tool (option Z * Z * Runtime) :=
  match connections with
  | O => tool_ret (None, accepted, r)
  | S connections =>
      do! accepting := with_net (server_accept server) in
      match accepting with
      | Err e =>
          do! _ := print_error ("pathobs: accept failed: " +:+ error_to_string e +:+ newline) in
          tool_ret (None, accepted, r)
      | Ok connection =>
          let c := cn_channel connection in
          do! served := serve_frames (serve_fuel c) c r in
          match served with
          | Returns code =>
              do! _ := with_net (connection_close connection) in tool_ret (Some code, accepted + 1, r)
          | Ends c r | Continues c r =>
              do! _ := with_net (connection_close (with_channel connection c)) in
              serve_connections server connections (accepted + 1) r
          end
      end
  end.

(** [command_serve], after the connections. *)
Definition serve_results (o : Options) (accepted : Z) (r : Runtime) : Tool Z :=
  do! (results, r) := with_runtime compare_all r in
  ok! results := results in
  do! _ := print_results (has o "pretty") false results in
  do! (stopped, r) := with_runtime stop r in
  ok! _ := stopped in
  do! _ := print ("served " +:+ to_string accepted +:+ " connection(s)" +:+ newline) in
  tool_ret (if accepted =? number o "count" 1 then 0 else 1).

(** [command_serve], with a server that listens. *)
Definition serve_with (o : Options) (server : TransportServer) : Tool Z :=
  do! port := with_net (server_port server) in
  do! _ := print ("listening on 127.0.0.1:" +:+ to_string port +:+ newline) in
  do! created := make_runtime o kToolEpoch (has o "store") in
  ok! r := created in
  do! (returned, accepted, r) := serve_connections server (Z.to_nat (number o "count" 1)) 0 r in
  match returned with
  | Some code => tool_ret code
  | None => serve_results o accepted r
  end.

Definition tool_server_options (o : Options) : ServerOptions :=
  mk_server_options default_limits (wrap_u 16 (number o "port" 0)) 8.

(** [command_serve]; the server is stopped by its destructor. *)
Definition command_serve (o : Options) : Tool Z :=
  do! server := with_net (server_start (tool_server_options o)) in
  ok! server := server in
  do! code := serve_with o server in
  do! _ := with_net (server_stop server) in
  tool_ret code.

(** ** main *)

(** [main] on the arguments after the name of the program. *)
Definition main (build : Build) (args : list string) : Tool Z :=
  match args with
  | [] => usage
  | command :: rest =>
      let o := parse_options rest ∅ in
      if bool_decide (command = "version") then
        do! _ := print (build_description build +:+ newline) in
        do! _ := print ("persistence format version " +:+ to_string PATHOBS_STORE_FORMAT_VERSION +:+ newline) in
        do! _ := print ("wire protocol version " +:+ to_string PATHOBS_WIRE_PROTOCOL_VERSION +:+ newline) in
        do! _ := print ("address sanitizer: " +:+ (if built_with_address_sanitizer build then "yes" else "no") +:+ newline) in
        tool_ret 0
      else if bool_decide (command = "selftest") then command_selftest build
      else if bool_decide (command = "compare") then command_compare o false
      else if bool_decide (command = "explain") then command_compare o true
      else if bool_decide (command = "ingest") then command_ingest o
      else if bool_decide (command = "history") then command_history o
      else if bool_decide (command = "export") then command_export o
      else if bool_decide (command = "validate") then command_validate o
      else if bool_decide (command = "serve") then command_serve o
      else usage
  end.
