(* ===== verification/NodeTool.v ===== *)
(** The observation node: [src/tools/pathobs_node_main.cpp].

    The node builds the laboratory fabric of its options and streams its sources
    and its evidence to the service, one frame at a time, waiting for an answer
    to every evidence frame. *)
From Stdlib Require Import Ascii.
From stdpp Require Import gmap.
From S2P Require Import Prelude Errors Digest Canonical Ids TimeModel Limits Source Topology Observed Expected Codec Json Transport Sockets Server Synthetic ToolOptions Tool.
#[local] Open Scope pathobs_scope.
#[local] Open Scope string_scope.
#[local] Open Scope list_scope.
#[local] Open Scope Z_scope.

(** [parse_options] of the node: the parser of the tool, from its first argument. *)
Definition node_parse_options (args : list string) : Options := parse_options args ∅.

Definition node_usage : Tool Z :=
  do! _ := print_error (concat_texts [
    "usage: pathobs_node --port N [--seed N --hops N --multipath N] [--scenario ";
    "match|diverge|partial|empty|flood|garbage] [--evidence-count N]"; newline]) in
  tool_ret 2.

Definition node_fail (e : Error) : Tool Z :=
  do! _ := print_error ("pathobs_node: " +:+ error_to_string e +:+ newline) in tool_ret 1.

(** The garbage: 24 bytes that are no frame. *)
Definition junk : list Z := map (fun i => Z.land (0x40 + Z.of_nat i) 0xFF) (seq 0 24).

(** The garbage scenario. *)
Definition node_garbage (port : Z) : Tool Z :=
  do! initialized := with_net system_init in
  match initialized with
  | Err _ => tool_ret 1
  | Ok _ =>
      do! raw := with_net (connect_loopback port) in
      match raw with
      | Err _ => tool_ret 1
      | Ok handle =>
          do! peer := with_net next_peer in
          let (sent, _) := send_all junk peer in
          do! _ := with_net (handle_close handle) in
          tool_ret (if has_value sent then 3 else 1)
      end
  end.

(** The loop over the sources: a failed send ends the node. *)
Fixpoint send_sources (descriptors : list SourceDescriptor) (c : FramedChannel) : Status * FramedChannel :=
  match descriptors with
  | [] => (ok, c)
  | d :: descriptors =>
      match channel_send c Hello (encode_source d) with
      | (Err e, c) => (Err e, c)
      | (Ok _, c) => send_sources descriptors c
      end
  end.

(** How the loop over the evidence ends: all of it is sent, or the message of the
    failure. *)
Inductive NodeRun : Type :=
| NodeSent (count : Z) (c : FramedChannel)
| NodeFailed (message : string) (c : FramedChannel).

(** The loop over the evidence, with the number sent. *)
Fixpoint send_evidence (evidence : list ObservedPathEvidence) (count : Z) (c : FramedChannel) : NodeRun :=
  match evidence with
  | [] => NodeSent count c
  | e :: evidence =>
      match channel_send c EvidenceFrame (encode_evidence e) with
      | (Err error, c) => NodeFailed ("pathobs_node: " +:+ error_to_string error +:+ newline) c
      | (Ok _, c) =>
          match channel_receive c with
          | (Err error, c) =>
              NodeFailed ("pathobs_node: no acknowledgement: " +:+ error_to_string error +:+ newline) c
          | (Ok _, c) => send_evidence evidence (count + 1) c
          end
      end
  end.

(** What the node does on its channel: the channel afterwards, and the exit code
    with what is printed. *)
Definition node_stream (f : LabFabric) (c : FramedChannel) : Tool Z * FramedChannel :=
  match send_sources (lab_sources f) c with
  | (Err e, c) => (node_fail e, c)
  | (Ok _, c) =>
      match send_evidence (lab_evidence f) 0 c with
      | NodeFailed message c => (do! _ := print_error message in tool_ret 1, c)
      | NodeSent count c =>
          let (_, c) := channel_send c Bye [] in
          (do! _ := print ("sent " +:+ to_string count +:+ " evidence frame(s)" +:+ newline) in tool_ret 0, c)
      end
  end.

(** [main]; the channel is closed on every way out. *)
Definition node_main (args : list string) : Tool Z :=
  let o := node_parse_options args in
  if negb (has o "port") then node_usage else
  let port := wrap_u 16 (number o "port" 0) in
  match build_lab_fabric (node_lab_options o) default_limits with
  | Err e => node_fail e
  | Ok f =>
      if bool_decide (get o "scenario" "match" = "garbage") then node_garbage port else
      do! connected := with_net (transport_connect port default_limits) in
      match connected with
      | Err _ => tool_ret 1
      | Ok connection =>
          let (answer, c) := node_stream f (cn_channel connection) in
          do! code := answer in
          do! _ := with_net (connection_close (with_channel connection c)) in
          tool_ret code
      end
  end.
