(* ===== verification/ToolProps.v ===== *)
(** What the command line tool does to its surroundings: which commands write
    files, what a service does with what its clients send, and that it ends and
    gives back its descriptors. *)
From stdpp Require Import gmap sets.
From S2P Require Import Prelude Errors StdAlgo Digest Canonical Ids TimeModel Limits Source Topology Observed Expected Freshness Divergence Compare CompareProps Finding History Codec Persistence StoreFiles PersistenceProps Metrics Worker RuntimeState Runtime RuntimeProps RuntimePolicy Json DocumentWrite Transport Sockets Server Version Synthetic SyntheticProps ToolOptions Tool.
#[local] Open Scope pathobs_scope.
#[local] Open Scope string_scope.
#[local] Open Scope list_scope.
#[local] Open Scope Z_scope.

(** ** Reasoning about commands *)

(** Whatever [m] returns from [p] satisfies [Q]. *)
Definition tool_wp {A} (m : Tool A) (Q : A -> Process -> Prop) (p : Process) : Prop :=
  forall a p', m p = Some (a, p') -> Q a p'.

Section Rules.
Context {A B : Type}.
Implicit Types (Q : A -> Process -> Prop) (p : Process).

Lemma tool_wp_ret (a : A) Q p : Q a p -> tool_wp (tool_ret a) Q p.
Proof. by intros H b p' [= <- <-]. Qed.

Lemma tool_wp_bind (m : Tool B) (k : B -> Tool A) Q p :
  tool_wp m (fun b p' => tool_wp (k b) Q p') p -> tool_wp (tool_bind m k) Q p.
Proof.
  intros H a p' E. unfold tool_bind in E. destruct (m p) as [[b p1] |] eqn:Em; [| done].
  by apply (H b p1 Em).
Qed.

Lemma tool_wp_mono (m : Tool A) (P Q : A -> Process -> Prop) p :
  tool_wp m P p -> (forall a p', P a p' -> Q a p') -> tool_wp m Q p.
Proof. intros H HPQ a p' E. by apply HPQ, H. Qed.

Lemma tool_wp_option (o : option A) Q p : (forall a, o = Some a -> Q a p) -> tool_wp (tool_option o) Q p.
Proof. intros H a p' E. unfold tool_option in E. destruct o as [b |]; [| done]. injection E as <- <-. by apply H. Qed.

Lemma tool_wp_files (m : IO A) Q p :
  (forall a w, m (pr_world p) = (a, w) -> Q a (set_files w p)) -> tool_wp (with_files m) Q p.
Proof. intros H a p' E. unfold with_files in E. destruct (m _) as [b w] eqn:Em. injection E as <- <-. by apply H. Qed.

Lemma tool_wp_net (m : NetIO A) Q p :
  net_wp m (fun a n => Q a (set_net n p)) (pr_net p) -> tool_wp (with_net m) Q p.
Proof. intros H a p' E. unfold with_net in E. unfold net_wp in H. destruct (m _) as [b n]. by injection E as <- <-. Qed.

Lemma tool_wp_runtime (m : Run A) r (Q : A * Runtime -> Process -> Prop) p :
  (forall a r', m r = (a, r') -> Q (a, r') (set_files (rt_world r') p)) -> tool_wp (with_runtime m r) Q p.
Proof.
  intros H [a r'] p' E. unfold with_runtime in E. destruct (m r) as [b r1] eqn:Em. injection E as <- <- <-.
  by apply H.
Qed.
End Rules.

Lemma tool_wp_print text (Q : unit -> Process -> Prop) p :
  Q tt (mk_process (pr_world p) (pr_net p) (pr_out p ++ [text]) (pr_err p)) -> tool_wp (print text) Q p.
Proof. by intros H a p' [= <- <-]. Qed.

Lemma tool_wp_print_error text (Q : unit -> Process -> Prop) p :
  Q tt (mk_process (pr_world p) (pr_net p) (pr_out p) (pr_err p ++ [text])) -> tool_wp (print_error text) Q p.
Proof. by intros H a p' [= <- <-]. Qed.

Lemma tool_wp_fail e (Q : Z -> Process -> Prop) p :
  (forall err, Q 1 (mk_process (pr_world p) (pr_net p) (pr_out p) err)) -> tool_wp (fail e) Q p.
Proof. intros H. apply tool_wp_bind, tool_wp_print_error, tool_wp_ret, H. Qed.

Lemma tool_wp_or_fail {A} (x : Result A) (k : A -> Tool Z) (Q : Z -> Process -> Prop) p :
  (forall err, Q 1 (mk_process (pr_world p) (pr_net p) (pr_out p) err)) ->
  (forall a, x = Ok a -> tool_wp (k a) Q p) -> tool_wp (or_fail x k) Q p.
Proof. intros He Ho. destruct x as [a | e]; [by apply Ho | by apply tool_wp_fail]. Qed.

(** ** Programs that always return *)

Class Total {A} (m : Tool A) : Prop := total : forall p, is_Some (m p).

Section TotalRules.
Context {A B : Type}.

#[export] Instance total_ret (a : A) : Total (tool_ret a).
Proof. by intros p. Qed.
#[export] Instance total_bind (m : Tool B) (k : B -> Tool A) : Total m -> (forall b, Total (k b)) -> Total (tool_bind m k).
Proof. intros Hm Hk p. unfold tool_bind. destruct (Hm p) as [[b p1] ->]. apply Hk. Qed.
#[export] Instance total_files (m : IO A) : Total (with_files m).
Proof. intros p. unfold with_files. by destruct (m _). Qed.
#[export] Instance total_net (m : NetIO A) : Total (with_net m).
Proof. intros p. unfold with_net. by destruct (m _). Qed.
#[export] Instance total_runtime (m : Run A) r : Total (with_runtime m r).
Proof. intros p. unfold with_runtime. by destruct (m _). Qed.
End TotalRules.

#[export] Instance total_print text : Total (print text).
Proof. by intros p. Qed.
#[export] Instance total_print_error text : Total (print_error text).
Proof. by intros p. Qed.
#[export] Instance total_fail e : Total (fail e).
Proof. apply _. Qed.
#[export] Instance total_or_fail {A} (x : Result A) (k : A -> Tool Z) : (forall a, Total (k a)) -> Total (or_fail x k).
Proof. intros H. destruct x; apply _. Qed.

(** Along the structure of a program. *)
Ltac total_tac :=
  repeat first
    [ progress intros | assumption | apply total_ret | apply total_files | apply total_net | apply total_runtime
    | apply total_print | apply total_print_error | apply total_fail | apply total_or_fail | apply total_bind
    | match goal with |- Total (match ?x with _ => _ end) => destruct x end
    | progress unfold print_line | progress (cbv beta iota zeta) ].

#[export] Instance total_print_lines lines : Total (print_lines lines).
Proof. induction lines; cbn [print_lines]; total_tac. Qed.

#[export] Instance total_print_results pretty explain results : Total (print_results pretty explain results).
Proof. induction results; cbn [print_results]; total_tac; apply total_print_lines. Qed.

#[export] Instance total_ingest_lab report evidence r : Total (ingest_lab report evidence r).
Proof. revert r. induction evidence as [| e evidence IH]; intros r; cbn [ingest_lab]; total_tac; apply IH. Qed.

(** Without a store nothing that was stored is read. *)
#[export] Instance total_make_runtime o now : Total (make_runtime o now false).
Proof.
  intros p. unfold make_runtime, create. cbn [tool_config cfg_limits cfg_comparison cfg_persist cfg_store_path andb].
  destruct (limits_validate default_limits) as [[] |]; cbn [result_bind]; [| done].
  destruct (comparison_policy_validate _) as [[] |]; cbn [result_bind]; [| done].
  set (r0 := runtime_new _ _ _). unfold Runtime.start. cbn [r0 runtime_new rt_state rt_config tool_config cfg_persist].
  rewrite !bool_decide_eq_false_2 by done. destruct (_ || _); [done |].
  by destruct (start_pool _ _) as [[[] | e] pool].
Qed.

Lemma compare_returns o explain : Total (command_compare o explain).
Proof. unfold command_compare. total_tac; first [apply total_make_runtime | apply total_ingest_lab | apply total_print_results]. Qed.

#[export] Instance total_serve_frame frame c r : Total (serve_frame frame c r).
Proof. unfold serve_frame. total_tac. Qed.

#[export] Instance total_serve_frames fuel c r : Total (serve_frames fuel c r).
Proof. revert c r. induction fuel as [| fuel IH]; intros c r; cbn [serve_frames]; total_tac; first [apply total_serve_frame | apply IH]. Qed.

#[export] Instance total_serve_connections server n accepted r : Total (serve_connections server n accepted r).
Proof.
  revert accepted r. induction n as [| n IH]; intros accepted r; cbn [serve_connections]; total_tac;
    first [apply total_serve_frames | apply IH].
Qed.

Lemma serve_total o : has o "store" = false -> Total (command_serve o).
Proof.
  intros H. unfold command_serve, serve_with, serve_results. rewrite H.
  total_tac; first [apply total_make_runtime | apply total_serve_connections | apply total_print_results].
Qed.

(** One command after the other. *)
Ltac tool_step :=
  lazymatch goal with
  | |- tool_wp (tool_bind _ _) _ _ => apply tool_wp_bind
  | |- tool_wp (tool_ret _) _ _ => apply tool_wp_ret
  | |- tool_wp (tool_option _) _ _ => apply tool_wp_option; intros ? ?
  | |- tool_wp (with_files _) _ _ => apply tool_wp_files; intros ? ? ?
  | |- tool_wp (print _) _ _ => apply tool_wp_print
  | |- tool_wp (print_line _) _ _ => apply tool_wp_print
  | |- tool_wp (print_error _) _ _ => apply tool_wp_print_error
  | |- tool_wp (or_fail _ _) _ _ => apply tool_wp_or_fail; [intros ? | intros ? ?]
  end.

(** ** Commands that read a store *)

(** Every file keeps its bytes, those at [except] apart. *)
Definition files_kept (except : option string) (w w' : World) : Prop :=
  forall path, except <> Some path -> file_bytes w' !! path = file_bytes w !! path.

Lemma files_kept_refl except w : files_kept except w w.
Proof. by intros path _. Qed.

Lemma files_kept_trans except w1 w2 w3 : files_kept except w1 w2 -> files_kept except w2 w3 -> files_kept except w1 w3.
Proof. intros H1 H2 path Hp. by rewrite (H2 path Hp), (H1 path Hp). Qed.

Lemma silent_kept {A} (m : IO A) except w a w' : Silent m -> m w = (a, w') -> files_kept except w w'.
Proof. intros H E path _. specialize (H w). rewrite E in H. cbn [snd] in H. by rewrite H. Qed.

#[local] Instance silent_open_reading o : Silent (open_reading o).
Proof. by apply silent_store_open. Qed.

Lemma document_kept path document w a w' : write_document path document w = (a, w') -> files_kept (Some path) w w'.
Proof.
  intros E p Hp.
  assert (forall bytes position w0, file_bytes (set_file path bytes position w0).2 !! p = file_bytes w0 !! p) as Hset.
  { intros bytes position w0. unfold file_bytes, set_file. cbn [snd w_files]. rewrite !lookup_fmap, lookup_insert_ne; congruence. }
  unfold write_document, f_create, f_write, io_bind, io_ret, get_file in E.
  destruct (fault_any w) as (f & w1 & Ef & Hw1). rewrite Ef in E.
  assert (file_bytes w1 = file_bytes w) as E1 by (unfold file_bytes; by rewrite Hw1).
  destruct f as [n |]; [injection E as <- <-; by rewrite E1 |].
  destruct (set_file path [] 0 w1) as [u w2] eqn:Es. specialize (Hset [] 0%nat w1). rewrite Es in Hset. cbn [snd] in Hset.
  destruct (fault_any w2) as (g & w3 & Eg & Hw3). rewrite Eg in E.
  assert (file_bytes w3 = file_bytes w2) as E3 by (unfold file_bytes; by rewrite Hw3).
  unfold set_file in E. injection E as <- <-. unfold file_bytes at 1. cbn [w_files].
  rewrite lookup_fmap, lookup_insert_ne, <- lookup_fmap by congruence. change (file_bytes w3 !! p = file_bytes w !! p).
  by rewrite E3, Hset, E1.
Qed.

(** The file that [export] writes. *)
Definition export_target (o : Options) : option string := if has o "out" then Some (get o "out" "") else None.

(** C28. Reading commands do not write.  [history] and [validate] leave the bytes
    of every file as they are, whatever the system does and whatever the store
    holds, and [export] changes at most the file that [--out] names. *)
Theorem reading_commands_keep_files (o : Options) (p p' : Process) (code : Z) :
  (command_history o p = Some (code, p') -> files_kept None (pr_world p) (pr_world p')) /\
  (command_validate o p = Some (code, p') -> files_kept None (pr_world p) (pr_world p')) /\
  (command_export o p = Some (code, p') -> files_kept (export_target o) (pr_world p) (pr_world p')).
Proof.
  assert (forall except a w, open_reading o (pr_world p) = (a, w) -> files_kept except (pr_world p) w) as Ho.
  { intros except a w E. by eapply silent_kept, E; apply _. }
  assert (forall except s w a w', files_kept except (pr_world p) w -> read_all s w = (a, w') ->
    files_kept except (pr_world p) w') as Hr.
  { intros except s w a w' Hw E. eapply files_kept_trans; [exact Hw |]. eapply silent_kept, E. apply silent_read_all. }
  split_and!.
  - revert code p'. change (tool_wp (command_history o) (fun _ p' => files_kept None (pr_world p) (pr_world p')) p).
    unfold command_history. repeat tool_step; cbn [set_files pr_world] in *; eauto.
  - revert code p'. change (tool_wp (command_validate o) (fun _ p' => files_kept None (pr_world p) (pr_world p')) p).
    unfold command_validate. repeat tool_step; cbn [set_files pr_world] in *; eauto.
  - revert code p'. change (tool_wp (command_export o) (fun _ p' => files_kept (export_target o) (pr_world p) (pr_world p')) p).
    unfold command_export. apply tool_wp_bind, tool_wp_files. intros store w1 E1.
    apply tool_wp_or_fail; [cbn [set_files pr_world]; eauto |]. intros st _.
    apply tool_wp_bind, tool_wp_files. intros records w2 E2.
    apply tool_wp_or_fail; [cbn [set_files pr_world] in *; eauto |]. intros rs _.
    apply tool_wp_bind, tool_wp_option. intros document _. cbn [set_files pr_world] in *.
    assert (files_kept (export_target o) (pr_world p) w2) as Hk by eauto.
    destruct (has o "out") eqn:Eo; [| repeat tool_step; exact Hk].
    assert (export_target o = Some (get o "out" "")) as Et by (unfold export_target; by rewrite Eo).
    apply tool_wp_bind, tool_wp_files. intros written w3 E3. cbn [set_files pr_world] in E3.
    pose proof (document_kept _ _ _ _ _ E3) as Hd. rewrite <- Et in Hd.
    destruct written; repeat tool_step; exact (files_kept_trans _ _ _ _ Hk Hd).
Qed.

(** ** Printing results *)

(** The lines of [print_results]. *)
Definition result_lines (pretty explain : bool) (results : list ComparisonResult) : list string :=
  flat_map (fun r => (comparison_to_json r pretty +:+ newline) ::
    if explain
    then ("-- rationale --" +:+ newline) :: map (fun line => "  * " +:+ line +:+ newline) (cr_rationale r)
    else []) results.

(** A process that has printed more, and is otherwise as it was. *)
Definition printed (lines : list string) (p : Process) : Process :=
  mk_process (pr_world p) (pr_net p) (pr_out p ++ lines) (pr_err p).

Lemma printed_app l1 l2 p : printed l2 (printed l1 p) = printed (l1 ++ l2) p.
Proof. unfold printed. cbn [pr_world pr_net pr_out pr_err]. by rewrite app_assoc. Qed.

Lemma print_lines_wp lines (Q : unit -> Process -> Prop) p :
  Q tt (printed (map (fun l => l +:+ newline) lines) p) -> tool_wp (print_lines lines) Q p.
Proof.
  revert p. induction lines as [| l lines IH]; intros p H; cbn [print_lines].
  { apply tool_wp_ret. unfold printed in H. cbn [map] in H. rewrite app_nil_r in H. by destruct p. }
  do 2 tool_step. apply IH. change (mk_process _ _ _ _) with (printed [l +:+ newline] p). by rewrite printed_app.
Qed.

Lemma append_assoc (a b c : string) : (a +:+ b) +:+ c = a +:+ b +:+ c.
Proof. induction a as [| x a IH]; [done |]. change (String x ((a +:+ b) +:+ c) = String x (a +:+ b +:+ c)). by rewrite IH. Qed.

Lemma print_results_wp pretty explain results (Q : unit -> Process -> Prop) p :
  Q tt (printed (result_lines pretty explain results) p) -> tool_wp (print_results pretty explain results) Q p.
Proof.
  revert p. induction results as [| r results IH]; intros p H; cbn [print_results].
  { apply tool_wp_ret. unfold printed in H. cbn [result_lines flat_map] in H. rewrite app_nil_r in H. by destruct p. }
  do 3 tool_step. change (mk_process _ _ _ _) with (printed [comparison_to_json r pretty +:+ newline] p).
  cbn [result_lines flat_map] in H. destruct explain.
  - do 2 tool_step. change (mk_process _ _ _ _) with (printed ["-- rationale --" +:+ newline] (printed [comparison_to_json r pretty +:+ newline] p)).
    apply print_lines_wp, IH. rewrite !printed_app, map_map.
    rewrite (map_ext _ (fun line => "  * " +:+ line +:+ newline)) by (intros line; apply append_assoc). exact H.
  - tool_step. apply IH. rewrite printed_app. exact H.
Qed.

(** ** Comparing all buckets *)

(** Every result of [compare_all] comes from a comparison of a bucket in a state
    with what [P] says. *)
Lemma compare_all_results (P : Runtime -> Prop) (Q : ComparisonResult -> Prop) :
  (forall key r, P r -> P (compare_bucket key true r).2) ->
  (forall key r result r', P r -> compare_bucket key true r = (Ok result, r') -> Q result) ->
  forall r results r', P r -> compare_all r = (Ok results, r') -> Forall Q results /\ P r'.
Proof.
  intros Hp Hq.
  assert (forall keys r results r', P r -> compare_keys keys r = (Ok results, r') -> Forall Q results /\ P r') as Hkeys.
  { induction keys as [| key keys IH]; intros r results r' Hr E; cbn [compare_keys] in E; [by injection E as <- <- |].
    unfold run_try, run_bind in E. specialize (Hp key r Hr).
    destruct (compare_bucket key true r) as [[result | e] r1] eqn:Eb; [| done]. cbn [snd] in Hp.
    destruct (compare_keys keys r1) as [[rest | e] r2] eqn:Ek; [| done]. injection E as <- <-.
    destruct (IH r1 rest r2 Hp Ek) as [Hf Hr2]. split; [| done]. constructor; [exact (Hq key r result r1 Hr Eb) | done]. }
  intros r results r' Hr E. unfold compare_all, run_bind, ask in E. by eapply Hkeys.
Qed.

Lemma compare_all_keeps (P : Runtime -> Prop) r :
  (forall key r, P r -> P (compare_bucket key true r).2) -> P r -> P (compare_all r).2.
Proof. intros H Hr. by destruct (comparisons_preserve P H r Hr) as (_ & _ & Ha). Qed.

(** ** Nothing is expected of a service *)

Definition nothing_expected (r : Runtime) : Prop := rt_routes r = None.

Lemma nothing_expected_view r r' : expected_view r' = expected_view r -> nothing_expected r -> nothing_expected r'.
Proof. unfold nothing_expected, expected_view. intros [= _ _ _ E _ _ _ _]. by rewrite E. Qed.

Lemma compare_bucket_unexpected key r : nothing_expected r -> nothing_expected (compare_bucket key true r).2.
Proof. apply nothing_expected_view, compare_bucket_expected. Qed.

Definition indefinite (result : ComparisonResult) : Prop := cr_outcome result <> Match /\ cr_outcome result <> Divergent.

Lemma compare_all_indefinite r results r' :
  nothing_expected r -> compare_all r = (Ok results, r') -> Forall indefinite results.
Proof.
  intros Hr E. refine (proj1 (compare_all_results nothing_expected indefinite _ _ r results r' Hr E)).
  - intros key r0. apply compare_bucket_unexpected.
  - intros key r0 result r1 H0 Eb. unfold nothing_expected in H0.
    split; intros Ho; destruct (definite_routes _ _ _ _ _ Eb) as (g & Hg & _); [by left | congruence | by right | congruence].
Qed.

(** [make_runtime] touches the files only, and its runtime expects nothing. *)
Lemma make_runtime_wp o now persist (Q : Result Runtime -> Process -> Prop) p :
  (forall created w, (forall r, created = Ok r -> nothing_expected r) -> Q created (set_files w p)) ->
  tool_wp (make_runtime o now persist) Q p.
Proof.
  intros H created p' E. unfold make_runtime in E. destruct (create _ _ _) as [r | e].
  - destruct (Runtime.start r) as [[started r1] |] eqn:Es; [| done]. cbn in E. injection E as <- <-. apply H.
    intros r2. destruct started as [[] |]; [| done]. intros [= <-].
    by apply start_cases in Es as [Hs | r2 Hs | r2 _ ->].
  - injection E as <- <-. replace p with (set_files (pr_world p) p) by by destruct p. by apply H.
Qed.

(** ** Frames of a client *)

Section Service.
Context (P : Runtime -> Prop).
Hypothesis register_keeps : forall d r, P r -> P (Runtime.register_source d r).2.
Hypothesis ingest_keeps : forall e r, P r -> P (ingest_evidence e r).2.

Definition served_runtime (s : Served) : option Runtime :=
  match s with Returns _ => None | Ends _ r | Continues _ r => Some r end.

(** Whatever a frame holds, it changes neither the sockets nor the output, and the
    runtime only by its own operations. *)
Lemma serve_frame_wp frame c r (Q : Served -> Process -> Prop) p :
  P r ->
  (forall served w err, (forall r', served_runtime served = Some r' -> P r') ->
     Q served (mk_process w (pr_net p) (pr_out p) err)) ->
  tool_wp (serve_frame frame c r) Q p.
Proof.
  intros Hr H.
  assert (forall s, (forall r', served_runtime s = Some r' -> P r') -> Q s p) as Hp.
  { intros s Hs. specialize (H s (pr_world p) (pr_err p) Hs). by destruct p. }
  assert (forall d, tool_wp (do! (_, r) := with_runtime (Runtime.register_source d) r in tool_ret (Continues c r)) Q p) as Hreg.
  { intros d. apply tool_wp_bind, tool_wp_runtime. intros status r1 E. apply tool_wp_ret, H. intros r' [= <-].
    specialize (register_keeps d r Hr). by rewrite E in register_keeps. }
  unfold serve_frame. destruct (frame_type frame);
    try (apply tool_wp_ret, Hp; intros r' [= <-]; exact Hr).
  - destruct (decode_exact _ _); [apply Hreg | apply tool_wp_ret, Hp; intros r' [= <-]; exact Hr].
  - destruct (decode_exact _ _) as [e | e].
    + apply tool_wp_bind, tool_wp_runtime. intros ingested r1 E.
      assert (P r1) as Hr1 by (specialize (ingest_keeps e r Hr); by rewrite E in ingest_keeps).
      destruct ingested as [result | err].
      * destruct (channel_send _ _ _) as [status c1]. apply tool_wp_ret, H. by intros r' [= <-].
      * apply tool_wp_bind, tool_wp_fail. intros errors. by apply tool_wp_ret, H.
    + do 3 tool_step. apply H. intros r' [= <-]. exact Hr.
Qed.

Lemma serve_frames_wp fuel c r (Q : Served -> Process -> Prop) p :
  P r ->
  (forall served w err, (forall r', served_runtime served = Some r' -> P r') ->
     Q served (mk_process w (pr_net p) (pr_out p) err)) ->
  tool_wp (serve_frames fuel c r) Q p.
Proof.
  revert c r p. induction fuel as [| fuel IH]; intros c r p Hr H; cbn [serve_frames].
  { apply tool_wp_ret. destruct p. apply H. intros r' [= <-]. exact Hr. }
  destruct (channel_receive c) as [[frame | e] c1].
  - apply tool_wp_bind, serve_frame_wp; [done |]. intros served w err Hs.
    destruct served as [code | c2 r2 | c2 r2]; [by apply tool_wp_ret, H | by apply tool_wp_ret, H |].
    apply IH; [by apply Hs |]. intros served w' err' Hs'. by apply H.
  - apply tool_wp_bind. destruct (bool_decide _).
    + do 2 tool_step. destruct p. apply H. intros r' [= <-]. exact Hr.
    + do 2 tool_step. apply H. intros r' [= <-]. exact Hr.
Qed.

(** The connections of a service: what was opened for them is closed. *)
Lemma serve_connections_wp server n accepted r (Q : option Z * Z * Runtime -> Process -> Prop) p :
  P r ->
  (forall returned accepted' r' p', P r' -> net_open (pr_net p') = net_open (pr_net p) -> pr_out p' = pr_out p ->
     Q (returned, accepted', r') p') ->
  tool_wp (serve_connections server n accepted r) Q p.
Proof.
  revert accepted r p. induction n as [| n IH]; intros accepted r p Hr H; cbn [serve_connections].
  { apply tool_wp_ret. by apply H. }
  apply tool_wp_bind, tool_wp_net. eapply wp_mono; [apply server_accept_opens |].
  intros [connection | e] n1 [Ho _]; cbn [result_bind opened] in Ho.
  2:{ do 3 tool_step. by apply H. }
  destruct Ho as (fd & Hh & Hfd & Ho).
  assert (forall c n2, net_open n2 = net_open n1 -> cn_handle c = cn_handle connection ->
    net_open (connection_close c n2).2 = net_open (pr_net p)) as Hclose.
  { intros c n2 E2 Ec. rewrite connection_close_open, Ec, Hh, E2, Ho. set_solver. }
  apply tool_wp_bind, serve_frames_wp; [done |]. intros served w err Hs. cbn [set_net pr_net pr_out].
  assert (forall c Q', cn_handle c = cn_handle connection ->
    (forall a n2, net_open n2 = net_open (pr_net p) -> Q' a (mk_process w n2 (pr_out p) err)) ->
    tool_wp (with_net (connection_close c)) Q' (mk_process w n1 (pr_out p) err)) as Hwp.
  { intros c Q' Hc HQ. apply tool_wp_net. unfold net_wp. cbn [pr_net]. apply HQ. by apply Hclose. }
  destruct served as [code | c2 r2 | c2 r2]; apply tool_wp_bind, Hwp; try done; intros a n2 En.
  - apply tool_wp_ret, H; [exact Hr | done | done].
  - apply IH; [by apply Hs |]. intros. apply H; [done | cbn [pr_net] in *; congruence | done].
  - apply IH; [by apply Hs |]. intros. apply H; [done | cbn [pr_net] in *; congruence | done].
Qed.
End Service.

(** C9. A service claims nothing.  Whatever its clients send and whatever the calls
    of the system answer: when [serve] returns it has closed every descriptor it
    opened, and the results it printed between its greeting and its farewell are
    neither [Match] nor [Divergent], for clients register sources and file
    evidence, but no frame publishes what is expected.  And without a store it does
    return when every call of the system answers, that is when no read waits for
    ever for a peer that keeps silent and no signal for a closed peer ends the
    process; both can happen and are outside the model, where a peer that has said
    all it says has closed. *)
Theorem service_results_indefinite (o : Options) (p : Process) :
  (has o "store" = false -> exists code p', command_serve o p = Some (code, p')) /\
  forall code p', command_serve o p = Some (code, p') ->
    net_open (pr_net p') = net_open (pr_net p) /\
    exists greeting results farewell,
      pr_out p' = pr_out p ++ greeting ++ result_lines (has o "pretty") false results ++ farewell /\
      (length greeting <= 1)%nat /\ (length farewell <= 1)%nat /\ Forall indefinite results.
Proof.
  split; [intros H; destruct (serve_total o H p) as [[code p'] E]; by exists code, p' |].
  set (Q := fun p' => exists greeting results farewell,
    pr_out p' = pr_out p ++ greeting ++ result_lines (has o "pretty") false results ++ farewell /\
    (length greeting <= 1)%nat /\ (length farewell <= 1)%nat /\ Forall indefinite results).
  assert (forall g p', (length g <= 1)%nat -> pr_out p' = pr_out p ++ g -> Q p') as Hquiet.
  { intros g p' Hg E. exists g, [], []. split_and!; [| done | cbn; lia | constructor]. by rewrite app_nil_r. }
  change (tool_wp (command_serve o) (fun _ p' => net_open (pr_net p') = net_open (pr_net p) /\ Q p') p).
  unfold command_serve. apply tool_wp_bind, tool_wp_net.
  eapply wp_mono; [apply server_start_opens |]. intros [server | e] n1 [Ho _]; cbn [result_bind opened] in Ho.
  2:{ apply tool_wp_fail. intros err. split; [exact Ho |]. apply (Hquiet []); [cbn; lia | by rewrite app_nil_r]. }
  cbn [or_fail]. destruct Ho as (fd & Hs & Hfd & Ho).
  apply tool_wp_bind, tool_wp_mono with (P := fun _ p' => net_open (pr_net p') = net_open n1 /\ Q p').
  2:{ intros code p1 [En Hq]. apply tool_wp_bind, tool_wp_net. unfold net_wp. apply tool_wp_ret. split; [| exact Hq].
      cbn [set_net pr_net]. rewrite server_stop_open, Hs, En, Ho. set_solver. }
  unfold serve_with. apply tool_wp_bind, tool_wp_net. cbn [set_net pr_net].
  assert (net_wp (server_port server) (fun _ n2 => net_open n2 = net_open n1) n1) as Hport.
  { unfold server_port, local_port. rewrite Hs. apply wp_bind, wp_call. intros c n2 E. apply wp_ret. by injection E. }
  eapply wp_mono; [exact Hport |]. intros port n2 E2. apply tool_wp_bind, tool_wp_print. cbn [pr_world pr_out pr_err set_net].
  set (greeting := ["listening on 127.0.0.1:" +:+ to_string port +:+ newline]).
  apply tool_wp_bind, make_runtime_wp. intros created w Hc.
  apply tool_wp_or_fail; [intros err; split; [exact E2 |]; by apply (Hquiet greeting); [cbn; lia | done] |].
  intros r ->. specialize (Hc r eq_refl).
  apply tool_wp_bind, (serve_connections_wp nothing_expected); [| | exact Hc |].
  { intros d r0. apply nothing_expected_view, register_expected. }
  { intros e r0. apply nothing_expected_view, ingest_expected. }
  intros returned accepted r1 p1 Hr1 En Eo. cbn [set_files pr_net pr_out] in En, Eo.
  assert (net_open (pr_net p1) = net_open n1) as En1 by (cbn [set_net pr_net] in En; cbv beta in E2; congruence).
  destruct returned as [code |]; [apply tool_wp_ret; split; [done |]; by apply (Hquiet greeting); [cbn; lia | done] |].
  unfold serve_results. apply tool_wp_bind, tool_wp_runtime. intros answer r2 Ea.
  apply tool_wp_or_fail; [intros err; split; [done |]; by apply (Hquiet greeting); [cbn; lia | done] |].
  intros results ->. pose proof (compare_all_indefinite _ _ _ Hr1 Ea) as Hi.
  apply tool_wp_bind, print_results_wp, tool_wp_bind, tool_wp_runtime. intros stopped r3 _.
  assert (forall farewell, (length farewell <= 1)%nat ->
    exists g rs f, (pr_out p1 ++ result_lines (has o "pretty") false results) ++ farewell =
      pr_out p ++ g ++ result_lines (has o "pretty") false rs ++ f /\
      (length g <= 1)%nat /\ (length f <= 1)%nat /\ Forall indefinite rs) as Hdone.
  { intros farewell Hf. exists greeting, results, farewell. rewrite Eo, <- !app_assoc. by split_and!; [| cbn; lia | |]. }
  apply tool_wp_or_fail.
  - intros err. split; [done |]. destruct (Hdone [] ltac:(cbn; lia)) as (g & rs & f & E & H).
    exists g, rs, f. rewrite app_nil_r in E. by split.
  - intros [] _. do 3 tool_step. split; [done |]. apply Hdone. cbn. lia.
Qed.

(** ** The conversation with a client ends *)

(** The loop over the frames, as the code has it: it goes on until a frame cannot
    be received, or a frame ends it. *)
Inductive conversation : FramedChannel -> Runtime -> Process -> Served -> Process -> Prop :=
| conversation_closed c r p e c' err :
    channel_receive c = (Err e, c') ->
    err = (if bool_decide (code e = ConnectionClosed) then [] else ["pathobs: " +:+ error_to_string e +:+ newline]) ->
    conversation c r p (Ends c' r) (mk_process (pr_world p) (pr_net p) (pr_out p) (pr_err p ++ err))
| conversation_ends c r p frame c1 served p' :
    channel_receive c = (Ok frame, c1) -> serve_frame frame c1 r p = Some (served, p') ->
    (forall c2 r2, served <> Continues c2 r2) -> conversation c r p served p'
| conversation_goes_on c r p frame c1 c2 r2 p2 served p' :
    channel_receive c = (Ok frame, c1) -> serve_frame frame c1 r p = Some (Continues c2 r2, p2) ->
    conversation c2 r2 p2 served p' -> conversation c r p served p'.

Lemma sys_send_stream chunk s : sk_stream (sys_send chunk s).2 = sk_stream s.
Proof. done. Qed.

Lemma send_loop_stream fuel data s : sk_stream (send_loop fuel data s).2 = sk_stream s.
Proof.
  revert data s. induction fuel as [| fuel IH]; intros data s; [done |]. cbn [send_loop]. destruct data as [| b data]; [done |].
  destruct (sys_send _ s) as [rc s1] eqn:E. pose proof (sys_send_stream (take (chunk_size (length (b :: data))) (b :: data)) s) as Hs.
  rewrite E in Hs. cbn [snd] in Hs. destruct (rc <=? 0); [done |]. by rewrite IH.
Qed.

Lemma channel_send_stream c t payload : sk_stream (ch_socket (channel_send c t payload).2) = sk_stream (ch_socket c).
Proof.
  unfold channel_send, send_all. destruct (negb _); [done |]. destruct (_ <? _); [done |].
  pose proof (send_loop_stream (length (encode_frame t 0 payload)) (encode_frame t 0 payload) (ch_socket c)) as H.
  by destruct (send_loop _ _ _) as [status s].
Qed.

Lemma recv_exact_stream wanted s data s' :
  recv_exact wanted s = (Ok data, s') -> length (sk_stream s) = (wanted + length (sk_stream s'))%nat /\ sk_valid s' = true.
Proof.
  intros E. destruct (sk_valid s) eqn:Hv; [| unfold recv_exact in E; by rewrite Hv in E].
  destruct (recv_exact_spec wanted s Hv) as [chunks Er]. rewrite Er in E.
  destruct (Nat.leb_spec wanted (length (sk_stream s))); [| done]. injection E as <- <-.
  cbn [with_stream sk_stream sk_valid]. rewrite length_drop. split; [lia | done].
Qed.

Lemma receive_shortens c frame c' :
  channel_receive c = (Ok frame, c') -> (length (sk_stream (ch_socket c')) < length (sk_stream (ch_socket c)))%nat.
Proof.
  unfold channel_receive. destruct (recv_exact kFrameHeaderBytes (ch_socket c)) as [[header | e] s] eqn:E; [| done].
  apply recv_exact_stream in E as [El _]. destruct (negb _); [done |]. cbv zeta. destruct (negb _); [done |].
  destruct (parse_frame_type _) as [type |]; [| done]. unfold receive_payload. cbv zeta.
  cbn [with_socket ch_socket ch_limits]. destruct (_ <? _); [done |].
  destruct (0 <? field 12 4 header).
  - destruct (recv_exact _ s) as [[payload | e] s2] eqn:E2; [| done]. apply recv_exact_stream in E2 as [El2 _].
    destruct (negb _); [done |]. intros [= _ <-]. cbn [ch_socket with_socket] in *. unfold kFrameHeaderBytes in El. lia.
  - destruct (negb _); [done |]. intros [= _ <-]. cbn [ch_socket with_socket] in *. unfold kFrameHeaderBytes in El. lia.
Qed.

(** A frame is always answered, and reading goes on behind it. *)
Lemma serve_frame_total frame c r p :
  exists served p', serve_frame frame c r p = Some (served, p') /\
    forall c2 r2, served = Continues c2 r2 -> sk_stream (ch_socket c2) = sk_stream (ch_socket c).
Proof.
  assert (forall p1, exists served p', (tool_ret (Continues c r)) p1 = Some (served, p') /\
    forall c2 r2, served = Continues c2 r2 -> sk_stream (ch_socket c2) = sk_stream (ch_socket c)) as Hret.
  { intros p1. do 2 eexists. split; [done |]. by intros c2 r2 [= <- _]. }
  unfold serve_frame. destruct (frame_type frame); try apply Hret.
  - destruct (decode_exact _ _) as [d | e]; [| apply Hret]. unfold tool_bind, with_runtime.
    destruct (Runtime.register_source d r) as [status r1]. cbn [mbind option_bind].
    do 2 eexists. split; [done |]. by intros c2 r2 [= <- _].
  - destruct (decode_exact _ _) as [e | e].
    + unfold tool_bind, with_runtime. destruct (ingest_evidence e r) as [[result | err] r1]; cbn [mbind option_bind].
      * destruct (channel_send c Ack _) as [status c1] eqn:Es. do 2 eexists. split; [done |]. intros c2 r2 [= <- _].
        pose proof (channel_send_stream c Ack (string_bytes (if ir_accepted result then "accepted" else "rejected"))) as Hs.
        by rewrite Es in Hs.
      * by do 2 eexists.
    + unfold tool_bind, print_error. cbn [mbind option_bind]. apply Hret.
  - do 2 eexists. by split.
Qed.

Lemma serve_frames_converse fuel c r p :
  (length (sk_stream (ch_socket c)) < fuel)%nat ->
  exists served p', serve_frames fuel c r p = Some (served, p') /\ conversation c r p served p'.
Proof.
  revert c r p. induction fuel as [| fuel IH]; intros c r p Hf; [lia |]. cbn [serve_frames].
  destruct (channel_receive c) as [[frame | e] c1] eqn:Er.
  - pose proof (receive_shortens _ _ _ Er) as Hs.
    destruct (serve_frame_total frame c1 r p) as (served & p1 & Es & Hst).
    unfold tool_bind. rewrite Es. cbn [mbind option_bind].
    destruct served as [code | c2 r2 | c2 r2].
    + do 2 eexists. split; [done |]. by eapply conversation_ends.
    + do 2 eexists. split; [done |]. by eapply conversation_ends.
    + destruct (IH c2 r2 p1) as (served & p' & E & Hc); [rewrite (Hst c2 r2) by done; lia |].
      exists served, p'. split; [exact E |]. by eapply conversation_goes_on.
  - unfold tool_bind. destruct (bool_decide (code e = ConnectionClosed)) eqn:Ee; cbn [mbind option_bind tool_ret print_error].
    + exists (Ends c1 r), p. split; [done |]. pose proof (conversation_closed c r p e c1 [] Er) as H. rewrite Ee, app_nil_r in H.
      destruct p. by apply H.
    + do 2 eexists. split; [done |]. eapply conversation_closed; [exact Er |]. by rewrite Ee.
Qed.

Lemma conversation_runs c r p served p' :
  conversation c r p served p' ->
  forall fuel, (length (sk_stream (ch_socket c)) < fuel)%nat -> serve_frames fuel c r p = Some (served, p').
Proof.
  induction 1 as [c r p e c' err Er -> | c r p frame c1 served p' Er Es Hn | c r p frame c1 c2 r2 p2 served p' Er Es H IH];
    intros [| fuel] Hf; try lia; cbn [serve_frames]; rewrite Er; unfold tool_bind.
  - destruct (bool_decide _); [| done]. cbn [mbind option_bind tool_ret]. rewrite app_nil_r. by destruct p.
  - rewrite Es. cbn [mbind option_bind]. destruct served as [code | c2 r2 | c2 r2]; [done | done |]. by destruct (Hn c2 r2).
  - rewrite Es. cbn [mbind option_bind]. apply IH. pose proof (receive_shortens _ _ _ Er).
    destruct (serve_frame_total frame c1 r p) as (s & p1 & E & Hst). rewrite Es in E. injection E as <- <-.
    rewrite (Hst c2 r2) by done. lia.
Qed.

Lemma conversation_unique c r p s1 p1 s2 p2 :
  conversation c r p s1 p1 -> conversation c r p s2 p2 -> s1 = s2 /\ p1 = p2.
Proof.
  intros H1 H2. pose proof (conversation_runs _ _ _ _ _ H1 _ (Nat.lt_succ_diag_r _)) as E1.
  rewrite (conversation_runs _ _ _ _ _ H2 _ (Nat.lt_succ_diag_r _)) in E1. by injection E1 as -> ->.
Qed.

(** C29. A conversation ends.  For every stream of a client, every state of the
    service and every behaviour of the system the loop over the frames of a
    connection ends, in exactly one way, and the number of bytes of the stream is
    enough fuel for it; more fuel changes nothing. *)
Theorem service_conversation_ends (c : FramedChannel) (r : Runtime) (p : Process) (fuel : nat) :
  exists served p', serve_frames (serve_fuel c) c r p = Some (served, p') /\
    conversation c r p served p' /\
    (forall served2 p2, conversation c r p served2 p2 -> served2 = served /\ p2 = p') /\
    serve_frames (serve_fuel c + fuel) c r p = serve_frames (serve_fuel c) c r p.
Proof.
  destruct (serve_frames_converse (serve_fuel c) c r p) as (served & p' & E & H); [unfold serve_fuel; lia |].
  destruct (serve_frames_converse (serve_fuel c + fuel) c r p) as (served2 & p2 & E2 & H2); [unfold serve_fuel; lia |].
  exists served, p'. split_and!; [done | done | |].
  - intros s3 p3 H3. by apply (conversation_unique c r p).
  - rewrite E, E2. by destruct (conversation_unique _ _ _ _ _ _ _ H H2) as [-> ->].
Qed.
