(* ===== verification/ToolCompare.v ===== *)
(** The commands [compare] and [explain] from the command line to the verdicts:
    they touch no file, and a defect that the options ask for is never reported as
    compliance. *)
From stdpp Require Import gmap sets.
From S2P Require Import Prelude Errors StdAlgo Digest Canonical Ids TimeModel Limits Source Topology Observed Expected Freshness Divergence Compare CompareProps Finding History Codec Persistence Metrics Worker RuntimeState Runtime RuntimeProps RuntimePolicy Json DocumentWrite Transport Sockets Server Version Synthetic SyntheticProps ToolOptions Tool ToolProps.
#[local] Open Scope pathobs_scope.
#[local] Open Scope string_scope.
#[local] Open Scope list_scope.
#[local] Open Scope Z_scope.

(** ** Runtimes without a store *)

(** An operation keeps what [P] says. *)
Class Stable (P : Runtime -> Prop) {A} (m : Run A) : Prop := stable : forall r, P r -> P (m r).2.

#[export] Instance stable_ret P {A} (a : A) : Stable P (run_ret a).
Proof. by intros r. Qed.

#[export] Instance stable_bind P {A B} (m : Run A) (k : A -> Run B) :
  Stable P m -> (forall a, Stable P (k a)) -> Stable P (run_bind m k).
Proof. intros Hm Hk r Hr. unfold run_bind. specialize (Hm r Hr). destruct (m r) as [a r1]. by apply Hk. Qed.

#[export] Instance stable_try P {A B} (m : Run (Result A)) (k : A -> Run (Result B)) :
  Stable P m -> (forall a, Stable P (k a)) -> Stable P (run_try m k).
Proof. intros Hm Hk. apply stable_bind; [done |]. intros [a | e]; [apply Hk | apply stable_ret]. Qed.

(** No store is open, and the files are as they were. *)
Definition storeless (w : World) (r : Runtime) : Prop := rt_store r = None /\ rt_world r = w.

Section Storeless.
Context (w : World).

Lemma storeless_ask {A} (f : Runtime -> A) : Stable (storeless w) (ask f).
Proof. by intros r. Qed.
Lemma storeless_now : Stable (storeless w) now.
Proof. by intros r. Qed.
Lemma storeless_change f : (forall r, rt_store (f r) = rt_store r /\ rt_world (f r) = rt_world r) -> Stable (storeless w) (change f).
Proof. intros H r [H1 H2]. destruct (H r) as [E1 E2]. split; cbn [change snd]; congruence. Qed.
Lemma storeless_append type payload : Stable (storeless w) (store_append type payload).
Proof. intros r [H1 H2]. unfold store_append, run_bind, ask. by rewrite H1. Qed.
Lemma storeless_persist l : Stable (storeless w) (persist_findings l).
Proof. induction l as [| f l IH]; [by intros r |]. apply stable_try; [apply storeless_append | done]. Qed.
End Storeless.

(** Decide from the structure of the operation. *)
Ltac storeless_tac :=
  repeat (cbv beta; match goal with
  | |- Stable _ (run_bind _ _) => apply stable_bind; [| intros ?]
  | |- Stable _ (run_try _ _) => apply stable_try; [| intros ?]
  | |- Stable _ (run_ret _) => apply stable_ret
  | |- Stable _ (ask _) => apply storeless_ask
  | |- Stable _ now => apply storeless_now
  | |- Stable _ (change _) => apply storeless_change; by intros
  | |- Stable _ (count _) => unfold count
  | |- Stable _ (store_append _ _) => apply storeless_append
  | |- Stable _ (persist_findings _) => apply storeless_persist
  | |- Stable _ (match ?x with _ => _ end) => destruct x
  end).

Lemma register_storeless w d : Stable (storeless w) (Runtime.register_source d).
Proof. unfold Runtime.register_source. storeless_tac. Qed.
Lemma topology_storeless w g : Stable (storeless w) (publish_topology g).
Proof. unfold publish_topology. storeless_tac. Qed.
Lemma routes_storeless w g : Stable (storeless w) (publish_routes g).
Proof. unfold publish_routes. storeless_tac. Qed.
Lemma ingest_storeless w e : Stable (storeless w) (ingest_evidence e).
Proof. unfold ingest_evidence, note_sequence, ingest_bucket. storeless_tac. Qed.
Lemma compare_storeless w key : Stable (storeless w) (compare_bucket key true).
Proof. unfold compare_bucket, make_context, record_result, record_finding. storeless_tac. Qed.

Lemma stop_storeless w : Stable (storeless w) stop.
Proof.
  unfold stop, stop_begin. apply stable_bind.
  { intros r H. by destruct (bool_decide (rt_state r = Stopped)). }
  intros [status |]; [apply stable_ret |]. apply stable_bind.
  { apply storeless_change. intros r. unfold stop_pool. destruct (rt_pool r); [| done]. by destruct (shutdown_begin _ _). }
  intros _ r [H1 H2]. unfold stop_end, run_bind, ask. by rewrite H1.
Qed.

(** ** What the fabric makes of the runtime *)

(** The routes of the fabric are current, and all evidence is of the fabric. *)
Record lab_runtime (f : LabFabric) (w : World) (r : Runtime) : Prop := {
  lr_routes : rt_routes r = Some (lab_routes f);
  lr_revision : rt_route_revision r = route_revision (lab_routes f);
  lr_evidence : forall key e, e ∈ bucket_of key (rt_evidence r) -> e ∈ lab_evidence f;
  lr_storeless : storeless w r
}.

(** Before anything is published. *)
Record fresh_runtime (w : World) (r : Runtime) : Prop := {
  fr_routes : rt_routes r = None;
  fr_evidence : forall key, bucket_of key (rt_evidence r) = [];
  fr_limits : limits_of r = default_limits;
  fr_storeless : storeless w r
}.

(** [make_runtime] without persistence changes nothing but the new runtime. *)
Lemma make_runtime_fresh o now created p p' :
  make_runtime o now false p = Some (created, p') ->
  p' = p /\ forall r, created = Ok r -> fresh_runtime (pr_world p) r.
Proof.
  unfold make_runtime, create. cbn [tool_config cfg_limits cfg_comparison cfg_persist cfg_store_path andb].
  destruct (limits_validate default_limits) as [[] |]; cbn [result_bind]; [| by intros [= <- <-]].
  destruct (comparison_policy_validate _) as [[] |]; cbn [result_bind]; [| by intros [= <- <-]].
  set (r0 := runtime_new _ _ _). unfold Runtime.start. cbn [r0 runtime_new rt_state rt_config tool_config cfg_persist].
  rewrite !bool_decide_eq_false_2 by done.
  assert (set_files (pr_world p) p = p) as Hp by by destruct p.
  destruct (_ || _); [intros [= <- <-]; split; [exact Hp | done] |].
  destruct (start_pool _ _) as [[[] | e] pool]; unfold start_failed; cbn [mbind option_bind]; intros [= <- <-];
    (split; [exact Hp | intros r; try done; intros [= <-]]).
  by constructor.
Qed.

Lemma publish_routes_ok g r r' :
  publish_routes g r = (ok, r') -> rt_routes r = None ->
  exists h, route_finalize (limits_of r) g = Ok h /\ expected_view r' = expected_view (adopt_routes h r).
Proof.
  unfold publish_routes, run_bind at 1, ask at 1. intros E Hn.
  destruct (route_finalize (limits_of r) g) as [h | e] eqn:Ef; [| done].
  unfold run_bind at 1, ask at 1 in E.
  assert (routes_admitted r h <> Ok true) as Hnt.
  { unfold routes_admitted. rewrite Hn. destruct (negb _); [done |]. destruct (rt_topology r); [| done].
    destruct (negb _); [done |]. by destruct (_ && _). }
  destruct (routes_admitted r h) as [[] | e]; [done | | done].
  unfold run_bind, change in E. exists h. split; [done |].
  assert (Keeps expected_view (store_append RouteRecord (encode_routes h))) as Hk by keeps_all.
  specialize (Hk (adopt_routes h r)). by rewrite E in Hk.
Qed.

Lemma register_all_stable P l : (forall d, Stable P (Runtime.register_source d)) -> Stable P (register_all l).
Proof. intros H. induction l as [| d l IH]; [by intros r |]. by apply stable_try. Qed.

Lemma stable_view {T} (view : Runtime -> T) (P : Runtime -> Prop) {A} (m : Run A) :
  Keeps view m -> (forall r r', view r' = view r -> P r -> P r') -> Stable P m.
Proof. intros H HP r Hr. by apply (HP r), Hr. Qed.

(** What [publish_lab] leaves behind. *)
Lemma publish_lab_runtime o limits f w r r' :
  build_lab_fabric o limits = Ok f -> limits = default_limits -> fresh_runtime w r ->
  publish_lab f r = (ok, r') -> lab_runtime f w r'.
Proof.
  intros Hb -> [Hr He Hl Hs] E.
  destruct (build_inv _ _ _ Hb) as (_ & _ & _ & _ & Hfin & _). apply route_finalize_again in Hfin.
  unfold publish_lab, run_try, run_bind in E.
  (* the registration of the sources *)
  assert (Stable (fun r => expected_view r = expected_view r /\ storeless w r /\ rt_routes r = None /\
    limits_of r = default_limits /\ forall key, bucket_of key (rt_evidence r) = []) (register_all (lab_sources f))) as H1.
  { apply register_all_stable. intros d r0 (_ & H1 & H2 & H3 & H4).
    pose proof (register_expected d r0) as Hx. unfold expected_view in Hx. injection Hx as Ec _ _ Er _ _ _ _.
    assert (rt_evidence (Runtime.register_source d r0).2 = rt_evidence r0) as Ev.
    { assert (Keeps rt_evidence (Runtime.register_source d)) as Hk by (unfold Runtime.register_source; keeps_all). apply Hk. }
    split_and!; [done | by apply register_storeless | congruence | unfold limits_of in *; congruence |].
    intros key. by rewrite Ev. }
  destruct (register_all (lab_sources f) r) as [[[] | e] r1] eqn:E1; [| done].
  specialize (H1 r ltac:(done)). rewrite E1 in H1. cbn [snd] in H1. destruct H1 as (_ & Hs1 & Hr1 & Hl1 & He1).
  (* the topology *)
  pose proof (topology_storeless w (lab_topology f) r1 Hs1) as Hs2.
  pose proof (publish_topology_cases (lab_topology f) r1) as Hc2.
  pose proof (publish_topology_observed (lab_topology f) r1) as Ho2.
  destruct (publish_topology (lab_topology f) r1) as [[[] | e] r2]; [| done]. cbn [snd] in *.
  assert (rt_routes r2 = None /\ limits_of r2 = default_limits) as [Hr2 Hl2].
  { unfold limits_of in *. destruct Hc2 as [Ex | (t & index & _ & _ & _ & Ex)]; unfold expected_view in Ex;
      injection Ex as Ec _ _ Er _ _ _ _; rewrite Ec, Er; done. }
  (* the routes *)
  pose proof (routes_storeless w (lab_routes f) r2 Hs2) as Hs3.
  pose proof (publish_routes_observed (lab_routes f) r2) as Ho3.
  destruct (publish_routes (lab_routes f) r2) as [[[] | e] r3] eqn:E3; [| done]. injection E as <-. cbn [snd] in *.
  apply publish_routes_ok in E3 as (h & Hh & Ex); [| done]. rewrite Hl2, Hfin in Hh. injection Hh as <-.
  unfold expected_view in Ex. injection Ex as _ _ _ Er _ _ Erev _.
  unfold observed_view in Ho2, Ho3. injection Ho2 as _ _ _ Ev2 _. injection Ho3 as _ _ _ Ev3 _.
  constructor; [exact Er | exact Erev | | exact Hs3].
  intros key e Hin. rewrite Ev3, Ev2, He1 in Hin. by apply elem_of_nil in Hin.
Qed.

(** Evidence of the fabric goes into the buckets as it is. *)
Lemma ingest_lab_runtime o limits f w e r :
  build_lab_fabric o limits = Ok f -> e ∈ lab_evidence f -> lab_runtime f w r -> lab_runtime f w (ingest_evidence e r).2.
Proof.
  intros Hb He [Hr Hrev Hev Hs].
  assert (seal e = e) as Hseal.
  { destruct (build_inv _ _ _ Hb) as (_ & _ & _ & _ & _ & _ & Ev & _). rewrite Ev in He.
    apply list_elem_of_In, in_map_iff in He as (i & <- & _). reflexivity. }
  pose proof (ingest_expected e r) as Hx. unfold expected_view in Hx. injection Hx as _ _ _ Er _ _ Erev _.
  constructor; [congruence | congruence | | by apply ingest_storeless].
  assert (forall key l m, (forall k x, x ∈ bucket_of k m -> x ∈ lab_evidence f) -> Forall (fun x => x ∈ lab_evidence f) l ->
    forall k x, x ∈ bucket_of k (om_insert key l m) -> x ∈ lab_evidence f) as Hins.
  { intros key l m Hm Hl k x. rewrite bucket_of_insert. case_decide; [| apply Hm]. rewrite Forall_elem in Hl. apply Hl. }
  assert (forall key, Forall (fun x => x ∈ lab_evidence f) (bucket_of key (rt_evidence r))) as Hall.
  { intros key. apply Forall_elem. intros x. apply Hev. }
  destruct (ingest_cases e r) as (result & _ & _ & _ & Hcase).
  destruct Hcase as [refusal add ? ? ? ? ? E | ? ? ? ? ? ? E | err ? ? ? ? ? E | key ? ? ? ? ? ? ? ? ? E | key ? ? ? ? ? ? E];
    intros k x; rewrite E; try apply Hev.
  - apply Hins; [by apply Hins | rewrite Hseal; apply Forall_app; split; [apply Hall | by constructor]].
  - by apply Hins.
Qed.

Lemma compare_lab_runtime f w key r : lab_runtime f w r -> lab_runtime f w (compare_bucket key true r).2.
Proof.
  intros [Hr Hrev Hev Hs].
  pose proof (compare_bucket_expected key true r) as Hx. unfold expected_view in Hx. injection Hx as _ _ _ Er _ _ Erev _.
  pose proof (compare_bucket_observed key true r) as Ho. unfold observed_view in Ho. injection Ho as _ _ _ Ee _.
  constructor; [congruence | congruence | | by apply compare_storeless]. intros k e. rewrite Ee. apply Hev.
Qed.

(** A comparison in such a runtime does not take a defect for compliance. *)
Lemma lab_runtime_verdict o limits f w key r result r' :
  lab_options_ok o -> lab_route_generation o < 2 ^ 64 - 100 -> build_lab_fabric o limits = Ok f ->
  lab_runtime f w r -> compare_bucket key true r = (Ok result, r') -> cr_outcome result = Match -> lab_defect o = false.
Proof.
  intros Hok Hg Hb [Hr Hrev Hev _] Hc%compare_bucket_answer.
  refine (lab_match_sound o limits _ _ f _ _ _ Hok Hg Hb _ _ _ Hc); [exact Hr | exact Hrev |].
  intros e. apply Hev.
Qed.

(** The loop over the evidence: it prints to the error stream only. *)
Lemma ingest_lab_wp (P : Runtime -> Prop) w report evidence r (Q : Status * Runtime -> Process -> Prop) p :
  (forall e r, e ∈ evidence -> P r -> P (ingest_evidence e r).2) -> (forall r, P r -> rt_world r = w) ->
  P r -> pr_world p = w ->
  (forall status r' err, P r' -> Q (status, r') (mk_process w (pr_net p) (pr_out p) err)) ->
  tool_wp (ingest_lab report evidence r) Q p.
Proof.
  intros Hp Hw. revert r p. induction evidence as [| e evidence IH]; intros r p Hr Hwp H; cbn [ingest_lab].
  { apply tool_wp_ret. replace p with (mk_process w (pr_net p) (pr_out p) (pr_err p)) by (rewrite <- Hwp; by destruct p). by apply H. }
  apply tool_wp_bind, tool_wp_runtime. intros ingested r1 E.
  assert (P r1) as Hr1 by (specialize (Hp e r ltac:(constructor) Hr); by rewrite E in Hp).
  destruct ingested as [result | err]; [| apply tool_wp_ret; unfold set_files; rewrite (Hw r1 Hr1); by apply H].
  apply tool_wp_bind. destruct (report && _).
  - apply tool_wp_print_error. apply IH; [intros e' r' He'; apply Hp; by constructor | done | cbn; by apply Hw |].
    intros status r2 err2. apply H.
  - apply tool_wp_ret. apply IH; [intros e' r' He'; apply Hp; by constructor | done | cbn; by apply Hw |].
    intros status r2 err2. apply H.
Qed.

(** All that a comparison changes is the output: results that hide no defect. *)
Definition only_prints (o : Options) (explain : bool) (p p' : Process) : Prop :=
  pr_world p' = pr_world p /\ pr_net p' = pr_net p /\
  exists results, pr_out p' = pr_out p ++ result_lines (has o "pretty") explain results /\
    Forall (fun r => cr_outcome r = Match -> lab_defect (lab_options o) = false) results.

Lemma compare_wp o explain p :
  lab_route_generation (lab_options o) < 2 ^ 64 - 100 ->
  tool_wp (command_compare o explain) (fun _ => only_prints o explain p) p.
Proof.
  intros Hg.
  assert (forall err, only_prints o explain p (mk_process (pr_world p) (pr_net p) (pr_out p) err)) as Hquiet.
  { intros err. split_and!; [done | done |]. exists []. split; [by rewrite app_nil_r | constructor]. }
  unfold command_compare. apply tool_wp_or_fail; [done |]. intros f Hb.
  apply tool_wp_or_fail; [done |]. intros now _.
  apply tool_wp_bind. intros created p1 [-> Hfr]%make_runtime_fresh.
  apply tool_wp_or_fail; [done |]. intros r ->. specialize (Hfr r eq_refl).
  apply tool_wp_bind, tool_wp_runtime. intros published r1 E1.
  assert (rt_world r1 = pr_world p) as Hw1.
  { pose proof (fr_storeless _ _ Hfr) as Hs. assert (Stable (storeless (pr_world p)) (publish_lab f)) as Hst.
    { apply stable_try; [apply register_all_stable; intros d; apply register_storeless |]. intros _.
      apply stable_try; [apply topology_storeless |]. intros _. apply stable_try; [apply routes_storeless |]. intros _. apply stable_ret. }
    specialize (Hst r Hs). rewrite E1 in Hst. apply Hst. }
  rewrite Hw1. apply tool_wp_or_fail; [exact Hquiet |]. intros [] ->.
  pose proof (publish_lab_runtime _ _ _ _ _ _ Hb eq_refl Hfr E1) as Hlab.
  apply tool_wp_bind, (ingest_lab_wp (lab_runtime f (pr_world p)) (pr_world p)).
  { intros e r0 He. by eapply ingest_lab_runtime. }
  { intros r0 Hr0. apply (lr_storeless _ _ _ Hr0). }
  { exact Hlab. }
  { done. }
  intros ingested r2 err Hr2. cbn [set_files pr_net pr_out]. apply tool_wp_or_fail; [intros err2; apply Hquiet |]. intros [] _.
  apply tool_wp_bind, tool_wp_runtime. intros answer r3 E3.
  assert (lab_runtime f (pr_world p) r3) as Hr3.
  { pose proof (compare_all_keeps (lab_runtime f (pr_world p)) r2 (fun key r => compare_lab_runtime f _ key r) Hr2) as Hk.
    by rewrite E3 in Hk. }
  unfold set_files. rewrite (proj2 (lr_storeless _ _ _ Hr3)). cbn [pr_net pr_out pr_err].
  apply tool_wp_or_fail; [intros err2; apply Hquiet |]. intros results ->.
  assert (Forall (fun r => cr_outcome r = Match -> lab_defect (lab_options o) = false) results) as Hres.
  { refine (proj1 (compare_all_results (lab_runtime f (pr_world p)) _ _ _ r2 results r3 Hr2 E3)).
    - intros key r0. apply compare_lab_runtime.
    - intros key r0 result r4 Hr0 Eb Ho. by eapply (lab_runtime_verdict (lab_options o)); [apply lab_options_range | ..]. }
  assert (forall err, only_prints o explain p (mk_process (pr_world p) (pr_net p) (pr_out p ++ result_lines (has o "pretty") explain results) err)) as Hdone.
  { intros err2. split_and!; [done | done |]. by exists results. }
  apply tool_wp_bind, print_results_wp, tool_wp_bind, tool_wp_runtime. intros stopped r4 E4.
  pose proof (stop_storeless _ r3 (lr_storeless _ _ _ Hr3)) as Hs4. rewrite E4 in Hs4. destruct Hs4 as [_ Hw4].
  unfold set_files, printed. cbn [snd pr_world pr_net pr_out pr_err] in *. rewrite Hw4.
  apply tool_wp_or_fail; [intros err2; apply Hdone |]. intros [] _. apply tool_wp_ret, Hdone.
Qed.

(** C7. The tool never hides a defect.  For every command line whose route
    generation is below 2^64 - 100, [compare] and [explain] return, they leave every
    file and socket alone, and what they print are results of which none is a
    [Match] when the options ask for a defect ([lab_defect]): a device that is not
    on the path in a fabric of more than two hops, a truncated or an empty trace, a
    superseded epoch or revision, an unknown route generation.  A divergence asked
    for in a fabric of two hops is not a defect of the observations: the generator
    ignores it ([short_fabric_ignores_divergence]). *)
Theorem compare_never_hides_defect (o : Options) (explain : bool) (p : Process) :
  lab_route_generation (lab_options o) < 2 ^ 64 - 100 ->
  exists code p' results, command_compare o explain p = Some (code, p') /\
    pr_world p' = pr_world p /\ pr_net p' = pr_net p /\
    pr_out p' = pr_out p ++ result_lines (has o "pretty") explain results /\
    Forall (fun r => cr_outcome r = Match -> lab_defect (lab_options o) = false) results.
Proof.
  intros Hg. destruct (compare_returns o explain p) as [[code p'] E].
  enough (tool_wp (command_compare o explain) (fun _ => only_prints o explain p) p) as H.
  { destruct (H code p' E) as (H1 & H2 & results & H3 & H4). by exists code, p', results. }
  by apply compare_wp.
Qed.
