(* ===== verification/NodeProps.v ===== *)
(** The node and the service together: what the one sends is what the other reads,
    and the service does with it what the runtime would do with the records
    themselves. *)
From stdpp Require Import gmap sets.
From S2P Require Import Prelude Errors StdAlgo Digest Canonical Ids TimeModel Limits Source Topology Observed Expected Freshness Divergence Compare CompareProps Finding History Codec Persistence Metrics Worker RuntimeState Runtime RuntimeProps RuntimePolicy RuntimeRestart Json Transport Sockets Server Synthetic SyntheticProps ToolOptions Tool ToolProps NodeTool.
#[local] Open Scope pathobs_scope.
#[local] Open Scope string_scope.
#[local] Open Scope list_scope.
#[local] Open Scope Z_scope.

(** ** What is sent *)

Definition source_frame (d : SourceDescriptor) : FrameType * list Z := (Hello, encode_source d).
Definition evidence_frame (e : ObservedPathEvidence) : FrameType * list Z := (EvidenceFrame, encode_evidence e).

(** The frames of a node, and the answers of a service. *)
Definition node_frames (f : LabFabric) : list (FrameType * list Z) :=
  map source_frame (lab_sources f) ++ map evidence_frame (lab_evidence f) ++ [(Bye, [])].

Definition answer_frame (accepted : bool) : FrameType * list Z :=
  (Ack, string_bytes (if accepted then "accepted" else "rejected")).

(** The same work without a wire: the sources are registered, the evidence is
    ingested, and each record has its answer. *)
Fixpoint register_each (ds : list SourceDescriptor) : Run unit :=
  match ds with
  | [] => run_ret tt
  | d :: ds => let! _ := Runtime.register_source d in register_each ds
  end.

Fixpoint ingest_each (es : list ObservedPathEvidence) : Run (list bool) :=
  match es with
  | [] => run_ret []
  | e :: es =>
      let! result := ingest_evidence e in
      let! rest := ingest_each es in
      run_ret (match result with Ok i => ir_accepted i | Err _ => false end :: rest)
  end.

Definition deliver (f : LabFabric) : Run (list bool) :=
  let! _ := register_each (lab_sources f) in ingest_each (lab_evidence f).

(** ** Channels that are ready *)

(** Both ends take everything that is within the bounds. *)
Record ready (c : FramedChannel) (sent stream : list Z) : Prop := {
  rd_sendable : sendable (ch_socket c);
  rd_limits : ch_limits c = default_limits;
  rd_sent : sk_sent (ch_socket c) = sent;
  rd_stream : sk_stream (ch_socket c) = stream
}.

Definition payload_ok (payload : list Z) : Prop :=
  bytes_ok payload /\ Z.of_nat (length payload) <= max_frame_bytes default_limits.

Lemma ready_receive c sent t payload rest :
  ready c sent (encode_frame t 0 payload ++ rest) -> payload_ok payload ->
  exists c', channel_receive c = (Ok (mk_frame t 0 payload), c') /\ ready c' sent rest.
Proof.
  intros [Hs Hl Hsent Hst] [Hb Hlen]. destruct Hs as (Hv & Hw & Ha).
  destruct (channel_receive_complete c t 0 payload rest) as [chunks E]; [done | done | done | by rewrite Hl | by rewrite Hl | done |].
  eexists. split; [exact E |]. by constructor.
Qed.

Lemma ready_send c sent stream t payload :
  ready c sent stream -> payload_ok payload ->
  exists c', channel_send c t payload = (ok, c') /\ ready c' (sent ++ encode_frame t 0 payload) stream.
Proof.
  intros [Hs Hl Hsent Hst] [Hb Hlen].
  destruct (channel_send_spec c t payload Hs) as (c' & E & Hs' & Hl' & Hsent'); [by rewrite Hl |].
  exists c'. split; [exact E |]. constructor; [done | congruence | congruence |].
  pose proof (channel_send_stream c t payload) as Hst'. rewrite E in Hst'. cbn [snd] in Hst'. congruence.
Qed.

Lemma frames_wire_cons t payload frames : frames_wire ((t, payload) :: frames) = encode_frame t 0 payload ++ frames_wire frames.
Proof. reflexivity. Qed.

Lemma frames_wire_app l1 l2 : frames_wire (l1 ++ l2) = frames_wire l1 ++ frames_wire l2.
Proof. unfold frames_wire. by rewrite map_app, concat_app. Qed.

Lemma answer_payload b : payload_ok (string_bytes (if b : bool then "accepted" else "rejected")).
Proof. split; [apply string_bytes_ok |]. destruct b; by vm_compute. Qed.

(** ** The service *)

(** Records that survive the wire. *)
Definition source_sendable (d : SourceDescriptor) : Prop := source_wire_ok default_limits d /\ payload_ok (encode_source d).
Definition evidence_sendable (e : ObservedPathEvidence) : Prop := evidence_wire_ok default_limits e /\ payload_ok (encode_evidence e).

Lemma set_files_twice w1 w2 p : set_files w2 (set_files w1 p) = set_files w2 p.
Proof. done. Qed.

Lemma serve_sources ds fuel c r p sent rest :
  ready c sent (frames_wire (map source_frame ds) ++ rest) -> Forall source_sendable ds -> rt_world r = pr_world p ->
  exists c', serve_frames (length ds + fuel) c r p =
      serve_frames fuel c' (register_each ds r).2 (set_files (rt_world (register_each ds r).2) p) /\
    ready c' sent rest.
Proof.
  revert c r p. induction ds as [| d ds IH]; intros c r p Hc Hds Hw.
  { exists c. split; [| exact Hc]. cbn [length register_each]. replace (set_files (rt_world (run_ret tt r).2) p) with p; [done |].
    cbn. rewrite Hw. by destruct p. }
  apply Forall_cons_1 in Hds as [[Hd Hp] Hds]. cbn [map] in Hc. unfold source_frame at 1 in Hc. rewrite frames_wire_cons, <- app_assoc in Hc.
  destruct (ready_receive c sent Hello _ _ Hc Hp) as (c1 & Er & Hc1).
  destruct (decode_exact_encode (decode_source_descriptor default_limits) (encode_source d) d []
    (fun rest => wire_source default_limits d rest Hd)) as [Edec _].
  cbn [length Nat.add serve_frames register_each]. rewrite Er. unfold tool_bind at 1, serve_frame. cbn [frame_type frame_payload].
  rewrite Edec. unfold tool_bind, with_runtime, run_bind. destruct (Runtime.register_source d r) as [status r1].
  cbn [mbind option_bind tool_ret].
  destruct (IH c1 r1 (set_files (rt_world r1) p) Hc1 Hds eq_refl) as (c2 & E & Hc2).
  exists c2. split; [| exact Hc2]. by rewrite E, set_files_twice.
Qed.

Lemma serve_evidence es fuel c r p sent rest :
  ready c sent (frames_wire (map evidence_frame es) ++ rest) -> Forall evidence_sendable es -> rt_world r = pr_world p ->
  exists c', serve_frames (length es + fuel) c r p =
      serve_frames fuel c' (ingest_each es r).2 (set_files (rt_world (ingest_each es r).2) p) /\
    ready c' (sent ++ frames_wire (map answer_frame (ingest_each es r).1)) rest.
Proof.
  revert c r p sent. induction es as [| e es IH]; intros c r p sent Hc Hes Hw.
  { exists c. split; [| cbn; by rewrite app_nil_r]. cbn [length ingest_each].
    replace (set_files (rt_world (run_ret [] r).2) p) with p; [done |]. cbn. rewrite Hw. by destruct p. }
  apply Forall_cons_1 in Hes as [[He Hp] Hes]. cbn [map] in Hc. unfold evidence_frame at 1 in Hc. rewrite frames_wire_cons, <- app_assoc in Hc.
  destruct (ready_receive c sent EvidenceFrame _ _ Hc Hp) as (c1 & Er & Hc1).
  destruct (decode_exact_encode (decode_evidence default_limits) (encode_evidence e) e []
    (fun rest => wire_evidence default_limits e rest He)) as [Edec _].
  cbn [length Nat.add serve_frames ingest_each]. rewrite Er. unfold tool_bind at 1, serve_frame. cbn [frame_type frame_payload].
  rewrite Edec. unfold tool_bind, with_runtime, run_bind.
  destruct (ingest_cases e r) as (result & Ei & _). destruct (ingest_evidence e r) as [x r1]. cbn [fst] in Ei. subst x.
  cbn [mbind option_bind]. destruct (ready_send c1 sent _ Ack _ Hc1 (answer_payload (ir_accepted result))) as (c2 & Es & Hc2).
  rewrite Es. cbn [tool_ret mbind option_bind].
  destruct (IH c2 r1 (set_files (rt_world r1) p) _ Hc2 Hes eq_refl) as (c3 & E & Hc3).
  destruct (ingest_each es r1) as [flags r2]. cbn [fst snd] in *.
  exists c3. split; [by rewrite E, set_files_twice |].
  cbn [map run_ret fst]. unfold answer_frame at 1. by rewrite frames_wire_cons, app_assoc.
Qed.

(** A service that reads the frames of a node. *)
Lemma serve_node f extra c r p rest :
  ready c [] (frames_wire (node_frames f) ++ rest) ->
  Forall source_sendable (lab_sources f) -> Forall evidence_sendable (lab_evidence f) -> rt_world r = pr_world p ->
  exists c', serve_frames (length (lab_sources f) + (length (lab_evidence f) + S extra)) c r p =
      Some (Ends c' (deliver f r).2, set_files (rt_world (deliver f r).2) p) /\
    ready c' (frames_wire (map answer_frame (deliver f r).1)) rest.
Proof.
  intros Hc Hds Hes Hw. unfold node_frames in Hc. rewrite !frames_wire_app, <- !app_assoc in Hc.
  destruct (serve_sources _ (length (lab_evidence f) + S extra) c r p [] _ Hc Hds Hw) as (c1 & E1 & Hc1).
  unfold deliver, run_bind. destruct (register_each (lab_sources f) r) as [u r1]. cbn [snd] in E1.
  destruct (serve_evidence _ (S extra) c1 r1 (set_files (rt_world r1) p) [] _ Hc1 Hes eq_refl) as (c2 & E2 & Hc2).
  destruct (ingest_each (lab_evidence f) r1) as [flags r2]. cbn [fst snd] in *.
  assert (payload_ok []) as Hnil by (split; [constructor | by vm_compute]).
  destruct (ready_receive c2 _ Bye [] rest Hc2 Hnil) as (c3 & E3 & Hc3).
  exists c3. split; [| exact Hc3]. rewrite E1, E2, set_files_twice. cbn [serve_frames]. by rewrite E3.
Qed.

(** ** The node *)

Lemma node_sends_sources ds c sent stream :
  ready c sent stream -> Forall source_sendable ds ->
  exists c', send_sources ds c = (ok, c') /\ ready c' (sent ++ frames_wire (map source_frame ds)) stream.
Proof.
  revert c sent. induction ds as [| d ds IH]; intros c sent Hc Hds.
  { exists c. split; [done |]. cbn. by rewrite app_nil_r. }
  apply Forall_cons_1 in Hds as [[_ Hp] Hds]. cbn [send_sources].
  destruct (ready_send c sent stream Hello _ Hc Hp) as (c1 & -> & Hc1).
  destruct (IH c1 _ Hc1 Hds) as (c2 & E & Hc2). cbn [ok]. exists c2. split; [exact E |].
  cbn [map]. unfold source_frame at 1. by rewrite frames_wire_cons, app_assoc.
Qed.

Lemma node_sends_evidence es flags count c sent stream :
  length flags = length es -> ready c sent (frames_wire (map answer_frame flags) ++ stream) -> Forall evidence_sendable es ->
  exists c', send_evidence es count c = NodeSent (count + Z.of_nat (length es)) c' /\
    ready c' (sent ++ frames_wire (map evidence_frame es)) stream.
Proof.
  revert flags count c sent. induction es as [| e es IH]; intros flags count c sent Hl Hc Hes.
  { destruct flags; [| done]. exists c. cbn. rewrite app_nil_r, Z.add_0_r. by split. }
  destruct flags as [| flag flags]; [done |]. injection Hl as Hl.
  apply Forall_cons_1 in Hes as [[_ Hp] Hes]. cbn [send_evidence].
  cbn [map] in Hc. unfold answer_frame at 1 in Hc. rewrite frames_wire_cons, <- app_assoc in Hc.
  destruct (ready_send c sent _ EvidenceFrame _ Hc Hp) as (c1 & -> & Hc1). cbn [ok].
  destruct (ready_receive c1 _ Ack _ _ Hc1 (answer_payload flag)) as (c2 & -> & Hc2).
  destruct (IH flags (count + 1) c2 _ Hl Hc2 Hes) as (c3 & E & Hc3). exists c3. split.
  - rewrite E. f_equal. cbn [length]. lia.
  - cbn [map]. unfold evidence_frame at 1. by rewrite frames_wire_cons, app_assoc.
Qed.

Lemma node_runs f flags c stream :
  length flags = length (lab_evidence f) -> ready c [] (frames_wire (map answer_frame flags) ++ stream) ->
  Forall source_sendable (lab_sources f) -> Forall evidence_sendable (lab_evidence f) ->
  exists c', ready c' (frames_wire (node_frames f)) stream /\
    (node_stream f c).2 = c' /\
    forall p, (node_stream f c).1 p = Some (0, printed ["sent " +:+ to_string (Z.of_nat (length (lab_evidence f))) +:+
      " evidence frame(s)" +:+ newline] p).
Proof.
  intros Hl Hc Hds Hes. destruct (node_sends_sources _ c [] _ Hc Hds) as (c1 & E1 & Hc1).
  destruct (node_sends_evidence _ flags 0 c1 _ stream Hl Hc1 Hes) as (c2 & E2 & Hc2).
  assert (payload_ok []) as Hnil by (split; [constructor | by vm_compute]).
  destruct (ready_send c2 _ stream Bye [] Hc2 Hnil) as (c3 & E3 & Hc3).
  exists c3. unfold node_stream. rewrite E1. cbn [ok]. rewrite E2, E3. cbn [ok fst snd]. split_and!; [| done | done].
  unfold node_frames. rewrite !frames_wire_app. cbn [app] in Hc3. rewrite <- app_assoc in Hc3. exact Hc3.
Qed.

(** ** Every fabric of the node can be sent *)

Lemma length_put_text s : length (put_text s) = (4 + String.length s)%nat.
Proof. unfold put_text, put_bytes, put_u32. by rewrite length_app, length_le_bytes, length_string_bytes. Qed.

Lemma length_put_hop h : length (put_hop h) = 45%nat.
Proof. unfold put_hop. rewrite !length_app. unfold put_u32, put_id, put_u64, put_u8, put_time, put_i64. by rewrite !length_le_bytes. Qed.

Lemma length_put_hops l : length (put_seq put_hop l) = (4 + 45 * length l)%nat.
Proof.
  unfold put_seq, put_count, put_u32. rewrite length_app, length_le_bytes.
  f_equal. induction l as [| h l IH]; [done |]. cbn [flat_map length]. rewrite length_app, IH, length_put_hop. lia.
Qed.

(** The length of a record is its fixed part and its texts and hops. *)
Lemma length_encode_evidence e :
  length (id_bytes (ev_id e)) = kDigestIdBytes -> length (bytes_ (ev_payload_digest e)) = kDigestBytes ->
  (length (encode_evidence e) <= 300 + String.length (ev_note e) + 45 * length (ev_hops e))%nat.
Proof.
  intros Hid Hd. unfold encode_evidence, put_digest_id, put_digest, put_maybe, put_boolean, put_u8, put_id, put_time, put_i64, put_u64, put_bytes, put_u32.
  repeat (rewrite length_app || rewrite length_put_hops || rewrite length_put_text || rewrite length_le_bytes || rewrite Hid || rewrite Hd).
  unfold kDigestIdBytes, kDigestBytes. cbn [length String.length]. lia.
Qed.

(** The numbers of the options fit their members. *)
Definition lab_options_wide (options : LabOptions) : Prop :=
  lab_options_ok options /\ u_ok 64 (lab_incarnation options) /\ u_ok 64 (lab_topology_generation options) /\
  u_ok 64 (observer_source_id options) /\ u_ok 64 (planning_source_id options).

Lemma node_lab_options_wide o : lab_options_wide (node_lab_options o).
Proof.
  split; [apply node_lab_options_range |]. unfold node_lab_options.
  cbn [lab_incarnation lab_topology_generation observer_source_id planning_source_id default_lab_options].
  split_and!; first [by apply number_range | by unfold u_ok].
Qed.

(** Observations state a plan that states an epoch, a revision and sequences. *)
Definition lab_states_all (options : LabOptions) : Prop :=
  lab_epoch options <> 0 /\ lab_revision options <> 0 /\ first_sequence options <> 0 /\
  first_sequence options + evidence_count options <= 2 ^ 64 /\ is_set (lab_observed options) = true.

Section Sendable.
Context (options : LabOptions) (f : LabFabric).
Hypothesis (options_wide : lab_options_wide options) (built : build_lab_fabric options default_limits = Ok f).

Lemma lab_hops_bound : 2 <= hop_count options <= 512.
Proof.
  destruct (build_inv _ _ _ built) as (Ho & _). apply check_options_inv in Ho as (Hh & _). exact Hh.
Qed.

Lemma lab_sources_sendable : Forall source_sendable (lab_sources f).
Proof.
  destruct options_wide as (_ & _ & _ & Hobs & Hplan).
  destruct (build_inv _ _ _ built) as (_ & Hp & Hv & _ & _ & -> & _).
  assert (forall d, source_validate d = ok -> id_ok (source_id d) -> text_ok (max_string_bytes default_limits) (source_name d) ->
    max_observation_age d = 0 -> clock_skew_tolerance d = 0 -> source_sendable d) as Hd.
  { intros d H1 H2 [H3 H3'] H4 H5. split; [split_and!; [exact H2 | by split | by rewrite H4 | by rewrite H5 | exact H1] |]. split; [apply encode_source_bytes |].
    unfold encode_source, put_id, put_u64, put_i64, put_u64, put_boolean, put_u8.
    repeat (rewrite length_app || rewrite length_put_text || rewrite length_le_bytes).
    rewrite length_string_bytes in H3'. change (max_string_bytes default_limits) with 1048576 in H3'.
    change (max_frame_bytes default_limits) with 8388608. cbn [length String.length]. lia. }
  assert (forall s, (String.length s <= 64)%nat -> text_ok (max_string_bytes default_limits) s) as Ht.
  { intros s Hs. unfold text_ok, len32. rewrite length_string_bytes. split; [lia |].
    change (max_string_bytes default_limits) with 1048576. lia. }
  apply Forall_cons; split; [| apply Forall_singleton].
  - apply Hd; [exact Hp | exact Hplan | apply Ht; cbn; lia | reflexivity | reflexivity].
  - apply Hd; [exact Hv | exact Hobs | apply Ht; cbn; lia | reflexivity | reflexivity].
Qed.

Lemma device_for_range member position n : 0 <= member < 2 ^ 32 -> 0 <= position < 2 ^ 32 ->
  0 <= value (device_for member position n) < 2 ^ 40.
Proof.
  intros Hm Hp. unfold device_for, kFirstDevice, kLastDevice, kMiddleDeviceBase. repeat case_match; cbn [value]; lia.
Qed.

Lemma lab_hop_repr position : 0 <= position < 2 ^ 32 -> hop_repr (lab_observed_hop options position).
Proof.
  intros Hp. assert (0 <= value (observed_device options position) < 2 ^ 40) as Hd.
  { unfold observed_device. case_match; [unfold divergent_device_id, kDivergentDevice; cbn [value]; lia | apply device_for_range; lia]. }
  unfold hop_repr, lab_observed_hop, id_ok, u_ok. cbn [oh_index oh_device oh_ingress oh_egress oh_link oh_at].
  unfold ingress_for, egress_for, link_for, kLinkBase. cbn [value]. split_and!; try lia; try (case_match; cbn [value id_none]; lia).
  split; by vm_compute.
Qed.

Lemma lab_trace_repr : Forall hop_repr (lab_trace options) /\ (length (lab_trace options) <= 512)%nat.
Proof.
  pose proof lab_hops_bound as Hh. unfold lab_trace. destruct (empty_trace options); [split; [constructor | cbn; lia] |].
  pose proof (trace_length_eq options ltac:(lia)) as Hl. split.
  - apply Forall_map, Forall_elem. intros position Hp%counter_elem. apply lab_hop_repr. destruct (partial options); lia.
  - rewrite length_map, counter_length. destruct (partial options); lia.
Qed.

Lemma lab_evidence_sendable : lab_states_all options -> Forall evidence_sendable (lab_evidence f).
Proof.
  intros (He & Hr & Hs & Hsum & Hset).
  destruct options_wide as ((Uh & Um & Uc & Ue & Urev & Ug & Us) & Uinc & Utop & Uobs & _).
  destruct (build_inv _ _ _ built) as (Ho & _ & Hv & Ht & _ & _ & -> & -> & _).
  pose proof (lp_id _ _ (build_plan _ _ _ built)) as Eid.
  destruct (unfinished_topology_header options) as (U1 & _ & U3).
  destruct (finalized_topology_header _ _ _ Ht) as (E1 & _ & E3).
  destruct lab_trace_repr as [Htr Hlen]. pose proof lab_hops_bound as Hh.
  apply Forall_map, Forall_elem. intros index Hi%counter_elem.
  set (e := lab_evidence_of options (lab_topology f) (lab_routes f) (lab_path_id 0) index).
  assert (wrap_u 64 (first_sequence options + index) <> 0) as Hseq.
  { unfold u_ok in *. rewrite wrap_u_mod by lia. rewrite Z.mod_small by lia. lia. }
  assert (length (id_bytes (ev_id e)) = kDigestIdBytes) as Hid by apply from_digest_length.
  split; [split_and! |].
  - unfold evidence_repr, id_ok, e, lab_evidence_of, seal, unsealed_evidence.
    cbn [with_identity ev_source ev_incarnation ev_sequence ev_path ev_group ev_origin ev_destination ev_epoch
      ev_claimed_incarnation ev_route_generation ev_topology_generation ev_revision ev_observed_at ev_payload_digest
      ev_note ev_hops maybe_value lab_path_group group_id group_origin group_destination].
    rewrite E3, U3, E1, U1, Eid. unfold len32.
    split_and!; cbn [value observer_source source_id lab_path_id lab_group_id]; try assumption; try (by apply wrap_u_range);
      try (unfold u_ok; lia).
    + by vm_compute.
    + pose proof (device_for_range 0 0 (hop_count options) ltac:(lia) ltac:(lia)). unfold u_ok. lia.
    + pose proof (device_for_range 0 (hop_count options - 1) (hop_count options) ltac:(lia) ltac:(lia)). unfold u_ok. lia.
    + destruct (unknown_generation options); [by apply wrap_u_range | assumption].
    + apply wrap_i64_range.
    + done.
    + by vm_compute.
  - apply wrap_i64_range.
  - apply (lab_evidence_valid options default_limits); try done.
    by eapply topology_finalize_again.
  - done.
  - split; [apply encode_evidence_bytes; [apply Forall_take, digest_of_ok |]; apply Forall_replicate; unfold byte_ok; lia |].
    pose proof (length_encode_evidence e Hid eq_refl) as Hb.
    change (ev_hops e) with (lab_trace options) in Hb. change (String.length (ev_note e)) with 22%nat in Hb.
    change (max_frame_bytes default_limits) with 8388608. lia.
Qed.
End Sendable.

(** ** The conversation *)

(** A stream of the node is at least as long as the number of its frames. *)
Lemma frames_wire_long frames : (length frames <= length (frames_wire frames))%nat.
Proof.
  induction frames as [| [t payload] frames IH]; [done |]. rewrite frames_wire_cons, length_app, length_encode_frame.
  cbn [length]. unfold kFrameHeaderBytes. lia.
Qed.

Lemma deliver_answers f r : length (deliver f r).1 = length (lab_evidence f).
Proof.
  assert (forall es r, length (ingest_each es r).1 = length es) as H.
  { induction es as [| e es IH]; intros r0; [done |]. cbn [ingest_each]. unfold run_bind.
    destruct (ingest_evidence e r0) as [x r1]. specialize (IH r1). destruct (ingest_each es r1) as [flags r2].
    cbn in *. by rewrite IH. }
  unfold deliver, run_bind. destruct (register_each _ r) as [u r1]. apply H.
Qed.

(** C8. The node and the service understand each other.  For every command line of
    the node whose fabric is built and states an epoch, a revision, sequences that
    are not zero and do not wrap, and a time of observation ([lab_states_all]), and
    on channels that are open, take everything and bring what the other end sends,
    however the system cuts it: the service reads what the node sends to the end,
    and its runtime becomes the one in which the sources were registered and the
    evidence was ingested directly, in order; the node reads one answer for every
    record, the one the runtime gave, and ends with success; and each of the two
    has sent exactly what the other has read.  Without those statements the service
    answers nothing to the evidence ([bad_evidence_is_not_answered]). *)
Theorem node_and_service_agree (o : Options) (f : LabFabric) (r : Runtime) (p q : Process)
    (node service : FramedChannel) (rest : list Z) :
  build_lab_fabric (node_lab_options o) default_limits = Ok f -> lab_states_all (node_lab_options o) ->
  rt_world r = pr_world p ->
  ready service [] (frames_wire (node_frames f) ++ rest) ->
  ready node [] (frames_wire (map answer_frame (deliver f r).1)) ->
  (exists service', serve_frames (serve_fuel service) service r p =
      Some (Ends service' (deliver f r).2, set_files (rt_world (deliver f r).2) p) /\
    sk_sent (ch_socket service') = frames_wire (map answer_frame (deliver f r).1) /\
    sk_stream (ch_socket service') = rest) /\
  sk_sent (ch_socket (node_stream f node).2) = frames_wire (node_frames f) /\
  sk_stream (ch_socket (node_stream f node).2) = [] /\
  (node_stream f node).1 q = Some (0, printed ["sent " +:+ to_string (Z.of_nat (length (lab_evidence f))) +:+
    " evidence frame(s)" +:+ newline] q).
Proof.
  intros Hb Hall Hw Hs Hn. pose proof (node_lab_options_wide o) as Hwide.
  pose proof (lab_sources_sendable _ f Hwide Hb) as Hds. pose proof (lab_evidence_sendable _ f Hwide Hb Hall) as Hes.
  split.
  - assert (exists extra, serve_fuel service = (length (lab_sources f) + (length (lab_evidence f) + S extra))%nat) as [extra Ef].
    { pose proof (frames_wire_long (node_frames f)) as Hl. unfold node_frames in Hl at 1.
      rewrite !length_app, !length_map in Hl. cbn [length] in Hl. unfold serve_fuel. rewrite (rd_stream _ _ _ Hs), length_app.
      exists (length (frames_wire (node_frames f)) + length rest - (length (lab_sources f) + length (lab_evidence f)))%nat. lia. }
    rewrite Ef. destruct (serve_node f extra service r p rest Hs Hds Hes Hw) as (c' & E & Hc').
    exists c'. split_and!; [exact E | apply (rd_sent _ _ _ Hc') | apply (rd_stream _ _ _ Hc')].
  - rewrite <- (app_nil_r (frames_wire (map _ _))) in Hn.
    destruct (node_runs f _ node [] (deliver_answers f r) Hn Hds Hes) as (c' & Hc' & E & Hp). rewrite E.
    split_and!; [apply (rd_sent _ _ _ Hc') | apply (rd_stream _ _ _ Hc') | apply Hp].
Qed.
