(* ===== verification/ToolDemo.v ===== *)
(** The tools on concrete command lines: the theorems of [ToolProps], [ToolCompare]
    and [NodeProps] applied, and what the tools do at some edges. *)
From stdpp Require Import gmap sets.
From S2P Require Import Prelude Errors StdAlgo Digest Canonical Ids TimeModel Limits Source Topology Observed Expected Freshness Divergence Compare CompareProps Finding History Codec Persistence StoreFiles PersistenceProps Metrics Worker RuntimeState Runtime RuntimeProps RuntimeDemo RuntimePolicy RuntimeRestart Json DocumentRead DocumentWrite Transport Sockets Server Version Synthetic SyntheticProps ToolOptions Tool ToolProps ToolCompare NodeTool NodeProps.
#[local] Open Scope pathobs_scope.
#[local] Open Scope string_scope.
#[local] Open Scope list_scope.
#[local] Open Scope Z_scope.

(** A process at rest: one file, no socket, a system that answers every call with
    success. *)
Definition idle_world : World := mk_world {[ "notes" := ([1; 2; 3], 0%nat) ]} [] "".
Definition idle : Process := mk_process idle_world (mk_net ∅ 0 [] [] [] false 0) [] [].

(** The exit code and what was printed on either stream. *)
Definition ran {A} (x : option (A * Process)) : option (A * list string * list string) :=
  match x with Some (a, p) => Some (a, pr_out p, pr_err p) | None => None end.

(** ** compare *)

Definition defect_options : Options := parse_options ["--hops"; "2"; "--stale-epoch"] ∅.

Lemma compare_never_hides_defect_witness :
  exists code p' results, command_compare defect_options false idle = Some (code, p') /\
    pr_world p' = pr_world idle /\ pr_net p' = pr_net idle /\
    pr_out p' = pr_out idle ++ result_lines (has defect_options "pretty") false results /\
    Forall (fun r => cr_outcome r = Match -> lab_defect (lab_options defect_options) = false) results.
Proof. apply compare_never_hides_defect. by vm_compute. Defined.

(** It does print a verdict. *)
Example defect_is_reported :
  lab_defect (lab_options defect_options) = true /\
  match ran (main (mk_build None true false) ["compare"; "--hops"; "2"; "--stale-epoch"] idle) with
  | Some (0, [line], []) => True
  | _ => False
  end.
Proof. split; [reflexivity |]. vm_compute. exact I. Qed.

(** ** serve *)

Definition service_options : Options := parse_options ["--count=1"] ∅.

Lemma service_results_indefinite_witness :
  exists code p', command_serve service_options idle = Some (code, p') /\
    net_open (pr_net p') = net_open (pr_net idle).
Proof.
  destruct (service_results_indefinite service_options idle) as [Htotal Hall].
  destruct (Htotal eq_refl) as (code & p' & E). exists code, p'. split; [exact E |].
  exact (proj1 (Hall code p' E)).
Defined.

Lemma sockets_lose_no_descriptor_witness :
  let (h, n) := listen_loopback 0 8 (pr_net idle) in
  net_open n = {[0%nat]} ∪ ∅ /\ net_open (handle_close (Some 0%nat) n).2 = ∅.
Proof.
  destruct (sockets_lose_no_descriptor (pr_net idle) (Some 0%nat) 0 8) as ((Hl & _) & _ & Hc).
  destruct (listen_loopback 0 8 (pr_net idle)) as [h n] eqn:E. cbn [fst snd] in Hl.
  assert (h = Ok (Some 0%nat)) as Hh by (change h with (h, n).1; rewrite <- E; vm_compute; reflexivity).
  split; [| exact (Hc h n 0%nat Hl Hh)]. destruct Hl as [Ho _ _ _]. rewrite Hh in Ho. apply Ho.
Defined.

(** ** history, validate, export *)

(** The files after a source was stored. *)
Definition stored_process : Process :=
  mk_process (rt_world disk_registered) (mk_net ∅ 0 [] [] [] false 0) [] [].

Definition stored_options : Options := parse_options ["--store=paths.store"; "--out"; "copy.json"] ∅.

Lemma reading_commands_keep_files_witness :
  match command_export stored_options stored_process, command_validate stored_options stored_process with
  | Some (code, p'), Some (code2, p2) =>
      code = 0 /\ code2 = 0 /\ files_kept (Some "copy.json") (pr_world stored_process) (pr_world p') /\
      files_kept None (pr_world stored_process) (pr_world p2)
  | _, _ => False
  end.
Proof.
  assert (match command_export stored_options stored_process, command_validate stored_options stored_process with
    | Some (code, _), Some (code2, _) => (code =? 0) && (code2 =? 0) | _, _ => false end = true) as H
    by (vm_compute; reflexivity).
  destruct (command_export stored_options stored_process) as [[code p'] |] eqn:E; [| discriminate H].
  destruct (command_validate stored_options stored_process) as [[code2 p2] |] eqn:E2; [| discriminate H].
  apply andb_true_iff in H as [H1%Z.eqb_eq H2%Z.eqb_eq]. split_and!; [exact H1 | exact H2 | |].
  - exact (proj2 (proj2 (reading_commands_keep_files stored_options stored_process p' code)) E).
  - exact (proj1 (proj2 (reading_commands_keep_files stored_options stored_process p2 code2)) E2).
Defined.

(** What [export] writes begins with two braces: the report of the recovery is an
    object of its own, without a key, so that the text is not a document. *)
Definition exported : option string :=
  match command_export (parse_options ["--store=paths.store"] ∅) stored_process with
  | Some (_, p') => head (pr_out p')
  | None => None
  end.

Example export_is_not_a_document :
  match exported with
  | Some text => match parse default_limits text with Got _ => false | _ => String.prefix "{{" text end
  | None => false
  end = true.
Proof. vm_compute. reflexivity. Qed.

(** ** The node *)

(** A channel whose other end has said [stream] and takes everything. *)
Definition told (stream : list Z) : FramedChannel :=
  mk_channel (mk_socket true stream [] false true [] [] 0 "") default_limits.

Definition node_demo_options : Options := parse_options ["--hops=2"; "--evidence-count=1"] ∅.

Lemma told_ready stream : ready (told stream) [] stream.
Proof. by split; [split_and! | ..]. Qed.

Lemma node_and_service_agree_witness :
  match build_lab_fabric (node_lab_options node_demo_options) default_limits with
  | Err _ => False
  | Ok f =>
      let service := told (frames_wire (node_frames f)) in
      let node := told (frames_wire (map answer_frame (deliver f demo_started).1)) in
      let p := set_files (rt_world demo_started) idle in
      (exists service', serve_frames (serve_fuel service) service demo_started p =
          Some (Ends service' (deliver f demo_started).2, set_files (rt_world (deliver f demo_started).2) p) /\
        sk_sent (ch_socket service') = frames_wire (map answer_frame (deliver f demo_started).1) /\
        sk_stream (ch_socket service') = []) /\
      (node_stream f node).1 idle = Some (0, printed ["sent " +:+ to_string (Z.of_nat (length (lab_evidence f))) +:+
        " evidence frame(s)" +:+ newline] idle)
  end.
Proof.
  destruct (build_lab_fabric (node_lab_options node_demo_options) default_limits) as [f | e] eqn:E.
  2:{ assert (has_value (build_lab_fabric (node_lab_options node_demo_options) default_limits) = true) as H by (vm_compute; reflexivity).
      rewrite E in H. discriminate H. }
  cbv zeta.
  destruct (node_and_service_agree node_demo_options f demo_started (set_files (rt_world demo_started) idle) idle
    (told (frames_wire (map answer_frame (deliver f demo_started).1))) (told (frames_wire (node_frames f))) [])
    as (Hs & _ & _ & Hn).
  - exact E.
  - split_and!; by vm_compute.
  - reflexivity.
  - rewrite app_nil_r. apply told_ready.
  - apply told_ready.
  - split; [exact Hs | exact Hn].
Defined.

Definition unsent_options : Options := parse_options ["--hops=2"; "--evidence-count=1"; "--first-sequence=0"] ∅.

(** Evidence that states no sequence is not answered, and the node would wait. *)
Example bad_evidence_is_not_answered :
  match build_lab_fabric (node_lab_options unsent_options) default_limits with
  | Err _ => None
  | Ok f =>
      let service := told (frames_wire (node_frames f)) in
      match serve_frames (serve_fuel service) service demo_started (set_files (rt_world demo_started) idle) with
      | Some (Ends c r, p) => Some (length (lab_evidence f), sk_sent (ch_socket c), length (pr_err p))
      | _ => None
      end
  end = Some (1%nat, [], 1%nat).
Proof. vm_compute. reflexivity. Qed.
